(* ===== verification/_CoqProject ===== *)
-Q . S2P
Prelude.v
RustStd.v
Externals.v
Kube.v
Errors.v
Api.v
Management.v
Ownership.v
Foundation.v
Effects.v
Docker.v
Allocation.v
ReconcileErrors.v
Sanitize.v
Readiness.v
Ops.v
Status.v
AllocationRun.v
Finalize.v
FinalizeSafety.v
AllocationSystem.v
AllocationTable.v
Catalog.v
Reconcile.v
CatalogSafety.v
CatalogSystem.v
CatalogDrain.v
ReconcileReport.v
Gate.v
Leadership.v
LeaderRun.v
AzureAllocation.v
Activation.v
Requests.v
Manifests.v
Bundles.v
Bootstrap.v
TenantClient.v
TenantObjects.v
Workers.v
LocalTenant.v
LocalRequests.v
LocalTenantSafety.v
WorkerInventory.v
LocalCreation.v
LocalAgreement.v
Permissions.v
DatabaseApi.v
AdminTypes.v
Paths.v
AdminView.v
CatalogOps.v
AdminCatalog.v
DatabaseStatus.v
DatabaseResources.v
TenantAccess.v
AzureConfig.v
AzureRuntime.v
DatabaseRun.v
DatabaseSteps.v
DatabaseProvider.v
LocalDatabase.v
AzureDatabase.v
CatalogWriters.v
DatabaseSafety.v
ProviderSafety.v
LocalSafety.v
AzureSafety.v
CatalogEntries.v
CatalogEvidence.v
CatalogStatuses.v
LocalPath.v
LocalPathSafety.v
