(* ===== verification/Prelude.v ===== *)
(** * Verification of the hosted-Tenant controllers

    The program manages hosted Kubernetes Tenants on one management cluster.
    The Tenant controller ([src/controller]) reconciles [Tenant] objects: it
    claims a network slot by a Lease, creates and observes the objects of the
    hosted cluster, and tears them down in order when the Tenant is deleted.
    For each Tenant it creates one database catalog, a [TenantDatabaseCatalog]
    object ([src/database-runtime] has the shared code).  The database
    controller ([src/database-controller]) reconciles the entries of the
    catalog.  The administration server ([src/admin/server]) shows Tenants and
    catalogs and adds and deletes databases and Tenants.  The parts interact
    only through objects of the API server, each changed by conditional writes
    (a UID and a resourceVersion), so the theorems are about what each part
    sends after what it read, and about all interleavings of the parts.

    ** Modelling

    Pure functions are Rocq functions with the source's names; fallible ones
    return [result].  Asynchronous code is a program tree ([Effects.prog]) over
    requests ([Ops], [CatalogOps], [LeaderRun], [Docker], [LocalPath]) whose replies are
    arbitrary: [wp] quantifies over all of them and [wp_run] transfers it to
    executions.  The systems ([AllocationSystem], [CatalogSystem],
    [CatalogEntries], [Gate]) are step relations in which any number of such
    programs run request by request, with refused, delayed and unanswered
    requests.  64-bit and 32-bit values keep their bounds where the source
    converts or may overflow; strings are byte strings.  Third-party code
    ([ipnet], [sha2], [serde_json], the API server's merge of status patches,
    [tokio]'s [Notify], the providers of the Tenant reconciler) is a type class
    of operations with a class of laws, and each theorem that needs the laws
    has a witness over a concrete instance.

    ** Files

    - [Prelude], [RustStd], [Externals], [Kube], [Effects]: results, options and
      lists with Rust's names, automation and hint databases; the standard
      library; third-party interfaces; Kubernetes objects; programs, [wp], and
      [within] for programs that only send requests of a given set.
    - [Errors], [ReconcileErrors], [ReconcileReport]: [error.rs],
      [reconcile/error.rs]: error classes, requeue delays, and what the status
      says after a failed reconciliation ([failed_reconcile_reported]).
    - [Api], [Management], [Readiness], [Status]: [api.rs], [resources/
      management.rs], [readiness.rs], [status.rs]: the Tenant resource against
      its CRD ([canonical_spec_matches_crd]), conditions
      and phase, optimistic status updates
      ([update_status_optimistic]).
    - [Ownership], [Foundation], [Docker], [Sanitize]: [ownership.rs]
      (termination and exactness of the owner-chain walk,
      [validate_owner_chain_correct]), [foundation.rs] (a safe address plan,
      [validate_creation_address_plan]; the binding to a published checksum,
      [parse_runtime_bound]), [docker.rs] ([docker_client_safe]), and the
      redaction of texts and JSON ([sanitize_noninterference]).
    - [Allocation], [AllocationRun], [AllocationSystem], [AllocationTable]:
      [allocation.rs]: decisions, the two operations against any server
      ([allocate_safe], [release_safe]), mutual exclusion of slots between
      concurrent controllers ([slots_exclusive]), and the refinement of an
      atomic lock table ([allocation_refines_table]).
    - [AzureAllocation]: [azure_allocation.rs]: the catalog of networks, claim
      and release ([azure_claim_isolated], [azure_release_safe],
      [document_validate_exact]).
    - [Finalize], [FinalizeSafety]: [reconcile/finalize.rs]: one justified
      mutation per reconciliation of a deleting Tenant
      ([finalize_fail_closed]), and completion ([finalize_completes]).
    - [Catalog], [Reconcile], [CatalogSafety], [CatalogSystem], [CatalogDrain]:
      [catalog_runtime.rs] and [reconcile/mod.rs]: the protocol that creates a
      catalog at most once and drains it, for every provider that keeps to it
      ([drain_never_races_create], [catalog_created_once],
      [drain_catalog_exact]).
    - [Gate], [Leadership], [LeaderRun]: [runtime.rs]: the gate of work permits
      with its wake-ups ([gate_drain_exclusive], [gate_no_lost_wakeup]), the
      Lease monitor ([retired_before_expiry]) and the leader-elected process
      ([run_leader_elected_safe]), with the drops of a cancelled future.
    - [Manifests], [Bundles], [Bootstrap]: [resources/]: the objects of a local
      Tenant, the vendored network and database bundles
      ([network_bundle_exact]) and the commands a worker runs before it joins
      ([bootstrap_commands_exact], against a model of POSIX quoting).
    - [TenantClient], [TenantObjects], [Workers], [WorkerInventory]:
      [tenant_client.rs], [reconcile/objects.rs], [reconcile/workers.rs]: the
      strict check of a Tenant's kubeconfig, reading, creating and repairing
      objects, and the inventory of workers ([observe_workers_exact]).
    - [Requests], [LocalTenant], [LocalRequests], [LocalTenantSafety],
      [LocalCreation], [LocalAgreement]: [reconcile/local.rs]: the creation path
      of local Tenants; which requests it sends; that the provider keeps to the
      catalog protocol (an instance of the interface of [CatalogSafety], so its
      theorems hold of the real provider, [reconcile_follows_protocol]); what guards every creation
      ([local_creation_guarded]); when a Tenant is ready
      ([local_ready_grounded]); and that finalization looks for what creation
      made ([finalizer_recognises_creation], with the one exception that
      [clashing_label_refused] shows).
    - [Activation], [Permissions]: [activation.rs] ([activation_guarded]) and
      [permissions.rs] ([requests_granted]: the programs send only what the
      generated roles allow).
    - [DatabaseApi], [CatalogOps], [DatabaseStatus]: [database-controller/src]
      [api.rs], [reconcile.rs], [status.rs]: entries, transitions against the
      CRD ([validate_transition_matches_crd]), identity checks, the observer
      receipt and the conditional writes.
    - [Paths], [DatabaseResources], [TenantAccess], [AzureConfig],
      [AzureRuntime]: [std::path] as far as used, [ownership.rs],
      [resources/cnpg.rs], [tenant_access.rs] of the database controller,
      [controller/src/azure.rs] (the provider configuration) and
      [database-runtime/src/azure_runtime.rs].
    - [DatabaseRun], [DatabaseSteps], [DatabaseProvider], [LocalDatabase],
      [AzureDatabase]: [reconcile/local.rs], [reconcile/azure.rs] and
      [finalize]: what one database needs, over a small monad with the catalog
      and the status in memory; the steps both providers share; the loop over
      the entries; the two providers.
    - [DatabaseSafety], [ProviderSafety], [LocalSafety], [AzureSafety]: rules
      for these programs, a contract between the loop and a provider, and what
      the providers may send ([local_requests_guarded],
      [azure_requests_guarded]).
    - [LocalPath], [LocalPathSafety]: [local_path.rs] as programs over system
      calls that answer arbitrarily: what is removed and made
      ([path_remove_confined], [path_prepare_confined]), and termination of
      the walks through a tree ([trees_terminate]).
    - [AdminTypes], [AdminView], [AdminCatalog]: [admin/shared] and
      [admin/server/src/source/catalog.rs]: the view of a catalog
      ([project_faithful]), additions and deletions of databases, deletion of
      Tenants.
    - [CatalogWriters], [CatalogEntries], [CatalogEvidence],
      [CatalogStatuses]: what the writers
      of a catalog send ([mutations_guarded]), the life of an entry under all
      interleavings of the administration server and of the database controller
      with its two providers ([entries_never_lost]), what was observed
      before an entry disappears ([entries_removed_only_gone]), and which
      statuses are recorded ([stored_statuses_valid]).

    ** Bounds and fuel

    Loops that the source bounds keep its bounds: [allocate] makes one attempt
    per slot and one more, [mutate_status] retries four times, [add], [delete]
    and [delete_exact_tenant] make three attempts.  The owner-chain walk gets
    the length of the inventory plus two as fuel; [validate_owner_chain_correct]
    shows that this is enough for every inventory, as each step visits a new
    UID.  Redaction descends nine levels, the source's own limit, and its text
    scan has the length of the text as fuel, which each step shortens.  Walks
    through a directory tree get the levels left below the source's own limit of
    256 as fuel, which [trees_terminate] shows to be enough.  The leader-elected process is run for any number of turns.

    ** Not modelled

    The reconciliation and finalization of Azure Tenants, the projections of watched objects, SQL queries and HTTP routes of the
    administration server, and the browser client.  Process
    start-up, TLS and signal handling are I/O around libraries.  The Python
    scripts under [src/scripts] drive external tools and are not part of the
    controllers. *)

From Stdlib Require String.
From Stdlib Require Export ZArith Ascii Lia ZifyBool ZifyN ZifyNat.
From stdpp Require Export base gmap strings list numbers.

#[global] Open Scope list_scope.
#[global] Open Scope stdpp_scope.

(** ** Results

    Rust's [Result<A, E>], error type first so that [result E] is a monad. *)
Inductive result (E A : Type) : Type :=
| Ok (a : A)
| Err (e : E).
Arguments Ok {E A} a.
Arguments Err {E A} e.

#[export] Instance result_eq_dec `{EqDecision E, EqDecision A} : EqDecision (result E A).
Proof. solve_decision. Defined.

Declare Scope rust_scope.
Delimit Scope rust_scope with rust.
#[global] Open Scope rust_scope.

(** [let! x := r in k] is [let x = r?; k]. *)
Notation "'let!' x ':=' r 'in' k" :=
  (match r with Ok x => k | Err e => Err e end)
  (at level 10, x pattern, r at level 100, k at level 200,
   format "'let!'  x  ':='  r  'in' '//' k") : rust_scope.

Notation "a == b" := (bool_decide (a = b)) (at level 70, no associativity) : rust_scope.
Notation "a != b" := (negb (bool_decide (a = b))) (at level 70, no associativity) : rust_scope.

Definition is_ok {E A} (r : result E A) : bool := match r with Ok _ => true | Err _ => false end.
Definition is_err {E A} (r : result E A) : bool := negb (is_ok r).

Definition is_ok_and {E A} (f : A → bool) (r : result E A) : bool :=
  match r with Ok a => f a | Err _ => false end.

Definition map_err {E F A} (f : E → F) (r : result E A) : result F A :=
  match r with Ok a => Ok a | Err e => Err (f e) end.

Definition ok_or {E A} (o : option A) (e : E) : result E A :=
  match o with Some a => Ok a | None => Err e end.

(** ** Options, with the names of Rust's [Option] *)
Definition is_some {A} (o : option A) : bool := match o with Some _ => true | None => false end.
Definition is_none {A} (o : option A) : bool := negb (is_some o).
Definition is_some_and {A} (f : A → bool) (o : option A) : bool :=
  match o with Some a => f a | None => false end.
Definition is_none_or {A} (f : A → bool) (o : option A) : bool :=
  match o with Some a => f a | None => true end.
Definition unwrap_or {A} (d : A) (o : option A) : A := match o with Some a => a | None => d end.
Definition opt_filter {A} (f : A → bool) (o : option A) : option A :=
  match o with Some a => if f a then Some a else None | None => None end.
Definition and_then {A B} (f : A → option B) (o : option A) : option B :=
  match o with Some a => f a | None => None end.

(** [Option<Result<A, E>>::transpose] after a [map]. *)
Definition map_transpose {E A B} (f : A → result E B) (o : option A) : result E (option B) :=
  match o with
  | None => Ok None
  | Some a => match f a with Ok b => Ok (Some b) | Err e => Err e end
  end.

(** ** Strings as byte sequences *)
Definition bytes (s : string) : list ascii := String.list_ascii_of_string s.

Definition is_empty (s : string) : bool := match s with EmptyString => true | _ => false end.
Definition non_empty (s : string) : bool := negb (is_empty s).

(** [.filter(|value| !value.is_empty())] *)
Definition filter_non_empty (o : option string) : option string := opt_filter non_empty o.

(** ** Lists, with the names of Rust's iterators *)
Fixpoint any {A} (f : A → bool) (l : list A) : bool :=
  match l with [] => false | x :: l' => f x || any f l' end.
Fixpoint all {A} (f : A → bool) (l : list A) : bool :=
  match l with [] => true | x :: l' => f x && all f l' end.
Fixpoint find_first {A} (f : A → bool) (l : list A) : option A :=
  match l with [] => None | x :: l' => if f x then Some x else find_first f l' end.
Fixpoint filter_list {A} (f : A → bool) (l : list A) : list A :=
  match l with [] => [] | x :: l' => if f x then x :: filter_list f l' else filter_list f l' end.

(** [iter().position(f)] *)
Fixpoint position {A} (f : A → bool) (l : list A) : option nat :=
  match l with
  | [] => None
  | x :: l' => if f x then Some O else option_map S (position f l')
  end.

(** A [for] loop over [l] that threads the accumulator [s] and may return
    early with an error. *)
Fixpoint try_fold {E S A} (f : S → A → result E S) (s : S) (l : list A) : result E S :=
  match l with
  | [] => Ok s
  | x :: l' => let! s' := f s x in try_fold f s' l'
  end.

(** A [for] loop with no accumulator. *)
Fixpoint try_for {E A} (f : A → result E unit) (l : list A) : result E unit :=
  match l with
  | [] => Ok tt
  | x :: l' => let! _ := f x in try_for f l'
  end.

(** [iter().map(f).collect::<Result<Vec<_>, _>>()] *)
Fixpoint try_map {E A B} (f : A → result E B) (l : list A) : result E (list B) :=
  match l with
  | [] => Ok []
  | x :: l' => let! y := f x in let! ys := try_map f l' in Ok (y :: ys)
  end.

(** [into_iter().collect::<BTreeMap<_, _>>()]: a later entry replaces an earlier
    one with the same key. *)
Definition collect_map (l : list (string * string)) : gmap string string :=
  list_to_map (reverse l).

(** ** Automation *)
Create HintDb rust.

Lemma if_same {A} (b : bool) (x : A) : (if b then x else x) = x.
Proof. by destruct b. Qed.

Lemma is_some_and_true {A} (f : A → bool) o :
  is_some_and f o = true ↔ ∃ a, o = Some a ∧ f a = true.
Proof. destruct o; naive_solver. Qed.

Lemma is_none_or_true {A} (f : A → bool) o :
  is_none_or f o = true ↔ ∀ a, o = Some a → f a = true.
Proof. destruct o; naive_solver. Qed.

Lemma is_none_or_false {A} (f : A → bool) o :
  is_none_or f o = false ↔ ∃ a, o = Some a ∧ f a = false.
Proof. destruct o; naive_solver. Qed.

Lemma is_some_and_false {A} (f : A → bool) o :
  is_some_and f o = false ↔ ∀ a, o = Some a → f a = false.
Proof. destruct o; naive_solver. Qed.

Lemma is_ok_and_true {E A} (f : A → bool) (r : result E A) :
  is_ok_and f r = true ↔ ∃ a, r = Ok a ∧ f a = true.
Proof. destruct r; naive_solver. Qed.

Lemma any_true {A} (f : A → bool) l : any f l = true ↔ ∃ x, x ∈ l ∧ f x = true.
Proof.
  induction l as [|y l IH]; simpl; [set_solver|].
  rewrite orb_true_iff, IH. set_solver.
Qed.

Lemma any_false {A} (f : A → bool) l : any f l = false ↔ ∀ x, x ∈ l → f x = false.
Proof.
  induction l as [|y l IH]; simpl; [set_solver|].
  rewrite orb_false_iff, IH. set_solver.
Qed.

Lemma all_true {A} (f : A → bool) l : all f l = true ↔ ∀ x, x ∈ l → f x = true.
Proof.
  induction l as [|y l IH]; simpl; [set_solver|].
  rewrite andb_true_iff, IH. set_solver.
Qed.

Lemma all_false {A} (f : A → bool) l : all f l = false ↔ ∃ x, x ∈ l ∧ f x = false.
Proof.
  induction l as [|y l IH]; simpl; [set_solver|].
  rewrite andb_false_iff, IH. set_solver.
Qed.

Lemma find_first_Some {A} (f : A → bool) l x :
  find_first f l = Some x → x ∈ l ∧ f x = true.
Proof.
  induction l as [|y l IH]; simpl; [done|].
  destruct (f y) eqn:Hy; [intros [= ->]; set_solver|]. intros [??]%IH. set_solver.
Qed.

Lemma find_first_None {A} (f : A → bool) l :
  find_first f l = None ↔ ∀ x, x ∈ l → f x = false.
Proof.
  induction l as [|y l IH]; simpl; [set_solver|].
  destruct (f y) eqn:Hy.
  - split; [done|]. intros H. rewrite H in Hy; set_solver.
  - rewrite IH. set_solver.
Qed.

Lemma elem_of_filter_list {A} (f : A → bool) l x :
  x ∈ filter_list f l ↔ f x = true ∧ x ∈ l.
Proof.
  induction l as [|y l IH]; simpl; [set_solver|].
  destruct (f y) eqn:Hy; rewrite ?elem_of_cons, IH;
    intuition (subst; congruence || auto).
Qed.

Lemma any_app {A} (f : A → bool) l1 l2 : any f (l1 ++ l2) = any f l1 || any f l2.
Proof. induction l1 as [|x l1 IH]; simpl; [done|]. by rewrite IH, orb_assoc. Qed.

Lemma filter_list_app {A} (f : A → bool) l1 l2 :
  filter_list f (l1 ++ l2) = filter_list f l1 ++ filter_list f l2.
Proof. induction l1 as [|x l1 IH]; [done|]. simpl. by destruct (f x); rewrite IH. Qed.

Lemma filter_list_idem {A} (f : A → bool) l : filter_list f (filter_list f l) = filter_list f l.
Proof. induction l as [|x l IH]; [done|]. simpl. destruct (f x) eqn:E; simpl; rewrite ?E; congruence. Qed.

Lemma find_first_skip {A} (f : A → bool) l1 x l2 :
  (∀ y, y ∈ l1 → f y = false) → f x = true → find_first f (l1 ++ x :: l2) = Some x.
Proof.
  intros H1 Hx. induction l1 as [|y l1 IH]; simpl; [by rewrite Hx|].
  rewrite (H1 y) by left. apply IH. intros z Hz. apply H1. by right.
Qed.

Lemma position_Some {A} (f : A → bool) l i :
  position f l = Some i → ∃ x, l !! i = Some x ∧ f x = true ∧ find_first f l = Some x.
Proof.
  revert i. induction l as [|y l IH]; intros i; simpl; [done|].
  destruct (f y) eqn:Hy; [intros [= <-]; eauto|].
  destruct (position f l) as [j|]; [|done]. intros [= <-]. by apply IH.
Qed.

Lemma position_None {A} (f : A → bool) l : position f l = None → find_first f l = None.
Proof.
  induction l as [|y l IH]; simpl; [done|]. destruct (f y); [done|].
  destruct (position f l); [done|]. by rewrite IH.
Qed.

Lemma find_first_insert {A} (f : A → bool) l i x :
  position f l = Some i → f x = true → find_first f (<[i := x]> l) = Some x.
Proof.
  revert i. induction l as [|y l IH]; intros i; simpl; [done|].
  destruct (f y) eqn:Hy.
  - intros [= <-] Hx. simpl. by rewrite Hx.
  - destruct (position f l) as [j|]; [|done]. intros [= <-] Hx. simpl. rewrite Hy. by apply IH.
Qed.

Lemma find_first_insert_other {A} (f g : A → bool) l i x :
  position f l = Some i → g x = false → (∀ y, f y = true → g y = false) →
  find_first g (<[i := x]> l) = find_first g l.
Proof.
  intros Hp Hx Hfg. revert i Hp. induction l as [|y l IH]; intros i; simpl; [done|].
  destruct (f y) eqn:Hy.
  - intros [= <-]. simpl. by rewrite Hx, (Hfg y Hy).
  - destruct (position f l) as [j|]; [|done]. intros [= <-]. simpl. by rewrite (IH j eq_refl).
Qed.

Lemma find_first_app {A} (f : A → bool) l1 l2 :
  find_first f (l1 ++ l2) =
  match find_first f l1 with Some x => Some x | None => find_first f l2 end.
Proof. induction l1 as [|x l1 IH]; simpl; [done|]. by destruct (f x). Qed.

Lemma size_add_le (x : string) (X : gset string) : (size ({[x]} ∪ X) ≤ S (size X))%nat.
Proof.
  destruct (decide (x ∈ X)); [replace ({[x]} ∪ X) with X by set_solver; lia|].
  rewrite size_union, size_singleton by set_solver. lia.
Qed.

Lemma collect_map_lookup l k v :
  NoDup l.*1 → collect_map l !! k = Some v ↔ (k, v) ∈ l.
Proof.
  intros Hnd. unfold collect_map. rewrite <-elem_of_list_to_map, elem_of_reverse; [done|].
  by rewrite (reverse_Permutation l).
Qed.

Lemma collect_map_is_some l k : k ∈ l.*1 → is_Some (collect_map l !! k).
Proof.
  intros H. destruct (collect_map l !! k) eqn:E; [by eexists|]. unfold collect_map in E.
  apply not_elem_of_list_to_map_2 in E. by rewrite fmap_reverse, elem_of_reverse in E.
Qed.

(** Later entries replace earlier ones. *)
Lemma collect_map_fold l : collect_map l = fold_left (λ m e, <[e.1 := e.2]> m) l ∅.
Proof. rewrite <-fold_left_rev_right. unfold collect_map, reverse. by rewrite rev_alt. Qed.
#[global] Opaque collect_map.

Lemma non_empty_true s : non_empty s = true ↔ s ≠ "".
Proof. by destruct s. Qed.

Lemma is_empty_true s : is_empty s = true ↔ s = "".
Proof. by destruct s. Qed.

Lemma is_empty_false s : is_empty s = false ↔ s ≠ "".
Proof. by destruct s. Qed.

Lemma filter_non_empty_Some o s : filter_non_empty o = Some s ↔ o = Some s ∧ s ≠ "".
Proof.
  unfold filter_non_empty, opt_filter. destruct o as [t|]; [|naive_solver].
  destruct (non_empty t) eqn:Ht; [apply non_empty_true in Ht|]; destruct t; naive_solver.
Qed.

Lemma ok_or_Ok {E A} (o : option A) (e : E) a : ok_or o e = Ok a → o = Some a.
Proof. destruct o; cbn; congruence. Qed.

Lemma elem_of_updated {A} (l : list A) i x y : x ∈ <[i := y]> l → x = y ∨ x ∈ l.
Proof.
  intros [j Hj]%list_elem_of_lookup. apply list_lookup_insert_Some in Hj as [(_ & <- & _)|[_ Hj]]; [by left|right].
  by eapply list_elem_of_lookup_2.
Qed.

Lemma try_fold_inv {E S A} (f : S → A → result E S) (P : S → Prop) l s s' :
  (∀ s x s', x ∈ l → P s → f s x = Ok s' → P s') →
  P s → try_fold f s l = Ok s' → P s'.
Proof.
  revert s. induction l as [|x l IH]; intros s Hstep HP H; simplify_eq/=; [done|].
  destruct (f s x) as [s1|] eqn:Hf; [|done].
  eapply (IH s1); [set_solver| |done]. eapply Hstep; [|done..]. set_solver.
Qed.

Lemma try_for_Ok {E A} (f : A → result E unit) l :
  try_for f l = Ok tt ↔ ∀ x, x ∈ l → f x = Ok tt.
Proof.
  induction l as [|x l IH]; simpl; [set_solver|].
  destruct (f x) as [[]|e] eqn:Hf.
  - rewrite IH. set_solver.
  - split; [done|]. intros H. rewrite H in Hf; set_solver.
Qed.

Lemma try_map_Ok {E A B} (f : A → result E B) l ys :
  try_map f l = Ok ys ↔ Forall2 (λ x y, f x = Ok y) l ys.
Proof.
  revert ys. induction l as [|x l IH]; intros ys; simpl.
  - split; [intros [= <-]; constructor | by inversion 1].
  - destruct (f x) as [y|e] eqn:Hf; [|split; [done|inversion 1; congruence]].
    destruct (try_map f l) as [ys'|e] eqn:Hl.
    + split; [intros [= <-]; constructor; [done|by apply IH]|].
      inversion 1 as [|? y' ? l' Hy Hl']; subst. apply IH in Hl'. congruence.
    + split; [done|]. inversion 1 as [|? y' ? l' Hy Hl']; subst.
      apply IH in Hl'. congruence.
Qed.

(** Turns boolean hypotheses into propositions, recursively. *)
Ltac bool_hyp :=
  repeat match goal with
  | H : (_ && _)%bool = true |- _ => apply andb_true_iff in H as [? ?]
  | H : (_ || _)%bool = false |- _ => apply orb_false_iff in H as [? ?]
  | H : negb _ = true |- _ => apply negb_true_iff in H
  | H : negb _ = false |- _ => apply negb_false_iff in H
  | H : bool_decide _ = true |- _ => apply bool_decide_eq_true in H
  | H : bool_decide _ = false |- _ => apply bool_decide_eq_false in H
  | H : is_empty _ = true |- _ => apply is_empty_true in H
  | H : is_empty _ = false |- _ => apply is_empty_false in H
  | H : non_empty _ = true |- _ => apply non_empty_true in H
  | H : is_some _ = true |- _ => unfold is_some in H; case_match; [clear H | discriminate H]
  | H : is_some _ = false |- _ => unfold is_some in H; case_match; [discriminate H | clear H]
  | H : is_none _ = _ |- _ => unfold is_none in H
  | H : is_ok_and _ _ = true |- _ => apply is_ok_and_true in H as (? & ? & ?)
  | H : is_some_and _ _ = true |- _ => apply is_some_and_true in H as (? & ? & ?)
  | H : is_none_or _ _ = false |- _ => apply is_none_or_false in H as (? & ? & ?)
  end.

(** Membership of a literal element in a literal list. *)
Ltac in_list := first [by left | right; in_list].

(** Case analysis along the control flow of a hypothesis [f args = Ok _]. *)
Ltac case_hyp H :=
  match type of H with
  | context [match ?x with _ => _ end] =>
      lazymatch x with
      | context [match _ with _ => _ end] => fail
      | _ => destruct x eqn:?
      end
  end.
(** Closes the goal on a syntactic clash only: no computation is started. *)
Ltac clash H :=
  match type of H with
  | Err _ = Ok _ => discriminate H
  | Ok _ = Err _ => discriminate H
  | Some _ = None => discriminate H
  | None = Some _ => discriminate H
  | true = false => discriminate H
  | false = true => discriminate H
  end.
(** [simplify_eq] restricted to syntactic constructors and variables. *)
Ltac simp_eqs :=
  repeat match goal with
  | x : unit |- _ => destruct x
  | H : _ |- _ => clash H
  | H : Ok _ = Ok _ |- _ => injection H; clear H; intros
  | H : Err _ = Err _ |- _ => injection H; clear H; intros
  | H : Some _ = Some _ |- _ => injection H; clear H; intros
  | H : (_, _) = (_, _) |- _ => injection H; clear H; intros
  | H : ?x = ?x |- _ => clear H
  | H : ?x = _ |- _ => is_var x; subst x
  | H : _ = ?x |- _ => is_var x; subst x
  end.
Ltac run H := repeat (case_hyp H; try clash H); simp_eqs; bool_hyp; simp_eqs.
