(* ===== verification/RustStd.v ===== *)
(** * The parts of Rust's standard library the controller uses

    ASCII classification of bytes, the [str] methods ([starts_with],
    [strip_prefix], [split], ...) on byte strings, and [Ipv4Addr::from_str].
    The model follows the documented behaviour of the standard library:
    [split] yields one more piece than there are separators, and an IPv4
    address is four decimal octets of at most three digits without leading
    zeros. *)

From stdpp Require Import sorting.
From S2P Require Import Prelude.

Definition code (c : ascii) : Z := Z.of_N (N_of_ascii c).

Definition is_ascii_lowercase (c : ascii) : bool := (97 <=? code c)%Z && (code c <=? 122)%Z.
Definition is_ascii_uppercase (c : ascii) : bool := (65 <=? code c)%Z && (code c <=? 90)%Z.
Definition is_ascii_digit (c : ascii) : bool := (48 <=? code c)%Z && (code c <=? 57)%Z.
Definition is_ascii_alphanumeric (c : ascii) : bool :=
  is_ascii_lowercase c || is_ascii_uppercase c || is_ascii_digit c.
Definition is_ascii_hexdigit (c : ascii) : bool :=
  is_ascii_digit c || ((97 <=? code c)%Z && (code c <=? 102)%Z)
                   || ((65 <=? code c)%Z && (code c <=? 70)%Z).

Definition len (s : string) : Z := Z.of_nat (String.length s).

Definition starts_with (s p : string) : bool := String.prefix p s.

Definition starts_with_char (s : string) (c : ascii) : bool :=
  match s with String d _ => Ascii.eqb c d | EmptyString => false end.

Fixpoint strip_prefix (s p : string) {struct p} : option string :=
  match p, s with
  | EmptyString, _ => Some s
  | String c p', String d s' => if Ascii.eqb c d then strip_prefix s' p' else None
  | String _ _, EmptyString => None
  end.

(** [s.strip_prefix(p).unwrap_or(s)] *)
Definition strip_prefix_or (s p : string) : string := unwrap_or s (strip_prefix s p).

Fixpoint trim_start_matches (s : string) (c : ascii) : string :=
  match s with
  | String d s' => if Ascii.eqb c d then trim_start_matches s' c else s
  | EmptyString => EmptyString
  end.

Definition ends_with (s p : string) : bool :=
  (String.length p <=? String.length s)%nat
  && (String.substring (String.length s - String.length p) (String.length p) s =? p)%string.

Fixpoint contains_char (s : string) (c : ascii) : bool :=
  match s with
  | EmptyString => false
  | String d s' => Ascii.eqb c d || contains_char s' c
  end.

(** [s.split(c)]: the pieces between separators, never empty. *)
Fixpoint split (s : string) (c : ascii) : list string :=
  match s with
  | EmptyString => [EmptyString]
  | String d s' =>
      if Ascii.eqb c d then EmptyString :: split s' c
      else match split s' c with
           | piece :: rest => String d piece :: rest
           | [] => [String d EmptyString]
           end
  end.

Fixpoint join (sep : string) (l : list string) : string :=
  match l with
  | [] => EmptyString
  | [x] => x
  | x :: l' => String.append x (String.append sep (join sep l'))
  end.

(** ** IPv4 addresses, as their 32-bit value *)
Definition Ipv4Addr := Z.

(** The value of a string of decimal digits. *)
Fixpoint decimal_value (acc : Z) (s : string) : option Z :=
  match s with
  | EmptyString => Some acc
  | String c s' =>
      if is_ascii_digit c then decimal_value (acc * 10 + (code c - 48))%Z s' else None
  end.

(** One octet: one to three digits, no leading zero, at most 255. *)
Definition parse_octet (s : string) : option Z :=
  match s with
  | EmptyString => None
  | String c rest =>
      if Ascii.eqb c "0"%char && non_empty rest then None
      else if (3 <? String.length s)%nat then None
      else match decimal_value 0 s with
           | Some v => if (v <=? 255)%Z then Some v else None
           | None => None
           end
  end.

Definition parse_ipv4 (s : string) : option Ipv4Addr :=
  match split s "."%char with
  | [a; b; c; d] =>
      match parse_octet a, parse_octet b, parse_octet c, parse_octet d with
      | Some a, Some b, Some c, Some d => Some (((a * 256 + b) * 256 + c) * 256 + d)%Z
      | _, _, _, _ => None
      end
  | _ => None
  end.

Example parse_ipv4_example : parse_ipv4 "172.18.255.223" = Some 2886926303%Z.
Proof. reflexivity. Qed.
Example parse_ipv4_leading_zero : parse_ipv4 "10.01.0.1" = None.
Proof. reflexivity. Qed.
Example parse_ipv4_v6 : parse_ipv4 "2001:db8::1" = None.
Proof. reflexivity. Qed.
Example split_example : split "a..b" "."%char = ["a"; ""; "b"].
Proof. reflexivity. Qed.

(** ** Searching and slicing *)

(** [&s[a..b]] *)
Definition slice (s : string) (a b : nat) : string := String.substring a (b - a) s.
(** [&s[a..]] *)
Definition slice_from (s : string) (a : nat) : string := String.substring a (String.length s - a) s.

(** [s[a..].find(p)], relative to [a]. *)
Definition find_from (s : string) (a : nat) (p : string) : option nat :=
  String.index 0 p (slice_from s a).

Definition contains_str (s p : string) : bool := is_some (String.index 0 p s).

Definition byte_at (s : string) (i : nat) : option ascii := String.get i s.

(** [s.split_once(c)] *)
Fixpoint split_once (s : string) (c : ascii) : option (string * string) :=
  match s with
  | EmptyString => None
  | String d s' =>
      if Ascii.eqb c d then Some (EmptyString, s')
      else match split_once s' c with
           | Some (k, v) => Some (String d k, v)
           | None => None
           end
  end.

Definition map_bytes (f : ascii → ascii) (s : string) : string :=
  String.string_of_list_ascii (map f (bytes s)).

Definition ascii_lower (c : ascii) : ascii :=
  if is_ascii_uppercase c then ascii_of_N (N_of_ascii c + 32) else c.
Definition ascii_upper (c : ascii) : ascii :=
  if is_ascii_lowercase c then ascii_of_N (N_of_ascii c - 32) else c.
Definition to_ascii_lowercase : string → string := map_bytes ascii_lower.
Definition to_ascii_uppercase : string → string := map_bytes ascii_upper.

(** [u8::is_ascii_whitespace]: space, tab, line feed, form feed, carriage return. *)
Definition is_ascii_whitespace (c : ascii) : bool :=
  bool_decide (code c ∈ [32; 9; 10; 12; 13]%Z).

(** ** Unicode white space in UTF-8

    The length of the white-space character encoded at the head of [s], or 0.
    [char::is_whitespace] holds of U+0009 to U+000D, U+0020, U+0085, U+00A0,
    U+1680, U+2000 to U+200A, U+2028, U+2029, U+202F, U+205F and U+3000. *)
Definition white_space_len (s : string) : nat :=
  match map code (take 3 (bytes s)) with
  | c1 :: rest =>
      if ((9 <=? c1) && (c1 <=? 13) || (c1 =? 32))%Z then 1 else
      match rest with
      | c2 :: rest' =>
          if ((c1 =? 194) && ((c2 =? 133) || (c2 =? 160)))%Z then 2 else
          match rest' with
          | c3 :: _ =>
              if ((c1 =? 225) && (c2 =? 154) && (c3 =? 128)
                  || (c1 =? 226) && (c2 =? 128) && ((128 <=? c3) && (c3 <=? 138)
                                                     || (c3 =? 168) || (c3 =? 169) || (c3 =? 175))
                  || (c1 =? 226) && (c2 =? 129) && (c3 =? 159)
                  || (c1 =? 227) && (c2 =? 128) && (c3 =? 128))%Z then 3 else 0
          | [] => 0
          end
      | [] => 0
      end
  | [] => 0
  end%nat.

(** Drops the white space at the head; [skip] counts the bytes left of a
    character already recognised. *)
Fixpoint trim_start_from (skip : nat) (s : string) : string :=
  match s with
  | EmptyString => EmptyString
  | String c s' =>
      match skip with
      | S skip' => trim_start_from skip' s'
      | O => match white_space_len s with
             | O => s
             | S skip' => trim_start_from skip' s'
             end
      end
  end.
Definition trim_start : string → string := trim_start_from 0.

Fixpoint trim_end (s : string) : string :=
  match s with
  | EmptyString => EmptyString
  | String c s' => if is_empty (trim_start s) then EmptyString else String c (trim_end s')
  end.

Definition trim (s : string) : string := trim_end (trim_start s).

(** [s.find(|c| c.is_whitespace() || matches!(c, ',' | ';'))] *)
Fixpoint find_delimiter (s : string) : option nat :=
  match s with
  | EmptyString => None
  | String c s' =>
      if negb (white_space_len s =? 0)%nat || Ascii.eqb c ","%char || Ascii.eqb c ";"%char
      then Some 0%nat else option_map S (find_delimiter s')
  end.

Definition strip_suffix (s p : string) : option string :=
  if ends_with s p then Some (String.substring 0 (String.length s - String.length p) s) else None.

(** [s.lines()]: a final line feed ends a line, and a carriage return before a
    line feed is dropped with it. *)
Definition CR : string := String (ascii_of_nat 13) EmptyString.
Definition LF : ascii := ascii_of_nat 10.
Fixpoint terminate_lines (pieces : list string) : list string :=
  match pieces with
  | [] => []
  | [last] => if is_empty last then [] else [last]
  | line :: rest => unwrap_or line (strip_suffix line CR) :: terminate_lines rest
  end.
Definition lines (s : string) : list string := terminate_lines (split s LF).

Example lines_example :
  lines ("a" +:+ CR +:+ String LF "b" +:+ String LF "") = ["a"; "b"].
Proof. reflexivity. Qed.
Example trim_example : trim "  a b	 " = "a b".
Proof. reflexivity. Qed.

(** ** Facts *)
Lemma append_cons c (s t : string) : String c s +:+ t = String c (s +:+ t).
Proof. reflexivity. Qed.

Lemma append_nil_l (s : string) : "" +:+ s = s.
Proof. reflexivity. Qed.

#[export] Hint Rewrite append_cons append_nil_l : rust.

Lemma length_append s t : String.length (s +:+ t) = (String.length s + String.length t)%nat.
Proof. induction s; [done|]. autorewrite with rust. simpl. by rewrite IHs. Qed.

Lemma append_assoc (s t u : string) : (s +:+ t) +:+ u = s +:+ (t +:+ u).
Proof. induction s; [done|]. autorewrite with rust. by rewrite IHs. Qed.

Lemma append_nil_r (s : string) : s +:+ "" = s.
Proof. induction s; [done|]. autorewrite with rust. by rewrite IHs. Qed.

Lemma append_inj_l (s t u : string) : s +:+ t = s +:+ u → t = u.
Proof. induction s; [done|]. autorewrite with rust. intros [= ?]. auto. Qed.

Lemma length_substring_le n m s : (String.length (String.substring n m s) ≤ m)%nat.
Proof.
  revert n m. induction s; intros [|n] [|m]; simpl; try lia.
  - specialize (IHs 0%nat m). lia.
  - apply IHs.
  - apply IHs.
Qed.

Lemma length_substring_0 m s : (m ≤ String.length s)%nat → String.length (String.substring 0 m s) = m.
Proof. revert m. induction s; intros [|m]; simpl; intros; [done|lia|done|]. f_equal. apply IHs. lia. Qed.

Lemma split_not_nil s c : split s c ≠ [].
Proof. destruct s; simpl; [done|]. case_match; [done|]. by case_match. Qed.

(** Splitting and joining again is the identity. *)
Lemma join_split s c : join (String c EmptyString) (split s c) = s.
Proof.
  induction s as [|d s IH]; simpl; [done|].
  destruct (Ascii.eqb_spec c d) as [->|Hne].
  - destruct (split s d) as [|p l] eqn:Hs; [by apply split_not_nil in Hs|].
    by rewrite <-IH.
  - destruct (split s c) as [|p l] eqn:Hs; [by apply split_not_nil in Hs|].
    rewrite <-IH. by destruct l.
Qed.

Lemma strip_prefix_spec s p t : strip_prefix s p = Some t ↔ s = p +:+ t.
Proof.
  revert s. induction p as [|c p IH]; intros s; autorewrite with rust; simpl; [naive_solver|].
  destruct s as [|d s]; [done|].
  destruct (Ascii.eqb_spec c d) as [->|Hne]; [|naive_solver].
  rewrite IH. naive_solver.
Qed.

Lemma trim_start_matches_head s c :
  starts_with_char (trim_start_matches s c) c = false.
Proof.
  induction s as [|d s IH]; simpl; [done|].
  destruct (Ascii.eqb c d) eqn:Hc; [done|]. simpl. done.
Qed.

Lemma decimal_value_nonneg s acc v :
  (0 ≤ acc)%Z → decimal_value acc s = Some v → (0 ≤ v)%Z.
Proof.
  revert acc. induction s as [|c s IH]; intros acc Hacc H; simplify_eq/=; [done|].
  destruct (is_ascii_digit c) eqn:Hd; [|done].
  unfold is_ascii_digit in Hd. bool_hyp. eapply IH, H. lia.
Qed.

Lemma parse_octet_range s v : parse_octet s = Some v → (0 ≤ v ≤ 255)%Z.
Proof.
  unfold parse_octet. intros H. destruct s; [done|]. run H.
  match goal with H : decimal_value _ _ = Some _ |- _ => apply decimal_value_nonneg in H end; lia.
Qed.

Lemma parse_ipv4_range s a : parse_ipv4 s = Some a → (0 ≤ a < 2 ^ 32)%Z.
Proof.
  unfold parse_ipv4. intros H. run H.
  repeat match goal with H : parse_octet _ = Some _ |- _ => apply parse_octet_range in H end.
  lia.
Qed.

Lemma split_piece a s c :
  contains_char a c = false → split (a +:+ String c s) c = a :: split s c.
Proof.
  induction a as [|d a IH]; autorewrite with rust; simpl; intros Hc.
  - by rewrite Ascii.eqb_refl.
  - bool_hyp. rewrite H. by rewrite IH.
Qed.

Lemma split_single a c : contains_char a c = false → split a c = [a].
Proof.
  induction a as [|d a IH]; simpl; intros Hc; [done|].
  bool_hyp. rewrite H. by rewrite IH.
Qed.

Lemma split_pieces s c : Forall (λ p, contains_char p c = false) (split s c).
Proof.
  induction s as [|d s IH]; simpl; [by repeat constructor|].
  destruct (Ascii.eqb c d) eqn:Hc; [by constructor|].
  destruct (split s c) as [|p l]; [repeat constructor; simpl; by rewrite Hc|].
  inversion IH; subst. constructor; [|done]. simpl. by rewrite Hc.
Qed.

Lemma contains_char_false s c :
  contains_char s c = false ↔ ∀ d, d ∈ bytes s → c ≠ d.
Proof.
  induction s as [|d s IH]; simpl; [set_solver|].
  rewrite orb_false_iff, IH, Ascii.eqb_neq. set_solver.
Qed.

Lemma digits_no_char s c :
  all is_ascii_digit (bytes s) = true → is_ascii_digit c = false → contains_char s c = false.
Proof.
  intros Hs Hc. rewrite all_true in Hs. apply contains_char_false. intros d Hd ->.
  specialize (Hs d Hd). congruence.
Qed.

Lemma bytes_length s : length (bytes s) = String.length s.
Proof. induction s; simpl; [done|]. by rewrite <-IHs. Qed.

Lemma bytes_app s t : bytes (s +:+ t) = bytes s ++ bytes t.
Proof. induction s; [done|]. autorewrite with rust. simpl. by rewrite IHs. Qed.

Lemma bytes_inj s t : bytes s = bytes t → s = t.
Proof.
  unfold bytes. intros H. rewrite <-(String.string_of_list_ascii_of_string s), H.
  apply String.string_of_list_ascii_of_string.
Qed.

#[export] Hint Rewrite bytes_app bytes_length length_append : rust.

Lemma bytes_substring_0 n s : bytes (String.substring 0 n s) = take n (bytes s).
Proof. revert n. induction s; intros [|n]; simpl; [done..|]. by rewrite <-IHs. Qed.

(** *** Searching *)
Lemma length_substring n m s :
  String.length (String.substring n m s) = Nat.min m (String.length s - n).
Proof.
  revert n m. induction s as [|c s IH]; intros [|n] [|m];
    cbn [String.substring String.length]; rewrite ?IH; lia.
Qed.

Lemma length_slice_from s a : String.length (slice_from s a) = (String.length s - a)%nat.
Proof. unfold slice_from. rewrite length_substring. lia. Qed.

Lemma index_bound p s n :
  p ≠ "" → String.index 0 p s = Some n → (n + String.length p ≤ String.length s)%nat.
Proof.
  intros Hp H. apply String.index_correct1 in H. apply (f_equal String.length) in H.
  rewrite length_substring in H. destruct p as [|c p]; [done|].
  cbn [String.length] in *. lia.
Qed.

Lemma find_from_bound s a p n :
  p ≠ "" → find_from s a p = Some n → (a + n + String.length p ≤ String.length s)%nat.
Proof.
  intros Hp H. apply index_bound in H; [|done]. rewrite length_slice_from in H.
  destruct p; [done|]. simpl in *. lia.
Qed.

Lemma length_map_bytes f s : String.length (map_bytes f s) = String.length s.
Proof.
  unfold map_bytes. rewrite <-bytes_length. unfold bytes.
  rewrite String.list_ascii_of_string_of_list_ascii, length_map. apply bytes_length.
Qed.

Lemma byte_at_bound s i c : byte_at s i = Some c → (i < String.length s)%nat.
Proof.
  unfold byte_at. revert i. induction s as [|d s IH]; intros [|i]; simpl; try done; [lia|].
  intros H%IH. lia.
Qed.

Lemma find_delimiter_bound s n : find_delimiter s = Some n → (n ≤ String.length s)%nat.
Proof.
  revert n. induction s as [|c s IH]; intros n; simpl find_delimiter; [done|].
  destruct (_ || _); [intros [= <-]; lia|].
  destruct (find_delimiter s) as [m|]; [|done]. intros [= <-]. specialize (IH m eq_refl). simpl. lia.
Qed.

Lemma split_once_index s c k v :
  split_once s c = Some (k, v) →
  s = k +:+ String c v ∧ String.index 0 (String c "") s = Some (String.length k).
Proof.
  revert k v. induction s as [|d s IH]; intros k v; simpl split_once; [done|].
  destruct (Ascii.eqb_spec c d) as [->|Hne].
  - intros [= <- <-]. split; [done|]. simpl. destruct (ascii_dec d d); [|done]. by destruct s.
  - destruct (split_once s c) as [[k' v']|]; [|done]. intros [= <- <-].
    destruct (IH k' v' eq_refl) as [-> Hi]. split; [by rewrite append_cons|].
    cbn [String.index]. cbn [String.prefix].
    destruct (ascii_dec c d); [done|]. by rewrite Hi.
Qed.

Lemma split_once_app k c v :
  contains_char k c = false → split_once (k +:+ String c v) c = Some (k, v).
Proof.
  induction k as [|d k IH]; simpl contains_char.
  - intros _. rewrite append_nil_l. simpl. by rewrite Ascii.eqb_refl.
  - intros [Hd Hk]%orb_false_iff. rewrite append_cons. simpl. by rewrite Hd, (IH Hk).
Qed.

Lemma bytes_substring n m s : bytes (String.substring n m s) = take m (drop n (bytes s)).
Proof.
  revert n. induction s as [|c s IH]; intros [|n].
  - by destruct m.
  - by destruct m.
  - apply bytes_substring_0.
  - cbn [String.substring]. by rewrite IH.
Qed.

Lemma bytes_slice s a b : bytes (slice s a b) = take (b - a) (drop a (bytes s)).
Proof. apply bytes_substring. Qed.
Lemma bytes_slice_from s a : bytes (slice_from s a) = drop a (bytes s).
Proof.
  unfold slice_from. rewrite bytes_substring. apply take_ge. rewrite length_drop, bytes_length. lia.
Qed.

(** Slices of a concatenation. *)
Lemma slice_split s n : s = slice s 0 n +:+ slice_from s n.
Proof. apply bytes_inj. by rewrite bytes_app, bytes_slice, bytes_slice_from, Nat.sub_0_r, drop_0, take_drop. Qed.

Lemma slice_app_drop s t e : slice (s +:+ t) (String.length s) e = slice t 0 (e - String.length s).
Proof.
  apply bytes_inj. rewrite !bytes_slice, bytes_app, <-bytes_length, drop_app_length, drop_0. by rewrite Nat.sub_0_r.
Qed.

Lemma slice_across s t e :
  (String.length s ≤ e)%nat → slice (s +:+ t) 0 e = s +:+ slice t 0 (e - String.length s).
Proof.
  intros H. apply bytes_inj. rewrite bytes_app, !bytes_slice, bytes_app, !drop_0, !Nat.sub_0_r, <-bytes_length.
  rewrite <-bytes_length in H. by rewrite take_app_ge.
Qed.

Lemma slice_from_across s t u : slice_from (s +:+ t +:+ u) (String.length s + String.length t) = u.
Proof.
  apply bytes_inj. rewrite bytes_slice_from, !bytes_app, <-!bytes_length.
  by rewrite app_assoc, <-length_app, drop_app_length.
Qed.

Lemma byte_at_bytes s i : byte_at s i = bytes s !! i.
Proof. unfold byte_at. revert i. induction s as [|c s IH]; intros [|i]; [done..|]. apply IH. Qed.

Lemma byte_at_drop s t : byte_at (s +:+ t) (String.length s) = byte_at t 0.
Proof. rewrite !byte_at_bytes, bytes_app, <-bytes_length. rewrite lookup_app_r, Nat.sub_diag by lia. done. Qed.

(** A byte of the first of two strings, and the strings around it. *)
Lemma byte_at_app_l s t i :
  (i < String.length s)%nat →
  ∃ p c q, s = p +:+ String c q ∧ i = String.length p ∧ byte_at (s +:+ t) i = Some c.
Proof.
  intros Hi. rewrite <-bytes_length in Hi. destruct (lookup_lt_is_Some_2 _ _ Hi) as [c Hc].
  exists (slice s 0 i), c, (slice_from s (S i)). split_and!.
  - apply bytes_inj. rewrite bytes_app, bytes_slice, Nat.sub_0_r, drop_0.
    change (bytes (String c ?x)) with (c :: bytes x). rewrite bytes_slice_from. by rewrite take_drop_middle.
  - unfold slice. rewrite length_substring. rewrite bytes_length in Hi. lia.
  - rewrite byte_at_bytes, bytes_app. by rewrite lookup_app_l.
Qed.

Lemma slice_app_l s t : slice (s +:+ t) 0 (String.length s) = s.
Proof.
  unfold slice. rewrite Nat.sub_0_r. apply bytes_inj.
  by rewrite bytes_substring_0, bytes_app, <-bytes_length, take_app_length.
Qed.

(** [to_string] of integers of at most 64 bits. *)
Definition digit (n : Z) : ascii := ascii_of_N (Z.to_N (48 + n)).
Fixpoint decimal_loop (fuel : nat) (n : Z) (acc : string) : string :=
  match fuel with
  | O => acc
  | S fuel' =>
      let acc := String (digit (n mod 10)) acc in
      if n <? 10 then acc else decimal_loop fuel' (n / 10) acc
  end%Z.
Definition decimal (n : Z) : string := decimal_loop 20 n "".
Definition int_to_string (v : Z) : string := (if v <? 0 then "-" +:+ decimal (- v) else decimal v)%Z.

(** [i32::from_str]: a sign, then digits; the error is its text. *)
Definition parse_i32_digit (negative : bool) (acc : Z) (c : ascii) : result string Z :=
  if negb (is_ascii_digit c) then Err "invalid digit found in string" else
  let v := (code c - 48)%Z in
  let next := (if negative then acc * 10 - v else acc * 10 + v)%Z in
  if (next <? - 2 ^ 31)%Z then Err "number too small to fit in target type"
  else if (2 ^ 31 <=? next)%Z then Err "number too large to fit in target type" else Ok next.

Definition parse_i32 (s : string) : result string Z :=
  match bytes s with
  | [] => Err "cannot parse integer from empty string"
  | [c] => if Ascii.eqb c "+"%char || Ascii.eqb c "-"%char then Err "invalid digit found in string"
           else parse_i32_digit false 0%Z c
  | c :: rest =>
      if Ascii.eqb c "+"%char then try_fold (parse_i32_digit false) 0%Z rest
      else if Ascii.eqb c "-"%char then try_fold (parse_i32_digit true) 0%Z rest
      else try_fold (parse_i32_digit false) 0%Z (c :: rest)
  end.

(** [s.rsplit_once(c)] *)
Definition rsplit_once (s : string) (c : ascii) : option (string * string) :=
  match reverse (split s c) with
  | last :: (_ :: _) as rest => Some (join (String c "") (reverse (tail rest)), last)
  | _ => None
  end.

(** [s.split_once(p)] for a string [p]. *)
Definition split_once_str (s p : string) : option (string * string) :=
  option_map (λ i, (slice s 0 i, slice_from s (i + String.length p)%nat)) (String.index 0 p s).

(** [s.chars().any(char::is_whitespace)] *)
Fixpoint has_whitespace (s : string) : bool :=
  match s with
  | EmptyString => false
  | String _ s' => negb (white_space_len s =? 0)%nat || has_whitespace s'
  end.

(** [s.replace(c, by)] *)
Fixpoint replace_char (s : string) (c : ascii) (by_ : string) : string :=
  match s with
  | EmptyString => EmptyString
  | String d s' => if Ascii.eqb c d then by_ +:+ replace_char s' c by_ else String d (replace_char s' c by_)
  end.

(** [s.trim_end_matches(c)] *)
Fixpoint trim_end_matches (s : string) (c : ascii) : string :=
  match s with
  | EmptyString => EmptyString
  | String d s' => let rest := trim_end_matches s' c in
                   if Ascii.eqb c d && is_empty rest then EmptyString else String d rest
  end.

(** ** Sorting *)

(** [sort_by]: a stable sort. *)
Fixpoint sort_insert {A} (le : A → A → bool) (x : A) (l : list A) : list A :=
  match l with
  | [] => [x]
  | y :: l' => if le x y then x :: l else y :: sort_insert le x l'
  end.
Fixpoint sort_by {A} (le : A → A → bool) (l : list A) : list A :=
  match l with [] => [] | x :: l' => sort_insert le x (sort_by le l') end.

(** The byte order of strings. *)
Lemma leb_cases a b : String.leb a b = true ∨ String.leb b a = true.
Proof. unfold String.leb. rewrite (String.compare_antisym b a). destruct (String.compare a b); auto. Qed.

Lemma leb_antisym a b : String.leb a b = true → String.leb b a = true → a = b.
Proof.
  unfold String.leb. rewrite (String.compare_antisym b a). destruct (String.compare a b) eqn:E; [|done..].
  intros _ _. by apply String.compare_eq_iff.
Qed.

Lemma string_compare_lt_trans a b c : String.compare a b = Lt → String.compare b c = Lt → String.compare a c = Lt.
Proof.
  revert b c. induction a as [|x a IH]; intros [|y b] [|z c] H1 H2; try done. cbn in *. unfold Ascii.compare in *.
  destruct (N.compare (N_of_ascii x) (N_of_ascii y)) eqn:E1; [apply N.compare_eq in E1 as E1'| |done].
  - rewrite E1'. destruct (N.compare (N_of_ascii y) (N_of_ascii z)); [by eapply IH|done|done].
  - apply N.compare_lt_iff in E1.
    destruct (N.compare (N_of_ascii y) (N_of_ascii z)) eqn:E2; [apply N.compare_eq in E2|apply N.compare_lt_iff in E2|done].
    + rewrite E2 in E1. apply N.compare_lt_iff in E1. by rewrite E1.
    + pose proof (N.lt_trans _ _ _ E1 E2) as E. apply N.compare_lt_iff in E. by rewrite E.
Qed.

Lemma leb_trans a b c : String.leb a b = true → String.leb b c = true → String.leb a c = true.
Proof.
  unfold String.leb. destruct (String.compare a b) eqn:E1; [apply String.compare_eq_iff in E1 as ->; auto| |done].
  destruct (String.compare b c) eqn:E2; [apply String.compare_eq_iff in E2 as <-; by rewrite E1| |done].
  by rewrite (string_compare_lt_trans _ _ _ E1 E2).
Qed.

(** Ordered iteration of a [BTreeMap]. *)
Definition key_le {A} (x y : string * A) : Prop := String.leb x.1 y.1 = true.
#[export] Instance key_le_dec {A} (x y : string * A) : Decision (key_le x y).
Proof. unfold key_le. apply _. Defined.
Definition ordered {A} (m : gmap string A) : list (string * A) := merge_sort key_le (map_to_list m).

Lemma elem_of_ordered {A} (m : gmap string A) k v : (k, v) ∈ ordered m ↔ m !! k = Some v.
Proof. unfold ordered. by rewrite merge_sort_Permutation, elem_of_map_to_list. Qed.

Section Sorting.
Context {A : Type} (le : A → A → bool).

Lemma sort_insert_perm x l : sort_insert le x l ≡ₚ x :: l.
Proof.
  induction l as [|y l IH]; [done|]. cbn [sort_insert]. destruct (le x y); [done|]. rewrite IH. apply Permutation_swap.
Qed.

Lemma sort_by_perm l : sort_by le l ≡ₚ l.
Proof. induction l as [|x l IH]; [done|]. cbn [sort_by]. by rewrite sort_insert_perm, IH. Qed.

Lemma elem_of_sort_by x l : x ∈ sort_by le l ↔ x ∈ l.
Proof. by rewrite sort_by_perm. Qed.

(** Total, transitive and antisymmetric orders give one result for all the
    orders of the input. *)
Context (Ht : ∀ x y, le x y = false → le y x = true).
Context (Htr : ∀ x y z, le x y = true → le y z = true → le x z = true).

Lemma sort_insert_sorted x l : StronglySorted (λ a b, le a b = true) l → StronglySorted (λ a b, le a b = true) (sort_insert le x l).
Proof.
  induction l as [|y l IH]; intros Hs; [by repeat constructor|]. cbn [sort_insert].
  inversion Hs as [|? ? Hs' Hy]; subst. destruct (le x y) eqn:E.
  - constructor; [done|]. constructor; [done|]. eapply list.Forall_impl; [exact Hy|]. eauto.
  - constructor; [by apply IH|]. rewrite sort_insert_perm. constructor; [by apply Ht|done].
Qed.

Lemma sort_by_sorted l : StronglySorted (λ a b, le a b = true) (sort_by le l).
Proof. induction l as [|x l IH]; [constructor|]. by apply sort_insert_sorted. Qed.

Context (Has : ∀ x y, le x y = true → le y x = true → x = y).

Lemma sort_by_unique l k : l ≡ₚ k → sort_by le l = sort_by le k.
Proof.
  intros H. assert (sort_by le l ≡ₚ sort_by le k) as Hp by by rewrite !sort_by_perm.
  generalize (sort_by_sorted l) (sort_by_sorted k). revert Hp. generalize (sort_by le l) (sort_by le k). clear l k H.
  induction l as [|x l IH]; intros k Hp Hl Hk; [by apply Permutation_nil_l in Hp|].
  destruct k as [|y k]; [by apply Permutation_nil_r in Hp|].
  inversion Hl as [|? ? Hl' Hx]; inversion Hk as [|? ? Hk' Hy]; subst.
  rewrite list.Forall_forall in Hx, Hy.
  assert (x = y) as <-.
  { assert (x ∈ y :: k) as Hx' by (rewrite <-Hp; left). assert (y ∈ x :: l) as Hy' by (rewrite Hp; left).
    apply elem_of_cons in Hx' as [->|Hx']; [done|]. apply elem_of_cons in Hy' as [->|Hy']; [done|]. auto. }
  f_equal. apply IH; [by apply (inj (cons x))|done|done].
Qed.
End Sorting.
