(* ===== verification/Externals.v ===== *)
(** * Third-party crates as interfaces

    The controller parses networks with [ipnet], hashes with [sha2]/[hex] and
    serialises with [serde_json].  None of these is part of the repository, so
    each is a class of operations with the laws their documentation states;
    the theorems of the other files are proved against the classes.  The module
    [Concrete] instantiates every class, which shows that the laws can hold and
    lets witnesses compute. *)

From S2P Require Import Prelude RustStd.

Open Scope Z_scope.

(** ** [ipnet::Ipv4Net] *)
Class Ipv4NetOps := {
  Ipv4Net : Type;
  Ipv4Net_eq_dec :: EqDecision Ipv4Net;
  parse_net : string → option Ipv4Net;
  net_to_string : Ipv4Net → string;
  addr : Ipv4Net → Ipv4Addr;
  network : Ipv4Net → Ipv4Addr;
  prefix_len : Ipv4Net → Z;
  contains : Ipv4Net → Ipv4Addr → bool;
}.

(** Number of addresses of a network. *)
Definition net_size `{Ipv4NetOps} (n : Ipv4Net) : Z := 2 ^ (32 - prefix_len n).

(** The documented behaviour: prefix lengths are 0 to 32, [network] clears the
    host bits of [addr], [contains] is the range from the network address to
    the broadcast address, a network is its address and prefix length, and the
    empty string is not a network. *)
Class Ipv4NetLaws (N : Ipv4NetOps) := {
  addr_range n : 0 ≤ addr n < 2 ^ 32;
  prefix_len_range n : 0 ≤ prefix_len n ≤ 32;
  network_spec n : network n = addr n / net_size n * net_size n;
  contains_spec n a : contains n a = true ↔ network n ≤ a < network n + net_size n;
  net_ext n m : addr n = addr m → prefix_len n = prefix_len m → n = m;
  parse_net_empty : parse_net "" = None;
}.

(** ** [sha2::Sha256] followed by [hex::encode] *)
Class Sha256Ops := { sha256_hex : string → string }.

Class Sha256Laws (S : Sha256Ops) := {
  sha256_hex_length s : String.length (sha256_hex s) = 64%nat;
  sha256_hex_digits s : all (λ c, is_ascii_digit c || ((97 <=? code c) && (code c <=? 102)))
                            (bytes (sha256_hex s)) = true;
}.

Section Ipv4NetFacts.
Context `{NL : Ipv4NetLaws}.

Lemma net_size_pos n : 0 < net_size n.
Proof. unfold net_size. pose proof (prefix_len_range n). apply Z.pow_pos_nonneg; lia. Qed.

Lemma network_in n : contains n (network n) = true.
Proof. apply contains_spec. pose proof (net_size_pos n). lia. Qed.

(** Sizes are powers of two, so of two networks one size divides the other. *)
Lemma net_size_divides n m :
  prefix_len m ≤ prefix_len n → ∃ k, 0 < k ∧ net_size m = k * net_size n.
Proof.
  intros Hle. unfold net_size.
  pose proof (prefix_len_range n). pose proof (prefix_len_range m).
  exists (2 ^ (prefix_len n - prefix_len m)). split; [apply Z.pow_pos_nonneg; lia|].
  rewrite <-Z.pow_add_r by lia. f_equal. lia.
Qed.

Lemma network_multiple n : ∃ q, network n = q * net_size n.
Proof. exists (addr n / net_size n). apply network_spec. Qed.

(** Networks are nested or disjoint: a common address puts the network
    address of the smaller one inside the larger one. *)
Lemma networks_laminar n m a :
  prefix_len m ≤ prefix_len n →
  contains n a = true → contains m a = true → contains m (network n) = true.
Proof.
  intros Hle Hn%contains_spec Hm%contains_spec. apply contains_spec.
  destruct (net_size_divides n m Hle) as (k & Hk & Hsize).
  destruct (network_multiple n) as [p Hp]. destruct (network_multiple m) as [q Hq].
  pose proof (net_size_pos n) as Hpos.
  rewrite Hsize in *. rewrite Hp, Hq in *. set (s := net_size n) in *.
  assert (q * k ≤ p < q * k + k) by (split; [|]; nia). nia.
Qed.

Lemma common_address_contains n m a :
  contains n a = true → contains m a = true →
  contains n (network m) = true ∨ contains m (network n) = true.
Proof.
  intros Hn Hm. destruct (Z.le_ge_cases (prefix_len m) (prefix_len n)) as [Hle|Hle].
  - right. by eapply networks_laminar.
  - left. by eapply networks_laminar.
Qed.
End Ipv4NetFacts.

(** ** Concrete instances *)
Module Concrete.

Definition cidr_valid (a l : Z) : bool :=
  (0 <=? a) && (a <? 2 ^ 32) && (0 <=? l) && (l <=? 32).

Record Cidr := { cidr_addr : Z; cidr_len : Z; cidr_ok : Is_true (cidr_valid cidr_addr cidr_len) }.

Lemma cidr_eq (c d : Cidr) : cidr_addr c = cidr_addr d → cidr_len c = cidr_len d → c = d.
Proof. destruct c, d; simpl; intros -> ->. f_equal. apply proof_irrel. Qed.

#[export] Instance Cidr_eq_dec : EqDecision Cidr.
Proof.
  intros c d. destruct (decide (cidr_addr c = cidr_addr d ∧ cidr_len c = cidr_len d)) as [[? ?]|Hne].
  - left. by apply cidr_eq.
  - right. intros ->. naive_solver.
Defined.

Definition cidr_size (c : Cidr) : Z := 2 ^ (32 - cidr_len c).
Definition cidr_network (c : Cidr) : Z := cidr_addr c / cidr_size c * cidr_size c.
Definition cidr_contains (c : Cidr) (a : Z) : bool :=
  (cidr_network c <=? a) && (a <? cidr_network c + cidr_size c).

Definition mk_cidr (a l : Z) : option Cidr :=
  match cidr_valid a l as b return (Is_true b → Is_true (cidr_valid a l)) → option Cidr with
  | true => λ f, Some {| cidr_addr := a; cidr_len := l; cidr_ok := f I |}
  | false => λ _, None
  end (λ p, p).

Definition parse_cidr (s : string) : option Cidr :=
  match split s "/"%char with
  | [a; l] =>
      match parse_ipv4 a, parse_octet l with
      | Some a, Some l => mk_cidr a l
      | _, _ => None
      end
  | _ => None
  end.

#[export] Instance cidr_ops : Ipv4NetOps := {
  Ipv4Net := Cidr; parse_net := parse_cidr; net_to_string := λ _, "net";
  addr := cidr_addr; network := cidr_network; prefix_len := cidr_len; contains := cidr_contains;
}.

#[export] Instance cidr_laws : Ipv4NetLaws cidr_ops.
Proof.
  split.
  - intros c. pose proof (cidr_ok c) as Hok%Is_true_true. unfold cidr_valid in Hok. simpl. lia.
  - intros c. pose proof (cidr_ok c) as Hok%Is_true_true. unfold cidr_valid in Hok. simpl. lia.
  - done.
  - intros c a. simpl. unfold cidr_contains, net_size, cidr_size. simpl. lia.
  - apply cidr_eq.
  - done.
Qed.

(** A stand-in digest: the first sixty-four hexadecimal digits of the input,
    padded with zeros. *)
Definition hex_digit (n : N) : ascii :=
  if (n <? 10)%N then ascii_of_N (48 + n) else ascii_of_N (87 + n).

Fixpoint hex_prefix (fuel : nat) (s : string) : string :=
  match fuel with
  | O => EmptyString
  | S fuel' =>
      match s with
      | EmptyString => String "0" (String "0" (hex_prefix fuel' s))
      | String c s' =>
          String (hex_digit (N_of_ascii c / 16))
                 (String (hex_digit (N_of_ascii c mod 16)) (hex_prefix fuel' s'))
      end
  end.

#[export] Instance hex_ops : Sha256Ops := { sha256_hex := hex_prefix 32 }.

Lemma hex_prefix_length n s : String.length (hex_prefix n s) = (2 * n)%nat.
Proof. revert s. induction n; intros [|c s]; simpl; rewrite ?IHn; lia. Qed.

Lemma hex_digit_ok (n : N) :
  (n < 16)%N →
  is_ascii_digit (hex_digit n) || ((97 <=? code (hex_digit n)) && (code (hex_digit n) <=? 102)) = true.
Proof.
  intros Hn. unfold hex_digit, is_ascii_digit, code.
  destruct (N.ltb_spec n 10); rewrite N_ascii_embedding by lia; lia.
Qed.

#[export] Instance hex_laws : Sha256Laws hex_ops.
Proof.
  split; [intros s; apply (hex_prefix_length 32)|].
  intros s. unfold sha256_hex, hex_ops. generalize 32%nat as n. intros n. revert s.
  induction n as [|n IH]; intros [|c s]; [done..| |];
    change (bytes (String ?a (String ?b ?t))) with (a :: b :: bytes t); simpl hex_prefix;
    unfold bytes; simpl String.list_ascii_of_string; cbn [all].
  - apply (IH ""%stdpp).
  - assert (Hc : (N_of_ascii c < 256)%N) by apply N_ascii_bounded.
    rewrite !hex_digit_ok; [apply IH| |].
    + apply N.mod_lt. done.
    + apply N.Div0.div_lt_upper_bound. lia.
Qed.

End Concrete.
