(* ===== verification/Kube.v ===== *)
(** * Kubernetes objects

    The fields of the [k8s_openapi] and [kube] types that the controller reads
    or writes.  Maps are finite maps ([BTreeMap<String, String>] is only used
    through lookup, insertion and equality), optional fields stay options, and
    instants are integers. *)

From S2P Require Import Prelude.

Definition Time := Z.

Record OwnerReference := {
  owner_api_version : string;
  owner_kind : string;
  owner_name : string;
  owner_uid : string;
  owner_controller : option bool;
  owner_block_deletion : option bool;
}.

#[export] Instance OwnerReference_eq_dec : EqDecision OwnerReference.
Proof. solve_decision. Defined.

Record ObjectMeta := {
  name : option string;
  namespace : option string;
  uid : option string;
  resource_version : option string;
  generation : option Z;
  labels : option (gmap string string);
  annotations : option (gmap string string);
  owner_references : option (list OwnerReference);
  finalizers : option (list string);
  deletion_timestamp : option Time;
}.

#[export] Instance ObjectMeta_eq_dec : EqDecision ObjectMeta.
Proof. solve_decision. Defined.

Definition default_meta : ObjectMeta := {|
  name := None; namespace := None; uid := None; resource_version := None;
  generation := None; labels := None; annotations := None;
  owner_references := None; finalizers := None; deletion_timestamp := None |}.

(** [object.metadata.annotations.as_ref().and_then(|a| a.get(key))] *)
Definition get_annotation (m : ObjectMeta) (key : string) : option string :=
  and_then (λ a : gmap string string, a !! key) (annotations m).
Definition get_label (m : ObjectMeta) (key : string) : option string :=
  and_then (λ a : gmap string string, a !! key) (labels m).

(** [metadata.owner_references.as_deref().unwrap_or_default()] *)
Definition owners_of (m : ObjectMeta) : list OwnerReference := unwrap_or [] (owner_references m).

Record TypeMeta := { tm_api_version : string; tm_kind : string }.

#[export] Instance TypeMeta_eq_dec : EqDecision TypeMeta.
Proof. solve_decision. Defined.

(** [serde_json::Value]; integers and other numbers are separate constructors. *)
Inductive Value :=
| VNull
| VBool (b : bool)
| VNumber (n : Z)
| VFloat (repr : string)
| VString (s : string)
| VArray (vs : list Value)
| VObject (fields : list (string * Value)).

Record DynamicObject := {
  dyn_types : option TypeMeta;
  dyn_meta : ObjectMeta;
  dyn_data : Value;
}.

Record LeaseSpec := {
  acquire_time : option Time;
  holder_identity : option string;
  lease_duration_seconds : option Z;
  lease_transitions : option Z;
  preferred_holder : option string;
  renew_time : option Time;
  strategy : option string;
}.

#[export] Instance LeaseSpec_eq_dec : EqDecision LeaseSpec.
Proof. solve_decision. Defined.

Definition default_lease_spec : LeaseSpec := {|
  acquire_time := None; holder_identity := None; lease_duration_seconds := None;
  lease_transitions := None; preferred_holder := None; renew_time := None; strategy := None |}.

Record Lease := { lease_meta : ObjectMeta; lease_spec : option LeaseSpec }.

#[export] Instance Lease_eq_dec : EqDecision Lease.
Proof. solve_decision. Defined.

Record Namespace := { ns_meta : ObjectMeta }.

Record Secret := {
  secret_meta : ObjectMeta;
  secret_type : option string;
  secret_data : option (gmap string string);
}.

Record PolicyRule := {
  rule_api_groups : option (list string);
  rule_resources : option (list string);
  rule_resource_names : option (list string);
  rule_non_resource_urls : option (list string);
  rule_verbs : list string;
}.

#[export] Instance PolicyRule_eq_dec : EqDecision PolicyRule.
Proof. solve_decision. Defined.

Record Role := { role_meta : ObjectMeta; role_rules : option (list PolicyRule) }.

Record RoleRef := { ref_api_group : option string; ref_kind : string; ref_name : string }.

#[export] Instance RoleRef_eq_dec : EqDecision RoleRef.
Proof. solve_decision. Defined.

Record Subject := {
  subject_kind : string;
  subject_name : string;
  subject_namespace : option string;
  subject_api_group : option string;
}.

#[export] Instance Subject_eq_dec : EqDecision Subject.
Proof. solve_decision. Defined.

Record RoleBinding := {
  binding_meta : ObjectMeta;
  binding_role_ref : RoleRef;
  binding_subjects : option (list Subject);
}.

Record ConfigMap := { cm_meta : ObjectMeta; cm_data : option (gmap string string) }.

#[export] Instance ConfigMap_eq_dec : EqDecision ConfigMap.
Proof. solve_decision. Defined.

(** The parts of a StorageClass that are read or set. *)
Record StorageClass := {
  sc_meta : ObjectMeta;
  sc_provisioner : string;
  sc_reclaim_policy : option string;
  sc_volume_binding_mode : option string;
  sc_allow_volume_expansion : option bool;
  sc_parameters : option (gmap string string);
  sc_mount_options : option (list string);
  sc_allowed_topologies : option (list Value);
}.

Record Condition := {
  cond_type : string;
  cond_status : string;
  cond_reason : string;
  cond_message : string;
  cond_observed_generation : option Z;
  cond_last_transition_time : Time;
}.

#[export] Instance Condition_eq_dec : EqDecision Condition.
Proof. solve_decision. Defined.

(** ** API errors

    [kube::Error::Api] carries the HTTP status code and reason; every error
    carries the text its [Display] prints. *)
Inductive KubeError :=
| KubeApi (status_code : Z) (status_reason : string) (display : string)
| KubeOther (display : string).

#[export] Instance KubeError_eq_dec : EqDecision KubeError.
Proof. solve_decision. Defined.

Definition kube_display (e : KubeError) : string :=
  match e with KubeApi _ _ d => d | KubeOther d => d end.

(** Preconditions of a delete request. *)
Record DeleteParams := {
  precondition_uid : option string;
  precondition_resource_version : option string;
  background : bool;
}.

#[export] Instance DeleteParams_eq_dec : EqDecision DeleteParams.
Proof. solve_decision. Defined.

(** ** [kube::config]: the parts of a kubeconfig that are checked *)
Record AuthInfo := {
  ai_client_certificate : option string;
  ai_client_certificate_data : option string;
  ai_client_key : option string;
  ai_client_key_data : option string;
  ai_token : option string;
  ai_token_file : option string;
  ai_username : option string;
  ai_password : option string;
  ai_exec : option Value;
  ai_auth_provider : option Value;
  ai_impersonate : option string;
  ai_impersonate_uid : option string;
  ai_impersonate_groups : option (list string);
  ai_impersonate_user_extra : option Value;
  ai_other : list (string * Value);
}.

Record ClusterInfo := {
  cl_server : option string;
  cl_insecure_skip_tls_verify : option bool;
  cl_certificate_authority : option string;
  cl_certificate_authority_data : option string;
  cl_proxy_url : option string;
  cl_tls_server_name : option string;
}.

Record ContextInfo := { cx_cluster : string; cx_user : option string }.

(** The [Named...] entries: a name and what it names, if anything. *)
Record KubeConfig := {
  kc_current_context : option string;
  kc_contexts : list (string * option ContextInfo);
  kc_clusters : list (string * option ClusterInfo);
  kc_auth_infos : list (string * option AuthInfo);
}.

(** [kube::Config]: the fields that are checked or set; times in seconds. *)
Record ClientConfig := {
  conf_root_cert : option (list string);
  conf_proxy_url : option string;
  conf_connect_timeout : option Z;
  conf_read_timeout : option Z;
  conf_write_timeout : option Z;
  conf_default_retry : bool;
}.
