(* ===== verification/Errors.v ===== *)
(** * Controller errors and their requeue policy

    [controller/src/error.rs]: the error enum of the manager, its
    classification and the bounded exponential back-off. *)

From S2P Require Import Prelude Kube.

Open Scope Z_scope.

(** How [kube] recognises conflict and not-found API statuses. *)
Class KubeStatusOps := {
  is_conflict : Z → string → bool;
  is_not_found : Z → string → bool;
}.

(** The documented behaviour of the two predicates on the statuses an API
    server sends: the reason decides. *)
Class KubeStatusLaws (K : KubeStatusOps) := {
  is_conflict_reason code : is_conflict code "Conflict" = true;
  is_conflict_not_found code : is_conflict code "NotFound" = false;
  is_not_found_reason code : is_not_found code "NotFound" = true;
}.

Inductive ErrorClass :=
| Conflict
| Retryable
| AwaitChange
| Terminal
| LeadershipLostClass.

Inductive Requeue :=
| RequeueAwaitChange
| RequeueAfter (seconds : Z)
| RequeueStop.

(** [kube::runtime::controller::Action] *)
Inductive Action :=
| ActionRequeue (seconds : Z)
| ActionAwaitChange.

#[export] Instance Action_eq_dec : EqDecision Action.
Proof. solve_decision. Defined.

Definition action (r : Requeue) : Action :=
  match r with
  | RequeueAfter duration => ActionRequeue duration
  | RequeueAwaitChange | RequeueStop => ActionAwaitChange
  end.

Inductive ControllerError :=
| Kube (e : KubeError)
| OwnershipInvalid (message : string)
| InvalidInput (message : string)
| DependencyPending (message : string)
| LeaderElection (message : string)
| LeadershipLost
| Configuration (message : string)
| Health (message : string)
| Task (message : string).

#[export] Instance ControllerError_eq_dec : EqDecision ControllerError.
Proof. solve_decision. Defined.

(** [LeaderElection] and [Health] carry the text of the wrapped error. *)
Definition controller_display (e : ControllerError) : string :=
  match e with
  | Kube e => "Kubernetes API request failed: " +:+ kube_display e
  | OwnershipInvalid m => "resource ownership is invalid: " +:+ m
  | InvalidInput m => "input is invalid: " +:+ m
  | DependencyPending m => "dependency is not ready: " +:+ m
  | LeaderElection m => "leader election failed: " +:+ m
  | LeadershipLost => "leadership was lost"
  | Configuration m => "runtime configuration is invalid: " +:+ m
  | Health m => "health server failed: " +:+ m
  | Task m => "runtime task failed: " +:+ m
  end.

Definition class `{KubeStatusOps} (e : ControllerError) : ErrorClass :=
  match e with
  | OwnershipInvalid _ | InvalidInput _ | Configuration _ => Terminal
  | DependencyPending _ => AwaitChange
  | LeadershipLost => LeadershipLostClass
  | LeaderElection _ | Health _ | Task _ => Retryable
  | Kube (KubeApi code reason _) =>
      if is_conflict code reason then Conflict
      else if is_not_found code reason then AwaitChange
      else if any (Z.eqb code) [408; 429; 500; 502; 503; 504] then Retryable
      else Terminal
  | Kube (KubeOther _) => Retryable
  end.

(** [attempt] is a [u32]; the shift is on [u64]. *)
Definition requeue `{KubeStatusOps} (e : ControllerError) (attempt : Z) : Requeue :=
  match class e with
  | Conflict => RequeueAfter 1
  | Retryable =>
      let exponent := Z.min attempt 6 in
      RequeueAfter (Z.min (Z.shiftl 1 exponent) 60)
  | AwaitChange => RequeueAwaitChange
  | Terminal | LeadershipLostClass => RequeueStop
  end.

Section Requeue.
Context `{KubeStatusOps}.

(** The shift never leaves the low seven bits: no [u64] overflow for any
    [u32] attempt. *)
Lemma backoff_bounds attempt :
  0 ≤ attempt → 1 ≤ Z.min (Z.shiftl 1 (Z.min attempt 6)) 60 ≤ 60.
Proof.
  intros Ha. rewrite Z.shiftl_1_l.
  assert (0 < 2 ^ Z.min attempt 6) by (apply Z.pow_pos_nonneg; lia). lia.
Qed.

Lemma backoff_mono a b :
  0 ≤ a ≤ b →
  Z.min (Z.shiftl 1 (Z.min a 6)) 60 ≤ Z.min (Z.shiftl 1 (Z.min b 6)) 60.
Proof.
  intros Hab. rewrite !Z.shiftl_1_l. apply Z.min_le_compat_r.
  apply Z.pow_le_mono_r; lia.
Qed.

(** Every class has exactly one requeue decision, and a delay is at least one
    second, at most one minute, and never shrinks when attempts accumulate. *)
Lemma requeue_backoff e a b :
  0 ≤ a ≤ b →
  (class e = Terminal ∨ class e = LeadershipLostClass → requeue e a = RequeueStop) ∧
  (class e = AwaitChange → requeue e a = RequeueAwaitChange) ∧
  (class e = Conflict ∨ class e = Retryable →
    ∃ s t, requeue e a = RequeueAfter s ∧ requeue e b = RequeueAfter t ∧
           1 ≤ s ≤ t ∧ t ≤ 60).
Proof.
  intros Hab. unfold requeue. split_and!.
  - by intros [-> | ->].
  - by intros ->.
  - intros [-> | ->]; [exists 1, 1; split_and!; done|].
    eexists _, _. split_and!; [done..|apply backoff_bounds; lia|by apply backoff_mono|].
    apply backoff_bounds. lia.
Qed.
End Requeue.

(** Instance used by witnesses: the reason decides. *)
Module ConcreteStatus.
#[export] Instance status_ops : KubeStatusOps := {
  is_conflict _ reason := reason == "Conflict";
  is_not_found _ reason := reason == "NotFound";
}.
#[export] Instance status_laws : KubeStatusLaws status_ops.
Proof. split; by intros. Qed.
End ConcreteStatus.
