(* ===== verification/Api.v ===== *)
(** * The Tenant custom resource

    [controller/src/api.rs]: the specification and status of a [Tenant], the
    accessors of the provider status, the canonical specification, and the
    validation rules the generated CRD carries. *)

From S2P Require Import Prelude RustStd Externals Kube Errors.

Open Scope Z_scope.

Definition GROUP := "tenancy.cnpg-vcluster.io".
Definition VERSION := "v1alpha4".
Definition SUPPORTED_KUBERNETES_VERSION := "1.36.4".
Definition FINALIZER := "tenancy.cnpg-vcluster.io/finalizer".

Inductive TenantProviderSpec := SpecLocal | SpecAzure.

#[export] Instance TenantProviderSpec_eq_dec : EqDecision TenantProviderSpec.
Proof. solve_decision. Defined.

(** [workers] is an [i32]. *)
Record TenantSpec := {
  kubernetes_version : string;
  workers : Z;
  provider : TenantProviderSpec;
}.

#[export] Instance TenantSpec_eq_dec : EqDecision TenantSpec.
Proof. solve_decision. Defined.

Record DatabaseCapability := {
  cap_available : bool;
  cap_reason : string;
  cap_namespace : string;
  cap_namespace_uid : string;
  cap_catalog_uid : string;
  cap_storage_namespace_uid : option string;
}.

#[export] Instance DatabaseCapability_eq_dec : EqDecision DatabaseCapability.
Proof. solve_decision. Defined.

Definition default_capability : DatabaseCapability := {|
  cap_available := false; cap_reason := ""; cap_namespace := ""; cap_namespace_uid := "";
  cap_catalog_uid := ""; cap_storage_namespace_uid := None |}.

Record CatalogCreateIntent := {
  intent_namespace : string;
  intent_name : string;
  intent_tenant_uid : string;
}.

#[export] Instance CatalogCreateIntent_eq_dec : EqDecision CatalogCreateIntent.
Proof. solve_decision. Defined.

Record AllocationStatus := {
  slot_id : string;
  endpoint : string;
  pod_cidr : string;
  service_cidr : string;
}.

#[export] Instance AllocationStatus_eq_dec : EqDecision AllocationStatus.
Proof. solve_decision. Defined.

Record LocalProviderStatus := {
  local_allocation : option AllocationStatus;
  local_foundation_hash : option string;
  local_cluster_uid : option string;
}.

#[export] Instance LocalProviderStatus_eq_dec : EqDecision LocalProviderStatus.
Proof. solve_decision. Defined.

Definition default_local : LocalProviderStatus := {|
  local_allocation := None; local_foundation_hash := None; local_cluster_uid := None |}.

Record AzureAllocationStatus := {
  az_slot_id : string;
  az_pod_cidr : string;
  az_service_cidr : string;
  az_catalog_uid : string;
  az_catalog_sha256 : string;
  az_lease_name : string;
  az_lease_uid : string;
}.

#[export] Instance AzureAllocationStatus_eq_dec : EqDecision AzureAllocationStatus.
Proof. solve_decision. Defined.

Record AzureBindingStatus := {
  binding_tenant_uid : string;
  binding_specification_sha256 : string;
  binding_provider_config_uid : string;
  binding_provider_config_sha256 : string;
  binding_foundation_sha256 : string;
  binding_foundation_defaults_sha256 : string;
  binding_controller_image : string;
  binding_resource_group_id : string;
  binding_virtual_network_id : string;
  binding_tenant_subnet_id : string;
  binding_identity_id : string;
  binding_operation_id : string;
}.

#[export] Instance AzureBindingStatus_eq_dec : EqDecision AzureBindingStatus.
Proof. solve_decision. Defined.

Record AzureManagementStatus := {
  mgmt_namespace_uid : option string;
  mgmt_azure_cluster_identity_uid : option string;
  mgmt_cluster_uid : option string;
  mgmt_azure_cluster_uid : option string;
  mgmt_kamaji_control_plane_uid : option string;
  mgmt_kubeadm_config_uid : option string;
  mgmt_azure_machine_pool_uid : option string;
  mgmt_machine_pool_uid : option string;
  mgmt_cloud_values_config_map_uid : option string;
  mgmt_network_values_config_map_uid : option string;
  mgmt_status_probe_deployment_uid : option string;
  mgmt_addon_job_uid : option string;
}.

#[export] Instance AzureManagementStatus_eq_dec : EqDecision AzureManagementStatus.
Proof. solve_decision. Defined.

Record AzureKubeconfigStatus := { kc_secret_uid : string; kc_content_sha256 : string }.

#[export] Instance AzureKubeconfigStatus_eq_dec : EqDecision AzureKubeconfigStatus.
Proof. solve_decision. Defined.

Record AzureVmssStatus := { vmss_id : option string; vmss_instance_ids : list string }.

#[export] Instance AzureVmssStatus_eq_dec : EqDecision AzureVmssStatus.
Proof. solve_decision. Defined.

Record AzureNodeIdentity := {
  node_name : string;
  node_uid : string;
  node_provider_id : string;
  node_internal_ip : string;
}.

#[export] Instance AzureNodeIdentity_eq_dec : EqDecision AzureNodeIdentity.
Proof. solve_decision. Defined.

Record AzureProviderResourceIdentity := {
  res_api_version : string;
  res_kind : string;
  res_namespace : option string;
  res_name : string;
  res_uid : string;
  res_resource_id : option string;
  res_owner_uids : list string;
}.

#[export] Instance AzureProviderResourceIdentity_eq_dec : EqDecision AzureProviderResourceIdentity.
Proof. solve_decision. Defined.

Record AzureDeletionStatus := {
  del_resource_versions : gmap string string;
  del_verified_azure_resource_ids : list string;
  del_verified_provider_uids : list string;
}.

#[export] Instance AzureDeletionStatus_eq_dec : EqDecision AzureDeletionStatus.
Proof. solve_decision. Defined.

Record AzureProviderStatus := {
  azure_binding : option AzureBindingStatus;
  azure_network_allocation : option AzureAllocationStatus;
  azure_endpoint : option string;
  azure_management : option AzureManagementStatus;
  azure_kubeconfig : option AzureKubeconfigStatus;
  azure_vmss : option AzureVmssStatus;
  azure_nodes : list AzureNodeIdentity;
  azure_addon_components : gmap string string;
  azure_provider_resources : list AzureProviderResourceIdentity;
  azure_deletion : option AzureDeletionStatus;
}.

#[export] Instance AzureProviderStatus_eq_dec : EqDecision AzureProviderStatus.
Proof. solve_decision. Defined.

Definition default_azure : AzureProviderStatus := {|
  azure_binding := None; azure_network_allocation := None; azure_endpoint := None;
  azure_management := None; azure_kubeconfig := None; azure_vmss := None; azure_nodes := [];
  azure_addon_components := ∅; azure_provider_resources := []; azure_deletion := None |}.

Inductive TenantProviderStatus :=
| StatusLocal (status : LocalProviderStatus)
| StatusAzure (status : AzureProviderStatus).

#[export] Instance TenantProviderStatus_eq_dec : EqDecision TenantProviderStatus.
Proof. solve_decision. Defined.

Inductive TenantPhase :=
| PhasePending | PhaseProgressing | PhaseReady | PhaseDeleting | PhaseDegraded
| PhaseFailed | PhaseOwnershipInvalid.

#[export] Instance TenantPhase_eq_dec : EqDecision TenantPhase.
Proof. solve_decision. Defined.

Record TenantStatus := {
  observed_generation : option Z;
  phase : option TenantPhase;
  conditions : list Condition;
  database_capability : option DatabaseCapability;
  catalog_create_intent : option CatalogCreateIntent;
  provider_status : option TenantProviderStatus;
}.

#[export] Instance TenantStatus_eq_dec : EqDecision TenantStatus.
Proof. solve_decision. Defined.

Definition default_status : TenantStatus := {|
  observed_generation := None; phase := None; conditions := [];
  database_capability := None; catalog_create_intent := None; provider_status := None |}.

Record Tenant := {
  tenant_meta : ObjectMeta;
  tenant_spec : TenantSpec;
  tenant_status : option TenantStatus;
}.

#[export] Instance Tenant_eq_dec : EqDecision Tenant.
Proof. solve_decision. Defined.

(** Field updates. *)
Definition with_provider_status (s : TenantStatus) (p : option TenantProviderStatus) : TenantStatus := {|
  observed_generation := observed_generation s; phase := phase s; conditions := conditions s;
  database_capability := database_capability s; catalog_create_intent := catalog_create_intent s;
  provider_status := p |}.
Definition with_phase (s : TenantStatus) (p : option TenantPhase) : TenantStatus := {|
  observed_generation := observed_generation s; phase := p; conditions := conditions s;
  database_capability := database_capability s; catalog_create_intent := catalog_create_intent s;
  provider_status := provider_status s |}.
Definition with_conditions (s : TenantStatus) (c : list Condition) : TenantStatus := {|
  observed_generation := observed_generation s; phase := phase s; conditions := c;
  database_capability := database_capability s; catalog_create_intent := catalog_create_intent s;
  provider_status := provider_status s |}.
Definition with_observed_generation (s : TenantStatus) (g : option Z) : TenantStatus := {|
  observed_generation := g; phase := phase s; conditions := conditions s;
  database_capability := database_capability s; catalog_create_intent := catalog_create_intent s;
  provider_status := provider_status s |}.
Definition with_capability (s : TenantStatus) (c : option DatabaseCapability) : TenantStatus := {|
  observed_generation := observed_generation s; phase := phase s; conditions := conditions s;
  database_capability := c; catalog_create_intent := catalog_create_intent s;
  provider_status := provider_status s |}.
Definition with_intent (s : TenantStatus) (i : option CatalogCreateIntent) : TenantStatus := {|
  observed_generation := observed_generation s; phase := phase s; conditions := conditions s;
  database_capability := database_capability s; catalog_create_intent := i;
  provider_status := provider_status s |}.

Inductive SpecError :=
| SpecName | SpecVersion | SpecUnsupportedVersion | SpecWorkers | SpecProviderStatus.

#[export] Instance SpecError_eq_dec : EqDecision SpecError.
Proof. solve_decision. Defined.

Definition spec_error_display (e : SpecError) : string :=
  match e with
  | SpecName => "tenant name must be a 1-30 character lowercase DNS label"
  | SpecVersion => "kubernetesVersion must be a three-component numeric version"
  | SpecUnsupportedVersion => "kubernetesVersion is not supported by this controller"
  | SpecWorkers => "workers must be an integer from 1 through 3"
  | SpecProviderStatus => "Tenant provider status does not match the requested provider"
  end.

(** ** Accessors of the provider status *)
Definition local (s : TenantStatus) : option LocalProviderStatus :=
  match provider_status s with Some (StatusLocal l) => Some l | _ => None end.

(** [status.local_mut()?] followed by an update [f] of the borrowed value. *)
Definition local_mut (s : TenantStatus) (f : LocalProviderStatus → LocalProviderStatus)
    : result ControllerError TenantStatus :=
  let p := match provider_status s with None => Some (StatusLocal default_local) | p => p end in
  match p with
  | Some (StatusLocal l) => Ok (with_provider_status s (Some (StatusLocal (f l))))
  | _ => Err (OwnershipInvalid (spec_error_display SpecProviderStatus))
  end.

Definition azure (s : TenantStatus) : option AzureProviderStatus :=
  match provider_status s with Some (StatusAzure a) => Some a | _ => None end.

Definition azure_mut (s : TenantStatus) (f : AzureProviderStatus → AzureProviderStatus)
    : result ControllerError TenantStatus :=
  let p := match provider_status s with None => Some (StatusAzure default_azure) | p => p end in
  match p with
  | Some (StatusAzure a) => Ok (with_provider_status s (Some (StatusAzure (f a))))
  | _ => Err (OwnershipInvalid (spec_error_display SpecProviderStatus))
  end.

Definition allocation (s : TenantStatus) : option AllocationStatus :=
  and_then local_allocation (local s).
Definition foundation_hash (s : TenantStatus) : option string :=
  and_then local_foundation_hash (local s).
Definition cluster_uid (s : TenantStatus) : option string :=
  and_then local_cluster_uid (local s).

(** ** Canonical specification *)
Definition label_edge (c : ascii) : bool := is_ascii_lowercase c || is_ascii_digit c.
Definition label_byte (c : ascii) : bool := label_edge c || Ascii.eqb c "-"%char.

Definition first_byte (s : string) : option ascii := hd_error (bytes s).
Definition last_byte (s : string) : option ascii := list.last (bytes s).

Definition version_part (part : string) : bool :=
  non_empty part && all is_ascii_digit (bytes part).

Definition canonical_spec (name : string) (spec : TenantSpec) (supported_version : string)
    : result SpecError TenantSpec :=
  if negb ((1 <=? len name) && (len name <=? 30))
     || negb (is_some_and label_edge (first_byte name))
     || negb (is_some_and label_edge (last_byte name))
     || negb (all label_byte (bytes name))
  then Err SpecName else
  let version := strip_prefix_or (kubernetes_version spec) "v" in
  if negb (length (split version "."%char) =? 3)%nat
     || negb (all version_part (split version "."%char))
  then Err SpecVersion else
  if version != strip_prefix_or supported_version "v"
  then Err SpecUnsupportedVersion else
  if negb ((1 <=? workers spec) && (workers spec <=? 3))
  then Err SpecWorkers else
  Ok {| kubernetes_version := version; workers := workers spec; provider := provider spec |}.

Definition validate_provider_status (spec : TenantSpec) (status : option TenantStatus)
    : result SpecError unit :=
  match and_then provider_status status with
  | None => Ok tt
  | Some p =>
      match provider spec, p with
      | SpecLocal, StatusLocal _ | SpecAzure, StatusAzure _ => Ok tt
      | _, _ => Err SpecProviderStatus
      end
  end.

(** [serde_json::to_vec] of a canonical specification. *)
Class SpecJson := { spec_json : TenantSpec → string }.

Definition spec_hash `{Sha256Ops, SpecJson} (spec : TenantSpec) : string :=
  sha256_hex (spec_json spec).

(** ** The rules of the generated CRD

    [tenant_crd] attaches these rules to the schema; they are the CEL rules
    ["self.metadata.name.matches(...)"] with pattern
    [^[a-z0-9]([-a-z0-9]{0,28}[a-z0-9])?$], the version pattern
    [^v?[0-9]+[.][0-9]+[.][0-9]+$] and the worker range. *)
Definition crd_name_rule (name : string) : Prop :=
  (∃ c, bytes name = [c] ∧ label_edge c = true) ∨
  (∃ c mid d, bytes name = c :: mid ++ [d] ∧ label_edge c = true ∧ label_edge d = true ∧
     (length mid ≤ 28)%nat ∧ all label_byte mid = true).

Definition crd_version_rule (version : string) : Prop :=
  ∃ v a b c, (v = "" ∨ v = "v") ∧ version = v +:+ a +:+ "." +:+ b +:+ "." +:+ c ∧
    version_part a = true ∧ version_part b = true ∧ version_part c = true.

Definition crd_workers_rule (spec : TenantSpec) : Prop := 1 ≤ workers spec ∧ workers spec ≤ 3.

(** The transition rule on the immutable specification and on the catalog
    creation intent, which may be added but never removed or replaced. *)
Definition crd_transition_rule (old new : Tenant) : Prop :=
  tenant_spec new = tenant_spec old ∧
  (∀ i, and_then catalog_create_intent (tenant_status old) = Some i →
        and_then catalog_create_intent (tenant_status new) = Some i).

(** ** Names *)
Definition name_ok (name : string) : bool :=
  ((1 <=? len name) && (len name <=? 30)) && is_some_and label_edge (first_byte name)
  && is_some_and label_edge (last_byte name) && all label_byte (bytes name).

Lemma name_guard name :
  negb ((1 <=? len name) && (len name <=? 30))
  || negb (is_some_and label_edge (first_byte name))
  || negb (is_some_and label_edge (last_byte name))
  || negb (all label_byte (bytes name)) = negb (name_ok name).
Proof. unfold name_ok. by rewrite !negb_andb. Qed.

Lemma label_edge_byte c : label_edge c = true → label_byte c = true.
Proof. unfold label_byte. by intros ->. Qed.

Lemma len_bytes s : len s = Z.of_nat (length (bytes s)).
Proof. unfold len. by rewrite bytes_length. Qed.

Lemma name_ok_crd name : name_ok name = true ↔ crd_name_rule name.
Proof.
  unfold name_ok, first_byte, last_byte, crd_name_rule. rewrite len_bytes.
  generalize (bytes name) as l. intros l. split.
  - rewrite !andb_true_iff, all_true. intros [[[Hlen Hfirst] Hlast] Hall].
    destruct l as [|c l]; [done|]. simpl in Hfirst.
    destruct l as [|d l _] using rev_ind; [left; eauto|right].
    rewrite app_comm_cons, last_snoc in Hlast. simpl in Hlast, Hlen.
    rewrite length_app in Hlen. simpl in Hlen.
    exists c, l, d. split_and!; [done..|lia|].
    apply all_true. intros x Hx. apply Hall. set_solver.
  - intros [(c & -> & Hc)|(c & mid & d & -> & Hc & Hd & Hlen & Hmid)]; simpl.
    + by rewrite Hc, (label_edge_byte c Hc).
    + rewrite Hc, app_comm_cons, last_snoc. simpl. rewrite Hd, length_app. simpl.
      assert (all label_byte (mid ++ [d]) = true) as ->.
      { apply all_true. intros x [Hx|Hx]%elem_of_app.
        - by apply (proj1 (all_true _ _) Hmid).
        - apply list_elem_of_singleton in Hx as ->. by apply label_edge_byte. }
      rewrite (label_edge_byte c Hc). lia.
Qed.

(** ** Versions *)
Definition version_ok (version : string) : bool :=
  (length (split version "."%char) =? 3)%nat && all version_part (split version "."%char).

Lemma version_guard v :
  negb (length (split v "."%char) =? 3)%nat || negb (all version_part (split v "."%char))
  = negb (version_ok v).
Proof. unfold version_ok. by rewrite negb_andb. Qed.

Lemma version_part_no_dot p : version_part p = true → contains_char p "."%char = false.
Proof. unfold version_part. intros H. bool_hyp. by apply digits_no_char. Qed.

Lemma version_ok_parts v :
  version_ok v = true ↔
  ∃ a b c, v = a +:+ "." +:+ b +:+ "." +:+ c ∧
    version_part a = true ∧ version_part b = true ∧ version_part c = true.
Proof.
  unfold version_ok. split.
  - intros H. bool_hyp. destruct (split v "."%char) as [|a [|b [|c [|]]]] eqn:Hs; try done.
    rewrite <-(join_split v "."%char), Hs. simpl in *. bool_hyp. eauto 10.
  - intros (a & b & c & -> & Ha & Hb & Hc).
    assert (Heq : split (a +:+ "." +:+ b +:+ "." +:+ c) "."%char = [a; b; c]).
    { apply version_part_no_dot in Ha, Hb, Hc.
      rewrite !append_cons, !append_nil_l.
      by rewrite split_piece, split_piece, split_single. }
    rewrite Heq. simpl. by rewrite Ha, Hb, Hc.
Qed.

(** A three-component numeric version does not start with ['v']. *)
Lemma version_ok_no_v v : version_ok v = true → strip_prefix v "v" = None.
Proof.
  intros (a & b & c & -> & Ha & _)%version_ok_parts.
  unfold version_part in Ha. bool_hyp. destruct a as [|x a]; [done|].
  autorewrite with rust. cbn [strip_prefix].
  destruct (Ascii.eqb_spec "v"%char x) as [<-|]; done.
Qed.

Lemma version_ok_strip v : version_ok v = true → strip_prefix_or v "v" = v.
Proof. intros H%version_ok_no_v. unfold strip_prefix_or. by rewrite H. Qed.

Lemma version_ok_crd v : version_ok (strip_prefix_or v "v") = true ↔ crd_version_rule v.
Proof.
  unfold crd_version_rule. split.
  - intros H. unfold strip_prefix_or in H.
    destruct (strip_prefix v "v") as [w|] eqn:Hw; simpl in H;
      apply version_ok_parts in H as (a & b & c & Heq & Hparts).
    + apply strip_prefix_spec in Hw as ->. exists "v", a, b, c. rewrite Heq. eauto 10.
    + exists "", a, b, c. eauto 10.
  - intros (p & a & b & c & Hp & -> & Hparts).
    assert (Hok : version_ok (a +:+ "." +:+ b +:+ "." +:+ c) = true)
      by (apply version_ok_parts; eauto 10).
    destruct Hp as [-> | ->]; [by rewrite append_nil_l, version_ok_strip|done].
Qed.

(** The closed form of [canonical_spec]. *)
Lemma canonical_spec_eq name spec sup :
  canonical_spec name spec sup =
  (if negb (name_ok name) then Err SpecName else
   let version := strip_prefix_or (kubernetes_version spec) "v" in
   if negb (version_ok version) then Err SpecVersion else
   if version != strip_prefix_or sup "v" then Err SpecUnsupportedVersion else
   if negb ((1 <=? workers spec) && (workers spec <=? 3)) then Err SpecWorkers else
   Ok {| kubernetes_version := version; workers := workers spec; provider := provider spec |}).
Proof. unfold canonical_spec. by rewrite name_guard, version_guard. Qed.

Lemma canonical_spec_Ok name spec sup c :
  canonical_spec name spec sup = Ok c ↔
  name_ok name = true ∧ version_ok (kubernetes_version c) = true ∧
  kubernetes_version c = strip_prefix_or (kubernetes_version spec) "v" ∧
  kubernetes_version c = strip_prefix_or sup "v" ∧
  1 ≤ workers spec ≤ 3 ∧ workers c = workers spec ∧ provider c = provider spec.
Proof.
  rewrite canonical_spec_eq. split.
  - intros H. simpl in H. run H. simpl. split_and!; [done..|lia|lia|done|done].
  - intros (Hn & Hv & Hs & Hsup & Hw & Hwc & Hp). simpl.
    rewrite Hn, <-Hs, Hv, bool_decide_eq_true_2 by done. simpl.
    replace ((1 <=? workers spec) && (workers spec <=? 3)) with true by lia.
    simpl. by destruct c; simplify_eq/=.
Qed.

(** C40. [canonical_spec] accepts exactly the Tenants that the generated CRD
    admits and whose version is the supported one: the byte checks of the
    controller and the regular expressions, range rule and version pattern the
    CRD carries describe the same set. *)
Theorem canonical_spec_matches_crd name spec sup :
  (∃ c, canonical_spec name spec sup = Ok c) ↔
  crd_name_rule name ∧ crd_version_rule (kubernetes_version spec) ∧ crd_workers_rule spec ∧
  strip_prefix_or (kubernetes_version spec) "v" = strip_prefix_or sup "v".
Proof.
  rewrite <-name_ok_crd, <-version_ok_crd. unfold crd_workers_rule. split.
  - intros [c (Hn & Hv & Hs & Hsup & Hw & _)%canonical_spec_Ok].
    rewrite <-Hs, <-Hsup. split_and!; [done..|lia|lia|done].
  - intros (Hn & Hv & Hw & Hsup).
    eexists {| kubernetes_version := _; workers := _; provider := _ |}.
    apply canonical_spec_Ok. simpl. eauto 10.
Qed.

(** Canonicalisation is idempotent, and the hash every owned object is
    annotated with does not depend on how the version was written: two
    accepted specifications of the same workers and provider, for the same
    supported version, have the same canonical form and hash. *)
Theorem canonical_spec_canonical `{Sha256Ops, SpecJson} name name' spec spec' sup sup' c c' :
  canonical_spec name spec sup = Ok c →
  canonical_spec name' spec' sup' = Ok c' →
  workers spec = workers spec' → provider spec = provider spec' →
  strip_prefix_or sup "v" = strip_prefix_or sup' "v" →
  canonical_spec name c sup = Ok c ∧ c = c' ∧ spec_hash c = spec_hash c'.
Proof.
  intros (Hn & Hv & Hs & Hsup & Hw & Hwc & Hp)%canonical_spec_Ok
    (Hn' & Hv' & Hs' & Hsup' & Hw' & Hwc' & Hp')%canonical_spec_Ok Hweq Hpeq Hsupeq.
  assert (c = c') as <- by (destruct c, c'; simplify_eq/=; congruence).
  split; [|done]. apply canonical_spec_Ok. rewrite version_ok_strip by done.
  rewrite Hwc. eauto 10.
Qed.

Definition witness_spec_json : SpecJson := {| spec_json s := kubernetes_version s |}.
Definition witness_spec (v : string) : TenantSpec :=
  {| kubernetes_version := v; workers := 2; provider := SpecLocal |}.

Lemma canonical_spec_canonical_witness :
  canonical_spec "tenant-a" (witness_spec "1.36.4") "1.36.4" = Ok (witness_spec "1.36.4") ∧
  witness_spec "1.36.4" = witness_spec "1.36.4" ∧
  @spec_hash Concrete.hex_ops witness_spec_json (witness_spec "1.36.4") =
  @spec_hash Concrete.hex_ops witness_spec_json (witness_spec "1.36.4").
Proof.
  apply (@canonical_spec_canonical Concrete.hex_ops witness_spec_json "tenant-a" "tenant-b"
           (witness_spec "v1.36.4") (witness_spec "1.36.4") "1.36.4" "v1.36.4"); reflexivity.
Defined.

(** When the provider status matches the specification, the mutable
    accessor of that provider cannot fail, keeps the status matching, leaves
    every other field alone, and the other provider's accessor reads nothing. *)
Theorem provider_status_accessors spec status f g :
  validate_provider_status spec status = Ok tt →
  let s := unwrap_or default_status status in
  (provider spec = SpecLocal →
     azure s = None ∧
     ∃ s', local_mut s f = Ok s' ∧ validate_provider_status spec (Some s') = Ok tt ∧
           local s' = Some (f (unwrap_or default_local (local s))) ∧
           s = with_provider_status s' (provider_status s)) ∧
  (provider spec = SpecAzure →
     local s = None ∧
     ∃ s', azure_mut s g = Ok s' ∧ validate_provider_status spec (Some s') = Ok tt ∧
           azure s' = Some (g (unwrap_or default_azure (azure s))) ∧
           s = with_provider_status s' (provider_status s)).
Proof.
  unfold validate_provider_status, local, azure, local_mut, azure_mut, and_then, unwrap_or.
  intros Hv. simpl. split; intros Hp; rewrite Hp in Hv |- *;
    (destruct status as [[og ph co db ci [[l|a]|]]|]; simplify_eq/=; (split; [done|]);
     eexists; split_and!; done).
Qed.

Lemma provider_status_accessors_witness :
  validate_provider_status (witness_spec "1.36.4") None = Ok tt ∧
  ((provider (witness_spec "1.36.4") = SpecLocal →
     azure default_status = None ∧
     ∃ s', local_mut default_status id = Ok s' ∧
           validate_provider_status (witness_spec "1.36.4") (Some s') = Ok tt ∧
           local s' = Some (id default_local) ∧
           default_status = with_provider_status s' (provider_status default_status)) ∧
   (provider (witness_spec "1.36.4") = SpecAzure →
     local default_status = None ∧
     ∃ s', azure_mut default_status id = Ok s' ∧
           validate_provider_status (witness_spec "1.36.4") (Some s') = Ok tt ∧
           azure s' = Some (id default_azure) ∧
           default_status = with_provider_status s' (provider_status default_status))).
Proof.
  split; [reflexivity|].
  exact (provider_status_accessors (witness_spec "1.36.4") None id id eq_refl).
Defined.
