(* ===== verification/Management.v ===== *)
(** * The catalogue of management resources

    [database-runtime/src/management.rs]: the kinds of objects the controller
    creates, watches, inventories and deletes, their expected names and parents,
    and the policies that decide which instances block an activation. *)

From S2P Require Import Prelude RustStd.

Inductive ResourceClass := Root | Descendant | Typed.
Inductive InventoryPolicy :=
| BlockAnyInstance | TenantMarkers | TenantMarkersOrKamajiOwner | AllocationMarkers.
Inductive NamePolicy :=
| NameTenant | NameWorker | NameKubeconfig | NameIdentity | NameCloudValues
| NameNetworkValues | NameStatusProbe | NameAddonJob | NameObserved | NameAllocation.
Inductive EvidencePolicy := EvidenceNamed | EvidenceObserved | EvidenceAllocation.

#[export] Instance ResourceClass_eq_dec : EqDecision ResourceClass.
Proof. solve_decision. Defined.
#[export] Instance InventoryPolicy_eq_dec : EqDecision InventoryPolicy.
Proof. solve_decision. Defined.
#[export] Instance NamePolicy_eq_dec : EqDecision NamePolicy.
Proof. solve_decision. Defined.
#[export] Instance EvidencePolicy_eq_dec : EqDecision EvidencePolicy.
Proof. solve_decision. Defined.

Record ManagementResource := {
  mr_api_version : string;
  mr_kind : string;
  mr_plural : string;
  mr_namespaced : bool;
  mr_role : string;
  mr_class : ResourceClass;
  mr_parent_kind : option string;
  mr_alternate_parent_kind : option string;
  mr_name_policy : NamePolicy;
  mr_watched : bool;
  mr_watch_name_suffix : option string;
  mr_watch_cluster_label : option string;
  mr_inventory_policy : InventoryPolicy;
  mr_inventory_namespace : option string;
  mr_evidence_policy : EvidencePolicy;
  mr_exemptions : list string;
}.

#[export] Instance ManagementResource_eq_dec : EqDecision ManagementResource.
Proof. solve_decision. Defined.

(** [s.split_once('/').unwrap_or(("", s))] on the first separator. *)
Definition group_version (api_version : string) : string * string :=
  match split api_version "/"%char with
  | [] | [_] => ("", api_version)
  | g :: rest => (g, join "/" rest)
  end.

(** Group, version, kind and plural of the API resource. *)
Definition api_resource (r : ManagementResource) : string * string * string * string :=
  let '(group, version) := group_version (mr_api_version r) in
  (group, version, mr_kind r, mr_plural r).

Definition inventory_path (r : ManagementResource) : string :=
  let '(group, version) := group_version (mr_api_version r) in
  let base := if is_empty group then "/api/" +:+ version
              else "/apis/" +:+ group +:+ "/" +:+ version in
  match mr_inventory_namespace r with
  | None => base +:+ "/" +:+ mr_plural r
  | Some namespace => base +:+ "/namespaces/" +:+ namespace +:+ "/" +:+ mr_plural r
  end.

Definition expected_name (r : ManagementResource) (tenant : string) : option string :=
  match mr_name_policy r with
  | NameTenant => Some tenant
  | NameWorker => Some (tenant +:+ "-worker")
  | NameKubeconfig => Some (tenant +:+ "-kubeconfig")
  | NameIdentity => Some (tenant +:+ "-identity")
  | NameCloudValues => Some (tenant +:+ "-azure-cloud-provider-values")
  | NameNetworkValues => Some (tenant +:+ "-calico-values")
  | NameStatusProbe => Some (tenant +:+ "-status-probe")
  | NameAddonJob => Some (tenant +:+ "-install-addons")
  | NameObserved | NameAllocation => None
  end.

Definition exempts_unmarked (r : ManagementResource) : bool :=
  ((mr_kind r == "Namespace") && (mr_inventory_policy r == TenantMarkers)
     && (mr_exemptions r == ["management-infrastructure"]))
  || ((mr_kind r == "Secret") && (mr_inventory_policy r == TenantMarkersOrKamajiOwner)
     && (mr_exemptions r == ["controller-installation-secrets"]))
  || ((mr_kind r == "Lease") && (mr_inventory_policy r == AllocationMarkers)
     && (mr_exemptions r == ["controller-leader-election"])).

Definition valid_inventory_contract (r : ManagementResource) : bool :=
  if mr_inventory_policy r == BlockAnyInstance then mr_exemptions r == []
  else exempts_unmarked r.

(** ** The macros building catalogue entries *)
Definition azure_entry (api kind plural : string) (namespaced : bool) (role : string)
    (cls : ResourceClass) (parent alternate : option string) (nm : NamePolicy) (watched : bool)
    (suffix label : option string) : ManagementResource := {|
  mr_api_version := api; mr_kind := kind; mr_plural := plural; mr_namespaced := namespaced;
  mr_role := role; mr_class := cls; mr_parent_kind := parent;
  mr_alternate_parent_kind := alternate; mr_name_policy := nm; mr_watched := watched;
  mr_watch_name_suffix := suffix; mr_watch_cluster_label := label;
  mr_inventory_policy := BlockAnyInstance; mr_inventory_namespace := None;
  mr_evidence_policy := match cls with Root => EvidenceNamed | _ => EvidenceObserved end;
  mr_exemptions := [] |}.

Definition cluster_name_label := "cluster.x-k8s.io/cluster-name".

Definition entry (api kind plural role : string) (cls : ResourceClass)
    (parent alternate : option string) (nm : NamePolicy) (watched : bool) : ManagementResource :=
  azure_entry api kind plural true role cls parent alternate nm watched None
    (if watched then Some cluster_name_label else None).

Definition root (api kind plural role : string) (parent : option string) (nm : NamePolicy) :=
  entry api kind plural role Root parent None nm true.

Definition descendant (api kind plural role parent : string) (watched : bool) :=
  entry api kind plural role Descendant (Some parent) None NameObserved watched.

Definition typed (api kind plural : string) (namespaced : bool) (role : string)
    (parent : option string) (nm : NamePolicy) (suffix : option string)
    (policy : InventoryPolicy) (namespace : option string) (evidence : EvidencePolicy)
    (exemption : string) : ManagementResource := {|
  mr_api_version := api; mr_kind := kind; mr_plural := plural; mr_namespaced := namespaced;
  mr_role := role; mr_class := Typed; mr_parent_kind := parent;
  mr_alternate_parent_kind := None; mr_name_policy := nm; mr_watched := true;
  mr_watch_name_suffix := suffix; mr_watch_cluster_label := None;
  mr_inventory_policy := policy; mr_inventory_namespace := namespace;
  mr_evidence_policy := evidence; mr_exemptions := [exemption] |}.

Definition azure_root (api kind plural : string) (namespaced : bool) (role : string)
    (parent : option string) (nm : NamePolicy) : ManagementResource :=
  azure_entry api kind plural namespaced role Root parent None nm true None
    (Some cluster_name_label).

Definition azure_descendant (api kind plural : string) (namespaced : bool) (role parent : string)
    (watched : bool) : ManagementResource :=
  azure_entry api kind plural namespaced role Descendant (Some parent) None NameObserved watched
    None (if watched then Some cluster_name_label else None).

Definition MANAGEMENT_RESOURCES : list ManagementResource := [
  root "cluster.x-k8s.io/v1beta2" "Cluster" "clusters" "cluster" None NameTenant;
  root "infrastructure.cluster.x-k8s.io/v1beta2" "DevCluster" "devclusters" "dev-cluster" (Some "Cluster") NameTenant;
  root "controlplane.cluster.x-k8s.io/v1alpha2" "KamajiControlPlane" "kamajicontrolplanes" "kamaji-control-plane" (Some "Cluster") NameTenant;
  entry "bootstrap.cluster.x-k8s.io/v1beta2" "KubeadmConfigTemplate" "kubeadmconfigtemplates" "kubeadm-config-template" Root (Some "Cluster") (Some "MachineDeployment") NameWorker true;
  entry "infrastructure.cluster.x-k8s.io/v1beta2" "DevMachineTemplate" "devmachinetemplates" "dev-machine-template" Root (Some "Cluster") (Some "MachineDeployment") NameWorker true;
  root "cluster.x-k8s.io/v1beta2" "MachineDeployment" "machinedeployments" "machine-deployment" (Some "Cluster") NameWorker;
  descendant "cluster.x-k8s.io/v1beta2" "MachineSet" "machinesets" "machine" "MachineDeployment" true;
  descendant "cluster.x-k8s.io/v1beta2" "Machine" "machines" "machine" "MachineSet" true;
  descendant "infrastructure.cluster.x-k8s.io/v1beta2" "DevMachine" "devmachines" "machine" "Machine" true;
  descendant "bootstrap.cluster.x-k8s.io/v1beta2" "KubeadmConfig" "kubeadmconfigs" "machine" "Machine" false;
  descendant "kamaji.clastix.io/v1alpha1" "TenantControlPlane" "tenantcontrolplanes" "provider" "KamajiControlPlane" false;
  typed "v1" "Namespace" "namespaces" false "namespace" None NameTenant None TenantMarkers None EvidenceNamed "management-infrastructure";
  typed "v1" "Secret" "secrets" true "tenant-kubeconfig" (Some "KamajiControlPlane") NameKubeconfig (Some "-kubeconfig") TenantMarkersOrKamajiOwner None EvidenceNamed "controller-installation-secrets";
  typed "coordination.k8s.io/v1" "Lease" "leases" true "allocation-lease" None NameAllocation None AllocationMarkers (Some "tenant-system") EvidenceAllocation "controller-leader-election"
].

Definition AZURE_MANAGEMENT_RESOURCES : list ManagementResource := [
  azure_entry "v1" "Namespace" "namespaces" false "namespace" Typed None None NameTenant true None None;
  azure_root "infrastructure.cluster.x-k8s.io/v1beta1" "AzureClusterIdentity" "azureclusteridentities" true "azure-cluster-identity" None NameIdentity;
  azure_root "cluster.x-k8s.io/v1beta1" "Cluster" "clusters" true "cluster" None NameTenant;
  azure_root "infrastructure.cluster.x-k8s.io/v1beta1" "AzureCluster" "azureclusters" true "azure-cluster" (Some "Cluster") NameTenant;
  azure_root "controlplane.cluster.x-k8s.io/v1alpha1" "KamajiControlPlane" "kamajicontrolplanes" true "kamaji-control-plane" (Some "Cluster") NameTenant;
  azure_root "bootstrap.cluster.x-k8s.io/v1beta1" "KubeadmConfig" "kubeadmconfigs" true "kubeadm-config" (Some "MachinePool") NameWorker;
  azure_root "infrastructure.cluster.x-k8s.io/v1beta1" "AzureMachinePool" "azuremachinepools" true "azure-machine-pool" (Some "MachinePool") NameWorker;
  azure_root "cluster.x-k8s.io/v1beta1" "MachinePool" "machinepools" true "machine-pool" (Some "Cluster") NameWorker;
  azure_entry "v1" "ConfigMap" "configmaps" true "addon-values" Root None None NameObserved true None None;
  azure_root "apps/v1" "Deployment" "deployments" true "status-probe" None NameStatusProbe;
  azure_root "batch/v1" "Job" "jobs" true "addon-job" None NameAddonJob;
  azure_entry "v1" "Secret" "secrets" true "tenant-kubeconfig" Typed (Some "KamajiControlPlane") None NameKubeconfig true (Some "-kubeconfig") None;
  azure_descendant "cluster.x-k8s.io/v1beta1" "Machine" "machines" true "machine" "MachinePool" true;
  azure_descendant "cluster.x-k8s.io/v1beta1" "MachineSet" "machinesets" true "machine-set" "MachinePool" true;
  azure_descendant "infrastructure.cluster.x-k8s.io/v1beta1" "AzureMachinePoolMachine" "azuremachinepoolmachines" true "azure-machine-pool-machine" "AzureMachinePool" true;
  azure_descendant "kamaji.clastix.io/v1alpha1" "TenantControlPlane" "tenantcontrolplanes" true "provider" "KamajiControlPlane" false;
  azure_descendant "cert-manager.io/v1" "Certificate" "certificates" true "provider-certificate" "KamajiControlPlane" false;
  azure_descendant "cert-manager.io/v1" "CertificateRequest" "certificaterequests" true "provider-certificate-request" "Certificate" false;
  azure_descendant "cert-manager.io/v1" "Issuer" "issuers" true "provider-issuer" "KamajiControlPlane" false;
  azure_descendant "v1" "Service" "services" true "provider-service" "KamajiControlPlane" true;
  azure_descendant "apps/v1" "StatefulSet" "statefulsets" true "provider-stateful-set" "KamajiControlPlane" true;
  azure_descendant "v1" "PersistentVolumeClaim" "persistentvolumeclaims" true "provider-pvc" "StatefulSet" false;
  azure_descendant "policy/v1" "PodDisruptionBudget" "poddisruptionbudgets" true "provider-pdb" "KamajiControlPlane" false;
  azure_descendant "rbac.authorization.k8s.io/v1" "Role" "roles" true "provider-role" "KamajiControlPlane" false;
  azure_descendant "rbac.authorization.k8s.io/v1" "RoleBinding" "rolebindings" true "provider-role-binding" "KamajiControlPlane" false;
  azure_descendant "resources.azure.com/v1api20200601" "ResourceGroup" "resourcegroups" true "aso-resource-group" "AzureCluster" false;
  azure_descendant "network.azure.com/v1api20201101" "VirtualNetwork" "virtualnetworks" true "aso-virtual-network" "AzureCluster" false;
  azure_descendant "network.azure.com/v1api20201101" "VirtualNetworksSubnet" "virtualnetworkssubnets" true "aso-subnet" "AzureCluster" false;
  azure_descendant "network.azure.com/v1api20220701" "NatGateway" "natgateways" true "aso-nat-gateway" "AzureCluster" false
].

Definition azure_inventory : list ManagementResource :=
  filter_list (λ r, mr_namespaced r
    && ((mr_class r == Descendant)
        || any (String.eqb (mr_kind r)) ["ConfigMap"; "Deployment"; "Secret"]))
    AZURE_MANAGEMENT_RESOURCES.

Definition roots : list ManagementResource :=
  filter_list (λ r, mr_class r == Root) MANAGEMENT_RESOURCES.
Definition descendants : list ManagementResource :=
  filter_list (λ r, mr_class r == Descendant) MANAGEMENT_RESOURCES.
Definition watched : list ManagementResource :=
  filter_list mr_watched MANAGEMENT_RESOURCES.
Definition by_kind (kind : string) : option ManagementResource :=
  find_first (λ r, mr_kind r == kind) MANAGEMENT_RESOURCES.
Definition azure_by_kind (kind : string) : option ManagementResource :=
  find_first (λ r, mr_kind r == kind) AZURE_MANAGEMENT_RESOURCES.
Definition azure_watched : list ManagementResource :=
  filter_list mr_watched AZURE_MANAGEMENT_RESOURCES.

(** ** Facts *)
Example roots_kinds : map mr_kind roots =
  ["Cluster"; "DevCluster"; "KamajiControlPlane"; "KubeadmConfigTemplate";
   "DevMachineTemplate"; "MachineDeployment"].
Proof. reflexivity. Qed.

Example lease_inventory_path :
  (inventory_path <$> by_kind "Lease") =
  Some "/apis/coordination.k8s.io/v1/namespaces/tenant-system/leases".
Proof. reflexivity. Qed.

(** Every parent kind a catalogue entry names is itself in the catalogue, and
    the parents of roots have a declared name for every tenant: the look-ups
    of the ownership checks and of the finalizer never fail. *)
Definition parents_resolve (catalogue : list ManagementResource) : bool :=
  all (λ r, all (λ parent,
    is_some_and (λ p, (mr_class p != Descendant) || (mr_class r != Root))
      (find_first (λ p, mr_kind p == parent) catalogue))
    (option_list (mr_parent_kind r) ++ option_list (mr_alternate_parent_kind r))) catalogue.

Definition kinds_unique (catalogue : list ManagementResource) : bool :=
  bool_decide (NoDup (map mr_kind catalogue)).

Lemma management_resources_wf :
  parents_resolve MANAGEMENT_RESOURCES = true ∧ kinds_unique MANAGEMENT_RESOURCES = true ∧
  parents_resolve AZURE_MANAGEMENT_RESOURCES = true ∧ kinds_unique AZURE_MANAGEMENT_RESOURCES = true.
Proof. vm_compute. done. Qed.

(** Roots always have a declared name. *)
Lemma roots_named r tenant : r ∈ roots → is_Some (expected_name r tenant).
Proof.
  intros Hr. assert (H : all (λ r, is_some (expected_name r "")) roots = true) by reflexivity.
  rewrite all_true in H. specialize (H r Hr). unfold expected_name in *.
  by destruct (mr_name_policy r).
Qed.
