(* ===== verification/Ownership.v ===== *)
(** * Ownership checks

    [controller/src/ownership.rs]: the annotations and labels that mark an
    object as belonging to a Tenant, the checks of roots, provider owners and
    kubeconfig Secrets, and the walk along an owner chain.  The walk is a loop
    over the inventory; it runs with fuel and [owner_chain_terminates] shows
    that one step per inventory entry is enough. *)

From S2P Require Import Prelude RustStd Kube Api Management.

Definition TENANT_ANNOTATION := "tenancy.cnpg-vcluster.io/tenant".
Definition TENANT_UID_ANNOTATION := "tenancy.cnpg-vcluster.io/tenant-uid".
Definition SPEC_HASH_ANNOTATION := "tenancy.cnpg-vcluster.io/spec-hash".
Definition FOUNDATION_ANNOTATION := "tenancy.cnpg-vcluster.io/foundation-hash".
Definition RESOURCE_ANNOTATION := "tenancy.cnpg-vcluster.io/resource".

Record Identity := {
  id_tenant_name : string;
  id_tenant_uid : string;
  id_spec_hash : string;
  id_foundation_hash : string;
  id_ownership_label : string;
  id_lab_prefix : string;
}.

Definition identity_labels (i : Identity) : gmap string string :=
  {[ id_ownership_label i := id_lab_prefix i ]}.

Definition identity_annotation_list (i : Identity) (resource : string) : list (string * string) := [
  (TENANT_ANNOTATION, id_tenant_name i);
  (TENANT_UID_ANNOTATION, id_tenant_uid i);
  (SPEC_HASH_ANNOTATION, id_spec_hash i);
  (FOUNDATION_ANNOTATION, id_foundation_hash i);
  (RESOURCE_ANNOTATION, resource)].

Definition identity_annotations (i : Identity) (resource : string) : gmap string string :=
  collect_map (identity_annotation_list i resource).

Inductive OwnershipError :=
| MissingUid (what : string)
| Markers (what : string)
| TenantOwner (what : string)
| ProviderOwnerPending
| ProviderOwner (what : string)
| OwnerChain (what : string)
| Cycle
| ApiVersion
| MissingOwner (what : string)
| DuplicateOwner (what : string)
| OwnerUid
| ClusterUid (expected actual : string)
| SecretContract
| SecretOwner.

#[export] Instance OwnershipError_eq_dec : EqDecision OwnershipError.
Proof. solve_decision. Defined.

Definition ownership_display (e : OwnershipError) : string :=
  match e with
  | MissingUid w => w +:+ " has no UID"
  | Markers w => w +:+ " ownership markers do not match the Tenant"
  | TenantOwner w => w +:+ " must not have a Tenant owner reference"
  | ProviderOwnerPending => "provider owner is pending"
  | ProviderOwner w => w +:+ " has an unexpected provider owner"
  | OwnerChain w => w +:+ " has no exact provider owner chain"
  | Cycle => "provider owner chain contains a cycle"
  | ApiVersion => "provider owner API version is invalid"
  | MissingOwner w => "provider owner " +:+ w +:+ " is missing from the live inventory"
  | DuplicateOwner w => "provider owner " +:+ w +:+ " occurs more than once in the live inventory"
  | OwnerUid => "provider owner UID mismatch"
  | ClusterUid e a => "Cluster identity changed from " +:+ e +:+ " to " +:+ a
  | SecretContract => "Tenant kubeconfig Secret contract is invalid"
  | SecretOwner => "Tenant kubeconfig Secret ownership cannot be proven"
  end.

Definition validate_tenant_object_ownership (object : ObjectMeta) (i : Identity) (resource : string)
    : result OwnershipError unit :=
  if any (λ kv : string * string, get_annotation object kv.1 != Some kv.2)
         (map_to_list (identity_annotations i resource))
  then Err (Markers resource) else Ok tt.

Definition validate_root_ownership (object : ObjectMeta) (i : Identity) (resource : string)
    : result OwnershipError unit :=
  if is_none_or is_empty (uid object) then Err (MissingUid resource) else
  if get_label object (id_ownership_label i) != Some (id_lab_prefix i)
  then Err (Markers resource) else
  let! _ := validate_tenant_object_ownership object i resource in
  if any (λ owner, (owner_api_version owner == GROUP +:+ "/" +:+ VERSION)
                   && (owner_kind owner == "Tenant")) (owners_of object)
  then Err (TenantOwner resource) else Ok tt.

Definition validate_cluster_uid (tenant : Tenant) (object : ObjectMeta) : result OwnershipError unit :=
  match and_then cluster_uid (tenant_status tenant) with
  | Some expected =>
      if non_empty expected && (uid object != Some expected)
      then Err (ClusterUid expected (unwrap_or "" (uid object))) else Ok tt
  | None => Ok tt
  end.

Definition kind (object : DynamicObject) : string :=
  match dyn_types object with Some t => tm_kind t | None => "" end.

Definition description (object : DynamicObject) : string :=
  kind object +:+ "/" +:+ unwrap_or "" (name (dyn_meta object)).

Definition owners (object : DynamicObject) : list OwnerReference := owners_of (dyn_meta object).

Definition lookup_matches (ns : option string) (api_version knd nm : string)
    (object : DynamicObject) : bool :=
  is_some_and (λ t, (tm_api_version t == api_version) && (tm_kind t == knd)) (dyn_types object)
  && (namespace (dyn_meta object) == ns) && (name (dyn_meta object) == Some nm).

Definition lookup (inventory : list DynamicObject) (ns : option string) (api_version knd nm : string)
    : result OwnershipError (option DynamicObject) :=
  match filter_list (lookup_matches ns api_version knd nm) inventory with
  | [] => Ok None
  | [found] => Ok (Some found)
  | _ :: _ :: _ => Err (DuplicateOwner (knd +:+ "/" +:+ nm))
  end.

Definition reference_matches (owner : OwnerReference) (object : DynamicObject) : bool :=
  non_empty (owner_uid owner)
  && (uid (dyn_meta object) == Some (owner_uid owner))
  && (name (dyn_meta object) == Some (owner_name owner))
  && is_some_and (λ t, (tm_api_version t == owner_api_version owner) && (tm_kind t == owner_kind owner))
       (dyn_types object).

(** [parts.len() > 2 || parts.iter().any(|part| part.is_empty())] *)
Definition api_version_invalid (api_version : string) : bool :=
  let parts := split api_version "/"%char in
  (2 <? length parts)%nat || any is_empty parts.

(** One iteration of the loop of [validate_owner_chain]: stop with a result, or
    go on with the next object and the visited UIDs. *)
Definition chain_step (root : string) (inventory : list DynamicObject)
    (current : DynamicObject) (visited : gset string)
    : result OwnershipError (option (DynamicObject * gset string)) :=
  let! u := ok_or (filter_non_empty (uid (dyn_meta current))) (MissingUid (description current)) in
  if u == root then Ok None else
  if bool_decide (u ∈ visited) then Err Cycle else
  match owners current with
  | [owner] =>
      if is_empty (owner_uid owner) then Err (OwnerChain (description current)) else
      if api_version_invalid (owner_api_version owner) then Err ApiVersion else
      let! found := lookup inventory (namespace (dyn_meta current)) (owner_api_version owner)
                      (owner_kind owner) (owner_name owner) in
      let! next := ok_or found (MissingOwner (owner_kind owner +:+ "/" +:+ owner_name owner)) in
      if uid (dyn_meta next) != Some (owner_uid owner) then Err OwnerUid
      else Ok (Some (next, {[u]} ∪ visited))
  | _ => Err (OwnerChain (description current))
  end.

Fixpoint chain_loop (fuel : nat) (root : string) (inventory : list DynamicObject)
    (current : DynamicObject) (visited : gset string) : option (result OwnershipError unit) :=
  match fuel with
  | O => None
  | S fuel' =>
      match chain_step root inventory current visited with
      | Err e => Some (Err e)
      | Ok None => Some (Ok tt)
      | Ok (Some (next, visited')) => chain_loop fuel' root inventory next visited'
      end
  end.

Definition validate_owner_chain (object : DynamicObject) (expected_root_uid : string)
    (inventory : list DynamicObject) : result OwnershipError unit :=
  if is_empty expected_root_uid then Err (MissingUid "provider root") else
  match chain_loop (length inventory + 2) expected_root_uid inventory object ∅ with
  | Some r => r
  | None => Err Cycle
  end.

Definition find_kind (k : string) : option ManagementResource :=
  find_first (λ r, mr_kind r == k) MANAGEMENT_RESOURCES.

(** The loop over the parent kind and the alternate parent kind. *)
Fixpoint parents_match (owner : OwnerReference) (object : DynamicObject) (tenant_name : string)
    (inventory : list DynamicObject) (parents : list string) : result OwnershipError unit :=
  match parents with
  | [] => Err (ProviderOwner (description object))
  | parent_kind :: rest =>
      let! parent := ok_or (find_kind parent_kind) ApiVersion in
      let! expected := ok_or (expected_name parent tenant_name) ApiVersion in
      let! observed := lookup inventory (Some tenant_name) (mr_api_version parent)
                         (mr_kind parent) expected in
      if is_some_and (reference_matches owner) observed then Ok tt
      else parents_match owner object tenant_name inventory rest
  end.

Definition validate_provider_owner (object : DynamicObject) (tenant_name : string) (required : bool)
    (inventory : list DynamicObject) : result OwnershipError unit :=
  let references := owners object in
  match find_kind (kind object) with
  | None => Ok tt
  | Some definition =>
      match mr_parent_kind definition with
      | None => match references with
                | [] => Ok tt
                | _ => Err (ProviderOwner (description object))
                end
      | Some _ =>
          if mr_class definition != Root then Ok tt else
          match references with
          | [] => if required then Err ProviderOwnerPending else Ok tt
          | [owner] =>
              parents_match owner object tenant_name inventory
                (option_list (mr_parent_kind definition)
                 ++ option_list (mr_alternate_parent_kind definition))
          | _ => Err (ProviderOwner (description object))
          end
      end
  end.

Definition validate_provider_owner_for_deletion (object : DynamicObject) (tenant : Tenant)
    (inventory : list DynamicObject) : result OwnershipError unit :=
  match owners object with
  | [] => Ok tt
  | [owner] =>
      match find_kind (kind object) with
      | None => Ok tt
      | Some definition =>
          if is_none (mr_parent_kind definition) then Err (ProviderOwner (description object)) else
          if mr_class definition != Root then Ok tt else
          let tenant_name := unwrap_or "" (name (tenant_meta tenant)) in
          let recorded := and_then cluster_uid (tenant_status tenant) in
          if (mr_parent_kind definition == Some "Cluster")
             && is_some_and (λ cluster, (owner_api_version owner == mr_api_version cluster)
                                        && (owner_kind owner == mr_kind cluster)) (by_kind "Cluster")
             && (owner_name owner == tenant_name)
             && non_empty (owner_uid owner)
             && (recorded == Some (owner_uid owner))
          then Ok tt else
          match mr_alternate_parent_kind definition with
          | None => Err (ProviderOwner (description object))
          | Some parent_kind =>
              let! parent := ok_or (find_kind parent_kind) ApiVersion in
              if (owner_api_version owner != mr_api_version parent)
                 || (owner_kind owner != mr_kind parent)
                 || (Some (owner_name owner) != expected_name parent tenant_name)
              then Err (ProviderOwner (description object)) else
              let! found := lookup inventory (Some tenant_name) (mr_api_version parent)
                              (mr_kind parent) (owner_name owner) in
              let! observed := ok_or found (MissingOwner (parent_kind +:+ "/" +:+ owner_name owner)) in
              if reference_matches owner observed then Ok tt
              else Err (ProviderOwner (description object))
          end
      end
  | _ => Err (ProviderOwner (description object))
  end.

Definition has_owner_uid (refs : list OwnerReference) (u : string) : bool :=
  non_empty u && any (λ owner, owner_uid owner == u) refs.

Definition validate_kubeconfig_secret (secret : Secret) (control_plane : option DynamicObject)
    : result OwnershipError unit :=
  if (secret_type secret != Some "cluster.x-k8s.io/secret")
     || is_none_or is_empty (and_then (λ d : gmap string string, d !! "value") (secret_data secret))
  then Err SecretContract else
  match control_plane with
  | None => Err SecretOwner
  | Some control_plane =>
      let u := unwrap_or "" (uid (dyn_meta control_plane)) in
      if negb (has_owner_uid (owners_of (secret_meta secret)) u) then Err SecretOwner else Ok tt
  end.

Definition validate_kubeconfig_secret_owners (secret : Secret) (allowed : list DynamicObject)
    : result OwnershipError unit :=
  match owner_references (secret_meta secret) with
  | Some [owner] =>
      if negb (any (λ object,
            is_some_and (λ t, (owner_api_version owner == tm_api_version t)
                              && (owner_kind owner == tm_kind t)) (dyn_types object)
            && reference_matches owner object) allowed)
      then Err SecretOwner else Ok tt
  | _ => Err SecretOwner
  end.

Definition validate_kubeconfig_secret_for_deletion (secret : Secret)
    (control_plane : option DynamicObject) : result OwnershipError unit :=
  match control_plane with
  | None => Err SecretOwner
  | Some control_plane => validate_kubeconfig_secret_owners secret [control_plane]
  end.

(** ** Termination of the owner walk *)
Definition uids (objects : list DynamicObject) : gset string :=
  list_to_set (omap (λ o, filter_non_empty (uid (dyn_meta o))) objects).

Lemma elem_of_uids objects o u :
  o ∈ objects → filter_non_empty (uid (dyn_meta o)) = Some u → u ∈ uids objects.
Proof. intros Ho Hu. apply elem_of_list_to_set, list_elem_of_omap. eauto. Qed.

Lemma size_uids objects : (size (uids objects) ≤ length objects)%nat.
Proof.
  unfold uids. induction objects as [|o objects IH]; [done|]. cbn [omap list_omap].
  destruct (filter_non_empty _); cbn [list_to_set length]; [|lia].
  etrans; [apply size_add_le|]. lia.
Qed.

Lemma lookup_Some inventory ns api knd nm o :
  lookup inventory ns api knd nm = Ok (Some o) →
  o ∈ inventory ∧ lookup_matches ns api knd nm o = true ∧
  (∀ o', o' ∈ inventory → lookup_matches ns api knd nm o' = true → o' = o).
Proof.
  unfold lookup. destruct (filter_list _ inventory) as [|x [|]] eqn:Hf; intros [=]; subst.
  assert (Hx : ∀ o', o' ∈ filter_list (lookup_matches ns api knd nm) inventory ↔ o' = o).
  { intros o'. rewrite Hf. set_solver. }
  destruct (proj1 (elem_of_filter_list _ inventory o) (proj2 (Hx o) eq_refl)) as [??].
  split_and!; [done..|]. intros o' ??. apply Hx, elem_of_filter_list. done.
Qed.

(** What one iteration establishes when it goes on. *)
Lemma chain_step_next root inventory current visited next visited' :
  chain_step root inventory current visited = Ok (Some (next, visited')) →
  ∃ u owner,
    filter_non_empty (uid (dyn_meta current)) = Some u ∧ u ≠ root ∧ u ∉ visited ∧
    visited' = {[u]} ∪ visited ∧ owners current = [owner] ∧ owner_uid owner ≠ "" ∧
    api_version_invalid (owner_api_version owner) = false ∧
    lookup inventory (namespace (dyn_meta current)) (owner_api_version owner)
      (owner_kind owner) (owner_name owner) = Ok (Some next) ∧
    uid (dyn_meta next) = Some (owner_uid owner).
Proof.
  unfold chain_step, ok_or. intros H. run H. eexists _, _. split_and!; done.
Qed.

Lemma chain_loop_enough_fuel root inventory object fuel current visited :
  current ∈ object :: inventory → visited ⊆ uids (object :: inventory) →
  (size (uids (object :: inventory)) < fuel + size visited)%nat →
  is_Some (chain_loop fuel root inventory current visited).
Proof.
  revert current visited. induction fuel as [|fuel IH]; intros current visited Hc Hv Hf.
  - apply subseteq_size in Hv. lia.
  - simpl. destruct (chain_step _ _ _ _) as [[[next visited']|]|e] eqn:Hs; [|eauto..].
    apply chain_step_next in Hs as (u & owner & Hu & _ & Hnew & -> & _ & _ & _ & Hl & _).
    apply lookup_Some in Hl as (Hin & _).
    apply IH.
    + set_solver.
    + pose proof (elem_of_uids _ _ _ Hc Hu). set_solver.
    + rewrite size_union, size_singleton by set_solver. lia.
Qed.

Lemma owner_chain_terminates root inventory object :
  is_Some (chain_loop (length inventory + 2) root inventory object ∅).
Proof.
  apply (chain_loop_enough_fuel _ _ object); [set_solver|set_solver|].
  pose proof (size_uids (object :: inventory)). rewrite size_empty. simpl in *. lia.
Qed.

(** ** The owner walk decides reachability of the root

    [owner_path root inventory o us]: following the single owner reference of
    each object, through objects of the inventory that are the only match of
    the reference and carry its UID, leads from [o] to an object with UID
    [root]; [us] lists the UIDs passed on the way. *)
Inductive owner_path (root : string) (inventory : list DynamicObject)
    : DynamicObject → list string → Prop :=
| path_root o :
    uid (dyn_meta o) = Some root → root ≠ "" → owner_path root inventory o []
| path_owner o u owner next us :
    uid (dyn_meta o) = Some u → u ≠ "" → u ≠ root →
    owners o = [owner] → owner_uid owner ≠ "" →
    api_version_invalid (owner_api_version owner) = false →
    lookup inventory (namespace (dyn_meta o)) (owner_api_version owner)
      (owner_kind owner) (owner_name owner) = Ok (Some next) →
    uid (dyn_meta next) = Some (owner_uid owner) →
    owner_path root inventory next us →
    owner_path root inventory o (u :: us).

Lemma chain_step_done root inventory current visited :
  chain_step root inventory current visited = Ok None →
  uid (dyn_meta current) = Some root ∧ root ≠ "".
Proof.
  unfold chain_step, ok_or. intros H. run H. by apply filter_non_empty_Some.
Qed.

Lemma chain_loop_path fuel root inventory current visited :
  chain_loop fuel root inventory current visited = Some (Ok tt) →
  ∃ us, owner_path root inventory current us ∧ NoDup us ∧ ∀ u, u ∈ us → u ∉ visited.
Proof.
  revert current visited. induction fuel as [|fuel IH]; intros current visited H; [done|].
  simpl in H. destruct (chain_step _ _ _ _) as [[[next visited']|]|e] eqn:Hs; [| |done].
  - apply chain_step_next in Hs
      as (u & owner & [Hu Hne]%filter_non_empty_Some & Hroot & Hnew & -> & Hrest).
    destruct Hrest as (Ho & Houid & Hav & Hl & Hnext).
    apply IH in H as (us & Hpath & Hnd & Hus).
    exists (u :: us). split_and!.
    + by eapply path_owner.
    + constructor; [|done]. intros Hin%Hus. set_solver.
    + intros v [-> | Hv]%elem_of_cons; [done|]. apply Hus in Hv. set_solver.
  - apply chain_step_done in Hs as [??]. exists [].
    split_and!; [by apply path_root|apply NoDup_nil_2|set_solver].
Qed.

Lemma path_chain_loop fuel root inventory current visited us :
  owner_path root inventory current us → NoDup us → (∀ u, u ∈ us → u ∉ visited) →
  (length us < fuel)%nat →
  chain_loop fuel root inventory current visited = Some (Ok tt).
Proof.
  intros Hpath. revert fuel visited.
  induction Hpath as [o Hu Hne|o u owner next us Hu Hne Hroot Ho Houid Hav Hl Hnext Hpath IH];
    intros [|fuel] visited Hnd Hvis Hf; simpl in *; try lia.
  - unfold chain_step, ok_or.
    by rewrite (proj2 (filter_non_empty_Some _ _) (conj Hu Hne)), bool_decide_eq_true_2.
  - assert (Hs : chain_step root inventory o visited = Ok (Some (next, {[u]} ∪ visited))).
    { unfold chain_step, ok_or.
      rewrite (proj2 (filter_non_empty_Some _ _) (conj Hu Hne)).
      rewrite bool_decide_eq_false_2 by done.
      rewrite bool_decide_eq_false_2 by (apply Hvis; set_solver).
      rewrite Ho, (proj2 (is_empty_false _) Houid), Hav, Hl.
      by rewrite bool_decide_eq_true_2. }
    rewrite Hs. inversion Hnd; subst. apply IH; [done| |lia]. set_solver.
Qed.

Lemma owner_path_tail_uids root inventory o us :
  owner_path root inventory o us →
  ∀ u, u ∈ us → u ∈ uids (o :: inventory).
Proof.
  induction 1 as [|o u owner next us Hu Hne Hroot Ho Houid Hav Hl Hnext Hpath IH];
    intros v Hv; [set_solver|].
  apply elem_of_cons in Hv as [-> | Hv].
  - eapply elem_of_uids; [by left|]. by apply filter_non_empty_Some.
  - specialize (IH v Hv). apply lookup_Some in Hl as (Hin & _).
    unfold uids in *. apply elem_of_list_to_set, list_elem_of_omap in IH as (x & Hx & Hxu).
    apply elem_of_list_to_set, list_elem_of_omap. exists x. split; [|done]. set_solver.
Qed.

Lemma owner_path_length root inventory o us :
  owner_path root inventory o us → NoDup us → (length us ≤ length inventory + 1)%nat.
Proof.
  intros Hpath Hnd.
  rewrite <-(size_list_to_set (C := gset string)) by done.
  etrans; [apply (subseteq_size _ (uids (o :: inventory)))|].
  - intros u Hu%elem_of_list_to_set. by eapply owner_path_tail_uids.
  - etrans; [apply size_uids|]. simpl. lia.
Qed.

(** C28. The owner-chain walk terminates on every inventory, cyclic ones
    included, and accepts exactly the objects from which a cycle-free chain of
    exact single owner references reaches the expected root. *)
Theorem validate_owner_chain_correct object root inventory :
  is_Some (chain_loop (length inventory + 2) root inventory object ∅) ∧
  (validate_owner_chain object root inventory = Ok tt ↔
   ∃ us, owner_path root inventory object us ∧ NoDup us).
Proof.
  split; [apply owner_chain_terminates|]. unfold validate_owner_chain. split.
  - intros H. run H. destruct (owner_chain_terminates root inventory object) as [r Hr].
    rewrite Hr in *. simplify_eq. apply chain_loop_path in Hr as (us & ? & ? & _). eauto.
  - intros (us & Hpath & Hnd).
    assert (is_empty root = false) as ->.
    { apply is_empty_false. clear Hnd. by induction Hpath. }
    erewrite path_chain_loop; [done..|set_solver|].
    apply owner_path_length in Hpath; [lia|done].
Qed.

(** ** Root ownership *)
Definition owned_by (object : ObjectMeta) (i : Identity) (resource : string) : Prop :=
  (∃ u, uid object = Some u ∧ u ≠ "") ∧
  get_label object (id_ownership_label i) = Some (id_lab_prefix i) ∧
  get_annotation object TENANT_ANNOTATION = Some (id_tenant_name i) ∧
  get_annotation object TENANT_UID_ANNOTATION = Some (id_tenant_uid i) ∧
  get_annotation object SPEC_HASH_ANNOTATION = Some (id_spec_hash i) ∧
  get_annotation object FOUNDATION_ANNOTATION = Some (id_foundation_hash i) ∧
  get_annotation object RESOURCE_ANNOTATION = Some resource ∧
  ∀ owner, owner ∈ owners_of object →
    ¬ (owner_api_version owner = GROUP +:+ "/" +:+ VERSION ∧ owner_kind owner = "Tenant").

Lemma identity_annotations_nodup i resource : NoDup (identity_annotation_list i resource).*1.
Proof. simpl. apply (bool_decide_unpack _). vm_compute. done. Qed.

Lemma identity_annotations_iff (P : string → string → Prop) i resource :
  (∀ kv, kv ∈ map_to_list (identity_annotations i resource) → P kv.1 kv.2) ↔
  P TENANT_ANNOTATION (id_tenant_name i) ∧ P TENANT_UID_ANNOTATION (id_tenant_uid i) ∧
  P SPEC_HASH_ANNOTATION (id_spec_hash i) ∧ P FOUNDATION_ANNOTATION (id_foundation_hash i) ∧
  P RESOURCE_ANNOTATION resource.
Proof.
  assert (Hin : ∀ k v, (k, v) ∈ map_to_list (identity_annotations i resource) ↔
                       (k, v) ∈ identity_annotation_list i resource).
  { intros k v. rewrite elem_of_map_to_list.
    apply collect_map_lookup, identity_annotations_nodup. }
  split.
  - intros H. split_and!; apply (H (_, _)), (proj2 (Hin _ _)); in_list.
  - intros (?&?&?&?&?) [k v] Hkv. apply (proj1 (Hin _ _)) in Hkv. simpl. unfold identity_annotation_list in Hkv.
    repeat (apply elem_of_cons in Hkv as [[= -> ->]|Hkv]; [done|]). by apply not_elem_of_nil in Hkv.
Qed.

Lemma validate_tenant_object_ownership_iff object i resource :
  validate_tenant_object_ownership object i resource = Ok tt ↔
  get_annotation object TENANT_ANNOTATION = Some (id_tenant_name i) ∧
  get_annotation object TENANT_UID_ANNOTATION = Some (id_tenant_uid i) ∧
  get_annotation object SPEC_HASH_ANNOTATION = Some (id_spec_hash i) ∧
  get_annotation object FOUNDATION_ANNOTATION = Some (id_foundation_hash i) ∧
  get_annotation object RESOURCE_ANNOTATION = Some resource.
Proof.
  rewrite <-(identity_annotations_iff (λ k v, get_annotation object k = Some v)).
  unfold validate_tenant_object_ownership.
  destruct (any _ _) eqn:Ha.
  - split; [done|]. intros H. apply any_true in Ha as (kv & Hkv & Hne). bool_hyp.
    by destruct Hne; apply H.
  - split; [|done]. intros _ kv Hkv. rewrite any_false in Ha. specialize (Ha kv Hkv).
    by bool_hyp.
Qed.

Lemma validate_root_ownership_iff object i resource :
  validate_root_ownership object i resource = Ok tt ↔ owned_by object i resource.
Proof.
  unfold validate_root_ownership, owned_by. split.
  - intros H. run H.
    apply validate_tenant_object_ownership_iff in Heqr as (?&?&?&?&?).
    split_and!; [eauto|done..|].
    intros owner Ho [Hav Hk]. rewrite any_false in Heqb1. specialize (Heqb1 owner Ho).
    apply andb_false_iff in Heqb1 as [?|?]; bool_hyp; done.
  - intros ((u & Hu & Hne) & Hl & H1 & H2 & H3 & H4 & H5 & Ho).
    rewrite Hu. simpl. rewrite (proj2 (is_empty_false u) Hne), Hl, bool_decide_eq_true_2 by done.
    simpl. rewrite (proj2 (validate_tenant_object_ownership_iff object i resource)) by done.
    destruct (any _ _) eqn:Ha; [|done].
    apply any_true in Ha as (owner & Hin & Hb). bool_hyp. by destruct (Ho owner Hin).
Qed.

(** Root ownership is exactly the exact label, the five exact annotations,
    a UID and no Tenant owner reference; so one object never validates for two
    Tenants, specifications, foundations or roles. *)
Theorem root_ownership_exclusive object i i' resource resource' :
  (validate_root_ownership object i resource = Ok tt ↔ owned_by object i resource) ∧
  (validate_root_ownership object i resource = Ok tt →
   validate_root_ownership object i' resource' = Ok tt →
   id_tenant_name i = id_tenant_name i' ∧ id_tenant_uid i = id_tenant_uid i' ∧
   id_spec_hash i = id_spec_hash i' ∧ id_foundation_hash i = id_foundation_hash i' ∧
   resource = resource').
Proof.
  split; [apply validate_root_ownership_iff|].
  intros (_&_&H1&H2&H3&H4&H5&_)%validate_root_ownership_iff
    (_&_&H1'&H2'&H3'&H4'&H5'&_)%validate_root_ownership_iff.
  split_and!; congruence.
Qed.
