(* ===== verification/Foundation.v ===== *)
(** * The foundation document

    [controller/src/foundation.rs]: the published foundation of a management
    cluster, the identity needed for deletion, the full validation needed for
    creation, and the runtime value holding both.  JSON parsing and
    deserialisation are operations of [serde_json] (class [FoundationJson]);
    the checks are the code's. *)

From S2P Require Import Prelude RustStd Externals Kube.

Open Scope Z_scope.

Definition WORKER_IMAGES : list string := [
  "CALICO_CNI_IMAGE"; "CALICO_KUBE_CONTROLLERS_IMAGE"; "CALICO_NODE_IMAGE"; "KUBE_PROXY_IMAGE";
  "KONNECTIVITY_AGENT_IMAGE"; "CNPG_CONTROLLER_IMAGE"; "POSTGRES_IMAGE"].

Inductive FoundationError :=
| FJson (message : string)
| FChecksum
| FIdentity
| FInvalid (reason : string).

#[export] Instance FoundationError_eq_dec : EqDecision FoundationError.
Proof. solve_decision. Defined.

Definition foundation_display (e : FoundationError) : string :=
  match e with
  | FJson m => "invalid foundation JSON: " +:+ m
  | FChecksum => "foundation checksum mismatch"
  | FIdentity => "Tenant foundation identity changed"
  | FInvalid r => "invalid foundation: " +:+ r
  end.

(** [vip_ordinal] is a [u32]. *)
Record AllocationSlot := {
  as_slot_id : string;
  as_vip_ordinal : Z;
  as_endpoint : string;
  as_pod_cidr : string;
  as_service_cidr : string;
}.

#[export] Instance AllocationSlot_eq_dec : EqDecision AllocationSlot.
Proof. solve_decision. Defined.

Record ImageArchive := {
  ia_key : string;
  ia_path : string;
  ia_sha256 : string;
  ia_reference : string;
  ia_tagged : string;
  ia_worker : bool;
}.

Record ImageCache := { ic_generation : string; ic_image_archives : list ImageArchive }.

Record OfflineRegistry := { or_address : string; or_port : Z }.

Record FoundationInputs := {
  fi_ownership_label : string;
  fi_lab_prefix : string;
  fi_api_port : Z;
  fi_cluster_domain : string;
  fi_node_image : string;
  fi_cache_host_path : string;
  fi_cache_container_path : string;
  fi_storage_container_path : string;
  fi_konnectivity_server_image : string;
  fi_konnectivity_agent_image : string;
}.

Record Foundation := {
  f_schema : Z;
  f_network_id : string;
  f_subnet : string;
  f_reserved_cidrs : list string;
  f_allowed_subnets : list string;
  f_kubernetes_version : string;
  f_controller_image : string;
  f_offline_enforced : bool;
  f_slots : list AllocationSlot;
  f_cache : ImageCache;
  f_registry : option OfflineRegistry;
  f_inputs : FoundationInputs;
}.

Record DeletionInputs := {
  di_ownership_label : string;
  di_lab_prefix : string;
  di_storage_container_path : string;
}.

Record DeletionFoundation := {
  df_schema : Z;
  df_network_id : string;
  df_kubernetes_version : string;
  df_inputs : DeletionInputs;
}.

Record RuntimeFoundation := {
  rf_deletion : DeletionFoundation;
  rf_creation : result FoundationError Foundation;
  rf_hash : string;
}.

Definition rf_validate_identity (f : RuntimeFoundation) (recorded_hash : option string)
    : result FoundationError unit :=
  if is_some_and (λ expected, non_empty expected && (expected != rf_hash f)) recorded_hash
  then Err FIdentity else Ok tt.

Definition creation (f : RuntimeFoundation) (recorded_hash : option string)
    : result FoundationError Foundation :=
  let! _ := rf_validate_identity f recorded_hash in rf_creation f.

Definition deletion (f : RuntimeFoundation) (recorded_hash : option string)
    : result FoundationError DeletionFoundation :=
  let! _ := rf_validate_identity f recorded_hash in Ok (rf_deletion f).

(** [serde_json] on the foundation document: parsing, rendering of a value, and
    deserialisation into the two views. *)
Class FoundationJson := {
  json_from_str : string → result string Value;
  json_to_vec : Value → result string string;
  deletion_from_value : Value → result string DeletionFoundation;
  foundation_from_value : Value → result string Foundation;
}.

Definition invalid (reason : string) : FoundationError := FInvalid reason.

Definition canonical_hash `{Sha256Ops, FoundationJson} (raw_json : string)
    : result FoundationError string :=
  let! raw := map_err FJson (json_from_str raw_json) in
  match raw with
  | VObject fields =>
      let fields := filter_list (λ kv, kv.1 != "controllerImage") fields in
      let! canonical := map_err FJson (json_to_vec (VObject fields)) in
      Ok (sha256_hex canonical)
  | _ => Err (invalid "foundation must be an object")
  end.

Definition verified_raw `{Sha256Ops, FoundationJson} (raw_json published_hash : string)
    : result FoundationError (Value * string) :=
  let! actual := canonical_hash raw_json in
  if published_hash != actual then Err FChecksum else
  let! raw := map_err FJson (json_from_str raw_json) in
  Ok (raw, actual).

Definition same_version (a b : string) : bool :=
  trim_start_matches a "v"%char == trim_start_matches b "v"%char.

Definition validate_deletion (value : DeletionFoundation) (supported_version : string)
    : result FoundationError unit :=
  if (df_schema value != 3)
     || is_empty (df_network_id value)
     || negb (same_version (df_kubernetes_version value) supported_version)
     || is_empty (di_ownership_label (df_inputs value))
     || is_empty (di_lab_prefix (df_inputs value))
     || negb (starts_with_char (di_storage_container_path (df_inputs value)) "/"%char)
  then Err (invalid "deletion identity is incomplete") else Ok tt.

Section Networks.
Context `{Ipv4NetOps}.

Definition prefix (value : string) : result FoundationError Ipv4Net :=
  let! net := ok_or (parse_net value) (invalid ("not an IPv4 CIDR: " +:+ value)) in
  if addr net != network net then Err (invalid ("not a canonical IPv4 CIDR: " +:+ value))
  else Ok net.

Definition disjoint (left right : Ipv4Net) : bool :=
  negb (contains left (network right)) && negb (contains right (network left)).

Definition cidrs (values : list string) : result FoundationError (list Ipv4Net) :=
  try_fold (λ result value,
    let! net := prefix value in
    if bool_decide (net ∈ result) then Err (invalid ("duplicate CIDR: " +:+ value))
    else Ok (result ++ [net])) [] values.

(** The loop over [reserved.iter().enumerate()], [previous] being
    [reserved[..index]]. *)
Fixpoint validate_reserved (subnet : Ipv4Net) (previous reserved : list Ipv4Net)
    : result FoundationError unit :=
  match reserved with
  | [] => Ok tt
  | cidr :: rest =>
      if negb (disjoint cidr subnet) || any (λ p, negb (disjoint cidr p)) previous
      then Err (invalid "reserved CIDRs overlap each other or management subnet")
      else validate_reserved subnet (previous ++ [cidr]) rest
  end.

Definition slot_id_invalid (id : string) : bool :=
  is_empty id || (63 <? len id)
  || negb (is_some_and is_ascii_lowercase (hd_error (bytes id)))
  || negb (is_some_and (λ b, is_ascii_lowercase b || is_ascii_digit b) (list.last (bytes id)))
  || negb (all (λ b, is_ascii_lowercase b || is_ascii_digit b || Ascii.eqb b "-"%char) (bytes id)).

(** The state of the loop over slots: IDs, ordinals and endpoints seen, and
    the networks taken so far. *)
Record SlotScan := {
  ss_ids : gset string;
  ss_ordinals : gset Z;
  ss_endpoints : gset Z;
  ss_networks : list Ipv4Net;
}.

(** One of the two CIDRs of a slot. *)
Definition take_network (networks : list Ipv4Net) (value : string)
    : result FoundationError (list Ipv4Net) :=
  let! net := prefix value in
  if any (λ existing, negb (disjoint existing net)) networks
  then Err (invalid ("slot CIDR overlaps another network: " +:+ value))
  else Ok (networks ++ [net]).

Definition validate_slot (subnet : Ipv4Net) (reserved : list Ipv4Net) (s : SlotScan)
    (slot : AllocationSlot) : result FoundationError SlotScan :=
  if slot_id_invalid (as_slot_id slot)
     || bool_decide (as_slot_id slot ∈ ss_ids s)
     || bool_decide (as_vip_ordinal slot ∈ ss_ordinals s)
  then Err (invalid "invalid or duplicate allocation slot ID/ordinal") else
  let! endpoint := ok_or (parse_ipv4 (as_endpoint slot)) (invalid "slot endpoint is not IPv4") in
  if negb (contains subnet endpoint)
     || any (λ net, contains net endpoint) reserved
     || bool_decide (endpoint ∈ ss_endpoints s)
  then Err (invalid "slot endpoint is outside management subnet, reserved or duplicate") else
  let! networks := take_network (ss_networks s) (as_pod_cidr slot) in
  let! networks := take_network networks (as_service_cidr slot) in
  Ok {| ss_ids := {[as_slot_id slot]} ∪ ss_ids s;
        ss_ordinals := {[as_vip_ordinal slot]} ∪ ss_ordinals s;
        ss_endpoints := {[endpoint]} ∪ ss_endpoints s;
        ss_networks := networks |}.

Definition validate_slots (subnet : Ipv4Net) (reserved : list Ipv4Net)
    (slots : list AllocationSlot) : result FoundationError SlotScan :=
  try_fold (validate_slot subnet reserved)
    {| ss_ids := ∅; ss_ordinals := ∅; ss_endpoints := ∅; ss_networks := reserved ++ [subnet] |}
    slots.

Definition generation_invalid (generation : string) : bool :=
  is_empty generation
  || negb (all (λ b, is_ascii_alphanumeric b || Ascii.eqb b "-"%char || Ascii.eqb b "_"%char
                     || Ascii.eqb b "."%char) (bytes generation))
  || (generation == ".") || (generation == "..").

Definition archive_invalid (keys : gset string) (archive : ImageArchive) : bool :=
  is_empty (ia_key archive)
  || bool_decide (ia_key archive ∈ keys)
  || is_empty (ia_path archive)
  || any (λ part, is_empty part || (part == ".") || (part == "..")) (split (ia_path archive) "/"%char)
  || contains_char (ia_path archive) "\"%char
  || negb (len (ia_sha256 archive) =? 64)
  || negb (all is_ascii_hexdigit (bytes (ia_sha256 archive)))
  || is_empty (ia_reference archive)
  || is_empty (ia_tagged archive).

Definition validate_archives (archives : list ImageArchive) : result FoundationError (gset string) :=
  try_fold (λ keys archive,
    if archive_invalid keys archive then Err (invalid "cache archive is invalid or duplicated")
    else Ok ({[ia_key archive]} ∪ keys)) ∅ archives.

Definition inputs_invalid (inputs : FoundationInputs) : bool :=
  any is_empty [fi_ownership_label inputs; fi_lab_prefix inputs; fi_cluster_domain inputs;
                fi_node_image inputs; fi_konnectivity_server_image inputs;
                fi_konnectivity_agent_image inputs]
  || (fi_api_port inputs == 0)
  || any (λ value, negb (starts_with_char value "/"%char))
       [fi_cache_host_path inputs; fi_cache_container_path inputs; fi_storage_container_path inputs].

Definition registry_ok (subnet : Ipv4Net) (registry : option OfflineRegistry) : bool :=
  is_some_and (λ r, (or_port r != 0)
                    && is_some_and (λ address, contains subnet address) (parse_ipv4 (or_address r)))
    registry.

Definition validate_creation (f : Foundation) (supported_version expected_image : string)
    : result FoundationError unit :=
  if (f_schema f != 3) || is_empty (f_network_id f)
  then Err (invalid "schema or network identity") else
  if negb (same_version (f_kubernetes_version f) supported_version)
     || is_empty expected_image || (f_controller_image f != expected_image)
  then Err (invalid "Kubernetes version or controller image mismatch") else
  let! subnet := prefix (f_subnet f) in
  let! reserved := cidrs (f_reserved_cidrs f) in
  let! _ := validate_reserved subnet [] reserved in
  let! allowed := cidrs (f_allowed_subnets f) in
  if negb (bool_decide (subnet ∈ allowed))
  then Err (invalid "allowed subnets omit management subnet") else
  if inputs_invalid (f_inputs f) then Err (invalid "resource inputs are incomplete") else
  match f_slots f with
  | [] => Err (invalid "allocation slots are missing")
  | _ =>
      let! _ := validate_slots subnet reserved (f_slots f) in
      if generation_invalid (ic_generation (f_cache f))
      then Err (invalid "cache generation is invalid") else
      let! _ := validate_archives (ic_image_archives (f_cache f)) in
      if any (λ key, negb (any (λ archive, (ia_key archive == key) && ia_worker archive)
                            (ic_image_archives (f_cache f)))) WORKER_IMAGES
      then Err (invalid "required worker archive is missing or not marked for preparation") else
      if f_offline_enforced f && negb (registry_ok subnet (f_registry f))
      then Err (invalid "offline registry is incomplete") else Ok tt
  end.

Definition parse_runtime `{Sha256Ops, FoundationJson}
    (raw_json published_hash supported_version expected_image : string)
    : result FoundationError RuntimeFoundation :=
  let! (raw, hash) := verified_raw raw_json published_hash in
  let! deletion := map_err FJson (deletion_from_value raw) in
  let! _ := validate_deletion deletion supported_version in
  let creation :=
    let! value := map_err FJson (foundation_from_value raw) in
    let! _ := validate_creation value supported_version expected_image in
    Ok value in
  Ok {| rf_deletion := deletion; rf_creation := creation; rf_hash := hash |}.
End Networks.

(** ** Disjointness *)
Section Disjointness.
Context `{NL : Ipv4NetLaws}.

(** No address belongs to two different entries of the list. *)
Definition pairwise_disjoint (nets : list Ipv4Net) : Prop :=
  ∀ i j m n a, i ≠ j → nets !! i = Some m → nets !! j = Some n →
    contains m a = true → contains n a = true → False.

(** The test on network addresses decides disjointness of address sets. *)
Lemma disjoint_spec m n :
  disjoint m n = true ↔ ∀ a, contains m a = true → contains n a = true → False.
Proof.
  unfold disjoint. split.
  - intros Hd a Hm Hn. bool_hyp.
    destruct (common_address_contains m n a Hm Hn); congruence.
  - intros Hd. apply andb_true_iff; split; apply negb_true_iff.
    + destruct (contains m (network n)) eqn:E; [|done].
      destruct (Hd _ E). apply network_in.
    + destruct (contains n (network m)) eqn:E; [|done].
      destruct (Hd (network m)); [apply network_in|done].
Qed.

Lemma pairwise_disjoint_snoc nets n :
  pairwise_disjoint nets → (∀ m, m ∈ nets → disjoint m n = true) →
  pairwise_disjoint (nets ++ [n]).
Proof.
  intros Hp Hn i j m m' a Hij Hi Hj Hm Hm'.
  assert (Hall : ∀ k x, (nets ++ [n]) !! k = Some x →
            (nets !! k = Some x) ∨ (k = length nets ∧ x = n)).
  { intros k x [Hx|[Hge Hx]]%lookup_app_Some; [by left|right].
    apply list_lookup_singleton_Some in Hx as [? <-]. split; [lia|done]. }
  destruct (Hall _ _ Hi) as [Hi'|[-> ->]], (Hall _ _ Hj) as [Hj'|[-> ->]].
  - by eapply (Hp i j).
  - apply (proj1 (disjoint_spec m n)) with a; [|done..].
    apply Hn. by eapply list_elem_of_lookup_2.
  - apply (proj1 (disjoint_spec m' n)) with a; [|done..].
    apply Hn. by eapply list_elem_of_lookup_2.
  - lia.
Qed.

Lemma pairwise_disjoint_nil : pairwise_disjoint [].
Proof. intros i j m n a _ Hi. by rewrite lookup_nil in Hi. Qed.

Lemma any_not_disjoint m nets :
  any (λ p, negb (disjoint p m)) nets = false → ∀ p, p ∈ nets → disjoint p m = true.
Proof. intros H p Hp. rewrite any_false in H. by apply negb_false_iff, (H p). Qed.

Lemma disjoint_comm m n : disjoint m n = disjoint n m.
Proof. unfold disjoint. apply andb_comm. Qed.

Lemma cidrs_Forall2 values nets :
  cidrs values = Ok nets → Forall2 (λ v n, prefix v = Ok n) values nets.
Proof.
  unfold cidrs. change nets with ([] ++ nets) at 2.
  enough (Hgen : ∀ acc, try_fold (λ result value,
      let! net := prefix value in
      if bool_decide (net ∈ result) then Err (invalid ("duplicate CIDR: " +:+ value))
      else Ok (result ++ [net])) acc values = Ok nets →
      ∃ rest, nets = acc ++ rest ∧ Forall2 (λ v n, prefix v = Ok n) values rest).
  { intros (rest & -> & ?)%Hgen. done. }
  induction values as [|v values IH]; intros acc H; simpl in H.
  - simp_eqs. exists []. by rewrite app_nil_r.
  - destruct (prefix v) as [n|e] eqn:Hp; [|done].
    destruct (bool_decide (n ∈ acc)); [done|].
    apply IH in H as (rest & -> & Hrest). exists (n :: rest).
    rewrite <-(assoc_L (++)). simpl. eauto.
Qed.

Lemma validate_reserved_spec subnet previous reserved :
  validate_reserved subnet previous reserved = Ok tt →
  pairwise_disjoint previous → (∀ p, p ∈ previous → disjoint p subnet = true) →
  pairwise_disjoint (previous ++ reserved) ∧
  (∀ p, p ∈ previous ++ reserved → disjoint p subnet = true).
Proof.
  revert previous. induction reserved as [|c reserved IH]; intros previous H Hp Hs; simpl in H.
  - by rewrite app_nil_r.
  - run H. apply IH in H.
    + by rewrite <-(assoc_L (++)) in H.
    + apply pairwise_disjoint_snoc; [done|]. intros p Hin. rewrite disjoint_comm.
      rewrite any_false in H1. apply negb_false_iff, (H1 p Hin).
    + intros p [Hin|Hin]%elem_of_app; [by apply Hs|]. set_solver.
Qed.

Lemma take_network_spec nets value nets' :
  take_network nets value = Ok nets' → pairwise_disjoint nets →
  ∃ n, prefix value = Ok n ∧ nets' = nets ++ [n] ∧ pairwise_disjoint nets'.
Proof.
  unfold take_network. intros H Hp. run H. eexists. split_and!; [done..|].
  apply pairwise_disjoint_snoc; [done|]. by apply any_not_disjoint.
Qed.

(** The CIDRs of the slots, in the order the loop takes them. *)
Definition slot_cidrs (slots : list AllocationSlot) : list string :=
  concat (map (λ s, [as_pod_cidr s; as_service_cidr s]) slots).

(** What the endpoint checks establish about one slot. *)
Definition endpoint_ok (subnet : Ipv4Net) (reserved : list Ipv4Net) (slot : AllocationSlot)
    (e : Ipv4Addr) : Prop :=
  parse_ipv4 (as_endpoint slot) = Some e ∧ contains subnet e = true ∧
  ∀ r, r ∈ reserved → contains r e = false.

Lemma validate_slot_spec subnet reserved s slot s' :
  validate_slot subnet reserved s slot = Ok s' → pairwise_disjoint (ss_networks s) →
  ∃ e pod service,
    slot_id_invalid (as_slot_id slot) = false ∧
    as_slot_id slot ∉ ss_ids s ∧ ss_ids s' = {[as_slot_id slot]} ∪ ss_ids s ∧
    endpoint_ok subnet reserved slot e ∧
    e ∉ ss_endpoints s ∧ ss_endpoints s' = {[e]} ∪ ss_endpoints s ∧
    prefix (as_pod_cidr slot) = Ok pod ∧ prefix (as_service_cidr slot) = Ok service ∧
    ss_networks s' = ss_networks s ++ [pod; service] ∧ pairwise_disjoint (ss_networks s').
Proof.
  unfold validate_slot, ok_or. intros H Hp. run H.
  apply take_network_spec in Heqr as (pod & Hpod & -> & Hd); [|done].
  apply take_network_spec in Heqr0 as (service & Hservice & -> & Hd'); [|done].
  match goal with H : any _ reserved = false |- _ => rewrite any_false in H end.
  eexists _, pod, service. simpl.
  split_and!; try done. by rewrite <-(assoc_L (++)).
Qed.

Lemma validate_slots_spec subnet reserved slots s s' :
  try_fold (validate_slot subnet reserved) s slots = Ok s' → pairwise_disjoint (ss_networks s) →
  ∃ nets es,
    ss_networks s' = ss_networks s ++ nets ∧ pairwise_disjoint (ss_networks s') ∧
    Forall2 (λ v n, prefix v = Ok n) (slot_cidrs slots) nets ∧
    Forall2 (endpoint_ok subnet reserved) slots es ∧
    NoDup es ∧ (∀ e, e ∈ es → e ∉ ss_endpoints s) ∧
    NoDup (map as_slot_id slots) ∧ (∀ id, id ∈ map as_slot_id slots → id ∉ ss_ids s) ∧
    Forall (λ slot, slot_id_invalid (as_slot_id slot) = false) slots.
Proof.
  revert s. induction slots as [|slot slots IH]; intros s H Hp; simpl in H.
  - simp_eqs. exists [], []. rewrite app_nil_r.
    split_and!; [done..|constructor|constructor|constructor|set_solver|constructor|set_solver|constructor].
  - destruct (validate_slot subnet reserved s slot) as [s1|] eqn:Hslot; [|done].
    apply validate_slot_spec in Hslot
      as (e & pod & service & Hid & Hnew & Hids & He & Henew & Hes & Hpod & Hsvc & Hnets & Hd);
      [|done].
    apply IH in H as (nets & es & Hn' & Hd' & HF & HE & Hnd & Hfresh & Hndid & Hfreshid & Hids'); [|done].
    exists (pod :: service :: nets), (e :: es). rewrite Hn', Hnets, <-(assoc_L (++)).
    rewrite Hes in Hfresh. rewrite Hids in Hfreshid.
    split_and!; [done| |by repeat constructor|by constructor| | | | |by constructor].
    + by rewrite Hn', Hnets, <-(assoc_L (++)) in Hd'.
    + constructor; [|done]. intros Hin%Hfresh. set_solver.
    + intros x [-> | Hx]%elem_of_cons; [done|]. apply Hfresh in Hx. set_solver.
    + simpl. constructor; [|done]. intros Hin%Hfreshid. set_solver.
    + simpl. intros x [-> | Hx]%elem_of_cons; [done|]. apply Hfreshid in Hx. set_solver.
Qed.

(** The address plan of a foundation: the reserved CIDRs, the management
    subnet and the pod and service CIDRs of all slots are pairwise disjoint
    as sets of addresses; slot IDs are distinct; the API endpoints of the
    slots are distinct addresses of the management subnet outside every other
    network of the plan. *)
Definition address_plan (f : Foundation) : Prop :=
  ∃ subnet reserved slot_nets endpoints,
    prefix (f_subnet f) = Ok subnet ∧
    Forall2 (λ v n, prefix v = Ok n) (f_reserved_cidrs f) reserved ∧
    Forall2 (λ v n, prefix v = Ok n) (slot_cidrs (f_slots f)) slot_nets ∧
    pairwise_disjoint (reserved ++ subnet :: slot_nets) ∧
    NoDup (map as_slot_id (f_slots f)) ∧
    Forall2 (λ slot e, parse_ipv4 (as_endpoint slot) = Some e ∧ contains subnet e = true ∧
                       ∀ n, n ∈ reserved ++ slot_nets → contains n e = false)
      (f_slots f) endpoints ∧
    NoDup endpoints.

(** C29. A foundation accepted for creation is a safe address plan: no two of
    its networks share an address, and every slot endpoint is a distinct
    address of the management subnet that no other network contains. *)
Theorem validate_creation_address_plan f version image :
  validate_creation f version image = Ok tt → address_plan f.
Proof.
  unfold validate_creation, address_plan. intros H. run H.
  match goal with H : cidrs (f_reserved_cidrs f) = Ok ?r, H' : validate_reserved ?s [] ?r = _ |- _ =>
    rename r into reserved; rename s into subnet; apply cidrs_Forall2 in H;
    apply validate_reserved_spec in H' as [Hpair Hsub]; [|apply pairwise_disjoint_nil|set_solver] end.
  match goal with H : validate_slots _ _ _ = Ok _ |- _ => apply validate_slots_spec in H
    as (nets & es & Hn & Hd & HF & HE & Hnd & _ & Hndid & _ & _) end;
    [|by apply pairwise_disjoint_snoc].
  simpl in Hn, Hd. rewrite Hn, <-(assoc_L (++)) in Hd. simpl in Hd.
  match goal with E : f_slots f = _ |- _ => rewrite <-E in * end.
  exists subnet, reserved, nets, es. split_and!; try done.
  eapply Forall2_impl; [|exact HE]. intros slot e (Hparse & Hin & Hres).
  split_and!; [done..|]. intros n [Hr|Hs]%elem_of_app; [by apply Hres|].
  destruct (contains n e) eqn:Hc; [|done]. exfalso.
  apply list_elem_of_lookup in Hs as [k Hk].
  eapply (Hd (length reserved) (length reserved + S k)%nat subnet n e); [lia| | |done..].
  - by rewrite list_lookup_middle.
  - by rewrite lookup_app_r, Nat.add_sub_swap, Nat.sub_diag by lia.
Qed.
End Disjointness.

(** ** The runtime foundation *)
Section Runtime.
Context `{Ipv4NetOps, Sha256Ops, FoundationJson}.

Lemma rf_validate_identity_Ok f recorded :
  rf_validate_identity f recorded = Ok tt ↔
  recorded = None ∨ recorded = Some "" ∨ recorded = Some (rf_hash f).
Proof.
  unfold rf_validate_identity. destruct recorded as [r|]; simpl; [|naive_solver].
  destruct (decide (r = "")) as [->|Hne]; [naive_solver|].
  rewrite (proj2 (non_empty_true r) Hne). simpl.
  destruct (decide (r = rf_hash f)) as [->|Hh].
  - rewrite bool_decide_eq_true_2 by done. naive_solver.
  - rewrite bool_decide_eq_false_2 by done. naive_solver.
Qed.

(** The canonical hash ignores the controller image: documents that agree on
    every other field have the same hash. *)
Lemma canonical_hash_ignores_image raw raw' fields fields' :
  json_from_str raw = Ok (VObject fields) → json_from_str raw' = Ok (VObject fields') →
  filter_list (λ kv, kv.1 != "controllerImage") fields =
  filter_list (λ kv, kv.1 != "controllerImage") fields' →
  canonical_hash raw = canonical_hash raw'.
Proof. intros Hr Hr' Hf. unfold canonical_hash. rewrite Hr, Hr'. simpl. by rewrite Hf. Qed.

Lemma parse_runtime_Ok raw published version image rf :
  parse_runtime raw published version image = Ok rf →
  canonical_hash raw = Ok published ∧ rf_hash rf = published ∧
  validate_deletion (rf_deletion rf) version = Ok tt ∧
  (∀ f, rf_creation rf = Ok f → validate_creation f version image = Ok tt).
Proof.
  unfold parse_runtime, verified_raw. intros Hp.
  destruct (canonical_hash raw) as [actual|] eqn:Hc; [|done].
  destruct (decide (published = actual)) as [<-|Hne];
    [rewrite bool_decide_eq_true_2 in Hp by done|by rewrite bool_decide_eq_false_2 in Hp].
  simpl in Hp. destruct (map_err FJson (json_from_str raw)) as [v|]; [|done].
  destruct (map_err FJson (deletion_from_value v)) as [d|]; [|done].
  destruct (validate_deletion d version) as [[]|] eqn:Hd; [|done]. simp_eqs. simpl.
  split_and!; [done..|]. intros f Hf.
  destruct (map_err FJson (foundation_from_value v)) as [f'|]; [|done].
  destruct (validate_creation f' version image) as [[]|] eqn:Hv; [|done]. by simp_eqs.
Qed.

(** A parsed foundation is bound to the published checksum.  A Tenant
    that recorded another foundation gets neither view; a Tenant that
    recorded this one (or nothing) can always be deleted, whether or not the
    document is valid for creation; and a foundation handed out for creation
    passed the full validation. *)
Theorem parse_runtime_bound raw published version image rf recorded :
  parse_runtime raw published version image = Ok rf →
  canonical_hash raw = Ok published ∧
  (recorded = None ∨ recorded = Some "" ∨ recorded = Some published →
     deletion rf recorded = Ok (rf_deletion rf) ∧
     validate_deletion (rf_deletion rf) version = Ok tt ∧
     ∀ f, creation rf recorded = Ok f → validate_creation f version image = Ok tt) ∧
  (¬ (recorded = None ∨ recorded = Some "" ∨ recorded = Some published) →
     deletion rf recorded = Err FIdentity ∧ creation rf recorded = Err FIdentity).
Proof.
  intros (Hc & Hh & Hd & Hv)%parse_runtime_Ok. unfold deletion, creation.
  pose proof (rf_validate_identity_Ok rf recorded) as Hid. rewrite Hh in Hid.
  split_and!; [done| |].
  - intros Hrec%Hid. rewrite Hrec. eauto.
  - intros Hrec. unfold rf_validate_identity in *.
    destruct (is_some_and _ recorded); [done|]. by destruct Hrec; apply Hid.
Qed.
End Runtime.

(** ** A concrete foundation *)
Module Fixture.
Definition digest := "aaaaaaaaaaaaaaaaaaaaaaaaaaaaaaaaaaaaaaaaaaaaaaaaaaaaaaaaaaaaaaaa".

Definition archive (key : string) : ImageArchive := {|
  ia_key := key; ia_path := "images/archive.tar"; ia_sha256 := digest;
  ia_reference := "image@sha256:a"; ia_tagged := "docker.io/image:one"; ia_worker := true |}.

Definition slot (id : string) (ordinal : Z) (ep pod service : string) : AllocationSlot := {|
  as_slot_id := id; as_vip_ordinal := ordinal; as_endpoint := ep;
  as_pod_cidr := pod; as_service_cidr := service |}.

Definition slots := [
  slot "tenant-00" 0 "172.18.255.223" "10.73.0.0/16" "10.143.0.0/16";
  slot "tenant-01" 1 "172.18.255.224" "10.74.0.0/16" "10.144.0.0/16"].

Definition inputs : FoundationInputs := {|
  fi_ownership_label := "example.io/owned"; fi_lab_prefix := "example"; fi_api_port := 6443;
  fi_cluster_domain := "cluster.local"; fi_node_image := "node:one"; fi_cache_host_path := "/cache";
  fi_cache_container_path := "/var/cache"; fi_storage_container_path := "/var/lib/storage";
  fi_konnectivity_server_image := "server:one"; fi_konnectivity_agent_image := "agent:one" |}.

Definition foundation : Foundation := {|
  f_schema := 3; f_network_id := "network-one"; f_subnet := "172.18.0.0/16";
  f_reserved_cidrs := ["10.72.0.0/16"; "10.142.0.0/16"; "10.210.0.0/16"; "10.211.0.0/16"];
  f_allowed_subnets := ["10.72.0.0/16"; "10.142.0.0/16"; "127.0.0.0/8"; "172.18.0.0/16"];
  f_kubernetes_version := "1.36.4"; f_controller_image := "controller:one";
  f_offline_enforced := false; f_slots := slots;
  f_cache := {| ic_generation := "generation-one"; ic_image_archives := map archive WORKER_IMAGES |};
  f_registry := None; f_inputs := inputs |}.

Definition deletion_view : DeletionFoundation := {|
  df_schema := 3; df_network_id := "network-one"; df_kubernetes_version := "1.36.4";
  df_inputs := {| di_ownership_label := "example.io/owned"; di_lab_prefix := "example";
                  di_storage_container_path := "/var/lib/storage" |} |}.

(** A deserialiser that knows one document. *)
#[export] Instance json : FoundationJson := {
  json_from_str _ := Ok (VObject [("schema", VNumber 3); ("controllerImage", VString "controller:one")]);
  json_to_vec v := match v with VObject [(k, VNumber 3)] => Ok k | _ => Err "unexpected value" end;
  deletion_from_value _ := Ok deletion_view;
  foundation_from_value _ := Ok foundation;
}.

Definition hash : string := @sha256_hex Concrete.hex_ops "schema".
Definition runtime : RuntimeFoundation :=
  {| rf_deletion := deletion_view; rf_creation := Ok foundation; rf_hash := hash |}.
End Fixture.

Lemma validate_creation_address_plan_witness :
  validate_creation (H := Concrete.cidr_ops) Fixture.foundation "1.36.4" "controller:one" = Ok tt ∧
  address_plan (N1 := Concrete.cidr_ops) Fixture.foundation.
Proof.
  assert (Hv : validate_creation (H := Concrete.cidr_ops) Fixture.foundation "1.36.4" "controller:one" = Ok tt)
    by (vm_compute; reflexivity).
  split; [exact Hv|]. exact (validate_creation_address_plan (NL := Concrete.cidr_laws) _ _ _ Hv).
Defined.

Lemma parse_runtime_bound_witness :
  @canonical_hash Concrete.hex_ops Fixture.json "{}" = Ok Fixture.hash.
Proof.
  refine (proj1 (@parse_runtime_bound Concrete.cidr_ops Concrete.hex_ops Fixture.json "{}"
    Fixture.hash "1.36.4" "controller:one" Fixture.runtime None _)).
  vm_compute. reflexivity.
Defined.
