(* ===== verification/Effects.v ===== *)
(** * Programs that talk to the environment

    Asynchronous code is modelled as a program tree: it either returns or
    issues an operation and continues with the response.  Nothing is assumed
    about responses: [wp] quantifies over all of them, so a property proved with
    it holds against any API server, however it interleaves other clients, and
    [wp_run] transfers it to every execution.  [run] executes a program against
    a given environment. *)

From S2P Require Import Prelude.

Section Programs.
Context {Op : Type} {Resp : Op → Type}.

Inductive prog (A : Type) : Type :=
| Ret (a : A)
| Vis (o : Op) (k : Resp o → prog A).
Arguments Ret {A} a.
Arguments Vis {A} o k.

Fixpoint bind {A B} (p : prog A) (f : A → prog B) : prog B :=
  match p with
  | Ret a => f a
  | Vis o k => Vis o (λ r, bind (k r) f)
  end.

Definition perform (o : Op) : prog (Resp o) := Vis o Ret.

(** One operation and its response. *)
Definition event := { o : Op & Resp o }.
Definition trace := list event.

(** Every operation the program can issue satisfies [Pre] after the history
    so far, and every way to return satisfies [Post]. *)
Fixpoint wp {A} (p : prog A) (h : trace) (Pre : trace → Op → Prop) (Post : trace → A → Prop) : Prop :=
  match p with
  | Ret a => Post h a
  | Vis o k => Pre h o ∧ ∀ r : Resp o, wp (k r) (h ++ [existT o r]) Pre Post
  end.

(** Execution against an environment that sees the whole history. *)
Fixpoint run {A} (env : trace → ∀ o : Op, Resp o) (p : prog A) (h : trace) : trace * A :=
  match p with
  | Ret a => (h, a)
  | Vis o k => let r := env h o in run env (k r) (h ++ [existT o r])
  end.

(** Execution against a stateful environment. *)
Fixpoint exec {A S} (step : S → ∀ o : Op, Resp o * S) (p : prog A) (s : S) : A * S :=
  match p with
  | Ret a => (a, s)
  | Vis o k => let '(r, s') := step s o in exec step (k r) s'
  end.

(** Execution against an environment with fixed answers. *)
Fixpoint eval {A} (answer : ∀ o : Op, Resp o) (p : prog A) : A :=
  match p with
  | Ret a => a
  | Vis o k => eval answer (k (answer o))
  end.

Lemma eval_bind {A B} answer (p : prog A) (f : A → prog B) :
  eval answer (bind p f) = eval answer (f (eval answer p)).
Proof. induction p as [a|o k IH]; simpl; [done|]. apply IH. Qed.

Lemma exec_bind {A B S} step (p : prog A) (f : A → prog B) (s : S) :
  exec step (bind p f) s = let '(a, s') := exec step p s in exec step (f a) s'.
Proof. revert s. induction p as [a|o k IH]; intros s; simpl; [done|]. destruct (step s o). apply IH. Qed.

Lemma eval_run {A} answer (p : prog A) h : (run (λ _, answer) p h).2 = eval answer p.
Proof. revert h. induction p as [a|o k IH]; intros h; simpl; [done|]. apply IH. Qed.

(** The operations of a trace satisfy [Pre] at the point they were issued. *)
Definition issued (Pre : trace → Op → Prop) (from : trace) (h : trace) : Prop :=
  ∀ h1 e h2, h = h1 ++ e :: h2 → (length from ≤ length h1)%nat → Pre h1 (projT1 e).

Lemma wp_mono {A} (p : prog A) h (Pre Pre' : trace → Op → Prop) (Post Post' : trace → A → Prop) :
  (∀ h o, Pre h o → Pre' h o) → (∀ h a, Post h a → Post' h a) →
  wp p h Pre Post → wp p h Pre' Post'.
Proof.
  intros Hpre Hpost. revert h. induction p as [a|o k IH]; intros h; simpl; [auto|].
  intros [Ho Hk]. split; [auto|]. intros r. apply IH, Hk.
Qed.

Lemma wp_post {A} (p : prog A) h Pre (Post Post' : trace → A → Prop) :
  wp p h Pre Post → (∀ h a, Post h a → Post' h a) → wp p h Pre Post'.
Proof. intros Hp Hpost. by eapply wp_mono; [|exact Hpost|exact Hp]. Qed.

Lemma wp_and {A} (p : prog A) h (Pre Pre' : trace → Op → Prop) (Post Post' : trace → A → Prop) :
  wp p h Pre Post → wp p h Pre' Post' →
  wp p h (λ h o, Pre h o ∧ Pre' h o) (λ h a, Post h a ∧ Post' h a).
Proof.
  revert h. induction p as [a|o k IH]; intros h; simpl; [done|].
  intros [Ho Hk] [Ho' Hk']. split; [done|]. intros r. by apply IH.
Qed.

(** Rules that do not look at the history hold after any history. *)
Lemma wp_anywhere {A} (p : prog A) h h' (Pre : Op → Prop) (Post : A → Prop) :
  wp p h (λ _ o, Pre o) (λ _ a, Post a) → wp p h' (λ _ o, Pre o) (λ _ a, Post a).
Proof.
  revert h h'. induction p as [a|o k IH]; intros h h'; simpl; [done|].
  intros [Ho Hk]. split; [done|]. intros r. by eapply IH.
Qed.

(** The history only grows. *)
Lemma wp_extends {A} (p : prog A) h (Pre : trace → Op → Prop) (Post : trace → A → Prop) :
  wp p h Pre Post → wp p h Pre (λ h' a, Post h' a ∧ ∃ h0, h' = h ++ h0).
Proof.
  enough (Hgen : ∀ g, wp p (h ++ g) Pre Post → wp p (h ++ g) Pre (λ h' a, Post h' a ∧ ∃ h0, h' = h ++ h0)).
  { specialize (Hgen []). by rewrite app_nil_r in Hgen. }
  induction p as [a|o k IH]; intros g; simpl; [eauto|].
  intros [Ho Hk]. split; [done|]. intros r. specialize (Hk r).
  rewrite <-(assoc_L (++)) in *. by apply IH.
Qed.

(** Every request is sent after an extension of the initial history. *)
Lemma wp_within {A} (p : prog A) h (Pre : trace → Op → Prop) (Post : trace → A → Prop) :
  wp p h Pre Post →
  wp p h (λ h' o, Pre h' o ∧ ∃ g, h' = h ++ g) (λ h' a, Post h' a ∧ ∃ g, h' = h ++ g).
Proof.
  enough (Hgen : ∀ g, wp p (h ++ g) Pre Post →
    wp p (h ++ g) (λ h' o, Pre h' o ∧ ∃ g, h' = h ++ g) (λ h' a, Post h' a ∧ ∃ g, h' = h ++ g)).
  { specialize (Hgen []). by rewrite app_nil_r in Hgen. }
  induction p as [a|o k IH]; intros g; simpl; [eauto|].
  intros [Ho Hk]. split; [eauto|]. intros r. specialize (Hk r).
  rewrite <-(assoc_L (++)) in *. by apply IH.
Qed.

Lemma wp_bind {A B} (p : prog A) (f : A → prog B) h Pre Post :
  wp p h Pre (λ h' a, wp (f a) h' Pre Post) → wp (bind p f) h Pre Post.
Proof.
  revert h. induction p as [a|o k IH]; intros h; simpl; [done|].
  intros [Ho Hk]. split; [done|]. intros r. apply IH, Hk.
Qed.

Lemma wp_perform o h Pre (Post : trace → Resp o → Prop) :
  Pre h o → (∀ r, Post (h ++ [existT o r]) r) → wp (perform o) h Pre Post.
Proof. done. Qed.

Lemma run_extends {A} env (p : prog A) h : ∃ h', (run env p h).1 = h ++ h'.
Proof.
  revert h. induction p as [a|o k IH]; intros h; simpl; [exists []; by rewrite app_nil_r|].
  destruct (IH (env h o) (h ++ [existT o (env h o)])) as [h' ->].
  exists (existT o (env h o) :: h'). by rewrite <-(assoc_L (++)).
Qed.

(** Soundness of [wp] for executions. *)
Lemma wp_run {A} env (p : prog A) h Pre Post :
  wp p h Pre Post →
  let '(h', a) := run env p h in Post h' a ∧ issued Pre h h'.
Proof.
  revert h. induction p as [a|o k IH]; intros h; simpl.
  - intros Hpost. split; [done|]. intros h1 e h2 -> Hle. rewrite length_app in Hle. simpl in Hle. lia.
  - intros [Ho Hk]. set (r := env h o). specialize (IH r (h ++ [existT o r]) (Hk r)).
    pose proof (run_extends env (k r) (h ++ [existT o r])) as [h0 Hext].
    destruct (run env (k r) (h ++ [existT o r])) as [h' a]. destruct IH as [Hp Hi].
    split; [done|]. simpl in Hext. intros h1 e h2 Heq Hle.
    destruct (decide (length h1 = length h)) as [Hlen|Hlen].
    + assert (h1 = h ∧ e = existT o r) as [-> ->]; [|done].
      rewrite Hext, <-(assoc_L (++)) in Heq. simpl in Heq.
      apply app_inj_1 in Heq as [-> [= ->]]; [done|congruence].
    + apply (Hi h1 e h2 Heq). rewrite length_app. simpl. lia.
Qed.
End Programs.

Arguments prog {Op} Resp A.
Arguments Ret {Op Resp A} a.
Arguments Vis {Op Resp A} o k.
Arguments event {Op} Resp.
Arguments trace {Op} Resp.

(** [do! x <- p ;; k]: run [p].  [try! x <- p ;; k]: run [p] and return its
    error, if any ([p.await?]).  [pure! x <- r ;; k]: the same for a value
    ([r?]). *)
Notation "'do!' x <- p ;; k" := (bind p (λ x, k))
  (at level 10, x pattern, p at level 99, k at level 200,
   format "'do!'  x  <-  p  ;; '//' k") : rust_scope.
Notation "'try!' x <- p ;; k" :=
  (bind p (λ r, match r with Ok x => k | Err e => Ret (Err e) end))
  (at level 10, x pattern, p at level 99, k at level 200,
   format "'try!'  x  <-  p  ;; '//' k") : rust_scope.
Notation "'pure!' x <- r ;; k" := (match r with Ok x => k | Err e => Ret (Err e) end)
  (at level 10, x pattern, r at level 99, k at level 200,
   format "'pure!'  x  <-  r  ;; '//' k") : rust_scope.

(** [p.await.map_err(f)] *)
Definition perform_map {Op} {Resp : Op → Type} {E F A} (f : E → F) (p : prog Resp (result E A))
    : prog Resp (result F A) := bind p (λ r, Ret (map_err f r)).

Lemma length_snoc {Op} {Resp : Op → Type} (h : trace Resp) (e : event Resp) :
  length (h ++ [e]) = S (length h).
Proof. rewrite length_app. simpl. lia. Qed.

(** The rule for a request followed by the rest of the program: the history
    grows by one event. *)
Lemma wp_request {Op} {Resp : Op → Type} {A} (o : Op) (f : Resp o → prog Resp A)
    (h : trace Resp) Pre Post :
  Pre h o →
  (∀ (r : Resp o) (h' : trace Resp), h' = h ++ [existT o r] → length h' = S (length h) →
     wp (f r) h' Pre Post) →
  wp (bind (perform o) f) h Pre Post.
Proof. intros Ho Hk. split; [done|]. intros r. apply Hk; [done|apply length_snoc]. Qed.

Lemma wp_return {Op} {Resp : Op → Type} {A} (a : A) (h : trace Resp) Pre (Post : trace Resp → A → Prop) :
  Post h a → wp (Ret a) h Pre Post.
Proof. done. Qed.

(** [request]: one step of a program that starts with a request, possibly with
    its error wrapped. *)
Ltac request :=
  lazymatch goal with
  | |- wp (bind (perform_map ?g (perform ?o)) ?f) ?h ?P ?Q =>
      change (wp (bind (perform o) (λ r, f (map_err g r))) h P Q)
  | _ => idtac
  end;
  apply wp_request;
  [|let r := fresh "reply" in let h := fresh "h" in let Eh := fresh "Eh" in
    let Hl := fresh "Hlen" in intros r h Eh Hl; cbn beta].

(** ** Programs within a set of requests *)
Section Within.
Context {Op : Type} {Resp : Op → Type} (P : Op → Prop).

Definition within {A} (p : prog Resp A) : Prop := ∀ h, wp p h (λ _ o, P o) (λ _ _, True).

Lemma within_ret {A} (a : A) : within (Ret a).
Proof. done. Qed.

Lemma within_bind {A B} (p : prog Resp A) (f : A → prog Resp B) :
  within p → (∀ a, within (f a)) → within (bind p f).
Proof. intros Hp Hf h. apply wp_bind. eapply wp_post; [apply Hp|]. intros h' a _. apply Hf. Qed.

Lemma within_perform o : P o → within (perform o).
Proof. intros Ho h. split; [done|]. by intros r. Qed.

Lemma within_perform_map {E F A} (g : E → F) (p : prog Resp (result E A)) :
  within p → within (perform_map g p).
Proof. intros Hp. apply within_bind; [done|]. intros a. apply within_ret. Qed.

(** The error path of [pure!]. *)
Lemma within_pure {E A B} (r : result E A) (f : A → prog Resp (result E B)) :
  (∀ a, r = Ok a → within (f a)) → within (match r with Ok a => f a | Err e => Ret (Err e) end).
Proof. intros Hf. destruct r as [a|e]; [by apply Hf|apply within_ret]. Qed.

(** A program whose requests need no history. *)
Lemma within_wp {A} (p : prog Resp A) h (Pre : trace Resp → Op → Prop) :
  within p → (∀ h o, P o → Pre h o) → wp p h Pre (λ h' _, ∃ g, h' = h ++ g).
Proof.
  intros Hp HP. eapply wp_mono; [| |apply wp_extends, Hp].
  - intros h' o. apply HP.
  - by intros h' a [_ ?].
Qed.
End Within.

Create HintDb permits.

(** Walks a program; requests and calls are left to the hints. *)
Ltac walk_step :=
  lazymatch goal with
  | |- within _ (Ret _) => apply within_ret
  | |- within _ (bind _ _) => apply within_bind; [|intros]
  | |- within _ (perform_map _ _) => apply within_perform_map
  | |- within ?P (perform ?o) => refine (within_perform P o _)
  | |- within _ (match ?x with _ => _ end) => destruct x
  | |- within _ (let _ := _ in _) => intros
  | |- _ => solve [auto 2 with permits nocore]
  end.
Ltac walk := repeat walk_step.
