(* ===== verification/Docker.v ===== *)
(** * Docker observations

    [controller/src/docker.rs]: the identities of containers and volumes, the
    selection of the worker containers of a Tenant, and the client over the
    daemon's socket.  The daemon's replies are records with the fields the
    client reads; maps the daemon sends as hash maps are association lists in
    iteration order where the code iterates over them. *)

From S2P Require Import Prelude RustStd Effects.

Open Scope Z_scope.

Definition WORKER_CLUSTER_LABEL := "io.x-k8s.kind.cluster".
Definition WORKER_ROLE_LABEL := "io.x-k8s.kind.role".

Record DockerContainer := {
  dc_id : string;
  dc_name : string;
  dc_labels : gmap string string;
  dc_networks : gmap string string;
  dc_network_addresses : gmap string string;
  dc_state : string;
}.

#[export] Instance DockerContainer_eq_dec : EqDecision DockerContainer.
Proof. solve_decision. Defined.

Record DockerNetwork := { dn_id : string; dn_subnets : list string }.

Record DockerVolume := {
  dv_name : string;
  dv_created_at : string;
  dv_mountpoint : string;
  dv_labels : gmap string string;
}.

#[export] Instance DockerVolume_eq_dec : EqDecision DockerVolume.
Proof. solve_decision. Defined.

Inductive DockerError :=
| Daemon (operation : string) (status : Z)
| Transport (operation : string)
| DockerIdentity (message : string).

#[export] Instance DockerError_eq_dec : EqDecision DockerError.
Proof. solve_decision. Defined.

Definition docker_display (e : DockerError) : string :=
  match e with
  | Daemon operation status => "Docker " +:+ operation +:+ " returned HTTP " +:+ decimal status
  | Transport operation => "Docker " +:+ operation +:+ " transport or response decoding failed"
  | DockerIdentity message => "Docker identity is invalid: " +:+ message
  end.

Record WorkerIdentity := {
  wi_tenant_name : string;
  wi_network_id : string;
  wi_machine_names : gset string;
}.

(** ** Selection of worker containers *)
Definition is_load_balancer (identity : WorkerIdentity) (container : DockerContainer) : bool :=
  (dc_name container == wi_tenant_name identity +:+ "-lb")
  && negb (bool_decide (dc_name container ∈ wi_machine_names identity))
  && (dc_labels container !! WORKER_ROLE_LABEL == Some "external-load-balancer").

(** Containers the loop skips: not labelled for the Tenant, not named after one
    of its machines or its load balancer. *)
Definition unrelated (identity : WorkerIdentity) (container : DockerContainer) : bool :=
  (dc_labels container !! WORKER_CLUSTER_LABEL != Some (wi_tenant_name identity))
  && negb (bool_decide (dc_name container ∈ wi_machine_names identity))
  && (dc_name container != wi_tenant_name identity +:+ "-lb").

(** The loop state: the selected containers, and the IDs and names seen. *)
Definition worker_step (identity : WorkerIdentity)
    (state : list DockerContainer * gset string * gset string) (container : DockerContainer)
    : result DockerError (list DockerContainer * gset string * gset string) :=
  let '(selected, ids, names) := state in
  let tenant := dc_labels container !! WORKER_CLUSTER_LABEL in
  if unrelated identity container then Ok state else
  let load_balancer := is_load_balancer identity container in
  if is_empty (dc_id container)
     || (tenant != Some (wi_tenant_name identity))
     || (negb load_balancer
         && ((dc_labels container !! WORKER_ROLE_LABEL != Some "worker")
             || negb (bool_decide (dc_name container ∈ wi_machine_names identity))))
     || negb (size (dc_networks container) =? 1)%nat
     || negb (any (λ n, n == wi_network_id identity) (map_to_list (dc_networks container)).*2)
     || bool_decide (dc_id container ∈ ids)
     || bool_decide (dc_name container ∈ names)
  then Err (DockerIdentity "worker ownership cannot be proven")
  else Ok (if load_balancer then selected else selected ++ [container],
           {[dc_id container]} ∪ ids, {[dc_name container]} ∪ names).

Definition worker_containers (containers : list DockerContainer) (identity : WorkerIdentity)
    : result DockerError (list DockerContainer) :=
  if is_empty (wi_tenant_name identity) || is_empty (wi_network_id identity)
  then Err (DockerIdentity "worker identity is incomplete")
  else
    let! (selected, _, _) := try_fold (worker_step identity) ([], ∅, ∅) containers in
    Ok selected.

Definition validate_volume (volume : DockerVolume) (name : string) (labels : gmap string string)
    : result DockerError unit :=
  if is_empty name || (dv_name volume != name) || (dv_labels volume != labels)
     || is_empty (dv_created_at volume) || negb (starts_with_char (dv_mountpoint volume) "/"%char)
  then Err (DockerIdentity "volume ownership cannot be proven")
  else Ok tt.

(** ** Replies of the daemon *)
Definition connect_allowed (socket : string) : bool :=
  negb (is_empty socket || starts_with socket "tcp:" || starts_with socket "http").

Definition path_identifier (value : string) : result DockerError unit :=
  if is_empty value
     || negb (all (λ byte, is_ascii_alphanumeric byte
                           || bool_decide (byte ∈ ["_"%char; "."%char; "-"%char])) (bytes value))
     || (value == ".") || (value == "..")
  then Err (DockerIdentity "invalid Docker path identifier")
  else Ok tt.

Record Volume := {
  vol_name : string;
  vol_created_at : option string;
  vol_mountpoint : string;
  vol_labels : list (string * string);
}.

Definition volume_identity (volume : Volume) (expected_name : string)
    : result DockerError DockerVolume :=
  let r := {| dv_name := vol_name volume; dv_created_at := unwrap_or "" (vol_created_at volume);
              dv_mountpoint := vol_mountpoint volume; dv_labels := collect_map (vol_labels volume) |} in
  if (dv_name r != expected_name) || is_empty (dv_created_at r)
     || negb (starts_with_char (dv_mountpoint r) "/"%char)
  then Err (DockerIdentity "volume inspection is incomplete")
  else Ok r.

Record EndpointSettings := { ep_network_id : option string; ep_ip_address : option string }.

Record ContainerInspectResponse := {
  cr_id : option string;
  cr_name : option string;
  cr_config_labels : option (list (string * string));
  cr_networks : option (list (string * EndpointSettings));
  cr_state_status : option string;
}.

(** The loop over endpoints of [container_identity]. *)
Definition endpoint_step (maps : gmap string string * gmap string string)
    (entry : string * EndpointSettings) : result DockerError (gmap string string * gmap string string) :=
  let '(networks, addresses) := maps in
  let '(name, endpoint) := entry in
  let network_id := unwrap_or "" (ep_network_id endpoint) in
  if is_empty network_id then Err (DockerIdentity "container network ID is missing")
  else Ok (<[name := network_id]> networks,
           <[network_id := unwrap_or "" (ep_ip_address endpoint)]> addresses).

Definition container_identity (container : ContainerInspectResponse) (expected_id : string)
    : result DockerError DockerContainer :=
  let id := unwrap_or "" (cr_id container) in
  let name := unwrap_or "" (cr_name container) in
  let name := strip_prefix_or name "/" in
  if (id != expected_id) || is_empty name
  then Err (DockerIdentity "container inspection identity changed")
  else
    let labels := collect_map (unwrap_or [] (cr_config_labels container)) in
    let endpoints := unwrap_or [] (cr_networks container) in
    let! (networks, addresses) := try_fold endpoint_step (∅, ∅) endpoints in
    Ok {| dc_id := id; dc_name := name; dc_labels := labels; dc_networks := networks;
          dc_network_addresses := addresses;
          dc_state := unwrap_or "" (cr_state_status container) |}.

(** ** The client over the socket *)
Inductive BollardError :=
| DockerResponseServerError (status_code : Z)
| BollardOther.

Definition request (operation : string) (error : BollardError) : DockerError :=
  match error with
  | DockerResponseServerError status_code => Daemon operation status_code
  | BollardOther => Transport operation
  end.

Record NetworkInspect := { ni_id : option string; ni_subnets : list (option string) }.

Inductive DaemonOp :=
| DaemonInspectContainer (id : string)
| DaemonInspectNetwork (id : string)
| DaemonInspectVolume (name : string)
| DaemonCreateVolume (name : string) (labels : gmap string string)
| DaemonRemoveVolume (name : string)
| DaemonListContainers
| DaemonListVolumes.

Definition DaemonResp (o : DaemonOp) : Type :=
  match o with
  | DaemonInspectContainer _ => result BollardError ContainerInspectResponse
  | DaemonInspectNetwork _ => result BollardError NetworkInspect
  | DaemonInspectVolume _ => result BollardError Volume
  | DaemonCreateVolume _ _ => result BollardError Volume
  | DaemonRemoveVolume _ => result BollardError unit
  | DaemonListContainers => result BollardError (list (option string))
  | DaemonListVolumes => result BollardError (list Volume)
  end.

Notation daemon A := (prog DaemonResp (result DockerError A)).

Definition inspect_container (id : string) : daemon (option DockerContainer) :=
  pure! _ <- path_identifier id ;;
  do! response <- perform (DaemonInspectContainer id) ;;
  Ret (match response with
       | Ok container => let! c := container_identity container id in Ok (Some c)
       | Err (DockerResponseServerError 404) => Ok None
       | Err error => Err (request "inspect container" error)
       end).

Definition inspect_network (id : string) : daemon DockerNetwork :=
  pure! _ <- path_identifier id ;;
  do! response <- perform (DaemonInspectNetwork id) ;;
  pure! network <- map_err (request "inspect network") response ;;
  if ni_id network != Some id
  then Ret (Err (DockerIdentity "network inspection identity changed"))
  else Ret (Ok {| dn_id := id;
                  dn_subnets := omap (λ s : option string, filter_non_empty s) (ni_subnets network) |}).

Definition inspect_volume (name : string) : daemon (option DockerVolume) :=
  pure! _ <- path_identifier name ;;
  do! response <- perform (DaemonInspectVolume name) ;;
  Ret (match response with
       | Ok volume => let! v := volume_identity volume name in Ok (Some v)
       | Err (DockerResponseServerError 404) => Ok None
       | Err error => Err (request "inspect volume" error)
       end).

Definition create_volume (name : string) (labels : gmap string string) : daemon DockerVolume :=
  pure! _ <- path_identifier name ;;
  do! response <- perform (DaemonCreateVolume name labels) ;;
  pure! volume <- map_err (request "create volume") response ;;
  pure! volume <- volume_identity volume name ;;
  pure! _ <- validate_volume volume name labels ;;
  Ret (Ok volume).

Definition remove_volume (name : string) : daemon unit :=
  pure! _ <- path_identifier name ;;
  do! response <- perform (DaemonRemoveVolume name) ;;
  Ret (map_err (request "remove volume") response).

(** The loop of [list_containers]: each listed container is inspected, those
    gone in between are dropped. *)
Fixpoint inspect_listed (listed : list (option string)) (seen : gset string)
    (acc : list DockerContainer) : daemon (list DockerContainer) :=
  match listed with
  | [] => Ret (Ok acc)
  | entry :: rest =>
      pure! id <- ok_or (filter_non_empty entry) (DockerIdentity "listed container has no ID") ;;
      if bool_decide (id ∈ seen) then Ret (Err (DockerIdentity "duplicate listed container ID")) else
      try! container <- inspect_container id ;;
      inspect_listed rest ({[id]} ∪ seen)
        (match container with Some c => acc ++ [c] | None => acc end)
  end.

Definition list_containers : daemon (list DockerContainer) :=
  do! response <- perform DaemonListContainers ;;
  pure! listed <- map_err (request "list containers") response ;;
  inspect_listed listed ∅ [].

Definition list_volumes : daemon (list DockerVolume) :=
  do! response <- perform DaemonListVolumes ;;
  pure! listed <- map_err (request "list volumes") response ;;
  Ret (try_map (λ volume,
    if is_empty (vol_name volume) then Err (DockerIdentity "listed volume has no name")
    else volume_identity volume (vol_name volume)) listed).

Definition list_worker_containers (identity : WorkerIdentity) : daemon (list DockerContainer) :=
  try! containers <- list_containers ;;
  Ret (worker_containers containers identity).

(** ** Worker selection is exact *)

(** What makes a container provably a worker of the Tenant. *)
Record proven_worker (identity : WorkerIdentity) (c : DockerContainer) : Prop := {
  pw_id : dc_id c ≠ "";
  pw_tenant : dc_labels c !! WORKER_CLUSTER_LABEL = Some (wi_tenant_name identity);
  pw_role : dc_labels c !! WORKER_ROLE_LABEL = Some "worker";
  pw_machine : dc_name c ∈ wi_machine_names identity;
  pw_network : map_to_list (dc_networks c) ≠ [] ∧
               ∀ n v, dc_networks c !! n = Some v → v = wi_network_id identity;
}.

Lemma single_network (m : gmap string string) id :
  size m = 1%nat → any (λ n, n == id) (map_to_list m).*2 = true →
  map_to_list m ≠ [] ∧ ∀ n v, m !! n = Some v → v = id.
Proof.
  intros Hs Hany. assert (length (map_to_list m) = 1%nat) as Hl by by rewrite length_map_to_list.
  destruct (map_to_list m) as [|[k x] [|]] eqn:E; try done. simpl in Hany.
  rewrite orb_false_r in Hany. bool_hyp. subst. split; [done|].
  intros n v Hn%elem_of_map_to_list. rewrite E in Hn. apply list_elem_of_singleton in Hn. congruence.
Qed.

Definition accounted (identity : WorkerIdentity) (selected : list DockerContainer)
    (c : DockerContainer) : Prop :=
  unrelated identity c = true ∨ is_load_balancer identity c = true ∨ c ∈ selected.

(** The loop invariant of [worker_containers]. *)
Record selection (identity : WorkerIdentity) (seen : list DockerContainer)
    (state : list DockerContainer * gset string * gset string) : Prop := {
  sel_proven : Forall (proven_worker identity) state.1.1;
  sel_sub : ∀ c, c ∈ state.1.1 → c ∈ seen;
  sel_all : Forall (accounted identity state.1.1) seen;
  sel_ids : NoDup (map dc_id state.1.1) ∧ ∀ c, c ∈ state.1.1 → dc_id c ∈ state.1.2;
  sel_names : NoDup (map dc_name state.1.1) ∧ ∀ c, c ∈ state.1.1 → dc_name c ∈ state.2;
}.

Lemma NoDup_snoc_map {A} (f : A → string) l x :
  NoDup (map f l) → (∀ y, y ∈ l → f y ≠ f x) → NoDup (map f (l ++ [x])).
Proof.
  intros Hnd Hx. rewrite map_app. apply list.NoDup_app. split_and!; [done| |apply list.NoDup_singleton].
  intros y (z & -> & Hz)%list_elem_of_fmap E%list_elem_of_singleton. by apply (Hx z).
Qed.

Lemma worker_step_selection identity seen state c state' :
  selection identity seen state → worker_step identity state c = Ok state' →
  selection identity (seen ++ [c]) state'.
Proof.
  destruct state as [[sel ids] names]. intros [Hp Hs Ha [Hi1 Hi2] [Hn1 Hn2]] H. simpl in *.
  unfold worker_step in H. destruct (unrelated identity c) eqn:Hu.
  { simp_eqs. split; simpl; [done|set_solver| |done|done].
    apply Forall_app. split; [done|]. constructor; [by left|constructor]. }
  destruct (_ || _) eqn:Hb in H; [done|]. apply orb_false_iff in Hb as [Hb Hname].
  bool_hyp. match goal with H : (size _ =? 1)%nat = true |- _ => apply Nat.eqb_eq in H end.
  destruct (is_load_balancer identity c) eqn:Hlb; simp_eqs.
  - split; simpl; [done|set_solver| |split; [done|set_solver]..].
    apply Forall_app. split; [done|]. constructor; [by right; left|constructor].
  - simpl in *. bool_hyp.
    split; simpl.
    + apply Forall_app. split; [done|]. constructor; [|constructor].
      constructor; try done. by apply single_network.
    + set_solver.
    + apply Forall_app. split.
      * eapply list.Forall_impl; [exact Ha|]. unfold accounted. set_solver.
      * constructor; [right; right; set_solver|constructor].
    + split; [apply NoDup_snoc_map; [done|]; intros y Hy E; apply Hi2 in Hy; congruence|set_solver].
    + split; [apply NoDup_snoc_map; [done|]; intros y Hy E; apply Hn2 in Hy; congruence|set_solver].
Qed.

Lemma worker_fold_selection identity containers seen state state' :
  selection identity seen state → try_fold (worker_step identity) state containers = Ok state' →
  selection identity (seen ++ containers) state'.
Proof.
  revert seen state. induction containers as [|c cs IH]; intros seen state Hsel H; simpl in H.
  - simp_eqs. by rewrite app_nil_r.
  - destruct (worker_step identity state c) as [s1|] eqn:Hs; [|done].
    eapply (IH (seen ++ [c])) in H; [|by eapply worker_step_selection].
    by rewrite <-(assoc_L (++)) in H.
Qed.

(** The selection of worker containers is exact.  When it succeeds, every
    selected container is provably a worker of the Tenant (its label, its role,
    a machine name of the inventory, no network but the foundation's), no two
    have the same ID or name, and every other container is either the Tenant's
    load balancer or carries neither its label nor one of its names. *)
Theorem worker_containers_exact identity containers selected :
  worker_containers containers identity = Ok selected →
  Forall (proven_worker identity) selected ∧
  (∀ c, c ∈ selected → c ∈ containers) ∧
  NoDup (map dc_id selected) ∧ NoDup (map dc_name selected) ∧
  Forall (λ c, c ∈ selected ∨ is_load_balancer identity c = true ∨
    (dc_labels c !! WORKER_CLUSTER_LABEL ≠ Some (wi_tenant_name identity) ∧
     dc_name c ∉ wi_machine_names identity ∧
     dc_name c ≠ wi_tenant_name identity +:+ "-lb")) containers.
Proof.
  unfold worker_containers. destruct (_ || _); [done|].
  destruct (try_fold _ _ _) as [[[sel ids] names]|] eqn:Hf; [|done]. intros [= <-].
  apply (worker_fold_selection _ _ []) in Hf as [Hp Hs Ha [Hi _] [Hn _]].
  - simpl in *. split_and!; [done..|]. eapply list.Forall_impl; [exact Ha|].
    intros c [Hu|[Hlb|Hc]]; [|by right; left|by left]. right. right.
    unfold unrelated in Hu. bool_hyp. done.
  - split; simpl; try (by constructor); try split; try (by constructor); set_solver.
Qed.

Definition worker_fixture (role : string) : DockerContainer := {|
  dc_id := "c1"; dc_name := "m1";
  dc_labels := <[WORKER_CLUSTER_LABEL := "t"]> {[WORKER_ROLE_LABEL := role]};
  dc_networks := {["kind" := "net"]}; dc_network_addresses := ∅; dc_state := "running" |}.

Lemma worker_containers_exact_witness :
  let identity := {| wi_tenant_name := "t"; wi_network_id := "net"; wi_machine_names := {["m1"]} |} in
  worker_containers [worker_fixture "control-plane"] identity
    = Err (DockerIdentity "worker ownership cannot be proven") ∧
  worker_containers [worker_fixture "worker"] identity = Ok [worker_fixture "worker"] ∧
  Forall (proven_worker identity) [worker_fixture "worker"].
Proof.
  assert (Hok : worker_containers [worker_fixture "worker"]
    {| wi_tenant_name := "t"; wi_network_id := "net"; wi_machine_names := {["m1"]} |}
    = Ok [worker_fixture "worker"]) by (vm_compute; reflexivity).
  split; [vm_compute; reflexivity|]. split; [exact Hok|].
  exact (proj1 (worker_containers_exact _ _ _ Hok)).
Defined.

(** ** Requests to the daemon *)

(** A name that stays one segment of a request path. *)
Definition path_safe (s : string) : Prop :=
  s ≠ "" ∧ s ≠ "." ∧ s ≠ ".." ∧
  Forall (λ c, contains_char s c = false) ["/"%char; "?"%char; "#"%char; "%"%char].

Lemma path_identifier_safe s : path_identifier s = Ok tt → path_safe s.
Proof.
  unfold path_identifier. intros H. run H. split_and!; [done..|].
  match goal with H : all _ _ = true |- _ => rewrite all_true in H; rename H into Hall end.
  assert (Hno : ∀ d, is_ascii_alphanumeric d
            || bool_decide (d ∈ ["_"%char; "."%char; "-"%char]) = false → contains_char s d = false).
  { intros d Hd. apply contains_char_false. intros x Hin <-. rewrite (Hall d Hin) in Hd. done. }
  repeat constructor; by apply Hno.
Qed.

Definition path_ok (h : trace DaemonResp) (o : DaemonOp) : Prop :=
  match o with
  | DaemonInspectContainer s | DaemonInspectNetwork s | DaemonInspectVolume s
  | DaemonCreateVolume s _ | DaemonRemoveVolume s => path_safe s
  | DaemonListContainers | DaemonListVolumes => True
  end.

Lemma container_identity_id c id r : container_identity c id = Ok r → dc_id r = id.
Proof. unfold container_identity. intros H. run H. done. Qed.

Lemma wp_inspect_container id h :
  wp (inspect_container id) h path_ok (λ _ r, ∀ c, r = Ok (Some c) → dc_id c = id).
Proof.
  unfold inspect_container. destruct (path_identifier id) as [[]|] eqn:Hp; [|done].
  apply path_identifier_safe in Hp. split; [done|]. intros [c|e]; simpl.
  - destruct (container_identity c id) as [d|] eqn:Hc; intros x; [|done].
    intros [= ->]. by eapply container_identity_id.
  - intros x. destruct e as [code|]; [|done]. by repeat case_match.
Qed.

Lemma wp_inspect_listed listed seen acc h :
  NoDup (map dc_id acc) → (∀ c, c ∈ acc → dc_id c ∈ seen) →
  wp (inspect_listed listed seen acc) h path_ok
     (λ _ r, ∀ cs, r = Ok cs → NoDup (map dc_id cs)).
Proof.
  revert seen acc h. induction listed as [|entry rest IH]; intros seen acc h Hnd Hseen; simpl.
  { by intros cs [= <-]. }
  destruct (ok_or _ _) as [id|]; [|done]. destruct (bool_decide (id ∈ seen)) eqn:Hb; [done|]. bool_hyp.
  apply wp_bind. eapply wp_mono; [done| |apply wp_inspect_container]. simpl.
  intros h' [[c|]|e] Hid; [|apply IH; set_solver|done].
  apply IH; [|set_solver]. specialize (Hid c eq_refl). apply NoDup_snoc_map; [done|].
  intros y Hy E. apply Hseen in Hy. congruence.
Qed.

(** Whatever the daemon answers, the client only sends path segments that
    are a single safe name (no separators, escapes, or dot segments), never
    lists two containers with the same ID, and an inspected container or
    created volume has the requested identity. *)
Theorem docker_client_safe id name labels h :
  wp (inspect_container id) h path_ok (λ _ r, ∀ c, r = Ok (Some c) → dc_id c = id) ∧
  wp (inspect_network id) h path_ok (λ _ r, ∀ n, r = Ok n → dn_id n = id) ∧
  wp (inspect_volume name) h path_ok (λ _ r, ∀ v, r = Ok (Some v) → dv_name v = name) ∧
  wp (create_volume name labels) h path_ok
     (λ _ r, ∀ v, r = Ok v → dv_name v = name ∧ dv_labels v = labels) ∧
  wp (remove_volume name) h path_ok (λ _ _, True) ∧
  wp list_containers h path_ok (λ _ r, ∀ cs, r = Ok cs → NoDup (map dc_id cs)).
Proof.
  split_and!.
  - apply wp_inspect_container.
  - unfold inspect_network. destruct (path_identifier id) as [[]|] eqn:Hp; [|done].
    apply path_identifier_safe in Hp. split; [done|]. intros [n|e]; [|done]. simpl.
    destruct (_ != _); [done|]. by intros ? [= <-].
  - unfold inspect_volume. destruct (path_identifier name) as [[]|] eqn:Hp; [|done].
    apply path_identifier_safe in Hp. split; [done|]. intros [v|e]; simpl; intros x Hx.
    + destruct (volume_identity v name) as [d|] eqn:Hv; [|done]. simp_eqs.
      unfold volume_identity in Hv. run Hv. done.
    + destruct e as [code|]; [|done]. by repeat case_match.
  - unfold create_volume. destruct (path_identifier name) as [[]|] eqn:Hp; [|done].
    apply path_identifier_safe in Hp. split; [done|]. intros [v|e]; [|done]. simpl.
    destruct (volume_identity v name) as [d|]; [|done].
    destruct (validate_volume d name labels) as [[]|] eqn:Hv; [|done]. intros ? [= <-].
    unfold validate_volume in Hv. run Hv. done.
  - unfold remove_volume. destruct (path_identifier name) as [[]|] eqn:Hp; [|done].
    apply path_identifier_safe in Hp. done.
  - split; [done|]. intros [listed|e]; [|done]. simpl. apply wp_inspect_listed; [constructor|set_solver].
Qed.
