(* ===== verification/Allocation.v ===== *)
(** * Lease claims: the decisions

    [controller/src/allocation.rs], the pure part: building the Lease that
    claims a slot, validating an observed Lease against the identity of a
    Tenant, recovering an allocation from an exact Lease, and deciding what to
    do with an inventory when a slot is claimed or released.  The operations
    that talk to the API server are in [AllocationRun]. *)

From S2P Require Import Prelude RustStd Externals Kube Api Ownership Foundation.

Open Scope Z_scope.

Definition PREFIX := "tenant-slot-".
Definition AZURE_PREFIX := "tenant-azure-slot-".
Definition SLOT_LABEL := "tenancy.cnpg-vcluster.io/slot-id".
Definition ENDPOINT_ANNOTATION := "tenancy.cnpg-vcluster.io/endpoint".
Definition POD_CIDR_ANNOTATION := "tenancy.cnpg-vcluster.io/pod-cidr".
Definition SERVICE_CIDR_ANNOTATION := "tenancy.cnpg-vcluster.io/service-cidr".
Definition AZURE_CATALOG_UID_LABEL := "tenancy.cnpg-vcluster.io/allocation-catalog-uid".

Record ClaimContext := {
  cx_namespace : string;
  cx_ownership_label : string;
  cx_lab_prefix : string;
  cx_tenant_name : string;
  cx_tenant_uid : string;
  cx_spec_hash : string;
  cx_foundation_hash : string;
  cx_slots : list AllocationSlot;
}.

Inductive AllocationError :=
| InvalidPool
| Duplicate
| ClaimError (lease : string)
| NameHeld
| StatusMismatch
| Missing
| Exhausted
| AllocApi (e : KubeError).

#[export] Instance AllocationError_eq_dec : EqDecision AllocationError.
Proof. solve_decision. Defined.

Definition allocation_display (e : AllocationError) : string :=
  match e with
  | InvalidPool => "allocation context or slot pool is invalid"
  | Duplicate => "Tenant UID has duplicate Lease claims"
  | ClaimError n => "Lease claim identity is foreign, malformed, or replaced: " +:+ n
  | NameHeld => "Tenant name is held by a different Lease claim"
  | StatusMismatch => "status-bound allocation does not match its Lease claim"
  | Missing => "status-bound Lease is absent before terminal residue cleanup"
  | Exhausted => "allocation slots are exhausted"
  | AllocApi e => kube_display e
  end.

Record Claim := {
  claim_slot : AllocationSlot;
  claim_lease_uid : string;
  claim_resource_version : string;
}.

#[export] Instance Claim_eq_dec : EqDecision Claim.
Proof. solve_decision. Defined.

(** [impl From<&AllocationSlot> for AllocationStatus] *)
Definition slot_status (slot : AllocationSlot) : AllocationStatus := {|
  slot_id := as_slot_id slot; endpoint := as_endpoint slot;
  pod_cidr := as_pod_cidr slot; service_cidr := as_service_cidr slot |}.

Definition claim_status (c : Claim) : AllocationStatus := slot_status (claim_slot c).

Record DeleteIntent := {
  di_name : string;
  di_uid : string;
  di_resource_version : string;
}.

#[export] Instance DeleteIntent_eq_dec : EqDecision DeleteIntent.
Proof. solve_decision. Defined.

Inductive ReleaseDecision :=
| ReleaseDelete (intent : DeleteIntent)
| ReleasePending
| ReleaseComplete.

#[export] Instance ReleaseDecision_eq_dec : EqDecision ReleaseDecision.
Proof. solve_decision. Defined.

Inductive ClaimDecision :=
| Existing (c : Claim)
| Create (slot : AllocationSlot).

#[export] Instance ClaimDecision_eq_dec : EqDecision ClaimDecision.
Proof. solve_decision. Defined.

Definition dns_label (value : string) (max_len : Z) : bool :=
  negb (is_empty value) && (len value <=? max_len)
  && is_some_and (λ c, is_ascii_lowercase c || is_ascii_digit c) (hd_error (bytes value))
  && is_some_and (λ c, is_ascii_lowercase c || is_ascii_digit c) (list.last (bytes value))
  && all (λ c, is_ascii_lowercase c || is_ascii_digit c || Ascii.eqb c "-"%char) (bytes value).

Section Decisions.
Context `{SO : Sha256Ops, NO : Ipv4NetOps}.

Definition lease_name (id : string) : string :=
  let digest := sha256_hex id in
  let pre := if starts_with id "azure-" then AZURE_PREFIX else PREFIX in
  pre +:+ String.substring 0 (63 - String.length pre) digest.

Definition status_matches (slot : AllocationSlot) (status : AllocationStatus) : bool :=
  (as_slot_id slot == slot_id status) && (as_endpoint slot == endpoint status)
  && (as_pod_cidr slot == pod_cidr status) && (as_service_cidr slot == service_cidr status).

Definition valid_identity (cx : ClaimContext) : result AllocationError unit :=
  if any is_empty [cx_namespace cx; cx_ownership_label cx; cx_lab_prefix cx; cx_tenant_name cx;
                   cx_tenant_uid cx; cx_spec_hash cx; cx_foundation_hash cx]
     || negb (dns_label (cx_namespace cx) 63)
     || negb (dns_label (cx_tenant_name cx) 30)
     || (cx_ownership_label cx == SLOT_LABEL)
     || (cx_ownership_label cx == TENANT_ANNOTATION)
  then Err InvalidPool else Ok tt.

(** The loop over slots of [valid_context], with the set of lease names. *)
Definition valid_slots (slots : list AllocationSlot) : result AllocationError (gset string) :=
  try_fold (λ names slot,
    if negb (dns_label (as_slot_id slot) 63)
       || bool_decide (lease_name (as_slot_id slot) ∈ names)
    then Err InvalidPool else Ok ({[lease_name (as_slot_id slot)]} ∪ names)) ∅ slots.

Definition valid_context (cx : ClaimContext) : result AllocationError unit :=
  let! _ := valid_identity cx in
  match cx_slots cx with
  | [] => Err InvalidPool
  | _ => let! _ := valid_slots (cx_slots cx) in Ok tt
  end.

Definition claim_labels (cx : ClaimContext) (slot : AllocationStatus) : gmap string string :=
  collect_map [
    (cx_ownership_label cx, cx_lab_prefix cx);
    (SLOT_LABEL, slot_id slot);
    (TENANT_ANNOTATION, cx_tenant_name cx)].

Definition claim_annotations (cx : ClaimContext) (slot : AllocationStatus) : gmap string string :=
  collect_map [
    (TENANT_ANNOTATION, cx_tenant_name cx);
    (TENANT_UID_ANNOTATION, cx_tenant_uid cx);
    (SPEC_HASH_ANNOTATION, cx_spec_hash cx);
    (FOUNDATION_ANNOTATION, cx_foundation_hash cx);
    (RESOURCE_ANNOTATION, "allocation-lease");
    (SLOT_LABEL, slot_id slot);
    (ENDPOINT_ANNOTATION, endpoint slot);
    (POD_CIDR_ANNOTATION, pod_cidr slot);
    (SERVICE_CIDR_ANNOTATION, service_cidr slot)].

Definition new_lease (cx : ClaimContext) (slot : AllocationSlot) : Lease := {|
  lease_meta := {|
    name := Some (lease_name (as_slot_id slot));
    namespace := Some (cx_namespace cx);
    uid := None; resource_version := None; generation := None;
    labels := Some (claim_labels cx (slot_status slot));
    annotations := Some (claim_annotations cx (slot_status slot));
    owner_references := None; finalizers := None; deletion_timestamp := None |};
  lease_spec := None |}.

(** The disjunction of mismatches that rejects a Lease. *)
Definition claim_mismatch (cx : ClaimContext) (slot : AllocationStatus) (lease : Lease) : bool :=
  (name (lease_meta lease) != Some (lease_name (slot_id slot)))
  || (namespace (lease_meta lease) != Some (cx_namespace cx))
  || (labels (lease_meta lease) != Some (claim_labels cx slot))
  || (annotations (lease_meta lease) != Some (claim_annotations cx slot))
  || is_some_and (λ owners : list OwnerReference, match owners with [] => false | _ => true end)
       (owner_references (lease_meta lease))
  || is_some (deletion_timestamp (lease_meta lease))
  || is_some_and (λ spec, spec != default_lease_spec) (lease_spec lease).

Definition validate_claim (cx : ClaimContext) (slot : AllocationStatus) (lease : Lease)
    : result AllocationError DeleteIntent :=
  let nm := lease_name (slot_id slot) in
  if claim_mismatch cx slot lease then Err (ClaimError nm) else
  match filter_non_empty (uid (lease_meta lease)),
        filter_non_empty (resource_version (lease_meta lease)) with
  | Some u, Some rv => Ok {| di_name := nm; di_uid := u; di_resource_version := rv |}
  | _, _ => Err (ClaimError nm)
  end.

Definition claim (cx : ClaimContext) (slot : AllocationSlot) (lease : Lease)
    : result AllocationError Claim :=
  let! verified := validate_claim cx (slot_status slot) lease in
  Ok {| claim_slot := slot; claim_lease_uid := di_uid verified;
        claim_resource_version := di_resource_version verified |}.

Definition lease_name_or_empty (lease : Lease) : string :=
  unwrap_or "" (name (lease_meta lease)).

Definition annotation (lease : Lease) (key : string) : result AllocationError string :=
  ok_or (filter_non_empty (get_annotation (lease_meta lease) key))
    (ClaimError (lease_name_or_empty lease)).

Definition canonical_cidr (cidr : string) : bool :=
  is_some_and (λ net, addr net == network net) (parse_net cidr).

Definition validate_allocation (a : AllocationStatus) : result AllocationError unit :=
  if negb (dns_label (slot_id a) 63)
     || is_none (parse_ipv4 (endpoint a))
     || any (λ cidr, negb (canonical_cidr cidr)) [pod_cidr a; service_cidr a]
  then Err StatusMismatch else Ok tt.

Definition annotated_allocation (lease : Lease) : result AllocationError AllocationStatus :=
  let! s := annotation lease SLOT_LABEL in
  let! e := annotation lease ENDPOINT_ANNOTATION in
  let! p := annotation lease POD_CIDR_ANNOTATION in
  let! v := annotation lease SERVICE_CIDR_ANNOTATION in
  let a := {| slot_id := s; endpoint := e; pod_cidr := p; service_cidr := v |} in
  let! _ := map_err (λ _, ClaimError (lease_name_or_empty lease)) (validate_allocation a) in
  Ok a.

(** [annotation(lease, TENANT_UID_ANNOTATION).is_ok_and(|uid| uid == u)] *)
Definition annotated_uid (u : string) (lease : Lease) : bool :=
  is_ok_and (λ v, v == u) (annotation lease TENANT_UID_ANNOTATION).

Definition recover_allocation (cx : ClaimContext) (leases : list Lease)
    : result AllocationError (option AllocationStatus) :=
  let! _ := valid_identity cx in
  match filter_list (annotated_uid (cx_tenant_uid cx)) leases with
  | _ :: _ :: _ => Err Duplicate
  | [] => Ok None
  | [lease] =>
      let! a := annotated_allocation lease in
      let! _ := validate_claim cx a lease in
      Ok (Some a)
  end.

Definition validate_successor (cx : ClaimContext) (lease : Lease) (leases : list Lease)
    (a : AllocationStatus) : result AllocationError unit :=
  let rotated := cx_ownership_label cx == AZURE_CATALOG_UID_LABEL in
  let! lab := (if rotated then
                 ok_or (filter_non_empty (get_label (lease_meta lease) (cx_ownership_label cx)))
                   (ClaimError (lease_name_or_empty lease))
               else Ok (cx_lab_prefix cx)) in
  let! hash := (if rotated then annotation lease FOUNDATION_ANNOTATION
                else Ok (cx_foundation_hash cx)) in
  let! tenant := annotation lease TENANT_ANNOTATION in
  let! u := annotation lease TENANT_UID_ANNOTATION in
  let! spec := annotation lease SPEC_HASH_ANNOTATION in
  let successor := {|
    cx_namespace := cx_namespace cx; cx_ownership_label := cx_ownership_label cx;
    cx_lab_prefix := lab; cx_tenant_name := tenant; cx_tenant_uid := u;
    cx_spec_hash := spec; cx_foundation_hash := hash; cx_slots := cx_slots cx |} in
  let! _ := valid_identity successor in
  let! _ := validate_claim successor a lease in
  if negb (length (filter_list (annotated_uid u) leases) =? 1)%nat then Err Duplicate else Ok tt.

Definition successor_allocation (cx : ClaimContext) (lease : Lease) (bound : AllocationStatus)
    : result AllocationError AllocationStatus :=
  if cx_ownership_label cx == AZURE_CATALOG_UID_LABEL then annotated_allocation lease else Ok bound.

Definition raw_uid_is (u : string) (lease : Lease) : bool :=
  is_some_and (λ v, v == u) (get_annotation (lease_meta lease) TENANT_UID_ANNOTATION).
Definition raw_tenant_is (n : string) (lease : Lease) : bool :=
  is_some_and (λ v, v == n) (get_annotation (lease_meta lease) TENANT_ANNOTATION).
Definition named (n : string) (lease : Lease) : bool := name (lease_meta lease) == Some n.

Definition matching_claim_step (cx : ClaimContext) (found : option (Lease * AllocationSlot))
    (lease : Lease) : result AllocationError (option (Lease * AllocationSlot)) :=
  let slot := find_first (λ slot, named (lease_name (as_slot_id slot)) lease) (cx_slots cx) in
  if raw_uid_is (cx_tenant_uid cx) lease then
    let! slot := ok_or slot (ClaimError (lease_name_or_empty lease)) in
    let! _ := claim cx slot lease in
    Ok (Some (lease, slot))
  else if raw_tenant_is (cx_tenant_name cx) lease then Err NameHeld
  else Ok found.

Definition matching_claim (cx : ClaimContext) (leases : list Lease)
    : result AllocationError (option (Lease * AllocationSlot)) :=
  if (1 <? length (take 2 (filter_list (raw_uid_is (cx_tenant_uid cx)) leases)))%nat
  then Err Duplicate
  else try_fold (matching_claim_step cx) None leases.

(** The first slot no Lease of the inventory is named after. *)
Definition free_slot (cx : ClaimContext) (leases : list Lease) : option AllocationSlot :=
  find_first (λ slot, negb (any (named (lease_name (as_slot_id slot))) leases)) (cx_slots cx).

Definition decide_claim (cx : ClaimContext) (leases : list Lease) (bound : option AllocationStatus)
    : result AllocationError ClaimDecision :=
  let! _ := valid_context cx in
  let! existing := matching_claim cx leases in
  match bound with
  | Some bound =>
      let! (lease, slot) := ok_or existing Missing in
      if negb (status_matches slot bound) then Err StatusMismatch else
      let! c := claim cx slot lease in Ok (Existing c)
  | None =>
      match existing with
      | Some (lease, slot) => let! c := claim cx slot lease in Ok (Existing c)
      | None =>
          match free_slot cx leases with
          | Some slot => Ok (Create slot)
          | None => Err Exhausted
          end
      end
  end.

(** The loop of [decide_release] over Leases that carry the Tenant's name but
    not its UID. *)
Definition check_same_name (cx : ClaimContext) (leases : list Lease) (residue_absent : bool)
    (lease : Lease) : result AllocationError unit :=
  if is_ok_and (λ n, n == cx_tenant_name cx) (annotation lease TENANT_ANNOTATION)
     && negb (annotated_uid (cx_tenant_uid cx) lease)
  then
    if negb residue_absent then Err NameHeld else
    let! a := annotated_allocation lease in
    validate_successor cx lease leases a
  else Ok tt.

(** The branch of [decide_release] for a status-bound allocation. *)
Definition release_bound (cx : ClaimContext) (leases : list Lease)
    (existing : option AllocationStatus) (bound : AllocationStatus) (residue_absent : bool)
    : result AllocationError ReleaseDecision :=
  let! _ := validate_allocation bound in
  if is_some_and (λ e, e != bound) existing then Err StatusMismatch else
  let expected_name := lease_name (slot_id bound) in
  match find_first (named expected_name) leases with
  | Some lease =>
      let u := get_annotation (lease_meta lease) TENANT_UID_ANNOTATION in
      if is_none_or is_empty u then Err (ClaimError expected_name) else
      if (u != Some (cx_tenant_uid cx)) && residue_absent && is_none existing then
        let! successor := successor_allocation cx lease bound in
        let! _ := validate_successor cx lease leases successor in
        Ok ReleaseComplete
      else
        let! verified := validate_claim cx bound lease in
        if is_none existing then Err StatusMismatch else
        if negb residue_absent then Ok ReleasePending else Ok (ReleaseDelete verified)
  | None =>
      if is_some existing then Err StatusMismatch else
      if residue_absent then Ok ReleaseComplete else Err Missing
  end.

Definition decide_release (cx : ClaimContext) (leases : list Lease)
    (bound : option AllocationStatus) (residue_absent : bool)
    : result AllocationError ReleaseDecision :=
  let! _ := valid_identity cx in
  let! existing := recover_allocation cx leases in
  let! _ := try_for (check_same_name cx leases residue_absent) leases in
  match bound with
  | Some bound => release_bound cx leases existing bound residue_absent
  | None =>
      match existing with
      | Some a =>
          let! lease := ok_or (find_first (annotated_uid (cx_tenant_uid cx)) leases) Missing in
          let! verified := validate_claim cx a lease in
          if negb residue_absent then Ok ReleasePending else Ok (ReleaseDelete verified)
      | None => if residue_absent then Ok ReleaseComplete else Ok ReleasePending
      end
  end.
End Decisions.

(** ** Facts about claims *)
Section Facts.
Context `{SO : Sha256Ops, NO : Ipv4NetOps}.

Definition annotation_list (cx : ClaimContext) (a : AllocationStatus) : list (string * string) := [
  (TENANT_ANNOTATION, cx_tenant_name cx);
  (TENANT_UID_ANNOTATION, cx_tenant_uid cx);
  (SPEC_HASH_ANNOTATION, cx_spec_hash cx);
  (FOUNDATION_ANNOTATION, cx_foundation_hash cx);
  (RESOURCE_ANNOTATION, "allocation-lease");
  (SLOT_LABEL, slot_id a);
  (ENDPOINT_ANNOTATION, endpoint a);
  (POD_CIDR_ANNOTATION, pod_cidr a);
  (SERVICE_CIDR_ANNOTATION, service_cidr a)].

Lemma claim_annotations_lookup cx a k v :
  claim_annotations cx a !! k = Some v ↔ (k, v) ∈ annotation_list cx a.
Proof.
  apply collect_map_lookup. simpl. apply (bool_decide_unpack _). vm_compute. done.
Qed.

(** The meaning of a validated claim: the Lease is exactly the one this Tenant
    would create for the slot, unowned, not being deleted, without a spec, and
    it has an identity. *)
Record exact_claim (cx : ClaimContext) (a : AllocationStatus) (lease : Lease)
    (intent : DeleteIntent) : Prop := {
  exact_name : name (lease_meta lease) = Some (lease_name (slot_id a));
  exact_namespace : namespace (lease_meta lease) = Some (cx_namespace cx);
  exact_labels : labels (lease_meta lease) = Some (claim_labels cx a);
  exact_annotations : annotations (lease_meta lease) = Some (claim_annotations cx a);
  exact_unowned : owners_of (lease_meta lease) = [];
  exact_live : deletion_timestamp (lease_meta lease) = None;
  exact_spec : lease_spec lease = None ∨ lease_spec lease = Some default_lease_spec;
  exact_intent_name : di_name intent = lease_name (slot_id a);
  exact_uid : uid (lease_meta lease) = Some (di_uid intent);
  exact_uid_nonempty : di_uid intent ≠ "";
  exact_rv : resource_version (lease_meta lease) = Some (di_resource_version intent);
  exact_rv_nonempty : di_resource_version intent ≠ "";
}.

Lemma claim_mismatch_false cx a lease :
  claim_mismatch cx a lease = false ↔
  name (lease_meta lease) = Some (lease_name (slot_id a)) ∧
  namespace (lease_meta lease) = Some (cx_namespace cx) ∧
  labels (lease_meta lease) = Some (claim_labels cx a) ∧
  annotations (lease_meta lease) = Some (claim_annotations cx a) ∧
  owners_of (lease_meta lease) = [] ∧
  deletion_timestamp (lease_meta lease) = None ∧
  (lease_spec lease = None ∨ lease_spec lease = Some default_lease_spec).
Proof.
  unfold claim_mismatch, owners_of.
  rewrite !orb_false_iff, !negb_false_iff, !bool_decide_eq_true.
  assert (Ho : is_some_and (λ owners : list OwnerReference,
                 match owners with [] => false | _ => true end)
                 (owner_references (lease_meta lease)) = false ↔
               unwrap_or [] (owner_references (lease_meta lease)) = []).
  { destruct (owner_references _) as [[|]|]; simpl; naive_solver. }
  assert (Hd : is_some (deletion_timestamp (lease_meta lease)) = false ↔
               deletion_timestamp (lease_meta lease) = None).
  { by destruct (deletion_timestamp _). }
  assert (Hs : is_some_and (λ spec, spec != default_lease_spec) (lease_spec lease) = false ↔
               lease_spec lease = None ∨ lease_spec lease = Some default_lease_spec).
  { destruct (lease_spec lease) as [s|]; simpl; [|naive_solver].
    rewrite negb_false_iff, bool_decide_eq_true. naive_solver. }
  rewrite Ho, Hd, Hs. tauto.
Qed.

Lemma validate_claim_Ok cx a lease intent :
  validate_claim cx a lease = Ok intent ↔ exact_claim cx a lease intent.
Proof.
  unfold validate_claim. split.
  - intros H. run H. apply claim_mismatch_false in Heqb as (?&?&?&?&?&?&?).
    apply filter_non_empty_Some in Heqo as [??].
    match goal with H : filter_non_empty _ = Some _ |- _ =>
      apply filter_non_empty_Some in H as [??] end.
    by constructor.
  - intros []. rewrite (proj2 (claim_mismatch_false cx a lease)) by done.
    rewrite (proj2 (filter_non_empty_Some _ (di_uid intent))) by done.
    rewrite (proj2 (filter_non_empty_Some _ (di_resource_version intent))) by done.
    destruct intent; simpl in *. by subst.
Qed.

Lemma exact_annotation cx a lease intent k v :
  exact_claim cx a lease intent → (k, v) ∈ annotation_list cx a →
  get_annotation (lease_meta lease) k = Some v.
Proof.
  intros [] Hin. unfold get_annotation. rewrite exact_annotations0. simpl.
  by apply claim_annotations_lookup.
Qed.

Lemma exact_claim_uid cx a lease intent :
  exact_claim cx a lease intent →
  get_annotation (lease_meta lease) TENANT_UID_ANNOTATION = Some (cx_tenant_uid cx).
Proof. intros H. eapply exact_annotation; [exact H|]. in_list. Qed.

Lemma annotation_Ok lease k v :
  annotation lease k = Ok v ↔ get_annotation (lease_meta lease) k = Some v ∧ v ≠ "".
Proof.
  unfold annotation, ok_or. rewrite <-filter_non_empty_Some.
  destruct (filter_non_empty _); naive_solver.
Qed.

Lemma annotated_uid_iff u lease :
  annotated_uid u lease = true ↔
  get_annotation (lease_meta lease) TENANT_UID_ANNOTATION = Some u ∧ u ≠ "".
Proof.
  unfold annotated_uid. rewrite is_ok_and_true. split.
  - intros (v & Hv%annotation_Ok & ->%bool_decide_eq_true). done.
  - intros Hu. exists u. by rewrite bool_decide_eq_true, annotation_Ok.
Qed.

Lemma raw_uid_iff u lease :
  raw_uid_is u lease = true ↔ get_annotation (lease_meta lease) TENANT_UID_ANNOTATION = Some u.
Proof.
  unfold raw_uid_is. rewrite is_some_and_true.
  split; [intros (? & ? & ->%bool_decide_eq_true)|]; [done|].
  intros Hu. exists u. by rewrite bool_decide_eq_true.
Qed.

Lemma raw_tenant_iff n lease :
  raw_tenant_is n lease = true ↔ get_annotation (lease_meta lease) TENANT_ANNOTATION = Some n.
Proof.
  unfold raw_tenant_is. rewrite is_some_and_true.
  split; [intros (? & ? & ->%bool_decide_eq_true)|]; [done|].
  intros Hu. exists n. by rewrite bool_decide_eq_true.
Qed.

Lemma annotated_allocation_Ok lease a :
  annotated_allocation lease = Ok a →
  get_annotation (lease_meta lease) SLOT_LABEL = Some (slot_id a) ∧
  get_annotation (lease_meta lease) ENDPOINT_ANNOTATION = Some (endpoint a) ∧
  get_annotation (lease_meta lease) POD_CIDR_ANNOTATION = Some (pod_cidr a) ∧
  get_annotation (lease_meta lease) SERVICE_CIDR_ANNOTATION = Some (service_cidr a) ∧
  validate_allocation a = Ok tt.
Proof.
  unfold annotated_allocation. intros H. run H.
  repeat match goal with H : annotation _ _ = Ok _ |- _ => apply annotation_Ok in H as [? ?] end.
  match goal with H : map_err _ ?v = Ok _ |- _ => destruct v as [[]|] eqn:Hv; [|done] end.
  done.
Qed.

(** The identity a valid context guarantees. *)
Lemma valid_identity_Ok cx :
  valid_identity cx = Ok tt →
  cx_tenant_uid cx ≠ "" ∧ cx_tenant_name cx ≠ "" ∧ cx_spec_hash cx ≠ "" ∧
  cx_foundation_hash cx ≠ "" ∧ cx_lab_prefix cx ≠ "" ∧ cx_ownership_label cx ≠ "" ∧
  cx_ownership_label cx ≠ SLOT_LABEL ∧ cx_ownership_label cx ≠ TENANT_ANNOTATION.
Proof.
  unfold valid_identity. intros H. run H.
  match goal with H : any is_empty _ = false |- _ => simpl in H; bool_hyp end. done.
Qed.

Lemma valid_context_Ok cx :
  valid_context cx = Ok tt →
  valid_identity cx = Ok tt ∧ cx_slots cx ≠ [] ∧ ∃ names, valid_slots (cx_slots cx) = Ok names.
Proof.
  unfold valid_context. destruct (valid_identity cx) as [[]|] eqn:Hi; [|done].
  destruct (cx_slots cx) as [|s l] eqn:Hs; [done|]. rewrite <-Hs.
  destruct (valid_slots (cx_slots cx)) as [names|] eqn:Hv; [|done]. intros _.
  split_and!; [done|by rewrite Hs|eauto].
Qed.

(** Distinct slots of a valid pool have distinct Lease names, hence distinct
    identifiers; this needs no assumption on the digest. *)
Lemma valid_slots_nodup slots names :
  valid_slots slots = Ok names → NoDup (map (λ s, lease_name (as_slot_id s)) slots).
Proof.
  unfold valid_slots.
  enough (Hgen : ∀ acc, try_fold (λ names slot,
      if negb (dns_label (as_slot_id slot) 63) || bool_decide (lease_name (as_slot_id slot) ∈ names)
      then Err InvalidPool else Ok ({[lease_name (as_slot_id slot)]} ∪ names)) acc slots = Ok names →
      NoDup (map (λ s, lease_name (as_slot_id s)) slots) ∧
      ∀ n, n ∈ map (λ s, lease_name (as_slot_id s)) slots → n ∉ acc).
  { intros H. by apply (Hgen ∅). }
  induction slots as [|s slots IH]; intros acc H; simpl in H.
  - split; [constructor|simpl; set_solver].
  - destruct (negb _ || _) eqn:Hb; [done|]. bool_hyp. apply IH in H as [Hnd Hfresh].
    split.
    + simpl. constructor; [|done]. intros Hin%Hfresh. set_solver.
    + simpl. intros n [->|Hn]%elem_of_cons; [done|]. apply Hfresh in Hn. set_solver.
Qed.

Lemma status_matches_iff slot status :
  status_matches slot status = true ↔ slot_status slot = status.
Proof.
  unfold status_matches, slot_status. rewrite !andb_true_iff, !bool_decide_eq_true.
  destruct status; simpl. naive_solver.
Qed.
End Facts.

(** ** Lease names *)
Section LeaseNames.
Context `{SL : Sha256Laws}.

Lemma lease_name_length id : String.length (lease_name id) = 63%nat.
Proof.
  unfold lease_name. rewrite length_append.
  rewrite length_substring_0 by (rewrite sha256_hex_length; lia).
  destruct (starts_with id "azure-"); reflexivity.
Qed.

Lemma hex_byte_edge id c :
  c ∈ bytes (sha256_hex id) → is_ascii_lowercase c || is_ascii_digit c = true.
Proof.
  intros Hc. pose proof (sha256_hex_digits id) as Hd. rewrite all_true in Hd.
  specialize (Hd c Hc). unfold is_ascii_lowercase, is_ascii_digit in *. lia.
Qed.

(** Every Lease name the allocator computes is a DNS label of exactly 63
    bytes, whatever the slot identifier: the digest is cut to fill the limit
    and the slice never leaves the digest. *)
Theorem lease_name_dns_label id :
  dns_label (lease_name id) 63 = true ∧ String.length (lease_name id) = 63%nat.
Proof.
  split; [|apply lease_name_length]. unfold dns_label.
  assert (Hlen : len (lease_name id) = 63) by (unfold len; by rewrite lease_name_length).
  assert (Hne : is_empty (lease_name id) = false).
  { apply is_empty_false. intros E. by rewrite E in Hlen. }
  rewrite Hne, Hlen. simpl. unfold lease_name. set (pre := if starts_with _ _ then _ else _).
  set (n := (63 - String.length pre)%nat). rewrite bytes_app, bytes_substring_0.
  set (hex := bytes (sha256_hex id)).
  assert (Hpre : pre = PREFIX ∨ pre = AZURE_PREFIX) by (unfold pre; case_match; auto).
  assert (Hhex : ∀ c, c ∈ take n hex → is_ascii_lowercase c || is_ascii_digit c = true).
  { intros c Hc. apply (hex_byte_edge id). eapply elem_of_take in Hc as (k & Hk & _).
    by eapply list_elem_of_lookup_2. }
  assert (Hlast : ∃ c, list.last (take n hex) = Some c).
  { destruct (list.last (take n hex)) eqn:E; [eauto|]. apply last_None in E.
    assert (length (take n hex) = 0%nat) as E' by by rewrite E.
    rewrite length_take in E'. unfold hex in E'. rewrite bytes_length, sha256_hex_length in E'.
    unfold n in E'. destruct Hpre as [-> | ->]; vm_compute in E'; done. }
  destruct Hlast as [c Hc]. rewrite last_app, Hc. simpl.
  rewrite (Hhex c) by (by apply last_Some_elem_of).
  rewrite (proj2 (all_true _ _)).
  - by destruct Hpre as [-> | ->].
  - intros d [Hd|Hd]%elem_of_app; [|by rewrite (Hhex d Hd)].
    revert d Hd. apply all_true. by destruct Hpre as [-> | ->].
Qed.
End LeaseNames.

(** ** Claim decisions *)
Section ClaimDecisions.
Context `{SO : Sha256Ops, NO : Ipv4NetOps}.

(** A Lease of the inventory that is the Tenant's exact claim on [slot]. *)
Definition held_by (cx : ClaimContext) (lease : Lease) (slot : AllocationSlot) : Prop :=
  slot ∈ cx_slots cx ∧ ∃ intent, exact_claim cx (slot_status slot) lease intent.

Lemma matching_step_uid cx found lease r :
  matching_claim_step cx found lease = Ok r → raw_uid_is (cx_tenant_uid cx) lease = true →
  ∃ slot, r = Some (lease, slot) ∧ held_by cx lease slot.
Proof.
  unfold matching_claim_step, ok_or. intros H Hu. rewrite Hu in H.
  destruct (find_first _ _) as [slot|] eqn:Hf; [|done].
  destruct (claim cx slot lease) as [c|] eqn:Hc; [|done]. simp_eqs.
  apply find_first_Some in Hf as [Hin _]. exists slot. split; [done|]. split; [done|].
  unfold claim in Hc. destruct (validate_claim _ _ _) eqn:Hv; [|done].
  apply validate_claim_Ok in Hv. eauto.
Qed.

Lemma matching_step_other cx found lease r :
  matching_claim_step cx found lease = Ok r → raw_uid_is (cx_tenant_uid cx) lease = false →
  r = found ∧ raw_tenant_is (cx_tenant_name cx) lease = false.
Proof. unfold matching_claim_step. intros H Hu. rewrite Hu in H. by run H. Qed.

Lemma matching_fold cx leases found r :
  try_fold (matching_claim_step cx) found leases = Ok r →
  (∀ l, l ∈ leases → raw_uid_is (cx_tenant_uid cx) l = false →
        raw_tenant_is (cx_tenant_name cx) l = false) ∧
  ((r = found ∧ ∀ l, l ∈ leases → raw_uid_is (cx_tenant_uid cx) l = false) ∨
   ∃ l slot, r = Some (l, slot) ∧ l ∈ leases ∧ raw_uid_is (cx_tenant_uid cx) l = true ∧
             held_by cx l slot).
Proof.
  revert found. induction leases as [|l leases IH]; intros found H; simpl in H.
  - simp_eqs. split; [set_solver|left; set_solver].
  - destruct (matching_claim_step cx found l) as [f1|] eqn:Hs; [|done].
    apply IH in H as [Hnames Hr].
    destruct (raw_uid_is (cx_tenant_uid cx) l) eqn:Hu.
    + destruct (matching_step_uid _ _ _ _ Hs Hu) as (slot & -> & Hheld).
      split; [intros l' [->|Hl']%elem_of_cons ?; [congruence|by apply Hnames]|right].
      destruct Hr as [[-> _]|(l' & s' & -> & ? & ? & ?)]; [exists l, slot|exists l', s']; set_solver.
    + destruct (matching_step_other _ _ _ _ Hs Hu) as [-> Hn].
      split; [intros l' [->|Hl']%elem_of_cons ?; [done|by apply Hnames]|].
      destruct Hr as [[-> Hall]|(l' & s' & -> & ? & ? & ?)]; [left|right; exists l', s']; set_solver.
Qed.

Lemma matching_claim_None cx leases :
  matching_claim cx leases = Ok None →
  ∀ l, l ∈ leases → raw_uid_is (cx_tenant_uid cx) l = false ∧
                    raw_tenant_is (cx_tenant_name cx) l = false.
Proof.
  unfold matching_claim. intros H. run H. apply matching_fold in H as [Hn Hr].
  destruct Hr as [[_ Hall]|(l & s & [=] & _)]. intros l Hl. split; [by apply Hall|].
  apply Hn; [done|by apply Hall].
Qed.

Lemma matching_claim_Some cx leases l slot :
  matching_claim cx leases = Ok (Some (l, slot)) →
  l ∈ leases ∧ held_by cx l slot ∧
  filter_list (raw_uid_is (cx_tenant_uid cx)) leases = [l] ∧
  (∀ l', l' ∈ leases → raw_tenant_is (cx_tenant_name cx) l' = true → l' = l).
Proof.
  unfold matching_claim. intros H. run H. apply matching_fold in H as [Hn Hr].
  destruct Hr as [[[=] _]|(l' & s & [= <- <-] & Hin & Hu & Hheld)].
  assert (Hl : l ∈ filter_list (raw_uid_is (cx_tenant_uid cx)) leases)
    by by apply elem_of_filter_list.
  assert (Hone : filter_list (raw_uid_is (cx_tenant_uid cx)) leases = [l]).
  { destruct (filter_list _ leases) as [|x [|y f]] eqn:Hf; [set_solver| |simpl in *; lia].
    f_equal. set_solver. }
  split_and!; [done..|]. intros l' Hl' Hname.
  destruct (raw_uid_is (cx_tenant_uid cx) l') eqn:Hu'; [|rewrite Hn in Hname; done].
  assert (l' ∈ filter_list (raw_uid_is (cx_tenant_uid cx)) leases) as Hin'
    by by apply elem_of_filter_list.
  rewrite Hone in Hin'. set_solver.
Qed.

(** What each decision promises about the inventory it was taken on. *)
Definition claim_decision_sound (cx : ClaimContext) (leases : list Lease)
    (bound : option AllocationStatus) (d : ClaimDecision) : Prop :=
  match d with
  | Create slot =>
      bound = None ∧ slot ∈ cx_slots cx ∧
      (∀ l, l ∈ leases → name (lease_meta l) ≠ Some (lease_name (as_slot_id slot))) ∧
      (∀ l, l ∈ leases →
         get_annotation (lease_meta l) TENANT_UID_ANNOTATION ≠ Some (cx_tenant_uid cx) ∧
         get_annotation (lease_meta l) TENANT_ANNOTATION ≠ Some (cx_tenant_name cx))
  | Existing c =>
      (∀ b, bound = Some b → claim_status c = b) ∧ claim_slot c ∈ cx_slots cx ∧
      ∃ l intent, l ∈ leases ∧ exact_claim cx (claim_status c) l intent ∧
        claim_lease_uid c = di_uid intent ∧ claim_resource_version c = di_resource_version intent ∧
        (∀ l', l' ∈ leases →
           get_annotation (lease_meta l') TENANT_UID_ANNOTATION = Some (cx_tenant_uid cx) ∨
           get_annotation (lease_meta l') TENANT_ANNOTATION = Some (cx_tenant_name cx) → l' = l)
  end.

Lemma claim_Ok cx slot l c :
  claim cx slot l = Ok c →
  claim_slot c = slot ∧ exact_claim cx (slot_status slot) l
    {| di_name := lease_name (as_slot_id slot); di_uid := claim_lease_uid c;
       di_resource_version := claim_resource_version c |}.
Proof.
  unfold claim. destruct (validate_claim cx (slot_status slot) l) as [i|] eqn:Hv; [|done].
  intros [= <-]. simpl. split; [done|]. apply validate_claim_Ok in Hv.
  assert (di_name i = lease_name (as_slot_id slot)) as Hi by by apply (exact_intent_name _ _ _ _ Hv).
  destruct i; simpl in *. by subst.
Qed.

Lemma existing_sound cx leases bound l slot c :
  matching_claim cx leases = Ok (Some (l, slot)) → claim cx slot l = Ok c →
  (∀ b, bound = Some b → slot_status slot = b) →
  claim_decision_sound cx leases bound (Existing c).
Proof.
  intros Hm Hc Hb. apply matching_claim_Some in Hm as (Hin & [Hslot _] & Hone & Hname).
  apply claim_Ok in Hc as [<- Hex]. split_and!; [done..|].
  exists l, {| di_name := lease_name (as_slot_id (claim_slot c)); di_uid := claim_lease_uid c;
               di_resource_version := claim_resource_version c |}.
  split_and!; [done..|]. intros l' Hl' [Hu|Hn].
  - assert (l' ∈ filter_list (raw_uid_is (cx_tenant_uid cx)) leases) as Hin'
      by by rewrite elem_of_filter_list, raw_uid_iff.
    rewrite Hone in Hin'. set_solver.
  - apply Hname; [done|by apply raw_tenant_iff].
Qed.

Lemma decide_claim_facts cx leases bound d :
  decide_claim cx leases bound = Ok d → claim_decision_sound cx leases bound d.
Proof.
  unfold decide_claim. destruct (valid_context cx) as [[]|] eqn:Hv; [|done].
  destruct (matching_claim cx leases) as [existing|] eqn:Hm; [|done].
  destruct bound as [b|].
  - destruct existing as [[l slot]|]; [|done]. simpl.
    destruct (status_matches slot b) eqn:Hs; [|done]. simpl.
    destruct (claim cx slot l) as [c|] eqn:Hc; [|done]. intros [= <-].
    eapply existing_sound; [done..|]. intros b' [= <-]. by apply status_matches_iff.
  - destruct existing as [[l slot]|].
    + destruct (claim cx slot l) as [c|] eqn:Hc; [|done]. intros [= <-].
      by eapply existing_sound.
    + destruct (free_slot cx leases) as [slot|] eqn:Hf; [|done]. intros [= <-].
      apply find_first_Some in Hf as [Hin Hfree]. bool_hyp. rewrite any_false in Hfree.
      split_and!; [done..| |].
      * intros l Hl E. specialize (Hfree l Hl). unfold named in Hfree. bool_hyp. done.
      * intros l Hl. destruct (matching_claim_None cx leases Hm l Hl) as [Hu Hn].
        rewrite <-raw_uid_iff, <-raw_tenant_iff, Hu, Hn. done.
Qed.

(** A claim decision is sound for the inventory it was taken on.  A new
    Lease is only created for a slot of the pool whose Lease name is free,
    when no Lease carries the Tenant's UID or name and no allocation is
    recorded; an existing claim is the only Lease carrying the Tenant's UID
    or name, is exactly the Lease the Tenant would have created, and agrees
    with the recorded allocation. *)
Theorem decide_claim_sound cx leases bound d :
  decide_claim cx leases bound = Ok d → claim_decision_sound cx leases bound d.
Proof. apply decide_claim_facts. Qed.

(** The allocator is complete: for a valid context without a recorded
    allocation whose Tenant appears in no Lease, it always picks the first
    slot whose Lease name is free, and reports exhaustion exactly when every
    slot of the pool is taken. *)
Theorem decide_claim_complete cx leases :
  valid_context cx = Ok tt →
  (∀ l, l ∈ leases →
     get_annotation (lease_meta l) TENANT_UID_ANNOTATION ≠ Some (cx_tenant_uid cx) ∧
     get_annotation (lease_meta l) TENANT_ANNOTATION ≠ Some (cx_tenant_name cx)) →
  let taken slot := ∃ l, l ∈ leases ∧ name (lease_meta l) = Some (lease_name (as_slot_id slot)) in
  (∃ before slot after, cx_slots cx = before ++ slot :: after ∧ Forall taken before ∧
      ¬ taken slot ∧ decide_claim cx leases None = Ok (Create slot)) ∨
  (Forall taken (cx_slots cx) ∧ decide_claim cx leases None = Err Exhausted).
Proof.
  intros Hv Hfresh taken. unfold decide_claim. rewrite Hv.
  assert (Hraw : ∀ l, l ∈ leases → raw_uid_is (cx_tenant_uid cx) l = false ∧
                                  raw_tenant_is (cx_tenant_name cx) l = false).
  { intros l Hl. destruct (Hfresh l Hl) as [Hu Hn].
    rewrite <-raw_uid_iff in Hu. rewrite <-raw_tenant_iff in Hn.
    by split; apply not_true_is_false. }
  assert (matching_claim cx leases = Ok None) as ->.
  { unfold matching_claim.
    assert (filter_list (raw_uid_is (cx_tenant_uid cx)) leases = []) as ->.
    { destruct (filter_list _ leases) as [|x f] eqn:E; [done|].
      assert (x ∈ filter_list (raw_uid_is (cx_tenant_uid cx)) leases) as [Hx Hin]%elem_of_filter_list
        by (rewrite E; left). destruct (Hraw x Hin). congruence. }
    simpl. clear Hfresh. induction leases as [|l leases IH]; [done|]. simpl.
    unfold matching_claim_step at 1. destruct (Hraw l) as [-> ->]; [left|].
    apply IH. intros l' Hl'. apply Hraw. by right. }
  assert (Htaken : ∀ s, any (named (lease_name (as_slot_id s))) leases = true ↔ taken s).
  { intros s. rewrite any_true. unfold taken, named. setoid_rewrite bool_decide_eq_true. done. }
  unfold free_slot. clear Hv Hfresh.
  induction (cx_slots cx) as [|s slots IH]; [right; by split|]. simpl.
  destruct (any (named (lease_name (as_slot_id s))) leases) eqn:Hs.
  - simpl. apply Htaken in Hs.
    destruct IH as [(b & s' & a & -> & Hb & Hns & Hd)|[Hall Hd]].
    + left. exists (s :: b), s', a. split_and!; [done|by constructor|done|done].
    + right. split; [by constructor|done].
  - left. exists [], s, slots. split_and!; [done|constructor| |done].
    intros Ht%Htaken. congruence.
Qed.
End ClaimDecisions.

(** ** Release decisions *)
Section ReleaseDecisions.
Context `{SO : Sha256Ops, NO : Ipv4NetOps}.

Definition carries_uid (cx : ClaimContext) (l : Lease) : Prop :=
  get_annotation (lease_meta l) TENANT_UID_ANNOTATION = Some (cx_tenant_uid cx).

Lemma recover_allocation_None cx leases :
  recover_allocation cx leases = Ok None → ∀ l, l ∈ leases → ¬ carries_uid cx l.
Proof.
  unfold recover_allocation. destruct (valid_identity cx) as [[]|] eqn:Hi; [|done].
  destruct (filter_list _ leases) as [|x [|y f]] eqn:Hf; [intros _|intros H|done].
  - intros l Hl Hu. apply valid_identity_Ok in Hi as [Hne _].
    assert (l ∈ filter_list (annotated_uid (cx_tenant_uid cx)) leases) as Hin
      by by rewrite elem_of_filter_list, annotated_uid_iff.
    rewrite Hf in Hin. set_solver.
  - run H.
Qed.

Lemma recover_allocation_Some cx leases a :
  recover_allocation cx leases = Ok (Some a) →
  ∃ l intent, filter_list (annotated_uid (cx_tenant_uid cx)) leases = [l] ∧ l ∈ leases ∧
    exact_claim cx a l intent ∧ validate_allocation a = Ok tt ∧
    (∀ l', l' ∈ leases → carries_uid cx l' → l' = l).
Proof.
  unfold recover_allocation. destruct (valid_identity cx) as [[]|] eqn:Hi; [|done].
  destruct (filter_list _ leases) as [|x [|y f]] eqn:Hf; [done| |done]. intros H. run H.
  match goal with H : annotated_allocation _ = Ok _ |- _ =>
    apply annotated_allocation_Ok in H as (_ & _ & _ & _ & Hv) end.
  match goal with H : validate_claim _ _ _ = Ok ?i |- _ => apply validate_claim_Ok in H; exists x, i end.
  assert (x ∈ filter_list (annotated_uid (cx_tenant_uid cx)) leases) as Hx by (rewrite Hf; left).
  apply elem_of_filter_list in Hx as [_ Hx]. split_and!; [done..|].
  intros l' Hl' Hu. apply valid_identity_Ok in Hi as [Hne _].
  assert (l' ∈ filter_list (annotated_uid (cx_tenant_uid cx)) leases) as Hin
    by by rewrite elem_of_filter_list, annotated_uid_iff.
  rewrite Hf in Hin. set_solver.
Qed.

(** What a release decision promises about the inventory it was taken on. *)
Definition release_sound (cx : ClaimContext) (leases : list Lease)
    (bound : option AllocationStatus) (residue_absent : bool) (d : ReleaseDecision) : Prop :=
  match d with
  | ReleaseDelete intent =>
      residue_absent = true ∧
      ∃ l a, l ∈ leases ∧ exact_claim cx a l intent ∧ (∀ b, bound = Some b → a = b) ∧
        (∀ l', l' ∈ leases → carries_uid cx l' → l' = l)
  | ReleaseComplete =>
      residue_absent = true ∧ ∀ l, l ∈ leases → ¬ carries_uid cx l
  | ReleasePending => residue_absent = false
  end.

Lemma release_bound_sound cx leases existing b residue d :
  recover_allocation cx leases = Ok existing →
  release_bound cx leases existing b residue = Ok d →
  release_sound cx leases (Some b) residue d.
Proof.
  intros He. unfold release_bound. destruct (validate_allocation b) as [[]|]; [|done].
  destruct (is_some_and _ existing) eqn:Hsame; [done|].
  destruct (find_first _ leases) as [lease|] eqn:Hf.
  - apply find_first_Some in Hf as [Hin _].
    destruct (is_none_or _ _); [done|].
    destruct ((_ != _) && residue && is_none existing) eqn:Hsucc.
    + intros H. run H. split; [done|]. by apply recover_allocation_None.
    + destruct (validate_claim cx b lease) as [v|] eqn:Hv; [|done].
      apply validate_claim_Ok in Hv.
      destruct existing as [a|]; [|done]. simpl.
      apply recover_allocation_Some in He as (l & i & _ & Hl & Hex & _ & Hu).
      destruct residue; simpl; intros [= <-]; [|done]. split; [done|].
      exists lease, b. split_and!; [done..|by intros ? [= ->]|]. intros l' Hl' Hc.
      rewrite (Hu l' Hl' Hc), (Hu lease Hin); [done|]. by eapply exact_claim_uid.
  - destruct existing as [a|]; [done|]. simpl. destruct residue; [|done]. intros [= <-].
    split; [done|]. by apply recover_allocation_None.
Qed.

Lemma decide_release_facts cx leases bound residue_absent d :
  decide_release cx leases bound residue_absent = Ok d →
  release_sound cx leases bound residue_absent d.
Proof.
  unfold decide_release. destruct (valid_identity cx) as [[]|]; [|done].
  destruct (recover_allocation cx leases) as [existing|] eqn:He; [|done].
  destruct (try_for _ leases) as [[]|]; [|done].
  destruct bound as [b|]; [by apply release_bound_sound|].
  destruct existing as [a|].
  - apply recover_allocation_Some in He as (l & i & Hf & Hl & Hex & Hv & Hu).
    destruct (find_first _ leases) as [lease|] eqn:Hff; [|done]. simpl.
    apply find_first_Some in Hff as [Hin Hau]. apply annotated_uid_iff in Hau as [Hau _].
    destruct (validate_claim cx a lease) as [v|] eqn:Hvc; [|done].
    apply validate_claim_Ok in Hvc. destruct residue_absent; simpl; intros [= <-]; [|done].
    split; [done|]. exists lease, a. split_and!; [done..|]. intros l' Hl' Hc.
    by rewrite (Hu l' Hl' Hc), (Hu lease Hin Hau).
  - destruct residue_absent; simpl; intros [= <-]; [|done].
    split; [done|]. by apply recover_allocation_None.
Qed.

(** A release decision is sound for the inventory it was taken on.  A
    Lease is only deleted once the residue is proved absent, and only the
    single Lease that carries the Tenant's UID, which is exactly the claim the
    Tenant made and the allocation recorded in its status; release is only
    reported complete when the residue is absent and no Lease carries the
    Tenant's UID any more; before that proof the answer is to wait. *)
Theorem decide_release_sound cx leases bound residue_absent d :
  decide_release cx leases bound residue_absent = Ok d →
  release_sound cx leases bound residue_absent d.
Proof. apply decide_release_facts. Qed.

(** A Lease of another Tenant, name and UID both distinct from this one's. *)
Definition foreign_lease (cx : ClaimContext) (l : Lease) : Prop :=
  ¬ carries_uid cx l ∧
  get_annotation (lease_meta l) TENANT_ANNOTATION ≠ Some (cx_tenant_name cx).

Lemma check_same_name_exact cx leases residue a l intent :
  valid_identity cx = Ok tt → exact_claim cx a l intent →
  check_same_name cx leases residue l = Ok tt.
Proof.
  intros Hi Hex. unfold check_same_name.
  assert (annotated_uid (cx_tenant_uid cx) l = true) as ->.
  { apply annotated_uid_iff. apply valid_identity_Ok in Hi as [Hne _].
    split; [by eapply exact_claim_uid|done]. }
  by rewrite andb_false_r.
Qed.

Lemma check_same_name_foreign cx leases residue l :
  foreign_lease cx l → check_same_name cx leases residue l = Ok tt.
Proof.
  intros [_ Hn]. unfold check_same_name.
  destruct (is_ok_and _ (annotation l TENANT_ANNOTATION)) eqn:Hok; [|done].
  apply is_ok_and_true in Hok as (v & Hv%annotation_Ok & ->%bool_decide_eq_true).
  by destruct Hv.
Qed.

Lemma foreign_not_annotated cx l :
  foreign_lease cx l → annotated_uid (cx_tenant_uid cx) l = false.
Proof.
  intros [Hu _]. apply not_true_is_false. intros [Ha _]%annotated_uid_iff. done.
Qed.

Lemma filter_foreign cx leases :
  Forall (foreign_lease cx) leases → filter_list (annotated_uid (cx_tenant_uid cx)) leases = [].
Proof. induction 1 as [|l ls Hl _ IH]; [done|]. simpl. by rewrite foreign_not_annotated. Qed.
End ReleaseDecisions.

(** ** Round trips through the API server *)
Section RoundTrip.
Context {SO : Sha256Ops} {NO : Ipv4NetOps} {NL : Ipv4NetLaws NO}.

(** The Lease the server stores for a create request. *)
Definition stored_lease (cx : ClaimContext) (slot : AllocationSlot) (u rv : string) : Lease := {|
  lease_meta := {|
    name := Some (lease_name (as_slot_id slot)); namespace := Some (cx_namespace cx);
    uid := Some u; resource_version := Some rv; generation := None;
    labels := labels (lease_meta (new_lease cx slot));
    annotations := annotations (lease_meta (new_lease cx slot));
    owner_references := None; finalizers := None; deletion_timestamp := None |};
  lease_spec := lease_spec (new_lease cx slot) |}.

Definition stored_intent (slot : AllocationSlot) (u rv : string) : DeleteIntent :=
  {| di_name := lease_name (as_slot_id slot); di_uid := u; di_resource_version := rv |}.

Lemma stored_exact cx slot u rv :
  u ≠ "" → rv ≠ "" →
  exact_claim cx (slot_status slot) (stored_lease cx slot u rv) (stored_intent slot u rv).
Proof. intros. constructor; simpl; auto. Qed.

Lemma validate_allocation_nonempty a :
  validate_allocation a = Ok tt →
  slot_id a ≠ "" ∧ endpoint a ≠ "" ∧ pod_cidr a ≠ "" ∧ service_cidr a ≠ "".
Proof.
  unfold validate_allocation. intros H. run H. simpl in *. bool_hyp.
  assert (Hnet : ∀ c, canonical_cidr c = true → c ≠ "").
  { unfold canonical_cidr. intros c Hc ->. by rewrite parse_net_empty in Hc. }
  split_and!; [|intros E; rewrite E in *; done|by apply Hnet..].
  intros E. by rewrite E in *.
Qed.

Lemma exact_annotated_allocation cx a l intent :
  exact_claim cx a l intent → validate_allocation a = Ok tt → annotated_allocation l = Ok a.
Proof.
  intros Hex Hv. pose proof (validate_allocation_nonempty a Hv) as (? & ? & ? & ?).
  assert (Hann : ∀ k v, (k, v) ∈ annotation_list cx a → v ≠ "" → annotation l k = Ok v).
  { intros k v Hin Hne. apply annotation_Ok. split; [by eapply exact_annotation|done]. }
  unfold annotated_allocation.
  rewrite (Hann SLOT_LABEL (slot_id a)) by (in_list || done).
  rewrite (Hann ENDPOINT_ANNOTATION (endpoint a)) by (in_list || done).
  rewrite (Hann POD_CIDR_ANNOTATION (pod_cidr a)) by (in_list || done).
  rewrite (Hann SERVICE_CIDR_ANNOTATION (service_cidr a)) by (in_list || done).
  destruct a; simpl in *. by rewrite Hv.
Qed.

Lemma recover_exact cx l1 l l2 a intent :
  valid_identity cx = Ok tt → validate_allocation a = Ok tt → exact_claim cx a l intent →
  Forall (foreign_lease cx) (l1 ++ l2) → recover_allocation cx (l1 ++ l :: l2) = Ok (Some a).
Proof.
  intros Hi Hv Hex [H1 H2]%Forall_app. unfold recover_allocation. rewrite Hi.
  rewrite filter_list_app, (filter_foreign cx l1) by done. simpl.
  assert (annotated_uid (cx_tenant_uid cx) l = true) as ->.
  { apply annotated_uid_iff. apply valid_identity_Ok in Hi as [? _]. split; [|done].
    by eapply exact_claim_uid. }
  rewrite (filter_foreign cx l2) by done.
  rewrite (exact_annotated_allocation cx a l intent) by done.
  by rewrite (proj2 (validate_claim_Ok cx a l intent)).
Qed.

(** The inventory a Tenant sees after its claim: its own Lease among Leases of
    other Tenants, none of which has its name. *)
Definition claimed (cx : ClaimContext) (slot : AllocationSlot) (l : Lease) (l1 l2 : list Lease) : Prop :=
  Forall (foreign_lease cx) (l1 ++ l2) ∧
  Forall (λ o, name (lease_meta o) ≠ Some (lease_name (as_slot_id slot))) (l1 ++ l2) ∧
  ∃ intent, exact_claim cx (slot_status slot) l intent.

Lemma release_exact cx slot l l1 l2 bound residue intent :
  valid_identity cx = Ok tt → validate_allocation (slot_status slot) = Ok tt →
  claimed cx slot l l1 l2 → exact_claim cx (slot_status slot) l intent →
  bound = None ∨ bound = Some (slot_status slot) →
  decide_release cx (l1 ++ l :: l2) bound residue =
    Ok (if residue then ReleaseDelete intent else ReleasePending).
Proof.
  intros Hi Hv (Hfor & Hnames & _) Hex Hb. unfold decide_release. rewrite Hi.
  rewrite (recover_exact cx l1 l l2 (slot_status slot) intent) by done.
  assert (try_for (check_same_name cx (l1 ++ l :: l2) residue) (l1 ++ l :: l2) = Ok tt) as ->.
  { rewrite list.Forall_forall in Hfor. apply try_for_Ok.
    intros x [Hx|[->|Hx]%elem_of_cons]%elem_of_app;
      [|by eapply check_same_name_exact|]; apply check_same_name_foreign, Hfor, elem_of_app; auto. }
  pose proof (proj2 (validate_claim_Ok cx (slot_status slot) l intent) Hex) as Hval.
  pose proof (exact_claim_uid _ _ _ _ Hex) as Huid.
  pose proof (valid_identity_Ok cx Hi) as [Hne _].
  destruct Hb as [-> | ->].
  - rewrite (find_first_skip _ l1 l l2); [|intros y Hy|].
    + simpl. rewrite Hval. by destruct residue.
    + apply foreign_not_annotated. rewrite list.Forall_forall in Hfor. apply Hfor, elem_of_app; auto.
    + by apply annotated_uid_iff.
  - unfold release_bound. rewrite Hv. simpl. rewrite bool_decide_eq_true_2 by done. simpl.
    rewrite (find_first_skip _ l1 l l2); [|intros y Hy|].
    + rewrite Huid. simpl. rewrite (proj2 (is_empty_false _)) by done.
      rewrite bool_decide_eq_true_2 by done. simpl. rewrite Hval. by destruct residue.
    + rewrite list.Forall_forall in Hnames. apply bool_decide_eq_false, Hnames, elem_of_app; auto.
    + apply bool_decide_eq_true, (exact_name _ _ _ _ Hex).
Qed.

(** C38. Claim, recovery and release agree on the Lease the allocator
    creates.  Once the server has stored it under a fresh UID and resource
    version, in any inventory where the other Leases belong to other Tenants:
    the allocation recovered from the Lease is the one of the slot, release
    waits while there is residue, and when there is none it deletes exactly
    that UID and resource version, whether or not the status was recorded. *)
Theorem claim_release_roundtrip cx slot u rv l1 l2 bound :
  valid_identity cx = Ok tt → validate_allocation (slot_status slot) = Ok tt →
  u ≠ "" → rv ≠ "" →
  Forall (foreign_lease cx) (l1 ++ l2) →
  Forall (λ o, name (lease_meta o) ≠ Some (lease_name (as_slot_id slot))) (l1 ++ l2) →
  bound = None ∨ bound = Some (slot_status slot) →
  let inventory := l1 ++ stored_lease cx slot u rv :: l2 in
  recover_allocation cx inventory = Ok (Some (slot_status slot)) ∧
  decide_release cx inventory bound false = Ok ReleasePending ∧
  decide_release cx inventory bound true = Ok (ReleaseDelete (stored_intent slot u rv)) ∧
  decide_release cx (l1 ++ l2) None true = Ok ReleaseComplete.
Proof.
  intros Hi Hv Hu Hrv Hfor Hnames Hb inventory.
  pose proof (stored_exact cx slot u rv Hu Hrv) as Hex.
  assert (Hc : claimed cx slot (stored_lease cx slot u rv) l1 l2) by (split_and!; eauto).
  split_and!.
  - by eapply recover_exact.
  - exact (release_exact cx slot _ l1 l2 bound false _ Hi Hv Hc Hex Hb).
  - exact (release_exact cx slot _ l1 l2 bound true _ Hi Hv Hc Hex Hb).
  - unfold decide_release, recover_allocation. rewrite Hi, (filter_foreign cx (l1 ++ l2) Hfor).
    rewrite (proj2 (try_for_Ok _ (l1 ++ l2))); [done|].
    intros x Hx. rewrite list.Forall_forall in Hfor. by apply check_same_name_foreign, Hfor.
Qed.
End RoundTrip.

(** ** A concrete context *)
Module ClaimFixture.
Definition context (tenant tenant_uid : string) : ClaimContext := {|
  cx_namespace := "tenant-system"; cx_ownership_label := "example.io/owned";
  cx_lab_prefix := "example"; cx_tenant_name := tenant; cx_tenant_uid := tenant_uid;
  cx_spec_hash := "spec"; cx_foundation_hash := "foundation"; cx_slots := Fixture.slots |}.

Definition slot0 : AllocationSlot :=
  Fixture.slot "tenant-00" 0 "172.18.255.223" "10.73.0.0/16" "10.143.0.0/16".

Definition stored (tenant tenant_uid u rv : string) : Lease :=
  @stored_lease Concrete.hex_ops (context tenant tenant_uid) slot0 u rv.
End ClaimFixture.

Lemma lease_name_dns_label_witness :
  dns_label (@lease_name Concrete.hex_ops "azure-00") 63 = true ∧
  String.length (@lease_name Concrete.hex_ops "azure-00") = 63%nat.
Proof. exact (@lease_name_dns_label Concrete.hex_ops Concrete.hex_laws "azure-00"). Defined.

Lemma decide_claim_sound_witness :
  @claim_decision_sound Concrete.hex_ops (ClaimFixture.context "beta" "uid-b")
    [ClaimFixture.stored "alpha" "uid-a" "u1" "7"] None
    (Create (Fixture.slot "tenant-01" 1 "172.18.255.224" "10.74.0.0/16" "10.144.0.0/16")).
Proof.
  apply (@decide_claim_sound Concrete.hex_ops). vm_compute. reflexivity.
Defined.

Lemma decide_claim_complete_witness :
  @valid_context Concrete.hex_ops (ClaimFixture.context "alpha" "uid-a") = Ok tt ∧
  @decide_claim Concrete.hex_ops (ClaimFixture.context "alpha" "uid-a") [] None
    = Ok (Create ClaimFixture.slot0).
Proof.
  assert (Hv : @valid_context Concrete.hex_ops (ClaimFixture.context "alpha" "uid-a") = Ok tt)
    by (vm_compute; reflexivity).
  split; [exact Hv|].
  destruct (@decide_claim_complete Concrete.hex_ops (ClaimFixture.context "alpha" "uid-a") [] Hv)
    as [(b & s & a & Hs & Hb & _ & Hd)|[Hall _]].
  - intros l Hl. apply elem_of_nil in Hl. destruct Hl.
  - rewrite Hd. destruct b as [|x b]; [simpl in Hs; injection Hs as <- <-; reflexivity|].
    inversion Hb as [|? ? [l [Hl _]] _]. apply elem_of_nil in Hl. destruct Hl.
  - inversion Hall as [|? ? [l [Hl _]] _]. apply elem_of_nil in Hl. destruct Hl.
Defined.

Lemma decide_release_sound_witness :
  @release_sound Concrete.hex_ops (ClaimFixture.context "alpha" "uid-a")
    [ClaimFixture.stored "alpha" "uid-a" "u1" "7"] None true
    (ReleaseDelete (@stored_intent Concrete.hex_ops ClaimFixture.slot0 "u1" "7")).
Proof.
  apply (@decide_release_sound Concrete.hex_ops Concrete.cidr_ops). vm_compute. reflexivity.
Defined.

Lemma claim_release_roundtrip_witness :
  @recover_allocation Concrete.hex_ops Concrete.cidr_ops (ClaimFixture.context "alpha" "uid-a")
    [ClaimFixture.stored "alpha" "uid-a" "u1" "7"] = Ok (Some (slot_status ClaimFixture.slot0)).
Proof.
  refine (proj1 (@claim_release_roundtrip Concrete.hex_ops Concrete.cidr_ops Concrete.cidr_laws
    (ClaimFixture.context "alpha" "uid-a") ClaimFixture.slot0 "u1" "7" [] [] None _ _ _ _ _ _ _));
    [vm_compute; reflexivity | vm_compute; reflexivity | discriminate | discriminate
    | constructor | constructor | left; reflexivity].
Defined.
