(* ===== verification/ReconcileErrors.v ===== *)
(** * Reconciliation errors

    [controller/src/reconcile/error.rs]: the error type of a reconciliation,
    its classification and the requeue action it leads to, with the error enums
    of [tenant_client.rs] and [resources/mod.rs] that it wraps. *)

From S2P Require Import Prelude RustStd Kube Errors Ownership Foundation Docker Allocation.

Open Scope Z_scope.

(** [reconcile/mod.rs], in seconds *)
Definition PROGRESS_INTERVAL : Z := 1.
Definition DEPENDENCY_INTERVAL : Z := 5.
Definition READY_INTERVAL : Z := 300.

(** ** [tenant_client.rs] *)
Inductive TenantClientError :=
| SecretPending
| SecretContractInvalid
| SecretOwnershipUnproven
| Kubeconfig (field : string)
| ClientConfiguration
| AdministrativeAccessPending
| BootstrapMismatch (what : string)
| TenantApi (operation : string) (status : Z)
| TenantTransport (operation : string).

Definition tenant_client_display (e : TenantClientError) : string :=
  match e with
  | SecretPending => "Tenant kubeconfig Secret is pending"
  | SecretContractInvalid => "Tenant kubeconfig Secret contract is invalid"
  | SecretOwnershipUnproven => "Tenant kubeconfig Secret ownership cannot be proven"
  | Kubeconfig field => "Tenant kubeconfig is invalid: " +:+ field
  | ClientConfiguration => "Tenant TLS client construction failed"
  | AdministrativeAccessPending => "Tenant administrative access is pending"
  | BootstrapMismatch what => "Tenant bootstrap " +:+ what +:+ " differs from the supported content"
  | TenantApi operation status =>
      "Tenant " +:+ operation +:+ " API request returned HTTP " +:+ decimal status
  | TenantTransport operation =>
      "Tenant " +:+ operation +:+ " API transport or response decoding failed"
  end.

Inductive TenantApiErrorClass := TenantPending | TenantConflict | TenantRetryable | TenantTerminal.

#[export] Instance TenantApiErrorClass_eq_dec : EqDecision TenantApiErrorClass.
Proof. solve_decision. Defined.

Definition classify_tenant_api_error (error : KubeError) : TenantApiErrorClass :=
  match error with
  | KubeApi code _ _ =>
      if (code =? 403) || (code =? 404) then TenantPending
      else if code =? 409 then TenantConflict
      else if (code =? 408) || (code =? 429) || (500 <=? code) then TenantRetryable
      else TenantTerminal
  | KubeOther _ => TenantRetryable
  end.

(** [TenantClientError::request] *)
Definition tenant_request (operation : string) (error : KubeError) (bootstrap : bool)
    : TenantClientError :=
  match error with
  | KubeApi code _ _ =>
      if bootstrap && (code =? 403) then AdministrativeAccessPending else TenantApi operation code
  | KubeOther _ => TenantTransport operation
  end.

Definition tenant_class (e : TenantClientError) : TenantApiErrorClass :=
  match e with
  | SecretPending | AdministrativeAccessPending => TenantPending
  | TenantApi _ status =>
      if status =? 404 then TenantPending
      else if status =? 409 then TenantConflict
      else if (status =? 408) || (status =? 429) || (500 <=? status) then TenantRetryable
      else TenantTerminal
  | TenantTransport _ => TenantRetryable
  | _ => TenantTerminal
  end.

(** ** [resources/mod.rs]: the text of a decoding error is the library's. *)
Inductive BuildError :=
| BuildEndpoint (message : string)
| BuildServiceCidr (message : string)
| BuildDnsAddress
| BuildImageReference
| BuildYaml (message : string)
| BuildJson (message : string)
| BuildManifest (message : string)
| BuildWorkerImage (image : string)
| BuildRegistry
| BuildBootstrap (message : string).

Definition build_display (e : BuildError) : string :=
  match e with
  | BuildEndpoint m => "parse Tenant endpoint: " +:+ m
  | BuildServiceCidr m => "parse service CIDR: " +:+ m
  | BuildDnsAddress => "service CIDR does not contain DNS service address"
  | BuildImageReference => "image reference must include a tag and digest"
  | BuildYaml m => "decode manifest: " +:+ m
  | BuildJson m => "invalid Kubernetes object: " +:+ m
  | BuildManifest m => m
  | BuildWorkerImage i =>
      "worker image " +:+ i +:+ " is missing, duplicated, or not marked for preparation"
  | BuildRegistry => "offline Tenant foundation registry is incomplete"
  | BuildBootstrap m => "invalid worker bootstrap input: " +:+ m
  end.

(** ** [reconcile/error.rs] *)
Inductive ReconcileError :=
| RKube (e : KubeError)
| RRuntime (e : ControllerError)
| RAllocation (e : AllocationError)
| RDocker (e : DockerError)
| ROwnership (e : OwnershipError)
| RFoundation (e : FoundationError)
| RTenantClient (e : TenantClientError)
| RBuild (e : BuildError)
| ROwnershipInvalid (message : string)
| RInvalidInput (message : string)
| RPending (message : string)
| RMutationGuard (message : string)
| RDegraded (reason message : string).

Definition reconcile_display (e : ReconcileError) : string :=
  match e with
  | RKube e => kube_display e
  | RRuntime e => controller_display e
  | RAllocation e => allocation_display e
  | RDocker e => docker_display e
  | ROwnership e => ownership_display e
  | RFoundation e => foundation_display e
  | RTenantClient e => tenant_client_display e
  | RBuild e => build_display e
  | ROwnershipInvalid m => "ownership is invalid: " +:+ m
  | RInvalidInput m => "input is invalid: " +:+ m
  | RPending m => "dependency is pending: " +:+ m
  | RMutationGuard m => "Azure provider mutation is blocked: " +:+ m
  | RDegraded reason m => reason +:+ ": " +:+ m
  end.

Definition conflict `{KubeStatusOps} (e : ReconcileError) : bool :=
  match e with
  | RKube (KubeApi code _ _) => code =? 409
  | RRuntime e => match class e with Conflict => true | _ => false end
  | _ => false
  end.

Definition ownership_invalid (e : ReconcileError) : bool :=
  match e with
  | ROwnershipInvalid _ => true
  | ROwnership e => match e with ProviderOwnerPending => false | _ => true end
  | RDocker (DockerIdentity _) => true
  | RAllocation (Duplicate | ClaimError _ | NameHeld | StatusMismatch | Missing) => true
  | RTenantClient (SecretOwnershipUnproven | SecretContractInvalid) => true
  | RRuntime (OwnershipInvalid _) => true
  | _ => false
  end.

(** [ReconcileError::pending] *)
Definition is_pending (e : ReconcileError) : bool :=
  match e with
  | RPending _ => true
  | ROwnership ProviderOwnerPending => true
  | RAllocation Exhausted => true
  | RTenantClient e => tenant_class e == TenantPending
  | _ => false
  end.

Definition degraded_reason (e : ReconcileError) : option string :=
  match e with
  | RDegraded reason _ => Some reason
  | RTenantClient (BootstrapMismatch _) => Some "BootstrapAccessMismatch"
  | _ => None
  end.

Definition kube_action (e : KubeError) : Action :=
  match e with
  | KubeApi code _ _ =>
      if code =? 409 then ActionRequeue PROGRESS_INTERVAL
      else if code =? 404 then ActionRequeue DEPENDENCY_INTERVAL
      else ActionRequeue 30
  | KubeOther _ => ActionRequeue 30
  end.

(** [ReconcileError::action] *)
Definition error_action `{KubeStatusOps} (e : ReconcileError) : Action :=
  if is_some (degraded_reason e) || ownership_invalid e then ActionRequeue READY_INTERVAL
  else if is_pending e then ActionRequeue DEPENDENCY_INTERVAL
  else match e with
  | RKube e | RAllocation (AllocApi e) => kube_action e
  | RRuntime e => action (requeue e 5)
  | RTenantClient e =>
      if tenant_class e == TenantConflict then ActionRequeue PROGRESS_INTERVAL else ActionRequeue 30
  | RFoundation _ | RBuild _ | RInvalidInput _ => ActionRequeue READY_INTERVAL
  | RMutationGuard _ => ActionRequeue DEPENDENCY_INTERVAL
  | _ => ActionRequeue 30
  end.

(** ** Requeue policy *)

Definition retried_after `{KubeStatusOps} (e : ReconcileError) (s : Z) : Prop :=
  error_action e = ActionRequeue s ∧ 1 ≤ s ≤ 300 ∧
  (ownership_invalid e = true ∨ is_some (degraded_reason e) = true → s = READY_INTERVAL) ∧
  (ownership_invalid e = false → is_some (degraded_reason e) = false → is_pending e = true →
     s = DEPENDENCY_INTERVAL) ∧
  (conflict e = true → s = PROGRESS_INTERVAL).

Lemma kube_retries (e : KubeError) :
  ∃ s, kube_action e = ActionRequeue s ∧ 1 ≤ s ≤ 300 ∧
    (match e with KubeApi code _ _ => code =? 409 | _ => false end = true → s = PROGRESS_INTERVAL).
Proof.
  destruct e as [code r m|]; simpl; [|by exists 30].
  destruct (code =? 409); [by exists 1|]. destruct (code =? 404); [by exists 5|by exists 30].
Qed.

(** Errors that are neither invalid ownership, degradation nor pending. *)
Lemma retried_plain `{KubeStatusOps} e s :
  ownership_invalid e = false → degraded_reason e = None → is_pending e = false →
  error_action e = ActionRequeue s → 1 ≤ s ≤ 300 → (conflict e = true → s = PROGRESS_INTERVAL) →
  retried_after e s.
Proof.
  intros Ho Hd Hp He Hs Hc. split_and!; [done|lia|lia| | |done].
  - rewrite Ho, Hd. by intros [?|?].
  - by rewrite Hp.
Qed.

Lemma retried_owner `{KubeStatusOps} e :
  ownership_invalid e = true ∨ is_some (degraded_reason e) = true → conflict e = false →
  retried_after e READY_INTERVAL.
Proof.
  intros Ho Hc. split_and!; [|done|done|done| |by rewrite Hc].
  - unfold error_action. by destruct Ho as [-> | ->]; [rewrite orb_true_r|].
  - by destruct Ho as [-> | ->].
Qed.

Lemma retried_pending `{KubeStatusOps} e :
  ownership_invalid e = false → is_some (degraded_reason e) = false → is_pending e = true →
  conflict e = false → retried_after e DEPENDENCY_INTERVAL.
Proof.
  intros Ho Hd Hp Hc. split_and!; [|done|done| |done|by rewrite Hc].
  - unfold error_action. by rewrite Ho, Hd, Hp.
  - rewrite Ho, Hd. by intros [?|?].
Qed.

(** Every failed reconciliation is retried: its action is a requeue after
    at least one second and at most five minutes, except for errors of the
    controller runtime that wait for a change or stop.  Invalid ownership and
    degradation are retried after five minutes, pending dependencies after
    five seconds, conflicts after one. *)
Theorem error_action_retries `{KubeStatusOps} (e : ReconcileError) :
  (∃ s, retried_after e s) ∨
  (∃ r, e = RRuntime r ∧ error_action e = ActionAwaitChange ∧ ownership_invalid e = false ∧
     (class r = AwaitChange ∨ class r = Terminal ∨ class r = LeadershipLostClass)).
Proof.
  destruct e as [e|e|e|e|e|e|e|e|m|m|m|m|r m]; try (left; exists 300; by apply retried_plain);
    try (left; exists 300; apply retried_owner; by auto).
  - left. destruct (kube_retries e) as (s & He & Hs & Hc). exists s. by apply retried_plain.
  - destruct (ownership_invalid (RRuntime e)) eqn:Ho.
    { left. exists 300. apply retried_owner; [by left|]. by destruct e. }
    assert (error_action (RRuntime e) = action (requeue e 5)) as Ha
      by (unfold error_action; by rewrite Ho).
    unfold requeue in Ha. destruct (class e) eqn:Hk.
    + left. exists 1. by apply retried_plain.
    + left. exists 32. apply retried_plain; try done. simpl. by rewrite Hk.
    + right. exists e. split_and!; auto.
    + right. exists e. split_and!; auto.
    + right. exists e. split_and!; auto.
  - left. destruct e as [| | | | | | |e]; try (exists 300; apply retried_owner; by auto);
      try (exists 30; by apply retried_plain); try (exists 5; by apply retried_pending).
    all: try (destruct (kube_retries e) as (s & He & Hs & Hc); exists s; by apply retried_plain).
  - left. destruct e; try (exists 300; apply retried_owner; by auto); exists 30; by apply retried_plain.
  - left. destruct e; try (exists 300; apply retried_owner; by auto). exists 5. by apply retried_pending.
  - left. destruct (ownership_invalid (RTenantClient e) || is_some (degraded_reason (RTenantClient e))) eqn:Ho.
    { exists 300. apply retried_owner; [|done]. by apply orb_true_iff in Ho. }
    apply orb_false_iff in Ho as [Ho Hd]. destruct (is_pending (RTenantClient e)) eqn:Hp.
    + exists 5. by apply retried_pending.
    + assert (Ha : error_action (RTenantClient e)
        = if tenant_class e == TenantConflict then ActionRequeue 1 else ActionRequeue 30)
        by (unfold error_action; by rewrite Ho, Hd, Hp).
      assert (degraded_reason (RTenantClient e) = None) by (by destruct (degraded_reason _)).
      case_bool_decide; [exists 1|exists 30]; by apply retried_plain.
  - left. exists 5. by apply retried_pending.
  - left. exists 5. by apply retried_plain.
Qed.
