(* ===== verification/Sanitize.v ===== *)
(** * Redaction of text and JSON

    [database-runtime/src/sanitize.rs], re-exported by the controller: every
    message that reaches a status condition or a log passes through it.  The
    recursion depth of the source ([depth], at most [MAX_DEPTH]) is a budget that
    counts down from [MAX_DEPTH + 1]; the two scanning loops carry fuel, and
    [redact_private_keys_total] and [redact_assignments_total] show that the
    length of the text always suffices. *)

From S2P Require Import Prelude RustStd Kube.

Definition REDACTED := "REDACTED".
Definition MAX_DEPTH : nat := 8.

(** [serde_json::from_str::<Value>] and [serde_json::to_string]. *)
Class SerdeJson := {
  from_str : string → option Value;
  to_string : Value → option string;
}.

(** The first [Some] of [f] along [l]. *)
Fixpoint find_map {A B} (f : A → option B) (l : list A) : option B :=
  match l with
  | [] => None
  | x :: l' => match f x with Some y => Some y | None => find_map f l' end
  end.

Lemma find_map_None {A B} (f : A → option B) l : (∀ x, x ∈ l → f x = None) → find_map f l = None.
Proof.
  induction l as [|x l IH]; intros H; [done|]. cbn [find_map]. rewrite (H x) by (by left). apply IH.
  intros y Hy. apply H. by right.
Qed.

Lemma find_map_mid {A B} (f : A → option B) l x k y :
  (∀ z, z ∈ l → f z = None) → f x = Some y → find_map f (l ++ x :: k) = Some y.
Proof.
  induction l as [|z l IH]; intros Hl Hx; cbn [find_map app]; [by rewrite Hx|].
  rewrite (Hl z) by (by left). apply IH; [|done]. intros w Hw. apply Hl. by right.
Qed.

(** ** Keys and lines *)
Definition sensitive_key (key : string) : bool :=
  let normalized := String.string_of_list_ascii
                      (map ascii_lower (filter_list is_ascii_alphanumeric (bytes key))) in
  any (contains_str normalized)
    ["authorization"; "password"; "token"; "secret"; "privatekey"; "clientkey";
     "clientcertificate"; "certificateauthority"; "kubeconfig"; "bootstrapdata";
     "subscriptionid"; "stringdata"]
  || (normalized == "data").

(** [key.trim_start_matches([' ', '\t', '-'])] *)
Fixpoint trim_key_start (s : string) : string :=
  match s with
  | EmptyString => EmptyString
  | String c s' => if bool_decide (code c ∈ [32; 9; 45]%Z) then trim_key_start s' else s
  end.

Definition redact_sensitive_line (line : string) : string :=
  match split_once line ":"%char with
  | None => line
  | Some (key, _) =>
      let key := trim (trim_key_start key) in
      if sensitive_key key then
        match String.index 0 ":" line with
        | Some i => slice line 0 (i + 1) +:+ " " +:+ REDACTED
        | None => line
        end
      else line
  end.

(** ** PEM blocks *)
Definition BEGIN := "-----BEGIN ".
Definition PRIVATE_KEY := "PRIVATE KEY-----".

(** One match of the loop condition and body: the start and the end of a block. *)
Definition private_key_block (upper : string) (offset : nat) : option (nat * nat) :=
  match find_from upper offset BEGIN with
  | None => None
  | Some relative_start =>
      let start := (offset + relative_start)%nat in
      match find_from upper start PRIVATE_KEY with
      | None => None
      | Some header_end_relative =>
          let header_end := (start + header_end_relative + String.length PRIVATE_KEY)%nat in
          match strip_suffix (slice upper (start + String.length BEGIN) header_end) PRIVATE_KEY with
          | None => None
          | Some kind =>
              let footer := "-----END " +:+ kind +:+ PRIVATE_KEY in
              match find_from upper header_end footer with
              | None => None
              | Some end_relative =>
                  Some (start, (header_end + end_relative + String.length footer)%nat)
              end
          end
      end
  end.

Fixpoint private_keys_loop (fuel : nat) (value upper output : string) (offset : nat) : option string :=
  match fuel with
  | O => None
  | S fuel' =>
      match private_key_block upper offset with
      | None => Some (output +:+ slice_from value offset)
      | Some (start, end_) =>
          private_keys_loop fuel' value upper (output +:+ slice value offset start +:+ REDACTED) end_
      end
  end.

Definition redact_private_keys (value : string) : string :=
  unwrap_or "" (private_keys_loop (S (String.length value)) value (to_ascii_uppercase value) "" 0).

(** ** Assignments *)

(** The first index at or after [i] that is not ASCII white space. *)
Fixpoint skip_white (fuel : nat) (s : string) (i : nat) : nat :=
  match fuel with
  | O => i
  | S fuel' => if is_some_and is_ascii_whitespace (byte_at s i) then skip_white fuel' s (S i) else i
  end.

Fixpoint assignments_loop (fuel : nat) (value lower key output : string) (offset : nat)
    : option string :=
  match fuel with
  | O => None
  | S fuel' =>
      let finish := Some (output +:+ slice_from value offset) in
      match find_from lower offset key with
      | None => finish
      | Some relative_start =>
          let start := (offset + relative_start)%nat in
          let before_is_word :=
            match start with
            | O => false
            | S i => is_some_and is_ascii_alphanumeric (byte_at lower i)
            end in
          let separator_index := skip_white (String.length lower) lower (start + String.length key) in
          match byte_at lower separator_index with
          | None => finish
          | Some separator =>
              if before_is_word || negb (Ascii.eqb separator "="%char || Ascii.eqb separator ":"%char)
              then
                let next := (start + String.length key)%nat in
                assignments_loop fuel' value lower key (output +:+ slice value offset next) next
              else
                let value_start := skip_white (String.length value) value (separator_index + 1) in
                let value_end :=
                  match find_delimiter (slice_from value value_start) with
                  | Some relative => (value_start + relative)%nat
                  | None => String.length value
                  end in
                assignments_loop fuel' value lower key
                  (output +:+ slice value offset value_start +:+ REDACTED) value_end
          end
      end
  end.

Definition redact_assignments (value key : string) : string :=
  unwrap_or "" (assignments_loop (S (String.length value)) value (to_ascii_lowercase value) key "" 0).

Definition ASSIGNMENT_KEYS := [
  "authorization"; "password"; "token"; "client_secret"; "client-secret";
  "subscription_id"; "subscription-id"].

(** ** Embedded JSON *)

(** A byte index is a character boundary unless it holds a continuation byte. *)
Definition char_boundary (s : string) (i : nat) : bool :=
  is_none_or (λ c, negb ((128 <=? code c)%Z && (code c <=? 191)%Z)) (byte_at s i).

(** The candidate ends for a document starting at [start], longest first. *)
Definition ends_after (s : string) (start : nat) : list nat :=
  filter_list (char_boundary s) (reverse (seq (S start) (String.length s - start))).

Section Sanitizer.
Context `{SJ : SerdeJson}.

Definition embedded_document (value : string) : option (nat * nat * Value) :=
  find_map (λ start,
    if is_some_and (λ c, Ascii.eqb c "{"%char || Ascii.eqb c "["%char) (byte_at value start)
    then find_map (λ end_, option_map (λ decoded, (start, end_, decoded))
                             (from_str (slice value start end_)))
           (ends_after value start)
    else None) (seq 0 (String.length value)).

(** [budget] is [MAX_DEPTH + 1 - depth]. *)
Fixpoint sanitize_value (budget : nat) (value : Value) {struct budget} : Value :=
  match budget with
  | O => VString REDACTED
  | S budget' =>
      match value with
      | VObject values =>
          VObject (map (λ '(key, value),
            (key, if sensitive_key key then VString REDACTED else sanitize_value budget' value))
            values)
      | VArray values => VArray (map (sanitize_value budget') values)
      | VString value => VString (sanitize_text budget' value)
      | value => value
      end
  end
with sanitize_text (budget : nat) (value : string) {struct budget} : string :=
  match budget with
  | O => REDACTED
  | S budget' =>
      match from_str value with
      | Some decoded => unwrap_or REDACTED (to_string (sanitize_value budget' decoded))
      | None =>
          let sanitized :=
            match embedded_document value with
            | Some (start, end_, decoded) =>
                slice value 0 start
                +:+ unwrap_or REDACTED (to_string (sanitize_value budget' decoded))
                +:+ sanitize_text budget' (slice_from value end_)
            | None => value
            end in
          let sanitized := redact_private_keys sanitized in
          let sanitized := join (String LF "") (map redact_sensitive_line (lines sanitized)) in
          fold_left redact_assignments ASSIGNMENT_KEYS sanitized
      end
  end.

Definition value (v : Value) : Value := sanitize_value (S MAX_DEPTH) v.
Definition text (s : string) : string := sanitize_text (S MAX_DEPTH) s.

(** [serializable], given the result of [serde_json::to_value]. *)
Definition serializable (encoded : option Value) : Value :=
  match encoded with
  | Some v => sanitize_value (S MAX_DEPTH) v
  | None => VString REDACTED
  end.
End Sanitizer.

(** ** Termination of the scanning loops *)
Lemma private_key_block_advances upper offset start end_ :
  private_key_block upper offset = Some (start, end_) →
  (offset < end_ ≤ String.length upper)%nat.
Proof.
  unfold private_key_block. intros H. run H.
  match goal with H : find_from _ _ ("-----END " +:+ _) = Some _ |- _ =>
    apply find_from_bound in H; [|rewrite append_cons; discriminate] end.
  rewrite append_cons in *. simpl String.length in *. lia.
Qed.

Lemma private_keys_loop_total fuel value upper output offset :
  String.length upper = String.length value → (offset ≤ String.length value)%nat →
  (String.length value - offset < fuel)%nat →
  is_Some (private_keys_loop fuel value upper output offset).
Proof.
  intros Hlen. revert output offset. induction fuel as [|fuel IH]; intros output offset Hoff Hf; [lia|].
  simpl. destruct (private_key_block upper offset) as [[start end_]|] eqn:Hb; [|done].
  apply private_key_block_advances in Hb. apply IH; lia.
Qed.

Lemma redact_private_keys_total value :
  private_keys_loop (S (String.length value)) value (to_ascii_uppercase value) "" 0
  = Some (redact_private_keys value).
Proof.
  unfold redact_private_keys.
  destruct (private_keys_loop_total (S (String.length value)) value (to_ascii_uppercase value) "" 0)
    as [r Hr]; [apply length_map_bytes|lia..|]. by rewrite Hr.
Qed.

Lemma skip_white_bounds fuel s i :
  (i ≤ String.length s)%nat → (i ≤ skip_white fuel s i ≤ String.length s)%nat.
Proof.
  revert i. induction fuel as [|fuel IH]; intros i Hi; simpl; [lia|].
  destruct (is_some_and _ _) eqn:Hw; [|lia].
  apply is_some_and_true in Hw as (c & Hc%byte_at_bound & _).
  specialize (IH (S i) ltac:(lia)). lia.
Qed.

Lemma assignments_loop_total fuel value lower key output offset :
  key ≠ "" → String.length lower = String.length value → (offset ≤ String.length value)%nat →
  (String.length value - offset < fuel)%nat →
  is_Some (assignments_loop fuel value lower key output offset).
Proof.
  intros Hk Hlen. revert output offset.
  induction fuel as [|fuel IH]; intros output offset Hoff Hf; [lia|]. simpl.
  destruct (find_from lower offset key) as [rel|] eqn:Hfind; [|done].
  apply find_from_bound in Hfind; [|done].
  assert (0 < String.length key)%nat by (destruct key; [done|simpl; lia]).
  pose proof (skip_white_bounds (String.length lower) lower (offset + rel + String.length key)
                ltac:(lia)) as Hsep.
  destruct (byte_at lower _) as [sep|] eqn:Hb; [|done]. apply byte_at_bound in Hb.
  destruct (_ || _); [apply IH; lia|].
  match goal with |- context [skip_white (String.length value) value ?i] =>
    pose proof (skip_white_bounds (String.length value) value i ltac:(lia)) as Hval end.
  destruct (find_delimiter _) as [n|] eqn:Hd; [|apply IH; lia].
  apply find_delimiter_bound in Hd. rewrite length_slice_from in Hd. apply IH; lia.
Qed.

Lemma redact_assignments_total value key :
  key ≠ "" →
  assignments_loop (S (String.length value)) value (to_ascii_lowercase value) key "" 0
  = Some (redact_assignments value key).
Proof.
  intros Hk. unfold redact_assignments.
  destruct (assignments_loop_total (S (String.length value)) value (to_ascii_lowercase value) key "" 0)
    as [r Hr]; [done|apply length_map_bytes|lia..|]. by rewrite Hr.
Qed.

(** ** What redaction guarantees *)
Section Guarantees.
Context `{SJ : SerdeJson}.

(** [before +:+ doc +:+ after] with [doc] the document that [v] is, where the
    texts are cut at characters: no document starts earlier, and none that
    starts there is longer. *)
Record first_document (before doc after : string) (v : Value) : Prop := {
  fd_opens : ∃ c rest, doc = String c rest ∧ (c = "{"%char ∨ c = "["%char);
  fd_parses : from_str doc = Some v;
  fd_cut : char_boundary after 0 = true;
  fd_longest p q : after = p +:+ q → p ≠ "" → from_str (doc +:+ p) = None;
  fd_first p c q x y : before = p +:+ String c q → c = "{"%char ∨ c = "["%char →
    String c q +:+ doc +:+ after = x +:+ y → from_str x = None;
}.

(** Two documents, or two texts, that an observer without access to secrets
    cannot tell apart: equal up to the values of sensitive keys, also inside
    strings that are JSON documents or have them embedded. *)
Inductive low_eq : Value → Value → Prop :=
| low_refl v : low_eq v v
| low_array vs ws : Forall2 low_eq vs ws → low_eq (VArray vs) (VArray ws)
| low_object fs gs :
    Forall2 (λ f g, f.1 = g.1 ∧ (sensitive_key f.1 = true ∨ low_eq f.2 g.2)) fs gs →
    low_eq (VObject fs) (VObject gs)
| low_string s t : low_text s t → low_eq (VString s) (VString t)
with low_text : string → string → Prop :=
| text_refl s : low_text s s
| text_document s t v w : from_str s = Some v → from_str t = Some w → low_eq v w → low_text s t
| text_embedded before doc doc' after after' v w :
    from_str (before +:+ doc +:+ after) = None → from_str (before +:+ doc' +:+ after') = None →
    first_document before doc after v → first_document before doc' after' w →
    low_eq v w → low_text after after' →
    low_text (before +:+ doc +:+ after) (before +:+ doc' +:+ after').

Lemma embedded_document_first before doc after v :
  first_document before doc after v →
  embedded_document (before +:+ doc +:+ after)
  = Some (String.length before, (String.length before + String.length doc)%nat, v).
Proof.
  intros [(c & rest & -> & Hc) Hp Hcut Hlong Hfirst]. set (doc := String c rest) in *.
  set (s := before +:+ doc +:+ after). unfold embedded_document.
  assert (Hlen : String.length s = (String.length before + String.length doc + String.length after)%nat)
    by (unfold s; rewrite !length_append; lia).
  assert (Hd : (0 < String.length doc)%nat) by (simpl; lia).
  replace (String.length s) with (String.length before + S (String.length s - S (String.length before)))%nat by lia.
  rewrite seq_app. cbn [seq]. apply find_map_mid.
  - intros i Hi%elem_of_seq. destruct (byte_at s i) as [b|] eqn:Hb; cbn [is_some_and]; [|done].
    destruct (_ || _) eqn:Hbr; [|done]. apply find_map_None. intros e _.
    destruct (byte_at_app_l before (doc +:+ after) i) as (p & b' & q & -> & Hl & Hb'); [lia|]. fold s in Hb'.
    assert (b' = b) as -> by congruence. subst i.
    assert (String b q +:+ doc +:+ after
            = slice s (String.length p) e +:+ slice_from (String b q +:+ doc +:+ after) (e - String.length p)) as Hcutx.
    { unfold s. rewrite append_assoc, slice_app_drop. apply slice_split. }
    rewrite (Hfirst p b q _ _ eq_refl) by (exact Hcutx || (apply orb_true_iff in Hbr as [E|E]; apply Ascii.eqb_eq in E; auto)).
    done.
  - rewrite Nat.add_0_l. replace (byte_at s (String.length before)) with (Some c).
    2: { unfold s. by rewrite byte_at_drop. }
    cbn [is_some_and]. replace (_ || _) with true.
    2: { symmetry. apply orb_true_iff. destruct Hc as [-> | ->]; [left|right]; done. }
    unfold ends_after.
    replace (String.length s - String.length before)%nat
      with ((String.length doc - 1) + S (String.length after))%nat by lia.
    rewrite seq_app. cbn [seq].
    replace (S (String.length before) + (String.length doc - 1))%nat with (String.length before + String.length doc)%nat by lia.
    rewrite reverse_app, reverse_cons, filter_list_app, filter_list_app. cbn [filter_list].
    assert (char_boundary s (String.length before + String.length doc) = true) as ->.
    { unfold char_boundary in *. unfold s. rewrite <-append_assoc, <-length_append, byte_at_drop. done. }
    rewrite <-app_assoc. apply find_map_mid.
    + intros e [_ He%elem_of_reverse%elem_of_seq]%elem_of_filter_list.
      replace (slice s (String.length before) e)
        with (doc +:+ slice after 0 (e - String.length before - String.length doc)).
      2: { unfold s. rewrite slice_app_drop. symmetry. apply slice_across. lia. }
      rewrite (Hlong _ (slice_from after (e - String.length before - String.length doc))); [done|apply slice_split|].
      intros E. apply (f_equal String.length) in E. unfold slice in E. rewrite length_substring in E. cbn [String.length] in E. clear -E He Hd. lia.
    + unfold s. rewrite slice_app_drop. replace (String.length before + String.length doc - String.length before)%nat
        with (String.length doc) by lia. rewrite slice_app_l, Hp. done.
Qed.

Lemma sanitize_fields budget (fs gs : list (string * Value)) :
  (∀ v w, low_eq v w → sanitize_value budget v = sanitize_value budget w) →
  Forall2 (λ f g, f.1 = g.1 ∧ (sensitive_key f.1 = true ∨ low_eq f.2 g.2)) fs gs →
  map (λ '(key, value),
    (key, if sensitive_key key then VString REDACTED else sanitize_value budget value)) fs =
  map (λ '(key, value),
    (key, if sensitive_key key then VString REDACTED else sanitize_value budget value)) gs.
Proof.
  intros IH. induction 1 as [|[k v] [k' w] fs gs [Hk Hv] _ IHf]; [done|]. simpl in *. subst k'.
  f_equal; [|done]. destruct Hv as [-> | Hv]; [done|]. by rewrite (IH v w Hv).
Qed.

(** C30. Redaction is non-interfering for values under sensitive keys: JSON
    documents that differ only in values stored under such keys, at any depth
    and also inside strings, have the same sanitized form; and so have texts
    that are such documents, or that have them embedded in otherwise equal
    text.  So nothing about those values reaches a log or a status. *)
Theorem sanitize_noninterference :
  (∀ budget v w, low_eq v w → sanitize_value budget v = sanitize_value budget w) ∧
  (∀ budget s t, low_text s t → sanitize_text budget s = sanitize_text budget t).
Proof.
  enough (∀ budget, (∀ v w, low_eq v w → sanitize_value budget v = sanitize_value budget w) ∧
                    (∀ s t, low_text s t → sanitize_text budget s = sanitize_text budget t)) as H
    by (split; intros budget; apply (H budget)).
  intros budget. induction budget as [|budget [IHv IHt]]; [done|]. split.
  - intros v w Hl. inversion Hl as [|vs ws HF|fs gs HF|s t Hst]; subst; cbn [sanitize_value].
    + done.
    + f_equal. clear Hl. induction HF as [|x y xs ys Hxy _ IHxs]; [done|]. cbn [map].
      rewrite (IHv x y Hxy). by f_equal.
    + f_equal. by apply sanitize_fields.
    + f_equal. by apply IHt.
  - intros s t Hl. inversion Hl as [|? ? v w Hs Ht Hvw|before doc doc' after after' v w Hs Ht Hfs Hft Hvw Hat]; subst;
      cbn [sanitize_text].
    + done.
    + by rewrite Hs, Ht, (IHv v w Hvw).
    + rewrite Hs, Ht, (embedded_document_first _ _ _ _ Hfs), (embedded_document_first _ _ _ _ Hft), (IHv v w Hvw).
      by rewrite !slice_app_l, !slice_from_across, (IHt after after' Hat).
Qed.

(** Every field with a sensitive key holds the placeholder. *)
Fixpoint redacted (v : Value) : bool :=
  match v with
  | VObject fields =>
      all (λ '(k, x), (if sensitive_key k
                       then match x with VString s => s == REDACTED | _ => false end
                       else true) && redacted x) fields
  | VArray vs => all redacted vs
  | _ => true
  end.

(** Sanitized JSON contains no unredacted sensitive field at any depth,
    and nothing nested deeper than the limit survives except the placeholder:
    the output is fully redacted whatever the input. *)
Theorem sanitize_value_redacted budget v : redacted (sanitize_value budget v) = true.
Proof.
  revert v. induction budget as [|budget IH]; intros v; [done|]. destruct v; try done.
  - simpl. apply all_true. intros x (y & -> & _)%list_elem_of_fmap. apply IH.
  - simpl. apply all_true. intros x ([k y] & -> & _)%list_elem_of_fmap.
    destruct (sensitive_key k); [by rewrite bool_decide_eq_true_2|]. simpl. apply IH.
Qed.
End Guarantees.

(** A line [key: value] with a sensitive key keeps the key and loses the
      value, whatever the value is. *)
Theorem redact_sensitive_line_hides key v :
  contains_char key ":"%char = false → sensitive_key (trim (trim_key_start key)) = true →
  redact_sensitive_line (key +:+ String ":" v) = key +:+ ": REDACTED".
Proof.
  intros Hc Hs. unfold redact_sensitive_line. pose proof (split_once_app key ":"%char v Hc) as Ho.
  rewrite Ho, Hs. destruct (split_once_index _ _ _ _ Ho) as [_ ->].
  replace (key +:+ String ":" v) with ((key +:+ ":") +:+ v)
    by by rewrite append_assoc, append_cons, append_nil_l.
  replace (String.length key + 1)%nat with (String.length (key +:+ ":")) by by rewrite length_append.
  rewrite slice_app_l. by rewrite append_assoc.
Qed.

(** A parser that knows two documents, enough to evaluate the sanitizer. *)
Module ConcreteJson.
#[export] Instance json : SerdeJson := {
  from_str s := if bool_decide (s = "{token}") then Some (VObject [("token", VString "abc")])
                else if bool_decide (s = "[token]") then Some (VObject [("token", VString "xyz")]) else None;
  to_string v := match v with
                 | VObject [(k, VString s)] => Some ("{" +:+ k +:+ "," +:+ s +:+ "}")
                 | _ => None
                 end;
}.

Lemma first doc v :
  doc ∈ ["{token}"; "[token]"] → from_str doc = Some v → first_document "failed: " doc " again" v.
Proof.
  intros Hd Hv. split.
  - apply elem_of_cons in Hd as [->|Hd]; [by eexists _, _; split; [|left]|].
    apply list_elem_of_singleton in Hd as ->. by eexists _, _; split; [|right].
  - done.
  - reflexivity.
  - intros p q Hpq Hp. cbn.
    assert (String.length doc = 7%nat) as Hl.
    { apply elem_of_cons in Hd as [->|Hd]; [done|]. by apply list_elem_of_singleton in Hd as ->. }
    assert (0 < String.length p)%nat by (destruct p; [done|simpl; lia]).
    rewrite !bool_decide_eq_false_2; [done|..]; intros E; apply (f_equal String.length) in E;
      rewrite length_append in E; simpl in E; lia.
  - intros p c q x y Hb Hc _. exfalso.
    assert (c ∈ bytes "failed: ") as Hin by (rewrite Hb, bytes_app; apply elem_of_app; right; by left).
    revert Hin. apply (bool_decide_unpack _). destruct Hc as [-> | ->]; vm_compute; done.
Qed.
End ConcreteJson.

Example sanitize_text_example :
  text (SJ := ConcreteJson.json) "failed: {token} password = hunter2; next"
  = "failed: {token,REDACTED} password = REDACTED; next".
Proof. vm_compute. reflexivity. Qed.

Example redact_private_keys_example :
  redact_private_keys "a -----begin RSA private key-----x-----END rsa PRIVATE KEY----- b" = "a REDACTED b".
Proof. vm_compute. reflexivity. Qed.

Lemma sanitize_noninterference_witness :
  @text ConcreteJson.json "failed: {token} again" = @text ConcreteJson.json "failed: [token] again" ∧
  @text ConcreteJson.json "failed: {token} again" = "failed: {token,REDACTED} again".
Proof.
  split; [|vm_compute; reflexivity].
  apply (proj2 (@sanitize_noninterference ConcreteJson.json)).
  apply (@text_embedded ConcreteJson.json "failed: " "{token}" "[token]" " again" " again"
           (VObject [("token", VString "abc")]) (VObject [("token", VString "xyz")])); [reflexivity..| | | |].
  - apply ConcreteJson.first; [apply list_elem_of_here|vm_compute; reflexivity].
  - apply ConcreteJson.first; [apply list_elem_of_further, list_elem_of_here|vm_compute; reflexivity].
  - apply low_object. constructor; [|constructor]. split; [reflexivity|]. left. vm_compute. reflexivity.
  - apply text_refl.
Defined.

Lemma redact_sensitive_line_hides_witness :
  redact_sensitive_line "- client-key-data: xyz" = "- client-key-data: REDACTED".
Proof.
  exact (redact_sensitive_line_hides "- client-key-data" " xyz" eq_refl ltac:(vm_compute; reflexivity)).
Defined.

#[global] Arguments text : simpl never.
#[global] Arguments sensitive_key : simpl never.
#[global] Opaque text.
