(* ===== verification/Readiness.v ===== *)
(** * Readiness and status conditions

    [controller/src/readiness.rs] and [database-runtime/src/readiness.rs]:
    deciding readiness from the JSON of an observed object, and maintaining the
    condition list and the phase of a Tenant status.  Reading the wall clock is
    explicit: [now] is the instant [Timestamp::now()] returns, and operations
    that set several conditions read one instant per condition type. *)

From S2P Require Import Prelude RustStd Kube Errors Api Sanitize ReconcileErrors.

Open Scope Z_scope.

(** ** JSON access *)
Definition json_get (v : Value) (key : string) : option Value :=
  match v with
  | VObject fields => option_map snd (find_first (λ f, f.1 == key) fields)
  | _ => None
  end.

(** [value.pointer("/a/b")] on objects. *)
Fixpoint pointer (v : Value) (path : list string) : option Value :=
  match path with
  | [] => Some v
  | key :: path' => and_then (λ v', pointer v' path') (json_get v key)
  end.

Definition as_i64 (v : Value) : option Z :=
  match v with
  | VNumber n => if (- 2 ^ 63 <=? n) && (n <? 2 ^ 63) then Some n else None
  | _ => None
  end.
Definition as_str (v : Value) : option string := match v with VString s => Some s | _ => None end.
Definition as_array (v : Value) : option (list Value) := match v with VArray vs => Some vs | _ => None end.

(** Equality of JSON values; the keys of an object are unordered. *)
Fixpoint value_eqb (a b : Value) {struct a} : bool :=
  match a, b with
  | VNull, VNull => true
  | VBool x, VBool y => Bool.eqb x y
  | VNumber x, VNumber y => x =? y
  | VFloat x, VFloat y => x == y
  | VString x, VString y => x == y
  | VArray xs, VArray ys =>
      (fix go (xs ys : list Value) : bool :=
         match xs, ys with
         | [], [] => true
         | x :: xs', y :: ys' => value_eqb x y && go xs' ys'
         | _, _ => false
         end) xs ys
  | VObject xs, VObject ys =>
      (length xs =? length ys)%nat
      && (fix go (xs : list (string * Value)) : bool :=
            match xs with
            | [] => true
            | (key, x) :: xs' => is_some_and (value_eqb x) (json_get b key) && go xs'
            end) xs
  | _, _ => false
  end.

(** [data.get_mut(key).map(f)] *)
Definition json_update (v : Value) (key : string) (f : Value → Value) : Value :=
  match v with
  | VObject fields => VObject (map (λ '(k, x), (k, if k == key then f x else x)) fields)
  | v => v
  end.
Definition json_remove (v : Value) (key : string) : Value :=
  match v with VObject fields => VObject (filter_list (λ f, f.1 != key) fields) | v => v end.
(** [data.insert(key, x)] *)
Definition json_insert (v : Value) (key : string) (x : Value) : Value :=
  match v with
  | VObject fields =>
      if any (λ f, f.1 == key) fields
      then VObject (map (λ f, (f.1, if f.1 == key then x else f.2)) fields)
      else VObject (fields ++ [(key, x)])
  | v => v
  end.

(** A map of strings. *)
Definition json_labels (lbls : gmap string string) : Value :=
  VObject (map (λ '(key, value), (key, VString value)) (ordered lbls)).

(** [value[key] == s] *)
Definition index_is (v : Value) (key s : string) : bool :=
  is_some_and (λ x, x == s) (and_then as_str (json_get v key)).

Lemma json_get_object v k x : json_get v k = Some x → ∃ fs, v = VObject fs.
Proof. destruct v; try done. eauto. Qed.

Lemma json_get_insert v k x : (∃ fs, v = VObject fs) → json_get (json_insert v k x) k = Some x.
Proof.
  intros [fs ->]. cbn. destruct (any (λ f, f.1 == k) fs) eqn:Ha; cbn.
  - induction fs as [|[k' y] fs IH]; [done|]. cbn in *. destruct (decide (k' = k)) as [->|Hne].
    + by rewrite (bool_decide_eq_true_2 (k = k)).
    + rewrite (bool_decide_eq_false_2 (k' = k)) in * by done. by apply IH.
  - rewrite find_first_app. rewrite any_false in Ha.
    rewrite (proj2 (find_first_None _ _)) by (intros y Hy; apply Ha, Hy). cbn. by rewrite bool_decide_eq_true_2.
Qed.

Lemma json_get_insert_ne v k k' x : k' ≠ k → json_get (json_insert v k x) k' = json_get v k'.
Proof.
  intros Hne. destruct v as [| | | | | |fs]; try done. cbn. destruct (any (λ f, f.1 == k) fs); cbn.
  - induction fs as [|[j y] fs IH]; [done|]. cbn. destruct (decide (j = k')) as [->|Hj].
    + rewrite (bool_decide_eq_true_2 (k' = k')) by done. by rewrite bool_decide_eq_false_2.
    + by rewrite (bool_decide_eq_false_2 (j = k')).
  - rewrite find_first_app. destruct (find_first (λ f, f.1 == k') fs); [done|]. cbn.
    by rewrite bool_decide_eq_false_2.
Qed.

(** ** Objects of a tenant cluster ([database-runtime]) *)
Definition current (v : option Value) (generation : Z) : bool :=
  match v with
  | None => true
  | Some v => is_some_and (λ observed, generation <=? observed) (as_i64 v)
  end.

Definition object_ready (object : DynamicObject) : bool :=
  if is_some (deletion_timestamp (dyn_meta object)) then false else
  let generation := unwrap_or 0 (generation (dyn_meta object)) in
  if negb (current (pointer (dyn_data object) ["status"; "observedGeneration"]) generation)
  then false
  else is_some_and (any (λ condition,
         index_is condition "type" "Ready" && index_is condition "status" "True"
         && current (json_get condition "observedGeneration") generation))
       (and_then as_array (pointer (dyn_data object) ["status"; "conditions"])).

Definition node_ready (object : DynamicObject) : bool := object_ready object.

Definition workload_available (object : DynamicObject) : bool :=
  if is_some (deletion_timestamp (dyn_meta object))
     || is_none_or (λ v, v <? unwrap_or 0 (generation (dyn_meta object)))
          (and_then as_i64 (pointer (dyn_data object) ["status"; "observedGeneration"]))
  then false else
  let daemon_set := is_some_and (λ types, tm_kind types == "DaemonSet") (dyn_types object) in
  let desired := and_then as_i64 (pointer (dyn_data object)
    (if daemon_set then ["status"; "desiredNumberScheduled"] else ["spec"; "replicas"])) in
  let available := and_then as_i64 (pointer (dyn_data object)
    (if daemon_set then ["status"; "numberAvailable"] else ["status"; "availableReplicas"])) in
  is_some_and (λ d, (0 <? d) && (Some d == available)) desired.

(** ** Management objects *)
Definition integer (v : option Value) : result ReconcileError (option Z) :=
  map_transpose (λ v, ok_or (as_i64 v) (RInvalidInput "malformed observedGeneration")) v.

(** The loop over conditions of [management_conditions_ready]. *)
Fixpoint conditions_loop (generation : Z) (observed : option Z) (condition_types : list string)
    (conditions : list Value) : result ReconcileError bool :=
  match conditions with
  | [] => Ok false
  | condition :: rest =>
      if is_none_or (λ kind, negb (bool_decide (kind ∈ condition_types)))
           (and_then as_str (json_get condition "type"))
         || (and_then as_str (json_get condition "status") != Some "True")
      then conditions_loop generation observed condition_types rest
      else
        let! current := integer (json_get condition "observedGeneration") in
        if is_some_and (λ value, generation <=? value)
             (match current with Some c => Some c | None => observed end)
        then Ok true
        else conditions_loop generation observed condition_types rest
  end.

Definition management_conditions_ready (object : DynamicObject) (condition_types : list string)
    : result ReconcileError bool :=
  if is_some (deletion_timestamp (dyn_meta object)) then Ok false else
  let generation := unwrap_or 0 (generation (dyn_meta object)) in
  let! observed := integer (pointer (dyn_data object) ["status"; "observedGeneration"]) in
  if is_some_and (λ observed, observed <? generation) observed then Ok false else
  match pointer (dyn_data object) ["status"; "conditions"] with
  | None => Ok false
  | Some conditions =>
      let! conditions := ok_or (as_array conditions) (RInvalidInput "malformed management conditions") in
      conditions_loop generation observed condition_types conditions
  end.

(** ** Conditions *)

Section Conditions.
Context `{SJ : SerdeJson}.

Definition set_condition (now : Time) (status : TenantStatus) (tenant : Tenant)
    (kind : string) (ready : bool) (reason message : string) : TenantStatus :=
  let value := if ready then "True" else "False" in
  let previous := position (λ c, cond_type c == kind) (conditions status) in
  let transition :=
    match and_then (λ i, conditions status !! i) previous with
    | Some c => if cond_status c == value then cond_last_transition_time c else now
    | None => now
    end in
  let condition := {|
    cond_type := kind; cond_status := value; cond_reason := reason;
    cond_message := text message;
    cond_observed_generation := generation (tenant_meta tenant);
    cond_last_transition_time := transition |} in
  with_conditions status
    (match previous with
     | Some index => <[index := condition]> (conditions status)
     | None => conditions status ++ [condition]
     end).

(** The instant read when the condition of the given type is set. *)
Context (clock : string → Time).

Definition initialize_status (status : TenantStatus) (tenant : Tenant) : TenantStatus :=
  let status := with_observed_generation status (generation (tenant_meta tenant)) in
  let status :=
    match phase status with
    | None | Some PhasePending => with_phase status (Some PhaseProgressing)
    | _ => status
    end in
  fold_left (λ status '(kind, message),
      set_condition (clock kind) status tenant kind true kind message)
    [("Accepted", "Tenant specification is accepted");
     ("FoundationReady", "Tenant foundation identity is current");
     ("OwnershipValid", "Observed Tenant ownership is valid")] status.

Definition established (tenant : Tenant) : bool :=
  is_some_and (λ status, any (λ c,
      (cond_type c == "Ready") && (cond_status c == "True")
      && (cond_observed_generation c == generation (tenant_meta tenant)))
    (conditions status)) (tenant_status tenant).

Definition progress_status (status : TenantStatus) (tenant : Tenant) : TenantStatus :=
  let status := initialize_status status tenant in
  let established := established tenant in
  let reason := if established then "Recovering" else "Progressing" in
  let status := with_phase status (Some (if established then PhaseDegraded else PhaseProgressing)) in
  set_condition (clock "Ready") status tenant "Ready" false reason
    "Tenant reconciliation is progressing".

Record Components := {
  control_plane : bool;
  workers_ready : bool;
  network_ready : bool;
  storage : bool;
}.

Definition ready (c : Components) : bool :=
  control_plane c && workers_ready c && network_ready c && storage c.

Definition component_list (c : Components) : list (string * bool) := [
  ("ControlPlaneReady", control_plane c); ("WorkersReady", workers_ready c);
  ("NetworkReady", network_ready c); ("StorageReady", storage c)].

(** The body of the loop of [publish]. *)
Definition component_step (tenant : Tenant) (status : TenantStatus) (component : string * bool)
    : TenantStatus :=
  let '(kind, r) := component in
  set_condition (clock kind) status tenant kind r (if r then kind else "NotReady")
    (kind +:+ " is " +:+ (if r then "true" else "false")).

(** The part of [publish] after [initialize_status]. *)
Definition publish_components (c : Components) (status : TenantStatus) (tenant : Tenant)
    : TenantStatus :=
  let status := fold_left (component_step tenant) (component_list c) status in
  let status := with_phase status (Some (if ready c then PhaseReady else PhaseDegraded)) in
  set_condition (clock "Ready") status tenant "Ready" (ready c)
    (if ready c then "Ready" else "ComponentsNotReady")
    (if ready c then "Tenant components are ready"
     else "One or more Tenant components are not ready").

Definition publish (c : Components) (status : TenantStatus) (tenant : Tenant) : TenantStatus :=
  publish_components c (initialize_status status tenant) tenant.
End Conditions.

(** ** The condition list as a map from types to conditions *)
Definition condition_of (status : TenantStatus) (kind : string) : option Condition :=
  find_first (λ c, cond_type c == kind) (conditions status).

Definition condition_types (status : TenantStatus) : list string := map cond_type (conditions status).

Section ConditionFacts.
Context `{SJ : SerdeJson}.

(** The condition [set_condition] installs. *)
Definition new_condition (now : Time) (status : TenantStatus) (tenant : Tenant)
    (kind : string) (ready : bool) (reason message : string) : Condition :=
  let value := if ready then "True" else "False" in {|
    cond_type := kind; cond_status := value; cond_reason := reason; cond_message := text message;
    cond_observed_generation := generation (tenant_meta tenant);
    cond_last_transition_time :=
      match condition_of status kind with
      | Some c => if cond_status c == value then cond_last_transition_time c else now
      | None => now
      end |}.

Lemma set_condition_shape now status tenant kind r reason message :
  set_condition now status tenant kind r reason message =
  with_conditions status
    (match position (λ c, cond_type c == kind) (conditions status) with
     | Some i => <[i := new_condition now status tenant kind r reason message]> (conditions status)
     | None => conditions status ++ [new_condition now status tenant kind r reason message]
     end).
Proof.
  unfold set_condition, new_condition, condition_of.
  destruct (position _ (conditions status)) as [i|] eqn:Hp; simpl.
  - destruct (position_Some _ _ _ Hp) as (x & Hx & _ & ->). by rewrite Hx.
  - by rewrite (position_None _ _ Hp).
Qed.

Lemma set_condition_same now status tenant kind r reason message :
  condition_of (set_condition now status tenant kind r reason message) kind
  = Some (new_condition now status tenant kind r reason message).
Proof.
  rewrite set_condition_shape. unfold condition_of, with_conditions. simpl.
  destruct (position _ (conditions status)) as [i|] eqn:Hp.
  - apply find_first_insert; [done|]. simpl. by rewrite bool_decide_eq_true_2.
  - rewrite find_first_app, (position_None _ _ Hp). simpl. by rewrite bool_decide_eq_true_2.
Qed.

Lemma set_condition_other now status tenant kind r reason message kind' :
  kind' ≠ kind →
  condition_of (set_condition now status tenant kind r reason message) kind'
  = condition_of status kind'.
Proof.
  intros Hne. rewrite set_condition_shape. unfold condition_of, with_conditions. simpl.
  destruct (position _ (conditions status)) as [i|] eqn:Hp.
  - eapply find_first_insert_other; [done| |].
    + simpl. by rewrite bool_decide_eq_false_2.
    + simpl. intros y Hy. bool_hyp. rewrite Hy. by apply bool_decide_eq_false_2.
  - rewrite find_first_app. simpl. rewrite bool_decide_eq_false_2 by done. by destruct (find_first _ _).
Qed.

Lemma set_condition_types now status tenant kind r reason message :
  condition_types (set_condition now status tenant kind r reason message) =
  if bool_decide (kind ∈ condition_types status) then condition_types status
  else condition_types status ++ [kind].
Proof.
  rewrite set_condition_shape. unfold condition_types, with_conditions. simpl.
  destruct (position _ (conditions status)) as [i|] eqn:Hp.
  - destruct (position_Some _ _ _ Hp) as (x & Hx & Hk & _). bool_hyp.
    rewrite bool_decide_eq_true_2.
    + change (map cond_type) with (fmap (M := list) cond_type).
      rewrite list_fmap_insert. simpl. apply list_insert_id. by rewrite list_lookup_fmap, Hx, <-Hk.
    + rewrite <-Hk. apply list_elem_of_fmap_2. by eapply list_elem_of_lookup_2.
  - rewrite bool_decide_eq_false_2; [by rewrite map_app|].
    intros (x & -> & Hx)%list_elem_of_fmap. apply position_None in Hp.
    rewrite find_first_None in Hp. specialize (Hp x Hx). bool_hyp. done.
Qed.

Lemma set_condition_nodup now status tenant kind r reason message :
  NoDup (condition_types status) →
  NoDup (condition_types (set_condition now status tenant kind r reason message)).
Proof.
  rewrite set_condition_types. destruct (bool_decide _) eqn:Hb; [done|]. bool_hyp.
  intros Hnd. apply list.NoDup_app. split_and!; [done| |apply list.NoDup_singleton].
  intros x Hx ->%list_elem_of_singleton. done.
Qed.
End ConditionFacts.

(** ** Published statuses *)
Section Published.
Context `{SJ : SerdeJson} (clock : string → Time).

Lemma condition_of_with_phase status p kind :
  condition_of (with_phase status p) kind = condition_of status kind.
Proof. done. Qed.
Lemma condition_types_with_phase status p :
  condition_types (with_phase status p) = condition_types status.
Proof. done. Qed.
Lemma condition_of_with_generation status g kind :
  condition_of (with_observed_generation status g) kind = condition_of status kind.
Proof. done. Qed.

(** The parts of a status conditions do not touch. *)
Definition same_binding (s t : TenantStatus) : Prop :=
  provider_status s = provider_status t ∧ database_capability s = database_capability t ∧
  catalog_create_intent s = catalog_create_intent t.

Definition INITIAL_KINDS := ["Accepted"; "FoundationReady"; "OwnershipValid"].
Definition COMPONENT_KINDS := ["ControlPlaneReady"; "WorkersReady"; "NetworkReady"; "StorageReady"].

(** The shape of [initialize_status]: the phase leaves [Pending], then three
    conditions are set. *)
Lemma initialize_status_facts status tenant :
  let s := initialize_status clock status tenant in
  same_binding s status ∧ observed_generation s = generation (tenant_meta tenant) ∧
  phase s = (match phase status with None | Some PhasePending => Some PhaseProgressing | p => p end) ∧
  (∀ kind, kind ∉ INITIAL_KINDS → condition_of s kind = condition_of status kind) ∧
  (NoDup (condition_types status) → NoDup (condition_types s)).
Proof.
  unfold initialize_status. cbn [fold_left]. simpl.
  set (s0 := match phase status with None | Some PhasePending => _ | _ => _ end).
  assert (same_binding s0 status ∧ observed_generation s0 = generation (tenant_meta tenant) ∧
          phase s0 = (match phase status with None | Some PhasePending => Some PhaseProgressing | p => p end) ∧
          conditions s0 = conditions status) as (Hb & Hg & Hp & Hc).
  { unfold s0, same_binding. destruct (phase status) as [[]|] eqn:E; simpl; rewrite ?E; done. }
  split_and!; [done..| |].
  - intros kind Hk. rewrite !set_condition_other by (intros ->; apply Hk; in_list).
    unfold condition_of. by rewrite Hc.
  - intros Hnd. repeat apply set_condition_nodup. unfold condition_types. by rewrite Hc.
Qed.

(** A condition with the given verdict, about the generation of the Tenant. *)
Definition reports (s : TenantStatus) (tenant : Tenant) (kind : string) (r : bool) : Prop :=
  ∃ c, condition_of s kind = Some c ∧ cond_status c = (if r then "True" else "False") ∧
       cond_observed_generation c = generation (tenant_meta tenant).

Lemma reports_with_phase status p tenant kind r :
  reports status tenant kind r → reports (with_phase status p) tenant kind r.
Proof. done. Qed.

Lemma set_condition_reports now status tenant kind r reason message :
  reports (set_condition now status tenant kind r reason message) tenant kind r.
Proof.
  eexists. split; [apply set_condition_same|]. done.
Qed.

Lemma set_condition_reports_other now status tenant kind r reason message kind' r' :
  kind' ≠ kind → reports status tenant kind' r' →
  reports (set_condition now status tenant kind r reason message) tenant kind' r'.
Proof. intros Hne (c & Hc & H). exists c. by rewrite set_condition_other. Qed.

Lemma set_condition_binding now status tenant kind r reason message s :
  same_binding status s → same_binding (set_condition now status tenant kind r reason message) s.
Proof. done. Qed.
Lemma with_phase_binding status p s : same_binding status s → same_binding (with_phase status p) s.
Proof. done. Qed.
Lemma set_condition_phase now status tenant kind r reason message :
  phase (set_condition now status tenant kind r reason message) = phase status.
Proof. done. Qed.
Lemma set_condition_generation now status tenant kind r reason message :
  observed_generation (set_condition now status tenant kind r reason message)
  = observed_generation status.
Proof. done. Qed.
Lemma with_phase_generation status p :
  observed_generation (with_phase status p) = observed_generation status.
Proof. done. Qed.

Lemma component_steps tenant l status :
  NoDup l.*1 →
  let s := fold_left (component_step clock tenant) l status in
  same_binding s status ∧ observed_generation s = observed_generation status ∧
  (∀ kind, kind ∉ l.*1 → condition_of s kind = condition_of status kind) ∧
  Forall (λ '(kind, r), reports s tenant kind r) l ∧
  (NoDup (condition_types status) → NoDup (condition_types s)).
Proof.
  revert status. induction l as [|[k r] l IH]; intros status Hnd; [by split_and!; try constructor|].
  apply list.NoDup_cons in Hnd as [Hk Hnd]. simpl in *.
  destruct (IH (component_step clock tenant status (k, r)) Hnd) as (Hb & Hg & Ho & Hr & Hn).
  unfold component_step in Hb, Hg, Ho, Hn. split_and!; [done|done| | |].
  - intros kind [Hne Hkind]%not_elem_of_cons. rewrite Ho by done. by apply set_condition_other.
  - apply List.Forall_cons; [|done]. unfold reports. rewrite Ho by done. apply set_condition_reports.
  - intros. by apply Hn, set_condition_nodup.
Qed.

Lemma publish_components_facts c s0 tenant :
  let s := publish_components clock c s0 tenant in
  phase s = Some (if ready c then PhaseReady else PhaseDegraded) ∧
  observed_generation s = observed_generation s0 ∧
  Forall (λ '(kind, r), reports s tenant kind r) (("Ready", ready c) :: component_list c) ∧
  (∀ kind, kind ∉ "Ready" :: COMPONENT_KINDS → condition_of s kind = condition_of s0 kind) ∧
  same_binding s s0 ∧
  (NoDup (condition_types s0) → NoDup (condition_types s)).
Proof.
  unfold publish_components.
  destruct (component_steps tenant (component_list c) s0) as (Hb1 & Hg1 & Ho1 & Hr1 & Hn1);
    [apply (bool_decide_unpack _); vm_compute; done|].
  generalize dependent (fold_left (component_step clock tenant) (component_list c) s0).
  intros s1 Hb1 Hg1 Ho1 Hr1 Hn1. split_and!.
  - by rewrite set_condition_phase.
  - by rewrite set_condition_generation, with_phase_generation, Hg1.
  - apply List.Forall_cons; [apply set_condition_reports|].
    unfold component_list in *. rewrite !list.Forall_cons in *.
    destruct Hr1 as (? & ? & ? & ? & ?).
    split_and!; [apply set_condition_reports_other; [discriminate|done]..|constructor].
  - intros kind Hkind.
    rewrite set_condition_other, condition_of_with_phase by (intros ->; apply Hkind; in_list).
    apply Ho1. intros Hin. apply Hkind. by right.
  - by apply set_condition_binding, with_phase_binding.
  - intros Hnd. apply set_condition_nodup. rewrite condition_types_with_phase. auto.
Qed.

(** Publishing component readiness is consistent: the phase is Ready
    exactly when every component is ready, the Ready condition agrees with
    it, each component condition reports its component, all of them for the
    current generation; other conditions and the provider, database and
    catalog bindings are untouched, and condition types stay unique. *)
Theorem publish_consistent c status tenant :
  let s := publish clock c status tenant in
  phase s = Some (if ready c then PhaseReady else PhaseDegraded) ∧
  observed_generation s = generation (tenant_meta tenant) ∧
  Forall (λ '(kind, r), reports s tenant kind r) (("Ready", ready c) :: component_list c) ∧
  (∀ kind, kind ∉ "Ready" :: INITIAL_KINDS ++ COMPONENT_KINDS →
     condition_of s kind = condition_of status kind) ∧
  same_binding s status ∧
  (NoDup (condition_types status) → NoDup (condition_types s)).
Proof.
  destruct (initialize_status_facts status tenant) as (Hb & Hg & _ & Hk & Hn). unfold publish.
  generalize dependent (initialize_status clock status tenant). intros s0 Hb Hg Hk Hn.
  destruct (publish_components_facts c s0 tenant) as (Hp & Hg' & Hr & Ho & Hb' & Hn').
  split_and!; [done|congruence|done| |unfold same_binding in *; intuition congruence|auto].
  intros kind [Hne Hkind]%not_elem_of_cons. apply not_elem_of_app in Hkind as [Hi Hc].
  rewrite Ho by by apply not_elem_of_cons. by apply Hk.
Qed.

(** The transition time of a condition only moves when its status
    flips: setting a condition to the verdict it already has keeps the time,
    a changed or new verdict takes the current instant; the order of types is
    kept and conditions of other types are left alone. *)
Theorem set_condition_transition now status tenant kind r reason message :
  let s := set_condition now status tenant kind r reason message in
  (∃ c, condition_of s kind = Some c ∧
     cond_status c = (if r then "True" else "False") ∧ cond_reason c = reason ∧
     cond_message c = text message ∧
     cond_last_transition_time c =
       match condition_of status kind with
       | Some old => if cond_status old == (if r then "True" else "False")
                     then cond_last_transition_time old else now
       | None => now
       end) ∧
  (∀ kind', kind' ≠ kind → condition_of s kind' = condition_of status kind') ∧
  condition_types s = (if bool_decide (kind ∈ condition_types status) then condition_types status
                       else condition_types status ++ [kind]).
Proof.
  split_and!; [|intros; by apply set_condition_other|apply set_condition_types].
  eexists. split; [apply set_condition_same|]. done.
Qed.

(** Progress never claims readiness: the status it writes reports Ready
    as False, and the phase is Degraded exactly when the Tenant was ready
    before at this generation, Progressing otherwise. *)
Theorem progress_status_not_ready status tenant :
  let s := progress_status clock status tenant in
  reports s tenant "Ready" false ∧
  phase s = Some (if established tenant then PhaseDegraded else PhaseProgressing) ∧
  (established tenant = true ↔
     ∃ st c, tenant_status tenant = Some st ∧ c ∈ conditions st ∧ cond_type c = "Ready" ∧
       cond_status c = "True" ∧ cond_observed_generation c = generation (tenant_meta tenant)).
Proof.
  unfold progress_status. split_and!; [apply set_condition_reports|by rewrite set_condition_phase|].
  unfold established. rewrite is_some_and_true. setoid_rewrite any_true.
  setoid_rewrite andb_true_iff. setoid_rewrite andb_true_iff. setoid_rewrite bool_decide_eq_true.
  naive_solver.
Qed.
End Published.

Lemma as_str_Some v s : as_str v = Some s → v = VString s.
Proof. destruct v; simpl; congruence. Qed.

Lemma integer_Some v n : integer v = Ok (Some n) → v = Some (VNumber n).
Proof.
  unfold integer, map_transpose, ok_or, as_i64. destruct v as [[]|]; try done.
  by destruct (_ && _); intros [= ->].
Qed.

Lemma conditions_loop_sound generation observed types conditions :
  conditions_loop generation observed types conditions = Ok true →
  ∃ condition kind n, condition ∈ conditions ∧ kind ∈ types ∧
    json_get condition "type" = Some (VString kind) ∧
    json_get condition "status" = Some (VString "True") ∧
    (json_get condition "observedGeneration" = Some (VNumber n) ∨ observed = Some n) ∧
    generation ≤ n.
Proof.
  induction conditions as [|c rest IH]; simpl; [done|].
  assert (Hrest : conditions_loop generation observed types rest = Ok true → _) by exact IH.
  destruct (_ || _) eqn:Hskip; [intros (x & k & n & Hx & H)%IH; exists x, k, n; split; [by right|done]|].
  apply orb_false_iff in Hskip as [Hkind Hstatus].
  destruct (integer _) as [cur|] eqn:Hcur; [|done].
  destruct (is_some_and _ _) eqn:Hgen;
    [intros _|intros (x & k & n & Hx & H)%IH; exists x, k, n; split; [by right|done]].
  apply is_none_or_false in Hkind as (kind & Hk & Hin). bool_hyp.
  assert (∀ v s, and_then as_str v = Some s → v = Some (VString s)) as Hstr.
  { intros [v|] s Hv; [|done]. by apply as_str_Some in Hv as ->. }
  exists c, kind, x. apply Hstr in Hk, Hstatus.
  split_and!; [by left|done..| |lia].
  destruct cur as [m|]; simp_eqs; [left; by apply integer_Some|by right].
Qed.

(** A management object only counts as ready on evidence: it is not being
    deleted and has a condition of an accepted type whose status is True and
    which was observed at the object's generation or later. *)
Theorem management_conditions_ready_sound object types :
  management_conditions_ready object types = Ok true →
  deletion_timestamp (dyn_meta object) = None ∧
  ∃ conditions condition kind observed,
    pointer (dyn_data object) ["status"; "conditions"] = Some (VArray conditions) ∧
    condition ∈ conditions ∧ kind ∈ types ∧
    json_get condition "type" = Some (VString kind) ∧
    json_get condition "status" = Some (VString "True") ∧
    (json_get condition "observedGeneration" = Some (VNumber observed) ∨
     pointer (dyn_data object) ["status"; "observedGeneration"] = Some (VNumber observed)) ∧
    unwrap_or 0 (generation (dyn_meta object)) ≤ observed.
Proof.
  unfold management_conditions_ready.
  destruct (deletion_timestamp _) eqn:Hd; [done|]. cbn [is_some].
  destruct (integer _) as [observed|] eqn:Ho; [|done].
  destruct (is_some_and _ observed); [done|].
  destruct (pointer _ ["status"; "conditions"]) as [[]|] eqn:Hc; try done. cbn [as_array ok_or].
  intros (c & kind & n & Hc' & Hk & Ht & Hs & Hn & Hle)%conditions_loop_sound.
  split; [done|]. eexists _, c, kind, n. split_and!; [done..| |done].
  destruct Hn as [Hn| ->]; [by left|right; by apply integer_Some].
Qed.

(** A node with one ready condition. *)
Definition ready_object (status : string) : DynamicObject := {|
  dyn_types := None; dyn_meta := default_meta;
  dyn_data := VObject [("status", VObject [
    ("observedGeneration", VNumber 2);
    ("conditions", VArray [VObject [("type", VString "Ready"); ("status", VString status)]])])] |}.

Lemma management_conditions_ready_sound_witness :
  management_conditions_ready (ready_object "True") ["Ready"] = Ok true ∧
  management_conditions_ready (ready_object "False") ["Ready"] = Ok false ∧
  deletion_timestamp (dyn_meta (ready_object "True")) = None.
Proof.
  split; [vm_compute; reflexivity|]. split; [vm_compute; reflexivity|].
  refine (proj1 (management_conditions_ready_sound (ready_object "True") ["Ready"] _)).
  vm_compute. reflexivity.
Defined.
