(* ===== verification/Ops.v ===== *)
(** * Operations of the Tenant controller on its environment

    The requests the controller sends to the management API server and to the
    Docker client, with the type of the reply.  Programs over these operations
    ([Effects]) model the asynchronous functions of the controller.  The reply
    is whatever the environment says: only the properties that need it assume
    anything about it, by instantiating the environment. *)

From S2P Require Import Prelude Kube Errors Api Management Docker Effects.

(** A merge patch of a Tenant status under the preconditions of a UID and a
    resource version; [clear] makes the two allocation fields null. *)
Record StatusPatch := {
  sp_uid : string;
  sp_resource_version : string;
  sp_status : TenantStatus;
  sp_clear_allocation : bool;
}.

Record FinalizerPatch := {
  fp_uid : string;
  fp_resource_version : string;
  fp_finalizers : list string;
}.

(** A merge patch of a database catalog under the preconditions of a UID and a
    resource version: close it and mark entries, or drop its finalizers. *)
Inductive CatalogPatch :=
| CloseCatalog (u rv : string) (entries : list (string * Value))
| ReleaseCatalog (u rv : string).

(** The cluster a client is connected to: the management cluster, or the hosted
    cluster of a Tenant. *)
Inductive Side := ManagementSide | HostedSide.

#[export] Instance Side_eq_dec : EqDecision Side.
Proof. solve_decision. Defined.

(** [Api<DynamicObject>]: the objects of a kind, in a namespace if it has one. *)
Record ObjectApi := {
  oa_side : Side;
  oa_types : TypeMeta;
  oa_namespace : option string;
}.

#[export] Instance ObjectApi_eq_dec : EqDecision ObjectApi.
Proof. solve_decision. Defined.

(** A resource that discovery lists. *)
Record ApiResourceEntry := { ar_name : string; ar_kind : string; ar_namespaced : bool }.

Inductive Op :=
| ListLeases (ns : string)
| GetLease (ns nm : string)
| CreateLease (ns : string) (lease : Lease)
| DeleteLease (ns nm : string) (params : DeleteParams)
| GetTenant (nm : string)
| GetTenantOpt (nm : string)
| PatchTenantStatus (nm : string) (patch : StatusPatch)
| PatchTenantFinalizers (nm : string) (patch : FinalizerPatch)
| GetNamespace (nm : string)
| DeleteNamespace (nm : string) (params : DeleteParams)
| GetSecret (ns nm : string)
| GetDynamic (r : ManagementResource) (ns nm : string)
| ListDynamic (r : ManagementResource) (ns : string)
| DeleteDynamic (r : ManagementResource) (ns nm : string) (params : DeleteParams)
| GetConfigMap (ns nm : string)
| ListContainers
| InspectVolume (nm : string)
| RemoveVolume (nm : string)
(** [get] fails on a missing object, [get_opt] returns none. *)
| ReadNamespace (nm : string)
| CreateNamespace (obj : Namespace)
| GetCatalog (ns nm : string)
| ReadCatalog (ns nm : string)
| CreateCatalog (ns : string) (obj : DynamicObject)
| PatchCatalog (ns nm : string) (patch : CatalogPatch)
| DeleteCatalog (ns nm : string) (params : DeleteParams)
| GetRole (ns nm : string)
| ReadRole (ns nm : string)
| CreateRole (ns : string) (obj : Role)
| DeleteRole (ns nm : string) (params : DeleteParams)
| GetRoleBinding (ns nm : string)
| ReadRoleBinding (ns nm : string)
| CreateRoleBinding (ns : string) (obj : RoleBinding)
| DeleteRoleBinding (ns nm : string) (params : DeleteParams)
| ListDisks (ns : string)
| ListTenants
| ReplaceConfigMap (ns nm : string) (obj : ConfigMap)
| CreateConfigMap (ns : string) (obj : ConfigMap)
| DeleteConfigMap (ns nm : string) (params : DeleteParams)
(** A raw GET of a list, as the document the server sends. *)
| RawInventory (path : string)
| ListVolumes
(** Objects of any kind, in either cluster. *)
| ObjectFind (api : ObjectApi) (nm : string)
| ObjectRead (api : ObjectApi) (nm : string)
| ObjectList (api : ObjectApi)
| ObjectCreate (api : ObjectApi) (obj : DynamicObject)
(** A forced server-side apply, and a merge patch of an object or its status. *)
| ObjectApply (api : ObjectApi) (nm : string) (obj : DynamicObject)
| ObjectMerge (api : ObjectApi) (nm : string) (patch : Value) (subresource : bool)
(** A deletion with foreground propagation. *)
| ObjectDelete (api : ObjectApi) (nm : string) (params : DeleteParams)
(** Discovery of a group and version in the hosted cluster. *)
| GroupDiscover (api_version : string)
(** Roles of [kube-system] in the hosted cluster. *)
| HostedRoleFind (nm : string)
| HostedRoleRead (nm : string)
| HostedRoleCreate (obj : Role)
| HostedBindingFind (nm : string)
| HostedBindingRead (nm : string)
| HostedBindingCreate (obj : RoleBinding)
| VolumeCreate (nm : string) (labels : gmap string string)
(** [Config::from_custom_kubeconfig] and [Client::try_from]. *)
| ConfigLoad (kubeconfig : KubeConfig)
| ClientBuild (config : ClientConfig)
| ConfigMapRead (ns nm : string)
| ClassFind (nm : string)
| ClassCreate (obj : StorageClass).

Definition Resp (o : Op) : Type :=
  match o with
  | ListLeases _ => result KubeError (list Lease)
  | GetLease _ _ => result KubeError (option Lease)
  | CreateLease _ _ => result KubeError Lease
  | DeleteLease _ _ _ => result KubeError unit
  | GetTenant _ => result KubeError Tenant
  | GetTenantOpt _ => result KubeError (option Tenant)
  | PatchTenantStatus _ _ => result KubeError Tenant
  | PatchTenantFinalizers _ _ => result KubeError Tenant
  | GetNamespace _ => result KubeError (option Namespace)
  | DeleteNamespace _ _ => result KubeError unit
  | GetSecret _ _ => result KubeError (option Secret)
  | GetDynamic _ _ _ => result KubeError (option DynamicObject)
  | ListDynamic _ _ => result KubeError (list DynamicObject)
  | DeleteDynamic _ _ _ _ => result KubeError unit
  | GetConfigMap _ _ => result KubeError (option ConfigMap)
  | ListContainers => result DockerError (list DockerContainer)
  | InspectVolume _ => result DockerError (option DockerVolume)
  | RemoveVolume _ => result DockerError unit
  | ReadNamespace _ | CreateNamespace _ => result KubeError Namespace
  | GetCatalog _ _ => result KubeError (option DynamicObject)
  | ReadCatalog _ _ | CreateCatalog _ _ | PatchCatalog _ _ _ => result KubeError DynamicObject
  | GetRole _ _ => result KubeError (option Role)
  | ReadRole _ _ | CreateRole _ _ => result KubeError Role
  | GetRoleBinding _ _ => result KubeError (option RoleBinding)
  | ReadRoleBinding _ _ | CreateRoleBinding _ _ => result KubeError RoleBinding
  | DeleteCatalog _ _ _ | DeleteRole _ _ _ | DeleteRoleBinding _ _ _ => result KubeError unit
  | ListDisks _ => result KubeError (list DynamicObject)
  | ListTenants => result KubeError (list Tenant)
  | ReplaceConfigMap _ _ _ | CreateConfigMap _ _ => result KubeError ConfigMap
  | DeleteConfigMap _ _ _ => result KubeError unit
  | RawInventory _ => result KubeError Value
  | ListVolumes => result DockerError (list DockerVolume)
  | ObjectFind _ _ => result KubeError (option DynamicObject)
  | ObjectRead _ _ | ObjectCreate _ _ | ObjectApply _ _ _ | ObjectMerge _ _ _ _ => result KubeError DynamicObject
  | ObjectList _ => result KubeError (list DynamicObject)
  | ObjectDelete _ _ _ => result KubeError unit
  | GroupDiscover _ => result KubeError (list ApiResourceEntry)
  | HostedRoleFind _ => result KubeError (option Role)
  | HostedRoleRead _ | HostedRoleCreate _ => result KubeError Role
  | HostedBindingFind _ => result KubeError (option RoleBinding)
  | HostedBindingRead _ | HostedBindingCreate _ => result KubeError RoleBinding
  | VolumeCreate _ _ => result DockerError DockerVolume
  | ConfigLoad _ => result unit ClientConfig
  | ClientBuild _ => result unit unit
  | ConfigMapRead _ _ => result KubeError ConfigMap
  | ClassFind _ => result KubeError (option StorageClass)
  | ClassCreate _ => result KubeError StorageClass
  end.

(** An asynchronous function that returns a result. *)
Notation io E A := (prog Resp (result E A)).

(** The reply that reports an error. *)
Definition error_reply (o : Op) (e : KubeError) : Resp o :=
  match o return Resp o with
  | ListContainers => Err (Transport "list containers")
  | InspectVolume _ => Err (Transport "inspect volume")
  | RemoveVolume _ => Err (Transport "remove volume")
  | ListVolumes => Err (Transport "list volumes")
  | VolumeCreate _ _ => Err (Transport "create volume")
  | ConfigLoad _ | ClientBuild _ => Err tt
  | ObjectFind _ _ | ObjectRead _ _ | ObjectList _ | ObjectCreate _ _ | ObjectApply _ _ _ | ObjectMerge _ _ _ _
  | ObjectDelete _ _ _ | GroupDiscover _ | HostedRoleFind _ | HostedRoleRead _ | HostedRoleCreate _ | HostedBindingFind _
  | HostedBindingRead _ | HostedBindingCreate _ | ConfigMapRead _ _ | ClassFind _ | ClassCreate _ => Err e
  | ListLeases _ | GetLease _ _ | CreateLease _ _ | DeleteLease _ _ _ | GetTenant _ | GetTenantOpt _
  | PatchTenantStatus _ _ | PatchTenantFinalizers _ _ | GetNamespace _ | DeleteNamespace _ _
  | GetSecret _ _ | GetDynamic _ _ _ | ListDynamic _ _ | DeleteDynamic _ _ _ _ | GetConfigMap _ _
  | ReadNamespace _ | CreateNamespace _ | GetCatalog _ _ | ReadCatalog _ _ | CreateCatalog _ _
  | PatchCatalog _ _ _ | DeleteCatalog _ _ _ | GetRole _ _ | ReadRole _ _ | CreateRole _ _
  | DeleteRole _ _ _ | GetRoleBinding _ _ | ReadRoleBinding _ _ | CreateRoleBinding _ _
  | DeleteRoleBinding _ _ _ | ListDisks _ | ListTenants | ReplaceConfigMap _ _ _
  | CreateConfigMap _ _ | DeleteConfigMap _ _ _ | RawInventory _ => Err e
  end.

(** Requests that change the cluster or the host. *)
Definition mutates (o : Op) : bool :=
  match o with
  | CreateLease _ _ | DeleteLease _ _ _ | PatchTenantStatus _ _ | PatchTenantFinalizers _ _
  | DeleteNamespace _ _ | DeleteDynamic _ _ _ _ | RemoveVolume _ | CreateNamespace _
  | CreateCatalog _ _ | PatchCatalog _ _ _ | DeleteCatalog _ _ _ | CreateRole _ _ | DeleteRole _ _ _
  | CreateRoleBinding _ _ | DeleteRoleBinding _ _ _ | ReplaceConfigMap _ _ _
  | CreateConfigMap _ _ | DeleteConfigMap _ _ _
  | ObjectCreate _ _ | ObjectApply _ _ _ | ObjectMerge _ _ _ _ | ObjectDelete _ _ _
  | HostedRoleCreate _ | HostedBindingCreate _ | VolumeCreate _ _ | ClassCreate _ => true
  | _ => false
  end.

(** A delete request bound to one observed object: exact UID and resource
    version, background propagation. *)
Definition exact_delete (uid rv : string) : DeleteParams := {|
  precondition_uid := Some uid; precondition_resource_version := Some rv; background := true |}.

(** The number of mutating requests of a history. *)
Definition mutations (h : trace Resp) : nat := length (filter_list (λ e, mutates (projT1 e)) h).

Lemma mutations_snoc (h : trace Resp) (o : Op) (r : Resp o) :
  mutations (h ++ [existT o r]) = (mutations h + if mutates o then 1 else 0)%nat.
Proof.
  unfold mutations. rewrite filter_list_app, length_app. simpl. by destruct (mutates o).
Qed.

(** Programs that only read. *)
Definition reads_only (h : trace Resp) (o : Op) : Prop := mutates o = false.

Lemma wp_reads {A} (p : prog Resp A) h (Post : trace Resp → A → Prop) :
  wp p h reads_only Post →
  wp p h reads_only (λ h' a, Post h' a ∧ mutations h' = mutations h).
Proof.
  enough (Hgen : ∀ h0, mutations h0 = mutations h → wp p h0 reads_only Post →
                 wp p h0 reads_only (λ h' a, Post h' a ∧ mutations h' = mutations h)) by auto.
  induction p as [a|o k IH]; intros h0 Hm; [by split|].
  intros [Ho Hk]. split; [done|]. intros r. apply IH; [|apply Hk].
  rewrite mutations_snoc, Ho. lia.
Qed.

(** ** Replies of a history *)

(** The history contains the request [o] with the reply [r]. *)
Definition answered (h : trace Resp) (o : Op) (r : Resp o) : Prop := existT o r ∈ h.

Lemma answered_app_l h h' o r : answered h o r → answered (h ++ h') o r.
Proof. intros H. apply elem_of_app. by left. Qed.
Lemma answered_last h o (r : Resp o) : answered (h ++ [existT o r]) o r.
Proof. apply elem_of_app. right. by left. Qed.

(** Finds a reply in a history built by appending. *)
Ltac in_history :=
  repeat match goal with E : ?h = _ ++ _ |- _ => is_var h; subst h end;
  repeat first [done | apply answered_last | apply answered_app_l].
