(* ===== verification/Status.v ===== *)
(** * Tenant status updates

    [controller/src/status.rs]: identity checks, status patches with optimistic
    concurrency, finalizer patches, and the mutations that drive the
    catalog-creation protocol.  A closure given to [update_status] may read the
    clock each time it runs, so it is indexed by the attempts that remain. *)

From S2P Require Import Prelude RustStd Kube Errors Api Sanitize Readiness Effects Ops.

Open Scope Z_scope.

Definition identity_changed : ControllerError := OwnershipInvalid "Tenant identity changed".

(** [ResourceExt::name_any] of an object read from the server. *)
Definition name_any (t : Tenant) : string := unwrap_or "" (name (tenant_meta t)).
Definition finalizers_of (t : Tenant) : list string := unwrap_or [] (finalizers (tenant_meta t)).
Definition has_finalizer (t : Tenant) (f : string) : bool := any (λ v, v == f) (finalizers_of t).

Definition validate_identity (original current : Tenant) : result ControllerError (string * string) :=
  let! u := ok_or (filter_non_empty (uid (tenant_meta current))) identity_changed in
  let! rv := ok_or (filter_non_empty (resource_version (tenant_meta current))) identity_changed in
  if (Some u != uid (tenant_meta original))
     || (generation (tenant_meta current) != generation (tenant_meta original))
     || (tenant_spec current != tenant_spec original)
     || (deletion_timestamp (tenant_meta current) != deletion_timestamp (tenant_meta original))
  then Err identity_changed else Ok (u, rv).

Definition checked (u : string) (updated : Tenant) : result ControllerError unit :=
  if uid (tenant_meta updated) == Some u then Ok tt else Err identity_changed.

Definition patch_status (original current : Tenant) (status : TenantStatus) (clear_allocation : bool)
    : io ControllerError unit :=
  pure! (u, rv) <- validate_identity original current ;;
  try! updated <- perform_map Kube (perform (PatchTenantStatus (name_any current) {|
    sp_uid := u; sp_resource_version := rv; sp_status := status;
    sp_clear_allocation := clear_allocation |})) ;;
  Ret (checked u updated).

Definition set_finalizer (original current : Tenant) (finalizer : string) (present : bool)
    : io ControllerError bool :=
  pure! (u, rv) <- validate_identity original current ;;
  let found := has_finalizer current finalizer in
  if Bool.eqb found present then Ret (Ok false) else
  let updated_finalizers :=
    if present then finalizers_of current ++ [finalizer]
    else filter_list (λ v, v != finalizer) (finalizers_of current) in
  try! updated <- perform_map Kube (perform (PatchTenantFinalizers (name_any current) {|
    fp_uid := u; fp_resource_version := rv; fp_finalizers := updated_finalizers |})) ;;
  pure! _ <- checked u updated ;;
  Ret (Ok true).

(** Nothing to write: the status is unchanged. *)
Definition unchanged (current : Tenant) (status : TenantStatus) : bool :=
  (tenant_status current == Some status)
  || (is_none (tenant_status current) && (status == default_status)).

Definition Mutation := nat → TenantStatus → result ControllerError TenantStatus.

(** The new status an attempt computes from the Tenant it read. *)
Definition mutated (mutate : Mutation) (attempt : nat) (current : Tenant)
    : result ControllerError TenantStatus :=
  let! status := mutate attempt (unwrap_or default_status (tenant_status current)) in
  Ok (with_observed_generation status (generation (tenant_meta current))).

(** [retries] counts the attempts that remain after this one. *)
Fixpoint mutate_status (retries : nat) (original current : Tenant) (mutate : Mutation)
    (clear_allocation : bool) : io ControllerError unit :=
  pure! _ <- validate_identity original current ;;
  pure! status <- mutated mutate retries current ;;
  if unchanged current status then Ret (Ok tt) else
  do! outcome <- patch_status original current status clear_allocation ;;
  match outcome with
  | Ok tt => Ret (Ok tt)
  | Err (Kube (KubeApi 409 reason display)) =>
      match retries with
      | S retries' =>
          try! current <- perform_map Kube (perform (GetTenant (name_any original))) ;;
          mutate_status retries' original current mutate clear_allocation
      | O => Ret (Err (Kube (KubeApi 409 reason display)))
      end
  | Err error => Ret (Err error)
  end.

Definition update_status (tenant : Tenant) (mutate : Mutation) : io ControllerError unit :=
  mutate_status 4 tenant tenant mutate false.

Definition replace_status (original current : Tenant) (status : TenantStatus) (clear_allocation : bool)
    : io ControllerError unit :=
  if unchanged current status
     && (negb clear_allocation
         || (is_none (allocation status)
             && is_none_or (λ a, is_none (azure_network_allocation a)) (azure status)))
  then Ret (Ok tt)
  else patch_status original current status clear_allocation.

(** ** The catalog-creation protocol *)
Definition CATALOG_CREATE_CONDITION := "CatalogCreate".

Definition catalog_create_outcome (status : TenantStatus) : option string :=
  option_map cond_reason (condition_of status CATALOG_CREATE_CONDITION).

(** [catalog_runtime::database_namespace] *)
Definition database_namespace (tenant : string) : string := "tenant-db-" +:+ tenant.

Section Catalog.
Context `{SJ : SerdeJson} (clock : nat → Time).

(** The closure of [close_catalog_creation_without_intent]. *)
Definition close_mutation (tenant : Tenant) : Mutation := λ attempt status,
  if is_some (catalog_create_intent status)
     || negb (bool_decide (catalog_create_outcome status ∈ [None; Some "Closed"]))
  then Err identity_changed
  else Ok (set_condition (clock attempt) status tenant CATALOG_CREATE_CONDITION false
             "Closed" "Tenant deletion forbids catalog CREATE").

Definition close_catalog_creation_without_intent (tenant : Tenant) : io ControllerError unit :=
  if is_none (deletion_timestamp (tenant_meta tenant)) || negb (has_finalizer tenant FINALIZER)
  then Ret (Err identity_changed)
  else update_status tenant (close_mutation tenant).

Definition record_intent_mutation (tenant : Tenant) (intent : CatalogCreateIntent) : Mutation :=
  λ attempt status,
  if is_some_and (λ recorded, recorded != intent) (catalog_create_intent status)
  then Err (OwnershipInvalid "catalog creation intent identity changed")
  else if is_none (catalog_create_intent status)
  then Ok (set_condition (clock attempt) (with_intent status (Some intent)) tenant
             CATALOG_CREATE_CONDITION false "Prepared" "Catalog CREATE has not been issued")
  else Ok status.

Definition record_catalog_create_intent (tenant : Tenant) (intent : CatalogCreateIntent)
    : io ControllerError unit :=
  pure! u <- ok_or (uid (tenant_meta tenant)) identity_changed ;;
  if is_some (deletion_timestamp (tenant_meta tenant))
     || negb (has_finalizer tenant FINALIZER)
     || (intent_tenant_uid intent != u)
     || (intent_namespace intent != database_namespace (name_any tenant))
     || (intent_name intent != name_any tenant)
  then Ret (Err identity_changed)
  else update_status tenant (record_intent_mutation tenant intent).

Definition outcome_mutation (tenant : Tenant) (intent : CatalogCreateIntent) (from to : string)
    : Mutation := λ attempt status,
  if (catalog_create_intent status != Some intent) || (catalog_create_outcome status != Some from)
  then Err identity_changed
  else Ok (set_condition (clock attempt) status tenant CATALOG_CREATE_CONDITION
             (to == "Observed") to "Catalog CREATE outcome").

Definition set_catalog_create_outcome (tenant : Tenant) (intent : CatalogCreateIntent)
    (from to : string) : io ControllerError unit :=
  if (and_then catalog_create_intent (tenant_status tenant) != Some intent)
     || negb (has_finalizer tenant FINALIZER)
     || (bool_decide (to ∈ ["Unknown"; "Preparing"; "Prepared"])
         && is_some (deletion_timestamp (tenant_meta tenant)))
  then Ret (Err identity_changed)
  else update_status tenant (outcome_mutation tenant intent from to).

Definition namespaces_mutation (tenant : Tenant) (intent : CatalogCreateIntent)
    (namespace_uid : string) (storage_uid : option string) : Mutation := λ attempt status,
  if (catalog_create_intent status != Some intent)
     || (catalog_create_outcome status != Some "Preparing")
  then Err identity_changed
  else
    let capability := unwrap_or default_capability (database_capability status) in
    if non_empty (cap_catalog_uid capability)
       || (non_empty (cap_namespace_uid capability) && (cap_namespace_uid capability != namespace_uid))
       || (is_some (cap_storage_namespace_uid capability)
           && (cap_storage_namespace_uid capability != storage_uid))
    then Err identity_changed
    else
      let status := with_capability status (Some {|
        cap_available := false; cap_reason := "CatalogNotReady";
        cap_namespace := intent_namespace intent; cap_namespace_uid := namespace_uid;
        cap_catalog_uid := cap_catalog_uid capability;
        cap_storage_namespace_uid := storage_uid |}) in
      Ok (set_condition (clock attempt) status tenant CATALOG_CREATE_CONDITION false
            "Namespaced" "Catalog namespace identities persisted before CREATE").

Definition record_catalog_namespaces (tenant : Tenant) (intent : CatalogCreateIntent)
    (namespace_uid : string) (storage_uid : option string) : io ControllerError unit :=
  update_status tenant (namespaces_mutation tenant intent namespace_uid storage_uid).
End Catalog.

(** ** Optimistic concurrency *)

(** The Tenant a history last read, [original] if it read none. *)
Definition tenant_read (e : event Resp) : option Tenant :=
  match e with
  | existT o r =>
      match o return Resp o → option Tenant with
      | GetTenant _ => λ r, match r with Ok t => Some t | Err _ => None end
      | _ => λ _, None
      end r
  end.

Definition latest (original : Tenant) (h : trace Resp) : Tenant :=
  fold_left (λ t e, unwrap_or t (tenant_read e)) h original.

Lemma latest_snoc original h e : latest original (h ++ [e]) = unwrap_or (latest original h) (tenant_read e).
Proof. unfold latest. by rewrite fold_left_app. Qed.

(** A patch computed from [current]: it carries the UID and version [current]
    was read with, under the identity of [original]. *)
Definition patch_from (original current : Tenant) (mutate : Mutation) (clear : bool)
    (nm : string) (p : StatusPatch) : Prop :=
  nm = name_any current ∧
  validate_identity original current = Ok (sp_uid p, sp_resource_version p) ∧
  (∃ attempt, mutated mutate attempt current = Ok (sp_status p)) ∧
  unchanged current (sp_status p) = false ∧ sp_clear_allocation p = clear.

Definition update_request (original : Tenant) (start : Tenant) (mutate : Mutation) (clear : bool)
    (h : trace Resp) (o : Op) : Prop :=
  match o with
  | GetTenant nm => nm = name_any original
  | PatchTenantStatus nm p => patch_from original (latest start h) mutate clear nm p
  | _ => False
  end.

(** How an update can end well: there was nothing to write, or the last request
    was a patch the server applied to the object of that UID. *)
Definition update_reply (original start : Tenant) (mutate : Mutation) (h : trace Resp)
    (r : result ControllerError unit) : Prop :=
  r = Ok tt →
  (∃ attempt status, mutated mutate attempt (latest start h) = Ok status ∧
     unchanged (latest start h) status = true) ∨
  ∃ h0 nm p updated, h = h0 ++ [existT (PatchTenantStatus nm p) (Ok updated)] ∧
    uid (tenant_meta updated) = Some (sp_uid p).

#[local] Arguments wp : simpl never.

Lemma wp_patch_status original current start mutate clear attempt status (h : trace Resp) :
  latest start h = current →
  mutated mutate attempt current = Ok status → unchanged current status = false →
  wp (patch_status original current status clear) h (update_request original start mutate clear)
     (λ h' r, (length h' ≤ S (length h))%nat ∧
        (∀ e, r = Err e → latest start h' = current) ∧
        (r = Ok tt → ∃ h0 nm p updated, h' = h0 ++ [existT (PatchTenantStatus nm p) (Ok updated)] ∧
           uid (tenant_meta updated) = Some (sp_uid p))).
Proof.
  intros Hlat Hm Hu. unfold patch_status.
  destruct (validate_identity original current) as [[u rv]|e] eqn:Hv; [|split_and!; [lia|done|done]].
  request.
  { unfold update_request, patch_from. rewrite Hlat. split_and!; [done..| |done|done]. by exists attempt. }
  assert (latest start h0 = current) as Hlat'.
  { subst h0. rewrite latest_snoc. done. }
  destruct reply as [updated|e]; cbn [map_err]; [|split_and!; [lia|done|done]].
  split_and!; [lia|done|]. unfold checked. intros Hc. case_bool_decide; [|done].
  eexists _, _, _, updated. split; [exact Eh|done].
Qed.

Lemma wp_mutate_status retries original current mutate clear (h : trace Resp) start :
  latest start h = current →
  wp (mutate_status retries original current mutate clear) h
     (update_request original start mutate clear)
     (λ h' r, (length h' ≤ length h + (2 * retries + 1))%nat ∧ update_reply original start mutate h' r).
Proof.
  revert current h. induction retries as [|retries IH]; intros current h Hlat; cbn [mutate_status];
    (destruct (validate_identity original current) as [[u rv]|e]; [|split; [lia|done]]);
    (destruct (mutated mutate _ current) as [status|e] eqn:Hm; [|split; [lia|done]]);
    (destruct (unchanged current status) eqn:Hu;
      [split; [lia|]; intros _; left; rewrite Hlat; eauto|]);
    apply wp_bind; (eapply wp_mono; [done| |by eapply wp_patch_status]); simpl;
    intros h1 r (Hl & Hlat1 & Hok); destruct r as [[]|e];
    try (split; [lia|]; intros _; right; by apply Hok).
  - assert (wp (Ret (Err e)) h1 (update_request original start mutate clear)
      (λ h' r, (length h' ≤ length h + 1)%nat ∧ update_reply original start mutate h' r)) as Hdone
      by (split; [lia|done]).
    destruct e as [[code reason d|]| | | | | | | |]; try exact Hdone.
    destruct code as [|p|]; try exact Hdone. by repeat (destruct p as [p|p|]; try exact Hdone).
  - assert (Hdone : wp (Ret (Err e)) h1 (update_request original start mutate clear)
      (λ h' r, (length h' ≤ length h + (2 * S retries + 1))%nat ∧ update_reply original start mutate h' r))
      by (split; [lia|done]).
    specialize (Hlat1 e eq_refl).
    destruct e as [[code reason d|]| | | | | | | |]; try exact Hdone.
    destruct code as [|p|]; try exact Hdone.
    repeat (destruct p as [p|p|]; try exact Hdone).
    request; [done|]. destruct reply as [t|e]; cbn [map_err]; [|split; [lia|done]].
    eapply wp_mono; [done| |apply IH].
    + simpl. intros h2 r [Hl2 Hr]. split; [lia|done].
    + subst h0. by rewrite latest_snoc.
Qed.

Lemma validate_identity_Ok original current u rv :
  validate_identity original current = Ok (u, rv) ↔
  u ≠ "" ∧ rv ≠ "" ∧ uid (tenant_meta current) = Some u ∧ uid (tenant_meta original) = Some u ∧
  resource_version (tenant_meta current) = Some rv ∧
  generation (tenant_meta current) = generation (tenant_meta original) ∧
  tenant_spec current = tenant_spec original ∧
  deletion_timestamp (tenant_meta current) = deletion_timestamp (tenant_meta original).
Proof.
  unfold validate_identity. split.
  - intros H. run H.
    repeat match goal with H : ok_or (filter_non_empty ?o) _ = Ok _ |- _ =>
      destruct (filter_non_empty o) eqn:?; [|done]; cbn [ok_or] in H; simp_eqs end.
    repeat match goal with H : filter_non_empty _ = Some _ |- _ =>
      apply filter_non_empty_Some in H as [??] end.
    done.
  - intros (Hu & Hrv & Ecu & Eou & Ecr & Hg & Hs & Hd).
    rewrite (proj2 (filter_non_empty_Some _ u)) by done.
    rewrite (proj2 (filter_non_empty_Some _ rv)) by done. cbn [ok_or].
    by rewrite Eou, Hg, Hs, Hd, !bool_decide_eq_true_2.
Qed.

(** Status updates use optimistic concurrency.  Whatever the server
    answers, [update_status] sends at most five patches and four reads; every
    patch carries the Tenant's UID together with the resource version of the
    Tenant it last read, whose identity, generation, spec and deletion mark are
    those of the Tenant being reconciled, and writes exactly the mutation of
    that Tenant's status; it succeeds only when there is nothing to change or
    the server confirmed the patch for the same UID. *)
Theorem update_status_optimistic tenant mutate env :
  let '(h, r) := run env (update_status tenant mutate) [] in
  (length h ≤ 9)%nat ∧ update_reply tenant tenant mutate h r ∧
  issued (update_request tenant tenant mutate false) [] h.
Proof.
  pose proof (wp_run env _ [] _ _ (wp_mutate_status 4 tenant tenant mutate false [] tenant eq_refl)) as H.
  unfold update_status. destruct (run env _ []) as [h r]. destruct H as [[Hl Hr] Hi].
  split_and!; [simpl in Hl; lia|done|done].
Qed.

(** The request [set_finalizer] may send. *)
Definition finalizer_request (original current : Tenant) (finalizer : string) (present : bool)
    (h : trace Resp) (o : Op) : Prop :=
  match o with
  | PatchTenantFinalizers nm p =>
      nm = name_any current ∧
      validate_identity original current = Ok (fp_uid p, fp_resource_version p) ∧
      (finalizer ∈ finalizers_of current ↔ present = false) ∧
      (finalizer ∈ fp_finalizers p ↔ present = true) ∧
      filter_list (λ v, v != finalizer) (fp_finalizers p)
        = filter_list (λ v, v != finalizer) (finalizers_of current)
  | _ => False
  end.

Lemma has_finalizer_iff t f : has_finalizer t f = true ↔ f ∈ finalizers_of t.
Proof.
  unfold has_finalizer. rewrite any_true. setoid_rewrite bool_decide_eq_true.
  split; [intros (x & Hx & ->); done|eauto].
Qed.

Lemma wp_set_finalizer original current finalizer present (h : trace Resp) :
  wp (set_finalizer original current finalizer present) h
    (finalizer_request original current finalizer present)
    (λ h' r, (h' = h ∧ (r = Ok false → finalizer ∈ finalizers_of current ↔ present = true) ∧ r ≠ Ok true) ∨
      ∃ nm p reply, h' = h ++ [existT (PatchTenantFinalizers nm p) reply] ∧ r ≠ Ok false ∧
        (r = Ok true → ∃ updated, reply = Ok updated ∧ uid (tenant_meta updated) = uid (tenant_meta original))).
Proof.
  unfold set_finalizer.
  destruct (validate_identity original current) as [[u rv]|e] eqn:Hv; [|by left].
  pose proof (has_finalizer_iff current finalizer) as Hiff.
  destruct (Bool.eqb _ present) eqn:Heq.
  { apply eqb_prop in Heq. subst present. by left. }
  apply eqb_false_iff in Heq. request.
  - split_and!; [done..| | |].
    + destruct (has_finalizer current finalizer), present; naive_solver.
    + simpl. destruct present.
      * split; [done|]. intros _. apply elem_of_app. right. by left.
      * rewrite elem_of_filter_list. split; [|done]. intros [Hne _]. bool_hyp. done.
    + simpl. destruct present; [|apply filter_list_idem].
      rewrite filter_list_app. simpl. rewrite bool_decide_eq_true_2 by done. simpl. apply app_nil_r.
  - destruct reply as [updated|e]; cbn [map_err];
      [|right; eexists _, _, _; split_and!; [exact Eh|done|done]].
    unfold checked. case_bool_decide as Hu;
      (right; eexists _, _, _; split_and!; [exact Eh|done|]); [|done].
    intros _. exists updated. split; [done|].
    apply validate_identity_Ok in Hv as (_ & _ & _ & E & _). congruence.
Qed.

(** [set_finalizer] changes exactly one finalizer: it sends at most one
    patch, and only when the finalizer is not already in the requested state;
    the patch is bound to the Tenant's UID and current version, adds or removes
    that finalizer and keeps every other one in order; it reports a change only
    after the server confirmed the same UID. *)
Theorem set_finalizer_exact original current finalizer present env :
  let '(h, r) := run env (set_finalizer original current finalizer present) [] in
  issued (finalizer_request original current finalizer present) [] h ∧ (length h ≤ 1)%nat ∧
  (r = Ok false → h = [] ∧ (finalizer ∈ finalizers_of current ↔ present = true)) ∧
  (r = Ok true → ∃ nm p updated, h = [existT (PatchTenantFinalizers nm p) (Ok updated)] ∧
     uid (tenant_meta updated) = uid (tenant_meta original)).
Proof.
  pose proof (wp_run env _ _ _ _ (wp_set_finalizer original current finalizer present [])) as Hwp.
  destruct (run env _ []) as [h r]. destruct Hwp as [Hpost Hi]. split; [done|].
  destruct Hpost as [(-> & Hf & Ht)|(nm & p & reply & -> & Hf & Ht)].
  - split_and!; [simpl; lia|naive_solver|done].
  - split_and!; [simpl; lia|done|]. intros Hr. destruct (Ht Hr) as (updated & -> & Hu). eauto.
Qed.

(** The identity check accepts exactly the same Tenant: a non-empty UID
    equal to the one being reconciled, a version, and unchanged generation,
    spec and deletion mark; so no write crosses a re-created or re-specified
    Tenant. *)
Theorem validate_identity_exact original current u rv :
  validate_identity original current = Ok (u, rv) ↔
  u ≠ "" ∧ rv ≠ "" ∧ uid (tenant_meta current) = Some u ∧ uid (tenant_meta original) = Some u ∧
  resource_version (tenant_meta current) = Some rv ∧
  generation (tenant_meta current) = generation (tenant_meta original) ∧
  tenant_spec current = tenant_spec original ∧
  deletion_timestamp (tenant_meta current) = deletion_timestamp (tenant_meta original).
Proof. apply validate_identity_Ok. Qed.
