(* ===== verification/AllocationRun.v ===== *)
(** * Lease claims: the operations

    [controller/src/allocation.rs], the asynchronous part: [allocate] and
    [release] as programs over API requests.  The properties hold against any
    API server ([wp]); [AllocationSystem] puts any number of allocators and
    releasers side by side against a server with the documented behaviour. *)

From S2P Require Import Prelude RustStd Externals Kube Api Ownership Foundation Effects Ops Allocation.

Open Scope Z_scope.

Definition already_exists (error : KubeError) : bool :=
  match error with
  | KubeApi code reason _ => (code =? 409) && (reason == "AlreadyExists")
  | KubeOther _ => false
  end.

Section Operations.
Context `{SO : Sha256Ops, NO : Ipv4NetOps}.

(** The branch of [allocate] after a successful create. *)
Definition confirm_created (cx : ClaimContext) (slot : AllocationSlot) (created : Lease)
    : io AllocationError Claim :=
  pure! verified <- claim cx slot created ;;
  try! fresh <- perform_map AllocApi (perform (ListLeases (cx_namespace cx))) ;;
  pure! decision <- decide_claim cx fresh None ;;
  match decision with
  | Existing observed =>
      if claim_lease_uid observed == claim_lease_uid verified
      then Ret (Ok observed)
      else Ret (Err (ClaimError (lease_name (as_slot_id slot))))
  | Create _ => Ret (Err (ClaimError (lease_name (as_slot_id slot))))
  end.

(** The branch of [allocate] after a create that found the name taken. *)
Definition check_conflict (cx : ClaimContext) (slot : AllocationSlot) : io AllocationError unit :=
  try! live <- perform_map AllocApi
                 (perform (GetLease (cx_namespace cx) (lease_name (as_slot_id slot)))) ;;
  match live with
  | Some lease =>
      if raw_uid_is (cx_tenant_uid cx) lease
      then pure! _ <- claim cx slot lease ;; Ret (Ok tt)
      else Ret (Ok tt)
  | None => Ret (Ok tt)
  end.

(** The bounded loop of [allocate]. *)
Fixpoint allocate_loop (attempts : nat) (cx : ClaimContext) (bound : option AllocationStatus)
    : io AllocationError Claim :=
  match attempts with
  | O => Ret (Err Exhausted)
  | S attempts' =>
      try! inventory <- perform_map AllocApi (perform (ListLeases (cx_namespace cx))) ;;
      pure! decision <- decide_claim cx inventory bound ;;
      match decision with
      | Existing found =>
          try! live <- perform_map AllocApi
            (perform (GetLease (cx_namespace cx) (lease_name (as_slot_id (claim_slot found))))) ;;
          pure! live <- ok_or live Missing ;;
          pure! verified <- claim cx (claim_slot found) live ;;
          Ret (Ok verified)
      | Create slot =>
          do! outcome <- perform (CreateLease (cx_namespace cx) (new_lease cx slot)) ;;
          match outcome with
          | Ok created => confirm_created cx slot created
          | Err error =>
              if already_exists error then
                try! _ <- check_conflict cx slot ;;
                allocate_loop attempts' cx bound
              else Ret (Err (AllocApi error))
          end
      end
  end.

Definition allocate (cx : ClaimContext) (bound : option AllocationStatus)
    : io AllocationError Claim :=
  pure! _ <- valid_context cx ;;
  allocate_loop (S (length (cx_slots cx))) cx bound.

Definition release (cx : ClaimContext) (bound : option AllocationStatus)
    (all_old_residue_absent : bool) : io AllocationError ReleaseDecision :=
  pure! _ <- valid_identity cx ;;
  try! inventory <- perform_map AllocApi (perform (ListLeases (cx_namespace cx))) ;;
  pure! decision <- decide_release cx inventory bound all_old_residue_absent ;;
  match decision with
  | ReleaseDelete intent =>
      try! live <- perform_map AllocApi
                     (perform (GetLease (cx_namespace cx) (di_name intent))) ;;
      match live with
      | None => if all_old_residue_absent then Ret (Ok ReleasePending) else Ret (Err Missing)
      | Some live =>
          pure! fresh <- decide_release cx [live] bound all_old_residue_absent ;;
          match fresh with
          | ReleaseDelete fresh =>
              if di_uid fresh != di_uid intent then Ret (Err (ClaimError (di_name intent))) else
              try! _ <- perform_map AllocApi
                (perform (DeleteLease (cx_namespace cx) (di_name fresh)
                  (exact_delete (di_uid fresh) (di_resource_version fresh)))) ;;
              Ret (Ok ReleasePending)
          | _ => Ret (Ok ReleasePending)
          end
      end
  | other => Ret (Ok other)
  end.
End Operations.

(** ** Observations of a history *)

(** The Leases a reply shows. *)
Definition leases_of (e : event Resp) : list Lease :=
  match e with
  | existT o r =>
      match o return Resp o → list Lease with
      | ListLeases _ => λ r, match r with Ok ls => ls | Err _ => [] end
      | GetLease _ _ => λ r, match r with Ok (Some l) => [l] | _ => [] end
      | CreateLease _ _ => λ r, match r with Ok l => [l] | Err _ => [] end
      | _ => λ _, []
      end r
  end.

(** The inventory a reply is. *)
Definition inventory_of (e : event Resp) : option (list Lease) :=
  match e with
  | existT o r =>
      match o return Resp o → option (list Lease) with
      | ListLeases _ => λ r, match r with Ok ls => Some ls | Err _ => None end
      | _ => λ _, None
      end r
  end.

Definition seen (h : trace Resp) (l : Lease) : Prop := ∃ e, e ∈ h ∧ l ∈ leases_of e.
Definition listed (h : trace Resp) (inv : list Lease) : Prop :=
  ∃ e, e ∈ h ∧ inventory_of e = Some inv.

Lemma seen_app_l h h' l : seen h l → seen (h ++ h') l.
Proof. intros (e & He & Hl). exists e. split; [apply elem_of_app; by left|done]. Qed.
Lemma seen_last h e l : l ∈ leases_of e → seen (h ++ [e]) l.
Proof. intros Hl. exists e. split; [apply elem_of_app; right; by left|done]. Qed.
Lemma listed_app_l h h' inv : listed h inv → listed (h ++ h') inv.
Proof. intros (e & He & Hl). exists e. split; [apply elem_of_app; by left|done]. Qed.
Lemma listed_last h e inv : inventory_of e = Some inv → listed (h ++ [e]) inv.
Proof. intros Hl. exists e. split; [apply elem_of_app; right; by left|done]. Qed.
Lemma listed_seen h inv l : listed h inv → l ∈ inv → seen h l.
Proof.
  intros (e & He & Hi) Hl. exists e. split; [done|]. destruct e as [[] r]; simpl in *; try done.
  destruct r; by simplify_eq.
Qed.
Lemma seen_snoc h e l : seen (h ++ [e]) l → seen h l ∨ l ∈ leases_of e.
Proof.
  intros (e' & He & Hl). apply elem_of_app in He as [He|He]; [left; by exists e'|].
  apply list_elem_of_singleton in He as ->. by right.
Qed.
Lemma listed_snoc h e inv : listed (h ++ [e]) inv → listed h inv ∨ inventory_of e = Some inv.
Proof.
  intros (e' & He & Hl). apply elem_of_app in He as [He|He]; [left; by exists e'|].
  apply list_elem_of_singleton in He as ->. by right.
Qed.

#[local] Arguments wp : simpl never.

(** ** Safety against any server *)
Section Safety.
Context `{SO : Sha256Ops, NO : Ipv4NetOps}.

Definition claim_intent (c : Claim) : DeleteIntent := {|
  di_name := lease_name (as_slot_id (claim_slot c)); di_uid := claim_lease_uid c;
  di_resource_version := claim_resource_version c |}.

(** What a claim returned by [allocate] is backed by: an inventory in which
    one Lease carries the Tenant's UID, and an observed Lease that is exactly
    the Tenant's claim on the slot, with the UID and version reported. *)
Definition backed (cx : ClaimContext) (bound : option AllocationStatus) (h : trace Resp)
    (c : Claim) : Prop :=
  claim_slot c ∈ cx_slots cx ∧ (∀ b, bound = Some b → claim_status c = b) ∧
  (∃ live, seen h live ∧ exact_claim cx (claim_status c) live (claim_intent c)) ∧
  ∃ inv l i, listed h inv ∧ l ∈ inv ∧ exact_claim cx (claim_status c) l i ∧
    ∀ l', l' ∈ inv → carries_uid cx l' → l' = l.

(** Requests an allocator may send: reads of its namespace, and the creation
    of its own Lease for a slot the last inventory showed free. *)
Definition alloc_request (cx : ClaimContext) (bound : option AllocationStatus)
    (h : trace Resp) (o : Op) : Prop :=
  match o with
  | ListLeases ns | GetLease ns _ => ns = cx_namespace cx
  | CreateLease ns l =>
      ns = cx_namespace cx ∧
      ∃ slot inv e, list.last h = Some e ∧ inventory_of e = Some inv ∧ l = new_lease cx slot ∧
        claim_decision_sound cx inv bound (Create slot)
  | _ => False
  end.

Definition alloc_reply (cx : ClaimContext) (bound : option AllocationStatus) (budget : nat)
    (h0 h : trace Resp) (r : result AllocationError Claim) : Prop :=
  (length h ≤ length h0 + budget)%nat ∧ ∀ c, r = Ok c → backed cx bound h c.

Lemma existing_backed cx leases bound c h :
  claim_decision_sound cx leases bound (Existing c) → listed h leases →
  claim_slot c ∈ cx_slots cx ∧ (∀ b, bound = Some b → claim_status c = b) ∧
  ∃ l, l ∈ leases ∧ exact_claim cx (claim_status c) l (claim_intent c) ∧
    ∀ l', l' ∈ leases → carries_uid cx l' → l' = l.
Proof.
  intros (Hb & Hs & l & i & Hl & Hex & Hu & Hrv & Huniq) Hlist. split_and!; [done..|].
  exists l. split_and!; [done| |intros l' Hl' Hc; apply Huniq; [done|by left]].
  pose proof (exact_intent_name _ _ _ _ Hex) as Hn.
  unfold claim_intent. rewrite Hu, Hrv. unfold claim_status in *. simpl in Hn.
  destruct i; simpl in *. by subst.
Qed.

Lemma wp_confirm_created cx slot created h :
  wp (confirm_created cx slot created) h (alloc_request cx None)
     (λ h' r, (length h' ≤ S (length h))%nat ∧ ∀ c, r = Ok c → backed cx None h' c).
Proof.
  unfold confirm_created. destruct (claim cx slot created) as [v|]; [|split; [lia|done]].
  request; [done|]. destruct reply as [fresh|e]; cbn [map_err]; [|split; [lia|done]].
  assert (Hlist : listed h0 fresh) by (subst; by apply listed_last).
  destruct (decide_claim cx fresh None) as [[c|s]|e] eqn:Hd; [|split; [lia|done]..].
  destruct (_ == _); (split; [lia|]); intros c' [= <-]. apply decide_claim_facts in Hd.
  destruct (existing_backed _ _ _ _ _ Hd Hlist) as (Hs & Hb & l & Hl & Hex & Hu).
  split_and!; [done..| |by exists fresh, l, (claim_intent c)].
  exists l. split; [by eapply listed_seen|done].
Qed.

Lemma wp_check_conflict cx slot bound h :
  wp (check_conflict cx slot) h (alloc_request cx bound) (λ h' _, length h' = S (length h)).
Proof.
  unfold check_conflict. request; [done|]. destruct reply as [[l|]|e]; cbn [map_err]; [|done..].
  destruct (raw_uid_is _ _); [|done]. by destruct (claim cx slot l).
Qed.

Lemma wp_allocate_loop attempts cx bound h :
  wp (allocate_loop attempts cx bound) h (alloc_request cx bound)
     (alloc_reply cx bound (3 * attempts) h).
Proof.
  revert h. induction attempts as [|attempts IH]; intros h.
  { split; [lia|done]. }
  cbn [allocate_loop]. request; [done|]. destruct reply as [inv|e]; cbn [map_err]; [|split; [lia|done]].
  assert (Hlist : listed h0 inv) by (subst; by apply listed_last).
  destruct (decide_claim cx inv bound) as [[c|slot]|e] eqn:Hd; [| |split; [lia|done]];
    apply decide_claim_facts in Hd.
  - destruct (existing_backed _ _ _ _ h0 Hd Hlist) as (Hs & Hb & l & Hl & Hex & Hu).
    request; [done|]. destruct reply as [[live|]|e]; cbn [map_err ok_or]; [|split; [lia|done]..].
    destruct (claim cx (claim_slot c) live) as [v|] eqn:Hc; [|split; [lia|done]].
    split; [lia|]. intros c' [= <-]. apply claim_Ok in Hc as [Hslot Hlive].
    unfold backed, claim_status, claim_intent in *. rewrite Hslot in *. split_and!; [done..| |].
    + exists live. split; [subst; by apply seen_last; left|done].
    + exists inv, l. eexists. split_and!; [subst; by apply listed_app_l|done..].
  - assert (bound = None) as -> by apply Hd. request.
    { split; [done|]. exists slot, inv. eexists. subst. split_and!; [apply last_snoc|done..]. }
    destruct reply as [created|e].
    + eapply wp_mono; [done| |apply wp_confirm_created]. simpl.
      intros h3 r [Hl3 Hr]. split; [lia|done].
    + destruct (already_exists e); [|split; [lia|done]].
      apply wp_bind. eapply wp_mono; [done| |apply wp_check_conflict]. simpl.
      intros h3 r Hl3. destruct r as [[]|]; [|split; [lia|done]].
      eapply wp_mono; [done| |apply IH]. simpl. intros h4 r [Hl4 Hr]. split; [lia|done].
Qed.

Lemma wp_allocate cx bound h :
  wp (allocate cx bound) h (alloc_request cx bound)
     (alloc_reply cx bound (3 * S (length (cx_slots cx))) h).
Proof.
  unfold allocate. destruct (valid_context cx) as [[]|]; [|split; [lia|done]].
  apply wp_allocate_loop.
Qed.

(** Requests a releaser may send: reads of its namespace, and the deletion of
    one Lease it has seen, which is exactly its Tenant's claim, by that
    Lease's UID and version, and only once the residue is gone. *)
Definition release_request (cx : ClaimContext) (bound : option AllocationStatus)
    (residue_absent : bool) (h : trace Resp) (o : Op) : Prop :=
  match o with
  | ListLeases ns | GetLease ns _ => ns = cx_namespace cx
  | DeleteLease ns nm params =>
      ns = cx_namespace cx ∧ residue_absent = true ∧
      ∃ l a intent, seen h l ∧ exact_claim cx a l intent ∧ (∀ b, bound = Some b → a = b) ∧
        nm = di_name intent ∧ params = exact_delete (di_uid intent) (di_resource_version intent)
  | _ => False
  end.

Definition release_reply (cx : ClaimContext) (residue_absent : bool) (h0 h : trace Resp)
    (r : result AllocationError ReleaseDecision) : Prop :=
  (length h ≤ 3 + length h0)%nat ∧
  match r with
  | Ok (ReleaseDelete _) => False
  | Ok ReleaseComplete =>
      residue_absent = true ∧ ∃ inv, listed h inv ∧ ∀ l, l ∈ inv → ¬ carries_uid cx l
  | _ => True
  end.

Lemma wp_release cx bound residue h :
  wp (release cx bound residue) h (release_request cx bound residue) (release_reply cx residue h).
Proof.
  unfold release. destruct (valid_identity cx) as [[]|]; [|split; [lia|done]].
  request; [done|]. destruct reply as [inv|e]; cbn [map_err]; [|split; [lia|done]].
  assert (Hlist : listed h0 inv) by (subst; by apply listed_last).
  destruct (decide_release cx inv bound residue) as [[intent| |]|e] eqn:Hd;
    [|split; [lia|done]| |split; [lia|done]]; apply decide_release_facts in Hd.
  2:{ split; [lia|]. destruct Hd as [-> Hd]. eauto. }
  request; [done|]. destruct reply as [[live|]|e]; cbn [map_err];
    [|destruct residue; split; (lia || done)|split; [lia|done]].
  destruct (decide_release cx [live] bound residue) as [[fresh| |]|e] eqn:Hf;
    try (split; [lia|done]). apply decide_release_facts in Hf.
  destruct (_ != _); [split; [lia|done]|]. request.
  - destruct Hf as (-> & l & a & Hl & Hex & Hb & _). apply list_elem_of_singleton in Hl as ->.
    split_and!; [done..|]. exists live, a, fresh.
    split_and!; [subst; by apply seen_last; left|done..].
  - destruct reply; cbn [map_err]; (split; [lia|done]).
Qed.
End Safety.

(** A release sends at most one mutating request, none if it completes. *)
Lemma wp_release_mutations `{SO : Sha256Ops, NO : Ipv4NetOps} cx bound residue h :
  wp (release cx bound residue) h (λ _ _, True)
     (λ h' r, (mutations h' ≤ mutations h + 1)%nat ∧ (r = Ok ReleaseComplete → mutations h' = mutations h)).
Proof.
  assert (Hsame : ∀ h' (r : result AllocationError ReleaseDecision), mutations h' = mutations h →
    wp (Resp := Resp) (Ret r) h' (λ _ _, True)
      (λ h' r, (mutations h' ≤ mutations h + 1)%nat ∧
               (r = Ok ReleaseComplete → mutations h' = mutations h)))
    by (intros; split; [lia|done]).
  unfold release. destruct (valid_identity cx) as [[]|]; [|by apply Hsame].
  request; [done|]. assert (Hm0 : mutations h0 = mutations h) by (subst; rewrite mutations_snoc; simpl; lia).
  destruct reply as [inv|e]; cbn [map_err]; [|by apply Hsame].
  destruct (decide_release cx inv bound residue) as [[intent| |]|e]; try by apply Hsame.
  request; [done|]. assert (Hm1 : mutations h1 = mutations h)
    by (subst h1; rewrite mutations_snoc; simpl; lia).
  destruct reply as [[live|]|e]; cbn [map_err]; [|destruct residue; by apply Hsame|by apply Hsame].
  destruct (decide_release cx [live] bound residue) as [[fresh| |]|e]; try by apply Hsame.
  destruct (_ != _); [by apply Hsame|]. request; [done|].
  assert (mutations h2 = mutations h + 1)%nat by (subst h2; rewrite mutations_snoc; simpl; lia).
  destruct reply; cbn [map_err]; (split; [lia|done]).
Qed.

Section Theorems.
Context `{SO : Sha256Ops, NO : Ipv4NetOps}.

(** Whatever the API server answers, [allocate] only reads its namespace
    and creates its own Lease for a slot its last inventory showed free and
    unclaimed; it sends at most three requests per slot of the pool plus
    three; and a claim it returns is a slot of the pool that agrees with the
    recorded allocation and is backed by a Lease it saw that is exactly its
    own, in an inventory where no other Lease carried the Tenant's UID. *)
Theorem allocate_safe cx bound env :
  let '(h, r) := run env (allocate cx bound) [] in
  alloc_reply cx bound (3 * S (length (cx_slots cx))) [] h r ∧
  issued (alloc_request cx bound) [] h.
Proof. apply wp_run, wp_allocate. Qed.

(** Whatever the API server answers, [release] sends at most three
    requests, only ever deletes a Lease it saw that is exactly its Tenant's
    claim (and the recorded allocation), by that Lease's UID and resource
    version and only after the residue was proved absent; it reports
    completion only on an inventory where no Lease carries the Tenant's UID. *)
Theorem release_safe cx bound residue_absent env :
  let '(h, r) := run env (release cx bound residue_absent) [] in
  release_reply cx residue_absent [] h r ∧
  issued (release_request cx bound residue_absent) [] h.
Proof. apply wp_run, wp_release. Qed.
End Theorems.
