(* ===== verification/Finalize.v ===== *)
(** * Tenant finalization

    [controller/src/finalize.rs]: the teardown of a local Tenant.  Every
    reconciliation first observes and validates everything ([observe]: Leases,
    namespace, management roots, kubeconfig Secret, provider descendants,
    containers, volume) and then performs at most one step of the teardown
    ([teardown]).  The two functions together are [Finalizer::reconcile]. *)

From S2P Require Import Prelude RustStd Externals Kube Errors Api Management Ownership Foundation.
From S2P Require Import Sanitize Readiness Docker Effects Ops Status Allocation AllocationRun.

Open Scope Z_scope.

Definition FOUNDATION_NAMESPACE := "tenant-system".
Definition RETRY : Z := 5.

Definition invalid_ownership (message : string) : ControllerError := OwnershipInvalid message.

Definition docker_error (error : DockerError) : ControllerError :=
  match error with
  | DockerIdentity _ => invalid_ownership (docker_display error)
  | _ => Task (docker_display error)
  end.

Definition pending : Action := ActionRequeue RETRY.

Definition ownership {A} (r : result OwnershipError A) : result ControllerError A :=
  map_err (λ e, invalid_ownership (ownership_display e)) r.

Definition allocation_result {A} (r : result AllocationError A) : result ControllerError A :=
  map_err (λ e, invalid_ownership (allocation_display e)) r.

Definition required_uid (meta : ObjectMeta) : result ControllerError string :=
  ok_or (filter_non_empty (uid meta)) (invalid_ownership "missing resource UID").
Definition required_version (meta : ObjectMeta) : result ControllerError string :=
  ok_or (filter_non_empty (resource_version meta)) (invalid_ownership "missing resourceVersion").

Definition dynamic_get (resource : ManagementResource) (ns nm : string)
    : io ControllerError (option DynamicObject) :=
  perform_map Kube (perform (GetDynamic resource ns nm)).

(** [item.types.get_or_insert(...)] on every item. *)
Definition with_types (resource : ManagementResource) (item : DynamicObject) : DynamicObject := {|
  dyn_types := Some (unwrap_or {| tm_api_version := mr_api_version resource; tm_kind := mr_kind resource |}
                       (dyn_types item));
  dyn_meta := dyn_meta item; dyn_data := dyn_data item |}.

Definition dynamic_list (resource : ManagementResource) (ns : string)
    : io ControllerError (list DynamicObject) :=
  try! items <- perform_map Kube (perform (ListDynamic resource ns)) ;;
  Ret (Ok (map (with_types resource) items)).

Section Finalizer.
Context `{SO : Sha256Ops, NO : Ipv4NetOps, SP : SpecJson}.
Context (supported_version : string) (runtime : RuntimeFoundation).

(** What the teardown of one Tenant is bound to. *)
Record Teardown := {
  td_name : string;
  td_foundation : DeletionFoundation;
  td_identity : Identity;
  td_claims : ClaimContext;
}.

Definition prepare (tenant : Tenant) : result ControllerError Teardown :=
  let! nm := ok_or (name (tenant_meta tenant)) (invalid_ownership "Tenant name is missing") in
  let! tenant_uid := required_uid (tenant_meta tenant) in
  if is_none (deletion_timestamp (tenant_meta tenant))
  then Err (invalid_ownership "Tenant is not deleting") else
  let! spec := map_err (λ e, InvalidInput (spec_error_display e))
                 (canonical_spec nm (tenant_spec tenant) supported_version) in
  let! _ := map_err (λ e, invalid_ownership (spec_error_display e))
              (validate_provider_status spec (tenant_status tenant)) in
  if provider spec != SpecLocal
  then Err (invalid_ownership "controller finalizer cannot run for an unsupported Azure provider") else
  let hash := spec_hash spec in
  let recorded_hash := and_then foundation_hash (tenant_status tenant) in
  let! foundation := map_err (λ e, InvalidInput (foundation_display e)) (deletion runtime recorded_hash) in
  let identity := {|
    id_tenant_name := nm; id_tenant_uid := tenant_uid; id_spec_hash := hash;
    id_foundation_hash := rf_hash runtime;
    id_ownership_label := di_ownership_label (df_inputs foundation);
    id_lab_prefix := di_lab_prefix (df_inputs foundation) |} in
  Ok {| td_name := nm; td_foundation := foundation; td_identity := identity;
        td_claims := {|
          cx_namespace := FOUNDATION_NAMESPACE; cx_ownership_label := id_ownership_label identity;
          cx_lab_prefix := id_lab_prefix identity; cx_tenant_name := nm; cx_tenant_uid := tenant_uid;
          cx_spec_hash := hash; cx_foundation_hash := rf_hash runtime; cx_slots := [] |} |}.

(** ** Observation *)
Definition check_namespace (td : Teardown) (ns : option Namespace) : result ControllerError unit :=
  match ns with
  | None => Ok tt
  | Some ns =>
      let! _ := ownership (validate_root_ownership (ns_meta ns) (td_identity td) "namespace") in
      if is_some_and (λ owners : list OwnerReference, match owners with [] => false | _ => true end)
           (owner_references (ns_meta ns))
      then Err (invalid_ownership "Namespace has a provider owner") else Ok tt
  end.

(** The checks on one observed root. *)
Definition check_root (tenant : Tenant) (td : Teardown) (root : ManagementResource)
    (expected : string) (object : option DynamicObject) : result ControllerError unit :=
  match object with
  | None => Ok tt
  | Some object =>
      if (name (dyn_meta object) != Some expected)
         || (namespace (dyn_meta object) != Some (td_name td))
         || is_none_or (λ types, (tm_kind types != mr_kind root)
                                 || (tm_api_version types != mr_api_version root)) (dyn_types object)
      then Err (invalid_ownership "management root identity changed during GET") else
      let! _ := ownership (validate_root_ownership (dyn_meta object) (td_identity td) (mr_role root)) in
      if mr_kind root == "Cluster"
      then ownership (validate_cluster_uid tenant (dyn_meta object)) else Ok tt
  end.

Fixpoint observe_roots (tenant : Tenant) (td : Teardown) (kinds : list ManagementResource)
    : io ControllerError (list (option DynamicObject)) :=
  match kinds with
  | [] => Ret (Ok [])
  | root :: rest =>
      pure! expected <- ok_or (expected_name root (td_name td))
                          (invalid_ownership "management root has no declared name") ;;
      try! object <- dynamic_get root (td_name td) expected ;;
      pure! _ <- check_root tenant td root expected object ;;
      try! objects <- observe_roots tenant td rest ;;
      Ret (Ok (object :: objects))
  end.

Definition kind_index (k : string) : option nat := position (λ r, mr_kind r == k) roots.
(** [root_kinds.iter().position(..).unwrap()]; see [cluster_index_found]. *)
Definition cluster_index : nat := unwrap_or O (kind_index "Cluster").
Definition root_of (objects : list (option DynamicObject)) (k : string) : option DynamicObject :=
  and_then (λ i, and_then id (objects !! i)) (kind_index k).

Definition recorded_cluster (tenant : Tenant) : option string :=
  filter_non_empty (and_then cluster_uid (tenant_status tenant)).

(** The provider-owner check of the root at an index. *)
Definition check_owner (tenant : Tenant) (td : Teardown) (inventory : list DynamicObject)
    (entry : nat * option DynamicObject) : result ControllerError unit :=
  match entry.2 with
  | None => Ok tt
  | Some object =>
      ownership
        (if (entry.1 =? cluster_index)%nat || is_none (recorded_cluster tenant)
         then validate_provider_owner object (td_name td) false inventory
         else validate_provider_owner_for_deletion object tenant inventory)
  end.

Definition check_secret (secret : option Secret) (objects : list (option DynamicObject))
    : result ControllerError unit :=
  match secret with
  | None => Ok tt
  | Some secret =>
      ownership (validate_kubeconfig_secret_for_deletion secret (root_of objects "KamajiControlPlane"))
  end.

Definition descendant_kinds : list ManagementResource :=
  filter_list (λ r, mr_role r != "provider") descendants.

Fixpoint observe_descendants (td : Teardown) (kinds : list ManagementResource)
    : io ControllerError (list (list DynamicObject)) :=
  match kinds with
  | [] => Ret (Ok [])
  | k :: rest =>
      try! observed <- dynamic_list k (td_name td) ;;
      try! groups <- observe_descendants td rest ;;
      Ret (Ok (observed :: groups))
  end.

Definition unique_uids (inventory : list DynamicObject) : result ControllerError (gset string) :=
  try_fold (λ seen object,
    let! u := required_uid (dyn_meta object) in
    if bool_decide (u ∈ seen) then Err (invalid_ownership "duplicate management inventory UID")
    else Ok ({[u]} ∪ seen)) ∅ inventory.

Definition check_descendant (td : Teardown) (objects : list (option DynamicObject))
    (inventory : list DynamicObject) (machines : gset string)
    (entry : ManagementResource * DynamicObject) : result ControllerError (gset string) :=
  let '(k, object) := entry in
  if (namespace (dyn_meta object) != Some (td_name td))
     || is_none_or is_empty (name (dyn_meta object))
     || is_none_or (λ types, (tm_kind types != mr_kind k)
                             || (tm_api_version types != mr_api_version k)) (dyn_types object)
  then Err (invalid_ownership "provider descendant inventory identity changed") else
  let! expected_owner := ok_or (mr_parent_kind k)
                           (invalid_ownership "provider descendant parent is missing") in
  let! expected_owner_api := ok_or
      (option_map mr_api_version (find_first (λ r, mr_kind r == expected_owner) MANAGEMENT_RESOURCES))
      (invalid_ownership "provider descendant parent kind is unknown") in
  if negb match owners object with
          | [owner] => (owner_kind owner == expected_owner)
                       && (owner_api_version owner == expected_owner_api)
          | _ => false
          end
  then Err (invalid_ownership "provider descendant has no exact provider owner") else
  let! deployment := ok_or (root_of objects "MachineDeployment")
                       (invalid_ownership "provider descendant has no live MachineDeployment") in
  let! deployment_uid := required_uid (dyn_meta deployment) in
  let! _ := ownership (validate_owner_chain object deployment_uid inventory) in
  if bool_decide (mr_kind k ∈ ["Machine"; "DevMachine"]) then
    let! _ := ownership (validate_root_ownership (dyn_meta object) (td_identity td) "machine") in
    if mr_kind k == "Machine" then
      let! nm := ok_or (name (dyn_meta object)) (invalid_ownership "Machine has no name") in
      Ok ({[nm]} ∪ machines)
    else Ok machines
  else Ok machines.

Definition storage_labels (i : Identity) : gmap string string := collect_map [
  (id_ownership_label i, id_lab_prefix i);
  ("cnpg-vcluster.capi/role", "tenant-storage");
  ("cnpg-vcluster.capi/tenant", id_tenant_name i);
  ("tenancy.cnpg-vcluster.io/tenant-uid", id_tenant_uid i);
  ("tenancy.cnpg-vcluster.io/spec-hash", id_spec_hash i);
  ("tenancy.cnpg-vcluster.io/foundation-hash", id_foundation_hash i)].

Definition validate_storage (volume : DockerVolume) (nm : string) (i : Identity)
    : result ControllerError unit :=
  map_err (λ e, invalid_ownership (docker_display e)) (validate_volume volume nm (storage_labels i)).

Definition volume_name (td : Teardown) : string :=
  di_lab_prefix (df_inputs (td_foundation td)) +:+ "-" +:+ td_name td +:+ "-storage".

(** Everything a reconciliation observes before it acts. *)
Record Observed := {
  ob_leases : list Lease;
  ob_namespace : option Namespace;
  ob_roots : list (option DynamicObject);
  ob_secret : option Secret;
  ob_descendants : list (list DynamicObject);
  ob_workers : list DockerContainer;
  ob_load_balancer : bool;
  ob_volume : option DockerVolume;
}.

Definition observe (tenant : Tenant) (td : Teardown) : io ControllerError Observed :=
  try! leases <- perform_map Kube (perform (ListLeases FOUNDATION_NAMESPACE)) ;;
  try! ns <- perform_map Kube (perform (GetNamespace (td_name td))) ;;
  pure! _ <- check_namespace td ns ;;
  try! objects <- observe_roots tenant td roots ;;
  let inventory := omap id objects in
  pure! _ <- try_for (check_owner tenant td inventory) (zip (seq 0 (length objects)) objects) ;;
  pure! secret_name <- ok_or (and_then (λ r, expected_name r (td_name td)) (by_kind "Secret"))
                         (invalid_ownership "Secret has no declared name") ;;
  try! secret <- perform_map Kube (perform (GetSecret (td_name td) secret_name)) ;;
  pure! _ <- check_secret secret objects ;;
  try! groups <- observe_descendants td descendant_kinds ;;
  let inventory := inventory ++ concat groups in
  pure! _ <- unique_uids inventory ;;
  pure! machines <- try_fold (check_descendant td objects inventory) ∅
      (concat (zip_with (λ k group, map (pair k) group) descendant_kinds groups)) ;;
  try! containers <- perform_map docker_error (perform ListContainers) ;;
  let load_balancer := any (λ c, dc_name c == td_name td +:+ "-lb") containers in
  pure! workers <- map_err docker_error (worker_containers containers {|
      wi_tenant_name := td_name td; wi_network_id := df_network_id (td_foundation td);
      wi_machine_names := machines |}) ;;
  try! volume <- perform_map docker_error (perform (InspectVolume (volume_name td))) ;;
  pure! _ <- match volume with
             | Some volume => validate_storage volume (volume_name td) (td_identity td)
             | None => Ok tt
             end ;;
  Ret (Ok {| ob_leases := leases; ob_namespace := ns; ob_roots := objects; ob_secret := secret;
             ob_descendants := groups; ob_workers := workers;
             ob_load_balancer := load_balancer; ob_volume := volume |}).

Definition non_nil {A} (l : list A) : bool := match l with [] => false | _ => true end.

Definition residue (ob : Observed) : bool :=
  is_some (ob_namespace ob) || any is_some (ob_roots ob) || is_some (ob_secret ob)
  || any non_nil (ob_descendants ob) || non_nil (ob_workers ob) || ob_load_balancer ob
  || is_some (ob_volume ob).

(** ** One step of the teardown *)
Definition delete_root (kind : ManagementResource) (ns : string) (observed : DynamicObject)
    : io ControllerError Action :=
  if is_none (deletion_timestamp (dyn_meta observed)) then
    pure! nm <- ok_or (expected_name kind ns)
                  (invalid_ownership "management root has no declared name") ;;
    pure! u <- required_uid (dyn_meta observed) ;;
    pure! rv <- required_version (dyn_meta observed) ;;
    try! _ <- perform_map Kube (perform (DeleteDynamic kind ns nm (exact_delete u rv))) ;;
    Ret (Ok pending)
  else Ret (Ok pending).

(** Records a field of the local provider status and waits. *)
Definition record_status (tenant current : Tenant) (status : TenantStatus) (clear : bool)
    : io ControllerError Action :=
  try! _ <- replace_status tenant current status clear ;;
  Ret (Ok pending).

Definition set_foundation_hash (hash : option string) (l : LocalProviderStatus) := {|
  local_allocation := local_allocation l; local_foundation_hash := hash;
  local_cluster_uid := local_cluster_uid l |}.
Definition set_cluster_uid (u : option string) (l : LocalProviderStatus) := {|
  local_allocation := local_allocation l; local_foundation_hash := local_foundation_hash l;
  local_cluster_uid := u |}.
Definition set_allocation (a : option AllocationStatus) (l : LocalProviderStatus) := {|
  local_allocation := a; local_foundation_hash := local_foundation_hash l;
  local_cluster_uid := local_cluster_uid l |}.

(** The end of the teardown: nothing of the Tenant is left but its Lease. *)
Definition release_and_finish (tenant current : Tenant) (td : Teardown) (status : TenantStatus)
    (observed_old_claim : bool) : io ControllerError Action :=
  let bound := and_then allocation (tenant_status tenant) in
  do! released <- release (td_claims td) bound true ;;
  pure! decision <- allocation_result released ;;
  if observed_old_claim then Ret (Ok pending) else
  match decision with
  | ReleaseDelete _ | ReleasePending => Ret (Ok pending)
  | ReleaseComplete =>
      if is_some (allocation status) then
        pure! status <- local_mut status (set_allocation None) ;;
        record_status tenant current status true
      else
        try! _ <- set_finalizer tenant current FINALIZER false ;;
        Ret (Ok ActionAwaitChange)
  end.

(** The deletions, in order: other roots, then the volume and the namespace
    once the provider has let go. *)
Definition delete_residue (tenant current : Tenant) (td : Teardown) (ob : Observed)
    (status : TenantStatus) (observed_old_claim : bool) : io ControllerError Action :=
  match find_first (λ entry : nat * option DynamicObject,
          negb (entry.1 =? cluster_index)%nat && is_some entry.2)
          (zip (seq 0 (length (ob_roots ob))) (ob_roots ob)) with
  | Some (index, Some root) =>
      match roots !! index with
      | Some kind => delete_root kind (td_name td) root
      | None => Ret (Ok pending)
      end
  | _ =>
      if any non_nil (ob_descendants ob) || non_nil (ob_workers ob) || ob_load_balancer ob
      then Ret (Ok pending) else
      if is_some (ob_volume ob) then
        try! _ <- perform_map docker_error (perform (RemoveVolume (volume_name td))) ;;
        Ret (Ok pending)
      else if is_some (ob_secret ob) then Ret (Ok pending) else
      match ob_namespace ob with
      | Some ns =>
          if is_none (deletion_timestamp (ns_meta ns)) then
            pure! u <- required_uid (ns_meta ns) ;;
            pure! rv <- required_version (ns_meta ns) ;;
            try! _ <- perform_map Kube (perform (DeleteNamespace (td_name td) (exact_delete u rv))) ;;
            Ret (Ok pending)
          else Ret (Ok pending)
      | None => release_and_finish tenant current td status observed_old_claim
      end
  end.

Definition is_delete (d : ReleaseDecision) : bool := match d with ReleaseDelete _ => true | _ => false end.

Definition teardown (tenant : Tenant) (td : Teardown) (ob : Observed) : io ControllerError Action :=
  let bound := and_then allocation (tenant_status tenant) in
  let cluster := root_of (ob_roots ob) "Cluster" in
  pure! decision <- allocation_result
      (decide_release (td_claims td) (ob_leases ob) bound (negb (residue ob))) ;;
  try! found <- perform_map Kube (perform (GetTenantOpt (td_name td))) ;;
  pure! current <- ok_or found (invalid_ownership "Tenant disappeared during deletion") ;;
  pure! _ <- validate_identity tenant current ;;
  if tenant_status current != tenant_status tenant then Ret (Ok pending) else
  let status := unwrap_or default_status (tenant_status current) in
  if phase status != Some PhaseDeleting
  then record_status tenant current (with_phase status (Some PhaseDeleting)) false else
  if is_none_or is_empty (foundation_hash status) && (residue ob || is_delete decision) then
    pure! status <- local_mut status (set_foundation_hash (Some (rf_hash runtime))) ;;
    record_status tenant current status false
  else
  match (if is_none (recorded_cluster tenant) then cluster else None) with
  | Some cluster =>
      pure! u <- required_uid (dyn_meta cluster) ;;
      pure! status <- local_mut status (set_cluster_uid (Some u)) ;;
      record_status tenant current status false
  | None =>
      pure! recovered <-
        (if is_none (allocation status) && (decision != ReleaseComplete)
         then allocation_result (recover_allocation (td_claims td) (ob_leases ob)) else Ok None) ;;
      match recovered with
      | Some a =>
          pure! status <- local_mut status (set_allocation (Some a)) ;;
          record_status tenant current status false
      | None =>
          match cluster, roots !! cluster_index with
          | Some cluster, Some kind => delete_root kind (td_name td) cluster
          | _, _ => delete_residue tenant current td ob status (is_delete decision)
          end
      end
  end.

Definition reconcile (tenant : Tenant) : io ControllerError Action :=
  pure! td <- prepare tenant ;;
  try! ob <- observe tenant td ;;
  teardown tenant td ob.
End Finalizer.

(** The table of roots has a Cluster, which [cluster_index] finds. *)
Lemma cluster_index_found : kind_index "Cluster" = Some cluster_index ∧ ∃ k, roots !! cluster_index = Some k.
Proof. split; [reflexivity|]. eexists. reflexivity. Qed.
