(* ===== verification/FinalizeSafety.v ===== *)
(** * Safety of finalization

    What every request of [Finalize.reconcile] is justified by, whatever the
    API server and the Docker daemon answer: [observation] says what the
    history shows, [allowed] what a mutating request needs, and
    [finalize_fail_closed] that nothing else is ever sent. *)

From S2P Require Import Prelude RustStd Externals Kube Errors Api Management Ownership Foundation.
From S2P Require Import Sanitize Readiness Docker Effects Ops Status Allocation AllocationRun Finalize.

Open Scope Z_scope.

#[local] Arguments wp : simpl never.

Section Observation.
Context `{SO : Sha256Ops, NO : Ipv4NetOps, SP : SpecJson}.

Record observation (tenant : Tenant) (td : Teardown) (h : trace Resp) (ob : Observed) : Prop := {
  obs_leases : answered h (ListLeases FOUNDATION_NAMESPACE) (Ok (ob_leases ob));
  obs_namespace : answered h (GetNamespace (td_name td)) (Ok (ob_namespace ob));
  obs_namespace_ok : check_namespace td (ob_namespace ob) = Ok tt;
  obs_roots : Forall2 (λ k o, ∃ nm, expected_name k (td_name td) = Some nm ∧
      answered h (GetDynamic k (td_name td) nm) (Ok o) ∧ check_root tenant td k nm o = Ok tt)
    roots (ob_roots ob);
  obs_secret : ∃ nm, answered h (GetSecret (td_name td) nm) (Ok (ob_secret ob));
  obs_descendants : Forall2 (λ k g, ∃ items,
      answered h (ListDynamic k (td_name td)) (Ok items) ∧ g = map (with_types k) items)
    descendant_kinds (ob_descendants ob);
  obs_containers : ∃ containers machines, answered h ListContainers (Ok containers) ∧
    worker_containers containers {| wi_tenant_name := td_name td;
      wi_network_id := df_network_id (td_foundation td); wi_machine_names := machines |}
      = Ok (ob_workers ob) ∧
    ob_load_balancer ob = any (λ c, dc_name c == td_name td +:+ "-lb") containers;
  obs_volume : answered h (InspectVolume (volume_name td)) (Ok (ob_volume ob));
  obs_volume_ok : ∀ v, ob_volume ob = Some v →
    validate_storage v (volume_name td) (td_identity td) = Ok tt;
}.

Lemma observation_app tenant td h g ob :
  observation tenant td h ob → observation tenant td (h ++ g) ob.
Proof.
  intros []. constructor; try done; try by apply answered_app_l.
  - eapply Forall2_impl; [|exact obs_roots0]. simpl. intros k o (nm & ? & ? & ?).
    exists nm. split_and!; [done|by apply answered_app_l|done].
  - destruct obs_secret0 as [nm ?]. exists nm. by apply answered_app_l.
  - eapply Forall2_impl; [|exact obs_descendants0]. simpl. intros k l (items & ? & ?).
    exists items. split; [by apply answered_app_l|done].
  - destruct obs_containers0 as (cs & ms & ? & ? & ?). exists cs, ms.
    split_and!; [by apply answered_app_l|done|done].
Qed.

Lemma wp_observe_roots tenant td kinds h :
  wp (observe_roots tenant td kinds) h reads_only
     (λ h' r, ∀ objects, r = Ok objects →
        Forall2 (λ k o, ∃ nm, expected_name k (td_name td) = Some nm ∧
          answered h' (GetDynamic k (td_name td) nm) (Ok o) ∧ check_root tenant td k nm o = Ok tt)
        kinds objects).
Proof.
  revert h. induction kinds as [|k kinds IH]; intros h; cbn [observe_roots].
  { intros objects [= <-]. constructor. }
  destruct (expected_name k (td_name td)) as [nm|] eqn:Hn; cbn [ok_or]; [|done].
  unfold dynamic_get. request; [done|]. destruct reply as [o|e]; cbn [map_err]; [|done].
  destruct (check_root tenant td k nm o) as [[]|e] eqn:Hc; [|done].
  apply wp_bind. eapply wp_mono; [done| |apply wp_extends, (IH h0)]. simpl.
  intros h' r [Hr [g Eg]]. destruct r as [objects|e]; [|done]. intros os [= <-].
  constructor; [|by apply Hr]. exists nm. split_and!; [done|in_history|done].
Qed.

Lemma wp_observe_descendants td kinds h :
  wp (observe_descendants td kinds) h reads_only
     (λ h' r, ∀ groups, r = Ok groups →
        Forall2 (λ k g, ∃ items,
          answered h' (ListDynamic k (td_name td)) (Ok items) ∧ g = map (with_types k) items)
        kinds groups).
Proof.
  revert h. induction kinds as [|k kinds IH]; intros h; cbn [observe_descendants].
  { intros groups [= <-]. constructor. }
  unfold dynamic_list. apply wp_bind. request; [done|].
  destruct reply as [items|e]; cbn [map_err]; [|done].
  change (wp (bind (observe_descendants td kinds) (λ r, match r with
    | Ok groups => Ret (Ok (map (with_types k) items :: groups)) | Err e => Ret (Err e) end))
    h0 reads_only (λ h' r, ∀ groups, r = Ok groups →
        Forall2 (λ k g, ∃ items,
          answered h' (ListDynamic k (td_name td)) (Ok items) ∧ g = map (with_types k) items)
        (k :: kinds) groups)).
  apply wp_bind. eapply wp_mono; [done| |apply wp_extends, (IH h0)]. simpl.
  intros h' r [Hr [g Eg]]. destruct r as [groups|e]; [|done]. intros os [= <-].
  constructor; [|by apply Hr]. exists items. split; [in_history|done].
Qed.

Lemma wp_observe tenant td h :
  wp (observe tenant td) h reads_only (λ h' r, ∀ ob, r = Ok ob → observation tenant td h' ob).
Proof.
  unfold observe. request; [done|]. destruct reply as [leases|e]; cbn [map_err]; [|done].
  request; [done|]. destruct reply as [ns|e]; cbn [map_err]; [|done].
  destruct (check_namespace td ns) as [[]|] eqn:Hns; [|done].
  apply wp_bind. eapply wp_mono; [done| |apply wp_extends, wp_observe_roots]. cbn beta.
  intros h2 r [Hroots [g2 E2]]. destruct r as [objects|e]; [|done]. specialize (Hroots objects eq_refl).
  destruct (try_for _ _) as [[]|]; [|done]. destruct (ok_or _ _) as [secret_name|]; [|done].
  request; [done|]. destruct reply as [secret|e]; cbn [map_err]; [|done].
  destruct (check_secret secret objects) as [[]|]; [|done].
  apply wp_bind. eapply wp_mono; [done| |apply wp_extends, wp_observe_descendants]. cbn beta.
  intros h4 r [Hdesc [g4 E4]]. destruct r as [groups|e]; [|done]. specialize (Hdesc groups eq_refl).
  destruct (unique_uids _) as [uids|]; [|done].
  destruct (try_fold _ _ _) as [machines|]; [|done].
  request; [done|]. destruct reply as [containers|e]; cbn [map_err]; [|done].
  destruct (worker_containers _ _) as [workers|] eqn:Hw; cbn [map_err]; [|done].
  request; [done|]. destruct reply as [volume|e]; cbn [map_err]; [|done].
  destruct (match volume with Some _ => _ | None => _ end) as [[]|] eqn:Hv; [|done].
  intros ob [= <-]. constructor; cbn [ob_leases ob_namespace ob_roots ob_secret ob_descendants
    ob_workers ob_load_balancer ob_volume].
  - in_history.
  - in_history.
  - done.
  - eapply Forall2_impl; [|exact Hroots]. simpl. intros k o (nm & ? & ? & ?).
    exists nm. split_and!; [done|in_history|done].
  - exists secret_name. in_history.
  - eapply Forall2_impl; [|exact Hdesc]. simpl. intros k l (items & ? & ?).
    exists items. split; [in_history|done].
  - exists containers, machines. split_and!; [in_history|done|done].
  - in_history.
  - by intros v ->.
Qed.
End Observation.

Lemma zip_seq_lookup {A} (l : list A) i x : (i, x) ∈ zip (seq 0 (length l)) l → l !! i = Some x.
Proof.
  intros [j Hj]%list_elem_of_lookup. apply lookup_zip_with_Some in Hj as (n & y & [= -> ->] & Hn & Hy).
  apply lookup_seq in Hn as [-> _]. done.
Qed.

Lemma lookup_zip_seq {A} (l : list A) i x : l !! i = Some x → (i, x) ∈ zip (seq 0 (length l)) l.
Proof.
  intros Hi. apply list_elem_of_lookup. exists i. apply lookup_zip_with_Some.
  exists i, x. split_and!; [done| |done]. apply lookup_seq. split; [done|]. by eapply lookup_lt_Some.
Qed.

Lemma root_of_cluster objects : root_of objects "Cluster" = and_then id (objects !! cluster_index).
Proof. unfold root_of. by rewrite (proj1 cluster_index_found). Qed.

(** ** Justified requests *)
Section Safety.
Context `{SO : Sha256Ops, NO : Ipv4NetOps, SP : SpecJson}.
Context (supported_version : string) (runtime : RuntimeFoundation).

(** No management root, descendant, worker or load balancer is left. *)
Definition provider_gone (ob : Observed) : Prop :=
  any is_some (ob_roots ob) = false ∧ any non_nil (ob_descendants ob) = false ∧
  ob_workers ob = [] ∧ ob_load_balancer ob = false.

(** An inventory the history shows has no Lease of the Tenant. *)
Definition released (td : Teardown) (h : trace Resp) : Prop :=
  ∃ inv, listed h inv ∧ ∀ l, l ∈ inv → ¬ carries_uid (td_claims td) l.

(** The Tenant was read again with the same identity and status. *)
Definition confirmed (tenant : Tenant) (td : Teardown) (h : trace Resp) (current : Tenant)
    (u rv : string) : Prop :=
  answered h (GetTenantOpt (td_name td)) (Ok (Some current)) ∧
  validate_identity tenant current = Ok (u, rv) ∧ tenant_status current = tenant_status tenant.

(** What a mutating request needs. *)
Definition allowed (tenant : Tenant) (td : Teardown) (ob : Observed) (h : trace Resp) (o : Op) : Prop :=
  match o with
  | DeleteDynamic k ns nm params =>
      ns = td_name td ∧ expected_name k ns = Some nm ∧
      ∃ i object u rv, roots !! i = Some k ∧ ob_roots ob !! i = Some (Some object) ∧
        uid (dyn_meta object) = Some u ∧ resource_version (dyn_meta object) = Some rv ∧
        params = exact_delete u rv ∧ check_root tenant td k nm (Some object) = Ok tt ∧
        (i ≠ cluster_index → root_of (ob_roots ob) "Cluster" = None)
  | RemoveVolume nm =>
      nm = volume_name td ∧ provider_gone ob ∧
      ∃ v, ob_volume ob = Some v ∧ validate_storage v nm (td_identity td) = Ok tt
  | DeleteNamespace nm params =>
      nm = td_name td ∧ provider_gone ob ∧ ob_volume ob = None ∧ ob_secret ob = None ∧
      ∃ ns u rv, ob_namespace ob = Some ns ∧ check_namespace td (Some ns) = Ok tt ∧
        uid (ns_meta ns) = Some u ∧ resource_version (ns_meta ns) = Some rv ∧
        params = exact_delete u rv
  | DeleteLease _ _ _ =>
      residue ob = false ∧
      release_request (td_claims td) (and_then allocation (tenant_status tenant)) true h o
  | PatchTenantStatus nm p =>
      (∃ current, nm = name_any current ∧
         confirmed tenant td h current (sp_uid p) (sp_resource_version p)) ∧
      (sp_clear_allocation p = true → residue ob = false ∧ released td h)
  | PatchTenantFinalizers nm p =>
      residue ob = false ∧ released td h ∧
      ∃ current, nm = name_any current ∧
        confirmed tenant td h current (fp_uid p) (fp_resource_version p) ∧
        and_then allocation (tenant_status current) = None ∧
        FINALIZER ∉ fp_finalizers p ∧
        filter_list (λ f, f != FINALIZER) (fp_finalizers p)
          = filter_list (λ f, f != FINALIZER) (finalizers_of current)
  | _ => False
  end.

Definition finalize_request (tenant : Tenant) (h : trace Resp) (o : Op) : Prop :=
  mutates o = false ∨
  ∃ td ob, prepare supported_version runtime tenant = Ok td ∧ observation tenant td h ob ∧
    allowed tenant td ob h o.

(** The finalizer is gone, or the patch that removes it was confirmed, and
    nothing of the Tenant is left. *)
Definition finished (tenant : Tenant) (h : trace Resp) : Prop :=
  ∃ td ob current, prepare supported_version runtime tenant = Ok td ∧ observation tenant td h ob ∧
    residue ob = false ∧ released td h ∧
    answered h (GetTenantOpt (td_name td)) (Ok (Some current)) ∧
    and_then allocation (tenant_status current) = None ∧
    (FINALIZER ∉ finalizers_of current ∨
     ∃ nm p updated, answered h (PatchTenantFinalizers nm p) (Ok updated)).

Definition finalize_reply (tenant : Tenant) (budget : nat) (h : trace Resp)
    (r : result ControllerError Action) : Prop :=
  (mutations h ≤ budget)%nat ∧ (r = Ok ActionAwaitChange → finished tenant h).

Section Steps.
Context (tenant : Tenant) (td : Teardown) (ob : Observed).
Hypothesis (Hprep : prepare supported_version runtime tenant = Ok td).

(** A program that may send one more mutating request. *)
Definition step_ok (p : io ControllerError Action) (h : trace Resp) : Prop :=
  wp p h (finalize_request tenant) (finalize_reply tenant (mutations h + 1)).

Lemma step_ret h r : r ≠ Ok ActionAwaitChange → step_ok (Ret r) h.
Proof. intros Hr. split; [lia|done]. Qed.

Lemma justified h o : observation tenant td h ob → allowed tenant td ob h o → finalize_request tenant h o.
Proof. intros. right. by exists td, ob. Qed.

(** One mutating request whose reply cannot end the teardown. *)
Lemma step_request {E} (g : E → ControllerError) o (cast : Resp o → result E unit) h :
  observation tenant td h ob → allowed tenant td ob h o →
  step_ok (bind (perform o) (λ r, match map_err g (cast r) with
                                  | Ok _ => Ret (Ok pending) | Err e => Ret (Err e) end)) h.
Proof.
  intros Hob Hal. unfold step_ok. request; [by apply justified|].
  assert (mutations h0 ≤ mutations h + 1)%nat
    by (subst h0; rewrite mutations_snoc; destruct (mutates o); lia).
  destruct (cast reply); cbn [map_err]; (split; [lia|done]).
Qed.

Lemma step_record_status h current status clear u rv :
  observation tenant td h ob → confirmed tenant td h current u rv →
  (clear = true → residue ob = false ∧ released td h) →
  step_ok (record_status tenant current status clear) h.
Proof.
  intros Hob Hconf Hclear. unfold step_ok, record_status, replace_status.
  destruct (unchanged _ _ && _); [by apply step_ret|].
  unfold patch_status. destruct Hconf as (Hread & Hv & Hst). rewrite Hv.
  apply wp_bind. request.
  { apply justified; [done|]. split; [|done]. exists current. split_and!; done. }
  assert (mutations h0 = mutations h + 1)%nat by (subst h0; by rewrite mutations_snoc).
  destruct reply as [updated|e]; cbn [map_err]; [|split; [lia|done]].
  unfold checked. case_bool_decide; (split; [lia|done]).
Qed.

Lemma step_delete_root h i k object :
  observation tenant td h ob → roots !! i = Some k → ob_roots ob !! i = Some (Some object) →
  (i ≠ cluster_index → root_of (ob_roots ob) "Cluster" = None) →
  step_ok (delete_root k (td_name td) object) h.
Proof.
  intros Hob Hk Hi Hc. unfold delete_root. destruct (is_none _); [|by apply step_ret].
  destruct (expected_name k (td_name td)) as [nm|] eqn:Hn; cbn [ok_or]; [|by apply step_ret].
  unfold required_uid, required_version.
  destruct (filter_non_empty (uid _)) as [u|] eqn:Hu; cbn [ok_or]; [|by apply step_ret].
  destruct (filter_non_empty (resource_version _)) as [rv|] eqn:Hrv; cbn [ok_or]; [|by apply step_ret].
  apply filter_non_empty_Some in Hu as [Hu _]. apply filter_non_empty_Some in Hrv as [Hrv _].
  apply (step_request Kube (DeleteDynamic k (td_name td) nm (exact_delete u rv)) id h); [done|].
  split_and!; [done..|]. exists i, object, u, rv. split_and!; [done..| |done].
  destruct (Forall2_lookup_lr _ _ _ _ _ _ (obs_roots _ _ _ _ Hob) Hk Hi) as (nm' & Hn' & _ & Hck).
  congruence.
Qed.

Lemma residue_false :
  provider_gone ob → ob_volume ob = None → ob_secret ob = None → ob_namespace ob = None →
  residue ob = false.
Proof. intros (Hr & Hd & Hw & Hl) Hv Hs Hn. unfold residue. by rewrite Hr, Hd, Hw, Hl, Hv, Hs, Hn. Qed.

Lemma step_release_and_finish h current status claimed u rv :
  observation tenant td h ob → residue ob = false → confirmed tenant td h current u rv →
  status = unwrap_or default_status (tenant_status current) →
  step_ok (release_and_finish tenant current td status claimed) h.
Proof.
  intros Hob Hres Hconf Hstatus. unfold step_ok, release_and_finish. apply wp_bind.
  pose proof (wp_within _ _ _ _ (wp_and _ _ _ _ _ _
    (wp_release (td_claims td) (and_then allocation (tenant_status tenant)) true h)
    (wp_release_mutations (td_claims td) (and_then allocation (tenant_status tenant)) true h))) as Hrel.
  eapply wp_mono; [| |exact Hrel]; clear Hrel; cbn beta.
  { intros h' o [[Ho _] [g ->]]. destruct (mutates o) eqn:Hm; [|by left].
    apply justified; [by apply observation_app|]. destruct o; try done. }
  intros h' r [[[_ Hr] [Hm Hm']] [g ->]].
  apply (observation_app _ _ _ g) in Hob.
  assert (confirmed tenant td (h ++ g) current u rv) as Hconf'.
  { destruct Hconf as (? & ? & ?). split_and!; [by apply answered_app_l|done..]. }
  destruct r as [d|e]; cbn [allocation_result map_err]; [|split; [lia|done]].
  destruct claimed; [split; [lia|done]|]. destruct d; [split; [lia|done]..|].
  specialize (Hm' eq_refl). destruct Hr as [_ Hrel].
  assert (Hdone : ∀ p, step_ok p (h ++ g) → wp p (h ++ g) (finalize_request tenant)
            (finalize_reply tenant (mutations h + 1))).
  { unfold step_ok. intros p Hp. by rewrite <-Hm'. }
  destruct (allocation status) as [a|] eqn:Ha; cbn [is_some].
  - destruct (local_mut _ _) as [status'|e]; [|split; [lia|done]].
    apply Hdone. by eapply step_record_status.
  - apply wp_bind. eapply wp_mono; [| |apply wp_within, wp_set_finalizer]; cbn beta.
    { intros h' o [Ho [g' ->]]. destruct o; try done. right. exists td, ob.
      destruct Ho as (-> & Hv & _ & Hin & Hkeep). destruct Hconf' as (Hread & Hv' & Hst).
      split_and!; [done|by apply observation_app|]. split_and!; [done| |].
      - destruct Hrel as (inv & Hl & Hn). exists inv. split; [by apply listed_app_l|done].
      - exists current. split_and!; [done| | | |done].
        + split_and!; [by apply answered_app_l|done|done].
        + subst status. by destruct (tenant_status current).
        + intros Hin'. by apply Hin in Hin'. }
    intros h' r [Hpost [g' ->]].
    assert (Hfin : (FINALIZER ∉ finalizers_of current ∨
              ∃ nm p updated, answered ((h ++ g) ++ g') (PatchTenantFinalizers nm p) (Ok updated)) →
            finished tenant ((h ++ g) ++ g')).
    { intros Hgone. exists td, ob, current. destruct Hconf' as (Hread & _ & _).
      split_and!; [done|by apply observation_app|done| |by apply answered_app_l| |done].
      - destruct Hrel as (inv & Hl & Hn). exists inv. split; [by apply listed_app_l|done].
      - subst status. by destruct (tenant_status current). }
    destruct Hpost as [(Eh & Hf & Ht)|(nm & p & reply & Eh & Hf & Ht)].
    + rewrite Eh. destruct r as [[]|e]; [done| |split; [lia|done]].
      split; [lia|]. intros _. rewrite <-Eh. apply Hfin. left. intros Hin.
      by apply (proj1 (Hf eq_refl)) in Hin.
    + assert (mutations ((h ++ g) ++ g') ≤ mutations h + 1)%nat as Hle
        by (rewrite Eh, mutations_snoc; simpl; lia).
      destruct r as [[]|e]; [|done|split; [done|done]]. split; [done|]. intros _.
      apply Hfin. right. destruct (Ht eq_refl) as (updated & -> & _).
      exists nm, p, updated. rewrite Eh. apply answered_last.
Qed.

(** No root but the Cluster is picked, and the Cluster is gone: no root is left. *)
Lemma roots_gone :
  root_of (ob_roots ob) "Cluster" = None →
  (∀ i o, find_first (λ entry : nat * option DynamicObject,
      negb (entry.1 =? cluster_index)%nat && is_some entry.2)
      (zip (seq 0 (length (ob_roots ob))) (ob_roots ob)) ≠ Some (i, Some o)) →
  any is_some (ob_roots ob) = false.
Proof.
  intros Hc Hnone. destruct (find_first _ _) as [[i [o|]]|] eqn:Hf.
  - by destruct (Hnone i o).
  - apply find_first_Some in Hf as [_ Hf]. simpl in Hf. by rewrite andb_false_r in Hf.
  - rewrite find_first_None in Hf. apply any_false. intros x [i Hi]%list_elem_of_lookup.
    specialize (Hf (i, x) (lookup_zip_seq _ _ _ Hi)). cbn [fst snd] in Hf.
    destruct (Nat.eqb_spec i cluster_index) as [E|Hne]; cbn [negb andb] in Hf; [|done].
    rewrite root_of_cluster, <-E, Hi in Hc. simpl in Hc. by destruct x.
Qed.

Lemma step_delete_residue h current status claimed u rv :
  observation tenant td h ob → root_of (ob_roots ob) "Cluster" = None →
  confirmed tenant td h current u rv →
  status = unwrap_or default_status (tenant_status current) →
  step_ok (delete_residue tenant current td ob status claimed) h.
Proof.
  intros Hob Hc Hconf Hst. unfold delete_residue.
  pose proof (roots_gone Hc) as Hgone.
  destruct (find_first _ _) as [[i [o|]]|] eqn:Hf.
  { apply find_first_Some in Hf as [Hin Hne]. simpl in Hne. apply zip_seq_lookup in Hin.
    destruct (roots !! i) as [k|] eqn:Hk; [|by apply step_ret]. by eapply step_delete_root. }
  all: specialize (Hgone ltac:(done)).
  all: destruct (any non_nil (ob_descendants ob) || _ || _) eqn:Hprov; [by apply step_ret|].
  all: apply orb_false_iff in Hprov as [[Hd Hw]%orb_false_iff Hlb].
  all: assert (Hpg : provider_gone ob)
    by (split_and!; [done|done|by destruct (ob_workers ob)|done]).
  all: destruct (ob_volume ob) as [v|] eqn:Hv; cbn [is_some];
    [apply (step_request docker_error (RemoveVolume (volume_name td)) id h); [done|];
     split_and!; [done|done|]; exists v; split; [done|by eapply obs_volume_ok]|].
  all: destruct (ob_secret ob) as [sec|] eqn:Hs; cbn [is_some]; [by apply step_ret|].
  all: destruct (ob_namespace ob) as [ns|] eqn:Hn;
    [|eapply step_release_and_finish; [done|by apply residue_false|done|done]].
  all: destruct (is_none _); [|by apply step_ret]; unfold required_uid, required_version.
  all: destruct (filter_non_empty (uid _)) as [u'|] eqn:Hu; cbn [ok_or]; [|by apply step_ret].
  all: destruct (filter_non_empty (resource_version _)) as [rv'|] eqn:Hrv; cbn [ok_or]; [|by apply step_ret].
  all: apply filter_non_empty_Some in Hu as [Hu _]; apply filter_non_empty_Some in Hrv as [Hrv _].
  all: apply (step_request Kube (DeleteNamespace (td_name td) (exact_delete u' rv')) id h); [done|].
  all: split_and!; [done..|]; exists ns, u', rv'; split_and!; [done| |done..].
  all: pose proof (obs_namespace_ok _ _ _ _ Hob) as Hok; by rewrite Hn in Hok.
Qed.

Lemma step_teardown h :
  observation tenant td h ob → step_ok (teardown runtime tenant td ob) h.
Proof.
  intros Hob. unfold teardown.
  destruct (decide_release _ _ _ _) as [decision|e]; cbn [allocation_result map_err]; [|by apply step_ret].
  unfold step_ok. request; [by left|].
  assert (Hm : mutations h0 = mutations h) by (subst h0; rewrite mutations_snoc; simpl; lia).
  rewrite <-Hm. fold (step_ok).
  assert (Hob' : observation tenant td h0 ob) by (subst h0; by apply observation_app).
  destruct reply as [[current|]|e]; cbn [map_err ok_or]; [|by apply step_ret..].
  destruct (validate_identity tenant current) as [[u rv]|] eqn:Hv; [|by apply step_ret].
  destruct (tenant_status current != tenant_status tenant) eqn:Hst; [by apply step_ret|]. bool_hyp.
  assert (Hconf : confirmed tenant td h0 current u rv)
    by (split_and!; [subst h0; apply answered_last|done|done]).
  destruct (phase _ != _); [by eapply step_record_status|].
  destruct (is_none_or is_empty _ && _);
    [destruct (local_mut _ _); [by eapply step_record_status|by apply step_ret]|].
  destruct (if is_none (recorded_cluster tenant) then _ else _) as [cluster|].
  { destruct (required_uid _); [|by apply step_ret].
    destruct (local_mut _ _); [by eapply step_record_status|by apply step_ret]. }
  destruct (if is_none (allocation _) && _ then _ else _) as [[a|]|]; [| |by apply step_ret].
  { destruct (local_mut _ _); [by eapply step_record_status|by apply step_ret]. }
  destruct (root_of (ob_roots ob) "Cluster") as [cluster|] eqn:Hc;
    [|by eapply step_delete_residue].
  destruct (proj2 cluster_index_found) as [k Hk]. rewrite Hk.
  eapply step_delete_root; [done|exact Hk| |done].
  rewrite root_of_cluster in Hc. destruct (ob_roots ob !! cluster_index) as [[o|]|]; simpl in Hc; congruence.
Qed.
End Steps.

Lemma wp_reconcile tenant :
  wp (reconcile supported_version runtime tenant) [] (finalize_request tenant) (finalize_reply tenant 1).
Proof.
  unfold reconcile.
  destruct (prepare supported_version runtime tenant) as [td|e] eqn:Hp;
    [|split; [unfold mutations; simpl; lia|done]].
  apply wp_bind.
  eapply wp_mono; [| |exact (wp_reads _ _ _ (wp_observe tenant td []))]; cbn beta.
  { intros h o Ho. by left. }
  intros h r [Hr Hm]. change (mutations []) with 0%nat in Hm.
  destruct r as [ob|e]; [|split; [lia|done]].
  pose proof (step_teardown tenant td ob Hp h (Hr ob eq_refl)) as Hstep.
  unfold step_ok in Hstep. by rewrite Hm in Hstep.
Qed.
End Safety.

Section Theorems.
Context `{SO : Sha256Ops, NO : Ipv4NetOps, SP : SpecJson}.

(** C3. Finalization fails closed.  Whatever the API server and the Docker
    daemon answer, one reconciliation of a deleting local Tenant sends at most
    one mutating request, after reading everything, and that request is
    justified by what was read: a management root is deleted by the exact UID
    and version of an observed object that carries the Tenant's ownership
    markers, roots other than the Cluster only once the Cluster is gone; the
    volume goes only when no root, descendant, worker or load balancer is
    left, the namespace only when the volume and the Secret are gone too, the
    Lease only when nothing is left; the allocation is cleared and the
    finalizer removed only when nothing is left, an inventory shows no Lease
    of the Tenant and the Tenant was re-read unchanged, and no other finalizer
    is touched.  The teardown ends only in that state. *)
Theorem finalize_fail_closed supported_version runtime tenant env :
  let '(h, r) := run env (reconcile supported_version runtime tenant) [] in
  issued (finalize_request supported_version runtime tenant) [] h ∧
  (mutations h ≤ 1)%nat ∧
  (r = Ok ActionAwaitChange → finished supported_version runtime tenant h).
Proof.
  pose proof (wp_run env _ _ _ _ (wp_reconcile supported_version runtime tenant)) as H.
  destruct (run env _ []) as [h r]. destruct H as [[Hm Hf] Hi]. done.
Qed.
End Theorems.

(** ** Completion *)
Section Completion.
Context `{SO : Sha256Ops, NO : Ipv4NetOps, SP : SpecJson}.

(** The Tenant after a patch of its finalizers, at a new version. *)
Definition patched_finalizers (tenant : Tenant) (fs : list string) (rv : string) : Tenant := {|
  tenant_meta := {|
    name := name (tenant_meta tenant); namespace := namespace (tenant_meta tenant);
    uid := uid (tenant_meta tenant); resource_version := Some rv; generation := generation (tenant_meta tenant);
    labels := labels (tenant_meta tenant); annotations := annotations (tenant_meta tenant);
    owner_references := owner_references (tenant_meta tenant); finalizers := Some fs;
    deletion_timestamp := deletion_timestamp (tenant_meta tenant) |};
  tenant_spec := tenant_spec tenant; tenant_status := tenant_status tenant |}.

(** A cluster in which only the Tenant is left, and what it holds: it applies a
    patch of the Tenant's finalizers whose UID and version are the Tenant's,
    and refuses every other write. *)
Definition only_tenant (rv : string) (tenant : Tenant) (o : Op) : Resp o * Tenant :=
  match o return Resp o * Tenant with
  | ListLeases _ => (Ok [], tenant)
  | GetLease _ _ => (Ok None, tenant)
  | GetTenant _ => (Ok tenant, tenant)
  | GetTenantOpt _ => (Ok (Some tenant), tenant)
  | PatchTenantFinalizers nm p =>
      if (Some nm == name (tenant_meta tenant)) && (Some (fp_uid p) == uid (tenant_meta tenant))
         && (Some (fp_resource_version p) == resource_version (tenant_meta tenant))
      then (Ok (patched_finalizers tenant (fp_finalizers p) rv), patched_finalizers tenant (fp_finalizers p) rv)
      else (Err (KubeApi 409 "Conflict" "conflict"), tenant)
  | GetNamespace _ => (Ok None, tenant)
  | GetSecret _ _ => (Ok None, tenant)
  | GetDynamic _ _ _ => (Ok None, tenant)
  | ListDynamic _ _ => (Ok [], tenant)
  | GetConfigMap _ _ => (Ok None, tenant)
  | ListContainers => (Ok [], tenant)
  | InspectVolume _ => (Ok None, tenant)
  | o => (error_reply o (KubeOther "unexpected"), tenant)
  end.

Lemma exec_observe_roots rv tenant td kinds :
  (∀ k, k ∈ kinds → is_Some (expected_name k (td_name td))) →
  exec (only_tenant rv) (observe_roots tenant td kinds) tenant = (Ok (map (λ _, None) kinds), tenant).
Proof.
  induction kinds as [|k kinds IH]; intros Hn; [done|]. cbn [observe_roots].
  destruct (Hn k) as [nm ->]; [by left|]. cbn [ok_or]. rewrite exec_bind. cbn.
  rewrite exec_bind, IH; [done|]. intros k' Hk'. apply Hn. by right.
Qed.

Lemma exec_observe_descendants rv tenant td kinds :
  exec (only_tenant rv) (observe_descendants td kinds) tenant = (Ok (map (λ _, []) kinds), tenant).
Proof.
  induction kinds as [|k kinds IH]; [done|]. cbn [observe_descendants].
  rewrite exec_bind. cbn. rewrite exec_bind, IH. done.
Qed.

Definition nothing_left : Observed := {|
  ob_leases := []; ob_namespace := None; ob_roots := map (λ _, None) roots; ob_secret := None;
  ob_descendants := map (λ _, []) descendant_kinds; ob_workers := [];
  ob_load_balancer := false; ob_volume := None |}.

Lemma exec_observe rv tenant td :
  td_name td ≠ "" → df_network_id (td_foundation td) ≠ "" →
  exec (only_tenant rv) (observe tenant td) tenant = (Ok nothing_left, tenant).
Proof.
  intros Hn Hnet. unfold observe. rewrite !exec_bind. cbn [exec perform only_tenant perform_map bind map_err].
  cbn [check_namespace]. rewrite exec_bind, exec_observe_roots by (intros; by apply roots_named).
  assert (try_for (check_owner tenant td (omap id (map (λ _, None) roots)))
            (zip (seq 0 (length (map (λ _ : ManagementResource, @None DynamicObject) roots)))
               (map (λ _, None) roots)) = Ok tt) as -> by reflexivity.
  assert (∃ nm, ok_or (and_then (λ r, expected_name r (td_name td)) (by_kind "Secret"))
            (invalid_ownership "Secret has no declared name") = Ok nm) as [nm ->]
    by (eexists; reflexivity).
  cbn [exec only_tenant map_err check_secret]. rewrite exec_bind, exec_observe_descendants.
  assert (unique_uids (omap id (map (λ _ : ManagementResource, @None DynamicObject) roots)
            ++ concat (map (λ _ : ManagementResource, []) descendant_kinds)) = Ok ∅) as -> by reflexivity.
  match goal with |- context [try_fold ?f ∅ ?l] =>
    assert (try_fold f ∅ l = Ok ∅) as -> by reflexivity end.
  cbn [exec only_tenant map_err]. unfold worker_containers. cbn [wi_tenant_name wi_network_id].
  rewrite (proj2 (is_empty_false _) Hn), (proj2 (is_empty_false _) Hnet). reflexivity.
Qed.

Lemma prepare_Ok supported_version runtime tenant td :
  prepare supported_version runtime tenant = Ok td →
  name (tenant_meta tenant) = Some (td_name td) ∧ td_name td ≠ "" ∧
  uid (tenant_meta tenant) = Some (cx_tenant_uid (td_claims td)) ∧
  td_foundation td = rf_deletion runtime.
Proof.
  unfold prepare. intros H. run H.
  repeat match goal with H : ok_or ?o _ = Ok _ |- _ =>
    destruct o eqn:?; cbn [ok_or] in H; [|done]; simp_eqs end.
  unfold required_uid in *.
  match goal with H : ok_or (filter_non_empty ?o) _ = Ok _ |- _ =>
    destruct (filter_non_empty o) eqn:Hu; cbn [ok_or] in H; [|done]; simp_eqs end.
  apply filter_non_empty_Some in Hu as [Hu _]. cbn [td_name td_claims td_foundation cx_tenant_uid].
  match goal with H : map_err _ (canonical_spec ?n _ _) = Ok _ |- _ =>
    destruct (canonical_spec n _ _) eqn:Hc; [|done] end.
  match goal with H : map_err _ (deletion _ _) = Ok _ |- _ =>
    unfold deletion in H; destruct (rf_validate_identity _ _); [|done]; cbn [map_err] in H; simp_eqs end.
  split_and!; [done| |done|done]. intros ->. by unfold canonical_spec in Hc.
Qed.

Lemma exec_drop_finalizer rv tenant u rv0 nm :
  name (tenant_meta tenant) = Some nm → validate_identity tenant tenant = Ok (u, rv0) →
  FINALIZER ∈ finalizers_of tenant →
  exec (only_tenant rv) (set_finalizer tenant tenant FINALIZER false) tenant =
    (Ok true, patched_finalizers tenant (filter_list (λ f, f != FINALIZER) (finalizers_of tenant)) rv).
Proof.
  intros Hn Hval Hfin. unfold set_finalizer. rewrite Hval. rewrite (proj2 (has_finalizer_iff _ _) Hfin).
  cbn [Bool.eqb]. rewrite exec_bind. cbn [exec perform only_tenant perform_map bind map_err fp_uid fp_resource_version].
  apply validate_identity_Ok in Hval as (_ & _ & Hu & _ & Hr & _). unfold name_any. rewrite Hn. cbn [unwrap_or].
  rewrite Hu, Hr, !bool_decide_eq_true_2 by done. cbn [andb exec map_err]. unfold checked.
  by rewrite bool_decide_eq_true_2.
Qed.

End Completion.

(** A deleting Tenant with nothing left. *)
Definition deleting_tenant : Tenant := {|
  tenant_meta := {|
    name := Some "alpha"; namespace := None; uid := Some "uid-a"; resource_version := Some "9";
    generation := Some 1; labels := None; annotations := None; owner_references := None;
    finalizers := Some [FINALIZER; "other"]; deletion_timestamp := Some 0 |};
  tenant_spec := {| kubernetes_version := "1.36.4"; workers := 1; provider := SpecLocal |};
  tenant_status := Some (with_phase default_status (Some PhaseDeleting)) |}.

