(* ===== verification/AllocationSystem.v ===== *)
(** * Concurrent allocators

    Any number of controllers run [allocate] and [release] against one API
    server, interleaved request by request.  The server keeps the Leases of the
    foundation namespace by name: a create fails when the name is taken and
    otherwise stores the object under a fresh UID, and a delete checks its
    preconditions.  Any request may also fail without effect, or take effect
    and lose its reply.  [slots_exclusive] is the mutual exclusion the source
    claims for its Lease protocol. *)

From stdpp Require Import relations pretty.
From S2P Require Import Prelude RustStd Externals Kube Errors Api Ownership Foundation Docker Effects Ops.
From S2P Require Import Allocation AllocationRun.

(** ** The API server *)
Record Server := { store : gmap string Lease; next : N }.

Definition uid_of (n : N) : string := "uid-" +:+ pretty n.

Definition with_identity (l : Lease) (n : N) : Lease := {|
  lease_meta := {|
    name := name (lease_meta l); namespace := namespace (lease_meta l);
    uid := Some (uid_of n); resource_version := Some (pretty n);
    generation := generation (lease_meta l); labels := labels (lease_meta l);
    annotations := annotations (lease_meta l); owner_references := owner_references (lease_meta l);
    finalizers := finalizers (lease_meta l); deletion_timestamp := deletion_timestamp (lease_meta l) |};
  lease_spec := lease_spec l |}.

Definition unsupported : KubeError := KubeOther "not served".

Definition create_lease (s : Server) (l : Lease) : result KubeError Lease * Server :=
  match name (lease_meta l) with
  | None => (Err (KubeApi 422 "Invalid" "name is required"), s)
  | Some nm =>
      match store s !! nm with
      | Some _ => (Err (KubeApi 409 "AlreadyExists" "already exists"), s)
      | None =>
          let stored := with_identity l (next s) in
          (Ok stored, {| store := <[nm := stored]> (store s); next := N.succ (next s) |})
      end
  end.

Definition preconditions_hold (params : DeleteParams) (l : Lease) : bool :=
  is_none_or (λ u, Some u == uid (lease_meta l)) (precondition_uid params)
  && is_none_or (λ v, Some v == resource_version (lease_meta l)) (precondition_resource_version params).

Definition delete_lease (s : Server) (nm : string) (params : DeleteParams)
    : result KubeError unit * Server :=
  match store s !! nm with
  | None => (Err (KubeApi 404 "NotFound" "not found"), s)
  | Some l =>
      if preconditions_hold params l
      then (Ok tt, {| store := base.delete nm (store s); next := next s |})
      else (Err (KubeApi 409 "Conflict" "precondition failed"), s)
  end.

Definition inventory (s : Server) : list Lease := (map_to_list (store s)).*2.

Definition serve (s : Server) (o : Op) : Resp o * Server :=
  match o return Resp o * Server with
  | ListLeases _ => (Ok (inventory s), s)
  | GetLease _ nm => (Ok (store s !! nm), s)
  | CreateLease _ l => create_lease s l
  | DeleteLease _ nm params => delete_lease s nm params
  | o => (error_reply o unsupported, s)
  end.

(** One request: served, refused, or served with the reply lost. *)
Inductive served (s : Server) (o : Op) : Resp o → Server → Prop :=
| served_ok : served s o (serve s o).1 (serve s o).2
| served_refused e : served s o (error_reply o e) s
| served_lost e : served s o (error_reply o e) (serve s o).2.

(** ** Clients *)
Inductive Role :=
| Allocator (bound : option AllocationStatus)
| Releaser (bound : option AllocationStatus) (residue_absent : bool).

Definition releases (r : Role) : bool := match r with Releaser _ _ => true | Allocator _ => false end.

Definition Outcome : Type := Claim + ReleaseDecision.

Definition inl_result {E A B} (r : result E A) : result E (A + B) :=
  match r with Ok a => Ok (inl a) | Err e => Err e end.
Definition inr_result {E A B} (r : result E B) : result E (A + B) :=
  match r with Ok b => Ok (inr b) | Err e => Err e end.

Section System.
Context `{SO : Sha256Ops, NO : Ipv4NetOps}.

Record Client := {
  cl_context : ClaimContext;
  cl_role : Role;
  cl_history : trace Resp;
  cl_prog : io AllocationError Outcome;
}.

Definition start (cx : ClaimContext) (role : Role) : Client := {|
  cl_context := cx; cl_role := role; cl_history := [];
  cl_prog := match role with
             | Allocator bound => bind (allocate cx bound) (λ r, Ret (inl_result r))
             | Releaser bound residue_absent =>
                 bind (release cx bound residue_absent) (λ r, Ret (inr_result r))
             end |}.

Definition System : Type := Server * list Client.

(** One client sends its next request. *)
Inductive sys_step : System → System → Prop :=
| sys_request s s' clients i cl o k r :
    clients !! i = Some cl → cl_prog cl = Vis o k → served s o r s' →
    sys_step (s, clients)
      (s', <[i := {| cl_context := cl_context cl; cl_role := cl_role cl;
                     cl_history := cl_history cl ++ [existT o r]; cl_prog := k r |}]> clients).

(** Leases are stored under their names with UIDs the server issued. *)
Definition server_wf (s : Server) : Prop :=
  ∀ nm l, store s !! nm = Some l →
    name (lease_meta l) = Some nm ∧
    ∃ n, (n < next s)%N ∧ uid (lease_meta l) = Some (uid_of n).

Definition server_distinct (s : Server) : Prop :=
  ∀ nm nm' l l', store s !! nm = Some l → store s !! nm' = Some l' →
    uid (lease_meta l) = uid (lease_meta l') → nm = nm'.

Inductive initial : System → Prop :=
| initial_intro s (participants : list (ClaimContext * Role)) :
    server_wf s → server_distinct s →
    initial (s, map (λ '(cx, role), start cx role) participants).

Definition reachable (sys : System) : Prop :=
  ∃ sys0, initial sys0 ∧ rtc sys_step sys0 sys.

(** A client that has returned a claim. *)
Definition holds (cl : Client) (c : Claim) : Prop := cl_prog cl = Ret (Ok (inl c)).

(** No client of the system releases the Leases of a Tenant UID. *)
Definition unreleased (clients : list Client) (u : string) : Prop :=
  ∀ cl, cl ∈ clients → releases (cl_role cl) = true → cx_tenant_uid (cl_context cl) ≠ u.
End System.

(** ** What a served request changes *)
Lemma uid_of_inj n m : uid_of n = uid_of m → n = m.
Proof. unfold uid_of. intros H%append_inj_l. by apply (inj pretty). Qed.
#[local] Opaque uid_of.

Inductive effect (s : Server) (o : Op) : Server → Prop :=
| effect_none : effect s o s
| effect_create ns l nm :
    o = CreateLease ns l → name (lease_meta l) = Some nm → store s !! nm = None →
    effect s o {| store := <[nm := with_identity l (next s)]> (store s); next := N.succ (next s) |}
| effect_delete ns nm params l :
    o = DeleteLease ns nm params → store s !! nm = Some l → preconditions_hold params l = true →
    effect s o {| store := base.delete nm (store s); next := next s |}.

Lemma serve_effect s o : effect s o (serve s o).2.
Proof.
  destruct o; simpl; try apply effect_none.
  - unfold create_lease. destruct (name _) as [nm'|] eqn:Hn; [|apply effect_none].
    destruct (store s !! nm') eqn:Hs; [apply effect_none|]. by eapply effect_create.
  - unfold delete_lease. destruct (store s !! nm) as [l|] eqn:Hs; [|apply effect_none].
    destruct (preconditions_hold _ l) eqn:Hp; [|apply effect_none]. by eapply effect_delete.
Qed.

Lemma served_effect s o r s' : served s o r s' → effect s o s'.
Proof. intros []; [apply serve_effect|apply effect_none|apply serve_effect]. Qed.

Lemma elem_of_inventory s l : l ∈ inventory s ↔ ∃ nm, store s !! nm = Some l.
Proof.
  unfold inventory. rewrite list_elem_of_fmap. split.
  - intros ([nm l'] & -> & H%elem_of_map_to_list). by exists nm.
  - intros [nm H]. exists (nm, l). by rewrite elem_of_map_to_list.
Qed.

Lemma error_reply_silent o e :
  leases_of (existT o (error_reply o e)) = [] ∧ inventory_of (existT o (error_reply o e)) = None.
Proof. by destruct o. Qed.

(** A reply only shows Leases the server now stores. *)
Lemma served_stored s o r s' l :
  served s o r s' → l ∈ leases_of (existT o r) → ∃ nm, store s' !! nm = Some l.
Proof.
  intros [|e|e] Hl; [|rewrite (proj1 (error_reply_silent _ _)) in Hl; set_solver..].
  destruct o; simpl in *; try set_solver.
  - by apply elem_of_inventory.
  - destruct (store s !! nm) as [l'|] eqn:Hs; [|set_solver].
    apply list_elem_of_singleton in Hl as ->. by exists nm.
  - unfold create_lease in *. destruct (name _) as [nm|]; [|set_solver].
    destruct (store s !! nm); [set_solver|]. simpl in *. apply list_elem_of_singleton in Hl as ->.
    exists nm. apply lookup_insert_eq.
Qed.

Lemma served_inventory s o r s' inv :
  served s o r s' → inventory_of (existT o r) = Some inv → inv = inventory s ∧ s' = s.
Proof.
  intros [|e|e] Hi; [|rewrite (proj2 (error_reply_silent _ _)) in Hi; done..].
  destruct o; simpl in *; try done. by simplify_eq.
Qed.

Lemma effect_wf s o s' : effect s o s' → server_wf s → server_distinct s → server_wf s' ∧ server_distinct s'.
Proof.
  intros He Hwf Hd. destruct He as [|ns l nm -> Hn Hs|ns nm params l -> Hs Hp]; [done| |].
  - assert (Hwf' : server_wf {| store := <[nm := with_identity l (next s)]> (store s);
                                next := N.succ (next s) |}).
    { intros nm' l' H. simpl in H. apply lookup_insert_Some in H as [[<- <-]|[Hne Hl']]; simpl in *.
      - split; [done|]. exists (next s). split; [lia|done].
      - destruct (Hwf nm' l' Hl') as (? & n & ? & ?). split; [done|]. exists n. split; [lia|done]. }
    split; [done|]. intros n1 n2 l1 l2 H1 H2 Hu. simpl in *.
    assert (Hfresh : ∀ n0 l0, store s !! n0 = Some l0 → uid (lease_meta l0) ≠ Some (uid_of (next s))).
    { intros n0 l0 H0 E. destruct (Hwf n0 l0 H0) as (_ & k & Hk & Ek). rewrite Ek in E.
      assert (uid_of k = uid_of (next s)) as Euid by congruence. apply uid_of_inj in Euid. lia. }
    apply lookup_insert_Some in H1 as [[<- <-]|[Hne1 H1]];
      apply lookup_insert_Some in H2 as [[<- <-]|[Hne2 H2]]; [done| | |by eapply Hd].
    + by apply Hfresh in H2.
    + by apply Hfresh in H1.
  - split.
    + intros nm' l' Hl'. simpl in Hl'. apply lookup_delete_Some in Hl' as [_ Hl']. by apply Hwf.
    + intros n1 n2 l1 l2 H1 H2. simpl in *. apply lookup_delete_Some in H1 as [_ H1].
      apply lookup_delete_Some in H2 as [_ H2]. by eapply Hd.
Qed.

(** ** The invariant *)
Section Invariant.
Context `{SO : Sha256Ops, NO : Ipv4NetOps}.

Definition request_ok (cl : Client) : trace Resp → Op → Prop :=
  match cl_role cl with
  | Allocator bound => alloc_request (cl_context cl) bound
  | Releaser bound residue_absent => release_request (cl_context cl) bound residue_absent
  end.

Definition outcome_ok (cl : Client) (h : trace Resp) (r : result AllocationError Outcome) : Prop :=
  match cl_role cl with
  | Allocator bound => ∀ c, r = Ok (inl c) → backed (cl_context cl) bound h c
  | Releaser _ _ => ∀ c, r ≠ Ok (inl c)
  end.

Definition client_ok (cl : Client) : Prop :=
  wp (cl_prog cl) (cl_history cl) (request_ok cl) (outcome_ok cl).

Definition tenant_of (l : Lease) : option string :=
  get_annotation (lease_meta l) TENANT_UID_ANNOTATION.

Record sys_inv (s : Server) (clients : list Client) : Prop := {
  inv_wf : server_wf s;
  inv_distinct : server_distinct s;
  inv_clients : ∀ cl, cl ∈ clients → client_ok cl;
  (** A UID names one Lease for ever. *)
  inv_identity : ∀ cl l, cl ∈ clients → seen (cl_history cl) l →
    (∃ n, (n < next s)%N ∧ uid (lease_meta l) = Some (uid_of n)) ∧
    ∀ nm l', store s !! nm = Some l' → uid (lease_meta l') = uid (lease_meta l) → l' = l;
  (** Leases of a Tenant nobody releases stay. *)
  inv_kept : ∀ cl l u, cl ∈ clients → seen (cl_history cl) l → tenant_of l = Some u →
    unreleased clients u → ∃ nm, name (lease_meta l) = Some nm ∧ store s !! nm = Some l;
  (** Of two inventories one shows all such Leases the other shows. *)
  inv_ordered : ∀ cl1 cl2 inv1 inv2 u, cl1 ∈ clients → cl2 ∈ clients →
    listed (cl_history cl1) inv1 → listed (cl_history cl2) inv2 → unreleased clients u →
    (∀ l, l ∈ inv1 → tenant_of l = Some u → l ∈ inv2) ∨
    (∀ l, l ∈ inv2 → tenant_of l = Some u → l ∈ inv1);
}.

Lemma start_ok cx role : client_ok (start cx role).
Proof.
  unfold client_ok, start, request_ok, outcome_ok. destruct role as [bound|bound residue]; simpl.
  - apply wp_bind. eapply wp_mono; [done| |apply wp_allocate]. intros h [c|e] [_ Hc]; simpl; [|done].
    intros c' [= <-]. by apply Hc.
  - apply wp_bind. eapply wp_mono; [done| |apply wp_release]. intros h [d|e] _; done.
Qed.

Lemma initial_inv s clients : initial (s, clients) → sys_inv s clients.
Proof.
  inversion 1 as [s' ps Hwf Hd]; subst.
  assert (Hcl : ∀ cl, cl ∈ map (λ '(cx, role), start cx role) ps →
                      cl_history cl = [] ∧ client_ok cl).
  { intros cl ([cx role] & -> & _)%list_elem_of_fmap. split; [done|]. apply start_ok. }
  assert (Hno : ∀ l, ¬ seen [] l) by (intros l (e & He & _); set_solver).
  assert (Hno' : ∀ inv, ¬ listed [] inv) by (intros inv (e & He & _); set_solver).
  split; [done|done| | | |].
  - intros cl Hc. by apply Hcl.
  - intros cl l Hc Hs. rewrite (proj1 (Hcl cl Hc)) in Hs. by apply Hno in Hs.
  - intros cl l u Hc Hs. rewrite (proj1 (Hcl cl Hc)) in Hs. by apply Hno in Hs.
  - intros cl1 cl2 inv1 inv2 u Hc _ Hs. rewrite (proj1 (Hcl cl1 Hc)) in Hs. by apply Hno' in Hs.
Qed.
End Invariant.

(** ** Preservation *)
Section Preservation.
Context `{SO : Sha256Ops, NO : Ipv4NetOps}.

(** The client after its request. *)
Definition advance (cl : Client) (o : Op) (r : Resp o) (p : io AllocationError Outcome) : Client := {|
  cl_context := cl_context cl; cl_role := cl_role cl;
  cl_history := cl_history cl ++ [existT o r]; cl_prog := p |}.

Lemma elem_of_advance (clients : list Client) i cl o r p x :
  clients !! i = Some cl → x ∈ <[i := advance cl o r p]> clients → x = advance cl o r p ∨ x ∈ clients.
Proof. intros _. apply elem_of_updated. Qed.

Lemma unreleased_advance clients i cl o r p u :
  clients !! i = Some cl → unreleased (<[i := advance cl o r p]> clients) u → unreleased clients u.
Proof.
  intros Hi Hu x [j Hj]%list_elem_of_lookup Hr. destruct (decide (i = j)) as [<-|Hne].
  - assert (x = cl) as -> by congruence. apply (Hu (advance cl o r p)); [|done].
    apply (list_elem_of_lookup_2 _ i), list_lookup_insert_eq. by eapply lookup_lt_Some.
  - apply Hu; [|done]. apply (list_elem_of_lookup_2 _ j). by rewrite list_lookup_insert_ne.
Qed.

(** What a client has seen after its request. *)
Lemma seen_advance s s' (clients : list Client) i cl o r p x l :
  clients !! i = Some cl → served s o r s' → x ∈ <[i := advance cl o r p]> clients →
  seen (cl_history x) l →
  (∃ y, y ∈ clients ∧ seen (cl_history y) l) ∨ ∃ nm, store s' !! nm = Some l.
Proof.
  intros Hi Hs Hx Hl. destruct (elem_of_advance _ _ _ _ _ _ _ Hi Hx) as [->|Hx'];
    [|left; by exists x].
  simpl in Hl. apply seen_snoc in Hl as [Hl|Hl]; [left|right; by eapply served_stored].
  exists cl. split; [by eapply list_elem_of_lookup_2|done].
Qed.

Lemma listed_advance s s' (clients : list Client) i cl o r p x inv :
  clients !! i = Some cl → served s o r s' → x ∈ <[i := advance cl o r p]> clients →
  listed (cl_history x) inv →
  (∃ y, y ∈ clients ∧ listed (cl_history y) inv) ∨ (inv = inventory s ∧ s' = s).
Proof.
  intros Hi Hs Hx Hl. destruct (elem_of_advance _ _ _ _ _ _ _ Hi Hx) as [->|Hx'];
    [|left; by exists x].
  simpl in Hl. apply listed_snoc in Hl as [Hl|Hl]; [left|right; by eapply served_inventory].
  exists cl. split; [by eapply list_elem_of_lookup_2|done].
Qed.

(** A delete only hits a Lease of the releasing client's own Tenant. *)
Lemma delete_own s clients cl ns nm params k l :
  sys_inv s clients → cl ∈ clients → cl_prog cl = Vis (DeleteLease ns nm params) k →
  store s !! nm = Some l → preconditions_hold params l = true →
  releases (cl_role cl) = true ∧ tenant_of l = Some (cx_tenant_uid (cl_context cl)).
Proof.
  intros Hinv Hcl Hp Hs Hpre. pose proof (inv_clients _ _ Hinv cl Hcl) as Hok.
  unfold client_ok in Hok. rewrite Hp in Hok. destruct Hok as [Hreq _]. unfold request_ok in Hreq.
  destruct (cl_role cl) as [b|b ra]; simpl in *; [done|]. split; [done|].
  destruct Hreq as (_ & _ & ld & a & intent & Hseen & Hex & _ & _ & ->).
  unfold preconditions_hold, exact_delete in Hpre. simpl in Hpre. bool_hyp.
  assert (l = ld) as ->; [|by eapply exact_claim_uid].
  eapply (proj2 (inv_identity _ _ Hinv cl ld Hcl Hseen)); [done|].
  rewrite (exact_uid _ _ _ _ Hex). done.
Qed.

Lemma step_identity s s' clients i cl o r k :
  sys_inv s clients → clients !! i = Some cl → cl_prog cl = Vis o k → served s o r s' →
  ∀ x l, x ∈ <[i := advance cl o r (k r)]> clients → seen (cl_history x) l →
    (∃ n, (n < next s')%N ∧ uid (lease_meta l) = Some (uid_of n)) ∧
    ∀ nm l', store s' !! nm = Some l' → uid (lease_meta l') = uid (lease_meta l) → l' = l.
Proof.
  intros Hinv Hi Hp Hs x l Hx Hl.
  pose proof (served_effect _ _ _ _ Hs) as He.
  destruct (effect_wf _ _ _ He (inv_wf _ _ Hinv) (inv_distinct _ _ Hinv)) as [Hwf' Hd'].
  destruct (seen_advance _ _ _ _ _ _ _ _ _ _ Hi Hs Hx Hl) as [(y & Hy & Hly)|[nm0 Hnm0]].
  - destruct (inv_identity _ _ Hinv y l Hy Hly) as [(n & Hn & Hu) Hid].
    destruct He as [|ns l0 nm -> Hname Hnone|ns nm params l0 -> Hstored Hpre]; simpl in *.
    + split; [by exists n|done].
    + split; [exists n; split; [lia|done]|]. intros nm' l' Hl' Hu'.
      apply lookup_insert_Some in Hl' as [[<- <-]|[_ Hl']]; [|by eapply Hid].
      simpl in Hu'. rewrite Hu in Hu'. assert (uid_of (next s) = uid_of n) as E by congruence.
      apply uid_of_inj in E. lia.
    + split; [by exists n|]. intros nm' l' [_ Hl']%lookup_delete_Some ?. by eapply Hid.
  - destruct (Hwf' nm0 l Hnm0) as [_ Hn]. split; [done|]. intros nm' l' Hl' Hu'.
    rewrite (Hd' nm' nm0 l' l Hl' Hnm0 Hu') in Hl'. congruence.
Qed.

Lemma step_kept s s' clients i cl o r k :
  sys_inv s clients → clients !! i = Some cl → cl_prog cl = Vis o k → served s o r s' →
  ∀ x l u, x ∈ <[i := advance cl o r (k r)]> clients → seen (cl_history x) l →
    tenant_of l = Some u → unreleased (<[i := advance cl o r (k r)]> clients) u →
    ∃ nm, name (lease_meta l) = Some nm ∧ store s' !! nm = Some l.
Proof.
  intros Hinv Hi Hp Hs x l u Hx Hl Ht Hu. pose proof (served_effect _ _ _ _ Hs) as He.
  destruct (effect_wf _ _ _ He (inv_wf _ _ Hinv) (inv_distinct _ _ Hinv)) as [Hwf' Hd'].
  apply unreleased_advance in Hu; [|done]. assert (cl ∈ clients) by by eapply list_elem_of_lookup_2.
  destruct (seen_advance _ _ _ _ _ _ _ _ _ _ Hi Hs Hx Hl) as [(y & Hy & Hly)|[nm0 Hnm0]];
    [|exists nm0; split; [by apply (Hwf' nm0 l)|done]].
  destruct (inv_kept _ _ Hinv y l u Hy Hly Ht Hu) as (nm & Hnm & Hst). exists nm. split; [done|].
  destruct He as [|ns l0 nm' -> Hname Hnone|ns nm' params l0 -> Hstored Hpre]; simpl; [done| |].
  - rewrite lookup_insert_ne; [done|]. intros ->. congruence.
  - rewrite lookup_delete_ne; [done|]. intros ->.
    destruct (delete_own s clients cl ns nm params k l0) as [Hrel Hten]; [done..|].
    apply (Hu cl); [done|done|]. congruence.
Qed.

Lemma step_ordered s s' clients i cl o r k :
  sys_inv s clients → clients !! i = Some cl → served s o r s' →
  ∀ x1 x2 inv1 inv2 u,
    x1 ∈ <[i := advance cl o r (k r)]> clients → x2 ∈ <[i := advance cl o r (k r)]> clients →
    listed (cl_history x1) inv1 → listed (cl_history x2) inv2 →
    unreleased (<[i := advance cl o r (k r)]> clients) u →
    (∀ l, l ∈ inv1 → tenant_of l = Some u → l ∈ inv2) ∨
    (∀ l, l ∈ inv2 → tenant_of l = Some u → l ∈ inv1).
Proof.
  intros Hinv Hi Hs x1 x2 inv1 inv2 u Hx1 Hx2 H1 H2 Hu. apply unreleased_advance in Hu; [|done].
  assert (Hall : ∀ y inv, y ∈ clients → listed (cl_history y) inv →
            ∀ l, l ∈ inv → tenant_of l = Some u → l ∈ inventory s).
  { intros y inv Hy Hl l Hin Ht. apply elem_of_inventory.
    destruct (inv_kept _ _ Hinv y l u Hy) as (nm & _ & Hst); [by eapply listed_seen|done..|].
    by exists nm. }
  destruct (listed_advance _ _ _ _ _ _ _ _ _ _ Hi Hs Hx1 H1) as [(y1 & Hy1 & Hl1)|[-> ->]];
    destruct (listed_advance _ _ _ _ _ _ _ _ _ _ Hi Hs Hx2 H2) as [(y2 & Hy2 & Hl2)|[-> ?]].
  - by eapply (inv_ordered _ _ Hinv y1 y2).
  - left. by eapply Hall.
  - right. by eapply Hall.
  - by left.
Qed.

Lemma step_inv s s' clients clients' :
  sys_inv s clients → sys_step (s, clients) (s', clients') → sys_inv s' clients'.
Proof.
  intros Hinv Hstep. inversion Hstep as [a b c i cl o k r Hi Hp Hs]; subst.
  change ({| cl_context := _; cl_role := _; cl_history := _; cl_prog := _ |}) with (advance cl o r (k r)).
  pose proof (served_effect _ _ _ _ Hs) as He.
  destruct (effect_wf _ _ _ He (inv_wf _ _ Hinv) (inv_distinct _ _ Hinv)) as [Hwf' Hd'].
  split; [done|done| |by eapply step_identity|by eapply step_kept|by eapply step_ordered].
  intros x Hx. destruct (elem_of_advance _ _ _ _ _ _ _ Hi Hx) as [->|Hx'];
    [|by eapply inv_clients].
  assert (client_ok cl) as Hok by (eapply inv_clients; [done|by eapply list_elem_of_lookup_2]).
  unfold client_ok in *. rewrite Hp in Hok. simpl in *. by apply Hok.
Qed.

Lemma steps_inv sys0 sys : rtc sys_step sys0 sys → sys_inv sys0.1 sys0.2 → sys_inv sys.1 sys.2.
Proof.
  induction 1 as [|[s1 c1] [s2 c2] sys3 Hstep _ IH]; [done|].
  intros Hinv. apply IH. by eapply step_inv.
Qed.

Lemma reachable_inv s clients : reachable (s, clients) → sys_inv s clients.
Proof.
  intros ([s0 c0] & Hinit & Hsteps). apply initial_inv in Hinit.
  by apply (steps_inv (s0, c0) (s, clients)).
Qed.
End Preservation.

(** ** Mutual exclusion *)
Section Exclusion.
Context `{SO : Sha256Ops, NO : Ipv4NetOps}.

(** A returned claim is backed by the stored Lease, as long as nobody
    releases the Tenant. *)
Lemma holds_stored s clients cl c :
  sys_inv s clients → cl ∈ clients → holds cl c →
  unreleased clients (cx_tenant_uid (cl_context cl)) →
  (∃ l, store s !! lease_name (as_slot_id (claim_slot c)) = Some l ∧
        exact_claim (cl_context cl) (claim_status c) l (claim_intent c)) ∧
  ∃ inv l i, listed (cl_history cl) inv ∧ l ∈ inv ∧
    exact_claim (cl_context cl) (claim_status c) l i ∧
    (∀ l', l' ∈ inv → tenant_of l' = Some (cx_tenant_uid (cl_context cl)) → l' = l) ∧
    store s !! lease_name (as_slot_id (claim_slot c)) = Some l.
Proof.
  intros Hinv Hcl Hh Hu. pose proof (inv_clients _ _ Hinv cl Hcl) as Hok.
  unfold client_ok in Hok. rewrite Hh in Hok. simpl in Hok. unfold outcome_ok in Hok.
  destruct (cl_role cl) as [b|b ra]; [|by specialize (Hok c)].
  destruct (Hok c eq_refl) as (_ & _ & (live & Hseen & Hex) & inv & l & i & Hlist & Hin & Hex' & Hone).
  assert (Hst : ∀ x j, seen (cl_history cl) x → exact_claim (cl_context cl) (claim_status c) x j →
            store s !! lease_name (as_slot_id (claim_slot c)) = Some x).
  { intros x j Hx Hj.
    destruct (inv_kept _ _ Hinv cl x (cx_tenant_uid (cl_context cl)) Hcl Hx) as (nm & Hnm & Hs);
      [by eapply exact_claim_uid|done|].
    rewrite (exact_name _ _ _ _ Hj) in Hnm. by simplify_eq/=. }
  split; [exists live; split; [by eapply Hst|done]|]. exists inv, l, i.
  split_and!; [done..|]. eapply Hst; [by eapply listed_seen|done].
Qed.

(** C1. Mutual exclusion of slots.  In every state any number of allocators
    and releasers can reach against one API server, with requests interleaved
    arbitrarily, failing, or losing their replies: a controller that has been
    granted a claim, for a Tenant nobody is releasing, holds a stored Lease
    that is exactly its own; controllers of different Tenants hold different
    Leases, and controllers of the same Tenant hold the same one. *)
Theorem slots_exclusive s clients cl1 cl2 c1 c2 :
  reachable (s, clients) → cl1 ∈ clients → cl2 ∈ clients → holds cl1 c1 → holds cl2 c2 →
  unreleased clients (cx_tenant_uid (cl_context cl1)) →
  unreleased clients (cx_tenant_uid (cl_context cl2)) →
  (∃ l, store s !! lease_name (as_slot_id (claim_slot c1)) = Some l ∧
        exact_claim (cl_context cl1) (claim_status c1) l (claim_intent c1)) ∧
  (cx_tenant_uid (cl_context cl1) ≠ cx_tenant_uid (cl_context cl2) →
     lease_name (as_slot_id (claim_slot c1)) ≠ lease_name (as_slot_id (claim_slot c2))) ∧
  (cx_tenant_uid (cl_context cl1) = cx_tenant_uid (cl_context cl2) →
     lease_name (as_slot_id (claim_slot c1)) = lease_name (as_slot_id (claim_slot c2)) ∧
     claim_lease_uid c1 = claim_lease_uid c2).
Proof.
  intros Hr%reachable_inv H1 H2 Hh1 Hh2 Hu1 Hu2.
  destruct (holds_stored s clients cl1 c1) as [(l1 & Hs1 & He1) (i1 & x1 & j1 & Hi1 & Hx1 & Hj1 & Ho1 & Hsx1)];
    [done..|].
  destruct (holds_stored s clients cl2 c2) as [(l2 & Hs2 & He2) (i2 & x2 & j2 & Hi2 & Hx2 & Hj2 & Ho2 & Hsx2)];
    [done..|].
  pose proof (exact_claim_uid _ _ _ _ He1) as Ht1. pose proof (exact_claim_uid _ _ _ _ He2) as Ht2.
  split; [by exists l1|]. split.
  - intros Hne E. rewrite E in Hs1. assert (l1 = l2) by congruence. subst. congruence.
  - intros E. assert (x1 = x2) as Hx.
    { destruct (inv_ordered _ _ Hr cl1 cl2 i1 i2 (cx_tenant_uid (cl_context cl1))) as [Hsub|Hsub];
        [done..| |].
      - apply Ho2; [apply Hsub; [done|by eapply exact_claim_uid]|].
        rewrite <-E. by eapply exact_claim_uid.
      - symmetry. apply Ho1; [apply Hsub; [done|rewrite E; by eapply exact_claim_uid]|].
        rewrite E. by eapply exact_claim_uid. }
    assert (lease_name (as_slot_id (claim_slot c1)) = lease_name (as_slot_id (claim_slot c2))) as En.
    { pose proof (exact_name _ _ _ _ Hj1) as En1. pose proof (exact_name _ _ _ _ Hj2) as En2.
      unfold claim_status in *. simpl in *. congruence. }
    split; [done|]. rewrite En in Hs1. assert (l1 = l2) by congruence. subst.
    pose proof (exact_uid _ _ _ _ He1) as Eu1. pose proof (exact_uid _ _ _ _ He2) as Eu2.
    unfold claim_intent in *. simpl in *. congruence.
Qed.
End Exclusion.

(** ** A concrete run *)
Section Scheduler.
Context `{SO : Sha256Ops, NO : Ipv4NetOps}.

(** Client [i] runs for at most [fuel] requests, all served. *)
Fixpoint run_client (fuel : nat) (i : nat) (sys : System) : System :=
  match fuel with
  | O => sys
  | S fuel' =>
      match sys.2 !! i with
      | Some cl =>
          match cl_prog cl with
          | Vis o k =>
              let r := (serve sys.1 o).1 in
              run_client fuel' i ((serve sys.1 o).2, <[i := advance cl o r (k r)]> sys.2)
          | Ret _ => sys
          end
      | None => sys
      end
  end.

Lemma run_client_steps fuel i sys : rtc sys_step sys (run_client fuel i sys).
Proof.
  revert sys. induction fuel as [|fuel IH]; intros [s clients]; simpl; [done|].
  destruct (clients !! i) as [cl|] eqn:Hi; [|done]. destruct (cl_prog cl) as [a|o k] eqn:Hp; [done|].
  eapply rtc_l; [|apply IH]. by eapply sys_request; [| |apply served_ok].
Qed.

Definition empty_server : Server := {| store := ∅; next := 0 |}.

Lemma empty_initial (participants : list (ClaimContext * Role)) :
  initial (empty_server, map (λ '(cx, role), start cx role) participants).
Proof.
  apply initial_intro.
  - intros nm l H. unfold empty_server in H. simpl in H. by rewrite lookup_empty in H.
  - intros nm nm' l l' H. unfold empty_server in H. simpl in H. by rewrite lookup_empty in H.
Qed.

Lemma all_allocators (clients : list Client) u :
  Forall (λ r, releases r = false) (map cl_role clients) → unreleased clients u.
Proof.
  intros H cl Hcl Hrel. rewrite list.Forall_forall in H.
  specialize (H (cl_role cl) (list_elem_of_fmap_2 _ _ _ Hcl)). congruence.
Qed.

Lemma context_at (clients : list Client) i cl cx :
  clients !! i = Some cl → map cl_context clients !! i = Some cx → cl_context cl = cx.
Proof.
  change (map cl_context clients) with (cl_context <$> clients).
  rewrite list_lookup_fmap. intros ->. simpl. congruence.
Qed.

Definition returned (cl : Client) : option Claim :=
  match cl_prog cl with Ret (Ok (inl c)) => Some c | _ => None end.

Lemma returned_holds (clients : list Client) i c :
  and_then returned (clients !! i) = Some c →
  ∃ cl, clients !! i = Some cl ∧ cl ∈ clients ∧ holds cl c.
Proof.
  destruct (clients !! i) as [cl|] eqn:Hi; [|done]. simpl. unfold returned, holds. intros H.
  exists cl. split_and!; [done|by eapply list_elem_of_lookup_2|].
  destruct (cl_prog cl) as [[[d|d]|e]|]; simp_eqs; done.
Qed.
End Scheduler.

(** Two Tenants claim a slot, one after the other. *)
Module Demo.
Definition participants : list (ClaimContext * Role) := [
  (ClaimFixture.context "alpha" "uid-a", Allocator None);
  (ClaimFixture.context "beta" "uid-b", Allocator None)].
Definition sys0 : System := (empty_server,
  map (λ '(cx, role), @start Concrete.hex_ops Concrete.cidr_ops cx role) participants).
Definition sys : System := run_client 10 1 (run_client 10 0 sys0).
Definition claim (id : string) (ordinal : Z) (ep pod service u rv : string) : Claim := {|
  claim_slot := Fixture.slot id ordinal ep pod service;
  claim_lease_uid := u; claim_resource_version := rv |}.
Definition claim1 := claim "tenant-00" 0 "172.18.255.223" "10.73.0.0/16" "10.143.0.0/16" "uid-0" "0".
Definition claim2 := claim "tenant-01" 1 "172.18.255.224" "10.74.0.0/16" "10.144.0.0/16" "uid-1" "1".
End Demo.

Lemma slots_exclusive_witness :
  @reachable Concrete.hex_ops Concrete.cidr_ops (Demo.sys.1, Demo.sys.2) ∧
  and_then returned (Demo.sys.2 !! 0%nat) = Some Demo.claim1 ∧
  and_then returned (Demo.sys.2 !! 1%nat) = Some Demo.claim2 ∧
  @lease_name Concrete.hex_ops (as_slot_id (claim_slot Demo.claim1))
  ≠ @lease_name Concrete.hex_ops (as_slot_id (claim_slot Demo.claim2)).
Proof.
  assert (Hr : @reachable Concrete.hex_ops Concrete.cidr_ops (Demo.sys.1, Demo.sys.2)).
  { exists Demo.sys0. split; [apply empty_initial|]. rewrite <-surjective_pairing. unfold Demo.sys.
    etrans; apply run_client_steps. }
  assert (Hu : ∀ u, unreleased Demo.sys.2 u).
  { intros u. apply all_allocators.
    assert (map cl_role Demo.sys.2 = [Allocator None; Allocator None]) as -> by (vm_compute; reflexivity).
    repeat constructor. }
  assert (H1 : and_then returned (Demo.sys.2 !! 0%nat) = Some Demo.claim1) by (vm_compute; reflexivity).
  assert (H2 : and_then returned (Demo.sys.2 !! 1%nat) = Some Demo.claim2) by (vm_compute; reflexivity).
  split; [exact Hr|]. split; [exact H1|]. split; [exact H2|].
  destruct (returned_holds _ _ _ H1) as (cl1 & Hi1 & Hin1 & Hh1).
  destruct (returned_holds _ _ _ H2) as (cl2 & Hi2 & Hin2 & Hh2).
  refine (proj1 (proj2 (slots_exclusive Demo.sys.1 Demo.sys.2 cl1 cl2 _ _ Hr Hin1 Hin2 Hh1 Hh2
                          (Hu _) (Hu _))) _).
  rewrite (context_at _ _ _ (ClaimFixture.context "alpha" "uid-a") Hi1) by (vm_compute; reflexivity).
  rewrite (context_at _ _ _ (ClaimFixture.context "beta" "uid-b") Hi2) by (vm_compute; reflexivity).
  discriminate.
Defined.
