(* ===== verification/AllocationTable.v ===== *)
(** * The Leases as a lock table

    What the Lease protocol of [allocation.rs] promises its clients, without
    Leases: a table from slot names to the Tenant that occupies them, which
    changes only by atomic acquisitions of free entries and by releases of
    one's own.  [allocation_refines_table] shows that every interleaving of
    [allocate] and [release] against the API server is a run of that table. *)

From stdpp Require Import relations.
From S2P Require Import Prelude RustStd Externals Kube Errors Api Ownership Foundation Docker Effects Ops.
From S2P Require Import Allocation AllocationRun AllocationSystem.

#[local] Arguments wp : simpl never.

Section Table.
Context `{SO : Sha256Ops, NO : Ipv4NetOps}.

(** Who occupies a name: a Tenant UID, or something that carries none. *)
Notation Table := (gmap string (option string)).

Definition table (s : Server) : Table := tenant_of <$> store s.

Inductive table_step (participants : list (ClaimContext * Role)) : Table → Table → Prop :=
| table_acquire (T : Table) cx slot :
    (cx, Allocator None) ∈ participants → slot ∈ cx_slots cx →
    T !! lease_name (as_slot_id slot) = None →
    table_step participants T (<[lease_name (as_slot_id slot) := Some (cx_tenant_uid cx)]> T)
| table_release (T : Table) cx bound nm :
    (cx, Releaser bound true) ∈ participants → T !! nm = Some (Some (cx_tenant_uid cx)) →
    table_step participants T (base.delete nm T).

(** The participants of a system never change. *)
Definition participants_of (clients : list Client) : list (ClaimContext * Role) :=
  map (λ cl, (cl_context cl, cl_role cl)) clients.

Lemma participants_start ps : participants_of (map (λ '(cx, role), start cx role) ps) = ps.
Proof.
  unfold participants_of. rewrite map_map. induction ps as [|[cx role] ps IH]; [done|].
  simpl. by f_equal.
Qed.

Lemma participants_advance clients i cl o r p :
  clients !! i = Some cl → participants_of (<[i := advance cl o r p]> clients) = participants_of clients.
Proof.
  intros Hi. unfold participants_of.
  change (map ?f ?l) with (f <$> l). rewrite list_fmap_insert. apply list_insert_id.
  by rewrite list_lookup_fmap, Hi.
Qed.

Lemma tenant_of_created cx slot n : tenant_of (with_identity (new_lease cx slot) n) = Some (cx_tenant_uid cx).
Proof. unfold tenant_of, get_annotation. simpl. apply claim_annotations_lookup. in_list. Qed.

(** A create that takes effect acquires a free entry for its own Tenant. *)
Lemma create_acquires s clients cl ns l nm k :
  sys_inv s clients → cl ∈ clients → cl_prog cl = Vis (CreateLease ns l) k →
  name (lease_meta l) = Some nm → store s !! nm = None →
  table_step (participants_of clients) (table s) (<[nm := tenant_of (with_identity l (next s))]> (table s)).
Proof.
  intros Hinv Hcl Hp Hn Hs. pose proof (inv_clients _ _ Hinv cl Hcl) as Hok.
  unfold client_ok in Hok. rewrite Hp in Hok. destruct Hok as [Hreq _]. unfold request_ok in Hreq.
  destruct (cl_role cl) as [b|b ra] eqn:Hrole; simpl in *; [|done].
  destruct Hreq as (_ & slot & inv & e & _ & _ & -> & -> & Hslot & _).
  simpl in Hn. simplify_eq. rewrite tenant_of_created. apply table_acquire; [|done|].
  - apply list_elem_of_fmap. exists cl. by rewrite Hrole.
  - unfold table. by rewrite lookup_fmap, Hs.
Qed.

(** A delete that takes effect releases an entry of its own Tenant. *)
Lemma delete_releases s clients cl ns nm params k l :
  sys_inv s clients → cl ∈ clients → cl_prog cl = Vis (DeleteLease ns nm params) k →
  store s !! nm = Some l → preconditions_hold params l = true →
  table_step (participants_of clients) (table s) (base.delete nm (table s)).
Proof.
  intros Hinv Hcl Hp Hs Hpre.
  destruct (delete_own s clients cl ns nm params k l) as [_ Ht]; [done..|].
  pose proof (inv_clients _ _ Hinv cl Hcl) as Hok. unfold client_ok in Hok. rewrite Hp in Hok.
  destruct Hok as [Hreq _]. unfold request_ok in Hreq.
  destruct (cl_role cl) as [b|b ra] eqn:Hrole; simpl in *; [done|]. destruct Hreq as (_ & -> & _).
  eapply (table_release _ _ (cl_context cl) b).
  - apply list_elem_of_fmap. exists cl. by rewrite Hrole.
  - unfold table. by rewrite lookup_fmap, Hs, <-Ht.
Qed.

Lemma step_simulated s clients s' clients' :
  sys_inv s clients → sys_step (s, clients) (s', clients') →
  participants_of clients' = participants_of clients ∧
  rtc (table_step (participants_of clients)) (table s) (table s').
Proof.
  intros Hinv Hstep. inversion Hstep as [a b c i cl o k r Hi Hp Hs]; subst.
  change ({| cl_context := _; cl_role := _; cl_history := _; cl_prog := _ |}) with (advance cl o r (k r)).
  split; [by apply participants_advance|].
  assert (Hcl : cl ∈ clients) by by eapply list_elem_of_lookup_2.
  destruct (served_effect _ _ _ _ Hs) as [|ns l nm -> Hn Hs0|ns nm params l -> Hs0 Hpre]; [done|..];
    apply rtc_once; unfold table; simpl.
  - rewrite fmap_insert. by eapply create_acquires.
  - rewrite fmap_delete. by eapply delete_releases.
Qed.

Lemma steps_simulated sys sys' :
  rtc sys_step sys sys' → sys_inv sys.1 sys.2 →
  participants_of sys'.2 = participants_of sys.2 ∧
  rtc (table_step (participants_of sys.2)) (table sys.1) (table sys'.1).
Proof.
  induction 1 as [|[s c] [s1 c1] sys3 Hstep _ IH]; [done|]. intros Hinv. simpl in *.
  destruct (step_simulated s c s1 c1) as [Ep Hr]; [done..|].
  destruct IH as [Ep' Hr']; [by eapply step_inv|]. rewrite Ep in Ep', Hr'. split; [done|by etrans].
Qed.

(** C2. The Lease protocol refines a lock table.  However the requests of any
    number of allocators and releasers are interleaved, refused or left
    unanswered, the occupation of the slots evolves exactly by atomic
    acquisitions of entries that were free, by an unbound allocator for its
    own Tenant and one of its slots, and by releases of the releaser's own
    entry with its residue gone.  A claim that was granted to a Tenant nobody
    releases occupies its entry in the table. *)
Theorem allocation_refines_table s0 participants s clients :
  server_wf s0 → server_distinct s0 →
  rtc sys_step (s0, map (λ '(cx, role), start cx role) participants) (s, clients) →
  rtc (table_step participants) (table s0) (table s) ∧
  ∀ cl c, cl ∈ clients → holds cl c → unreleased clients (cx_tenant_uid (cl_context cl)) →
    table s !! lease_name (as_slot_id (claim_slot c)) = Some (Some (cx_tenant_uid (cl_context cl))).
Proof.
  intros Hwf Hd Hsteps.
  assert (Hinv := initial_inv _ _ (initial_intro s0 participants Hwf Hd)).
  destruct (steps_simulated _ _ Hsteps Hinv) as [_ Hr]. simpl in Hr. rewrite participants_start in Hr.
  split; [done|]. intros cl c Hcl Hh Hu. apply steps_inv in Hsteps; [|done].
  destruct (holds_stored s clients cl c) as [(l & Hs & Hex) _]; [done..|].
  unfold table. rewrite lookup_fmap, Hs. simpl. f_equal. by eapply exact_claim_uid.
Qed.
End Table.

(** Two Tenants claim a slot each: the table goes from empty to two entries. *)
Lemma allocation_refines_table_witness :
  rtc (@table_step Concrete.hex_ops Demo.participants) ∅ (table Demo.sys.1) ∧
  and_then returned (Demo.sys.2 !! 1%nat) = Some Demo.claim2 ∧
  table Demo.sys.1 !! @lease_name Concrete.hex_ops (as_slot_id (claim_slot Demo.claim2)) = Some (Some "uid-b").
Proof.
  assert (Hsteps : rtc sys_step
    (empty_server, map (λ '(cx, role), @start Concrete.hex_ops Concrete.cidr_ops cx role) Demo.participants)
    (Demo.sys.1, Demo.sys.2)).
  { rewrite <-surjective_pairing. change (rtc sys_step Demo.sys0 Demo.sys). unfold Demo.sys.
    etrans; apply run_client_steps. }
  assert (Hu : ∀ u, unreleased Demo.sys.2 u).
  { intros u. apply all_allocators.
    assert (map cl_role Demo.sys.2 = [Allocator None; Allocator None]) as -> by (vm_compute; reflexivity).
    repeat constructor. }
  assert (H2 : and_then returned (Demo.sys.2 !! 1%nat) = Some Demo.claim2) by (vm_compute; reflexivity).
  assert (Hwf : server_wf empty_server) by done. assert (Hd : server_distinct empty_server) by done.
  destruct (allocation_refines_table empty_server Demo.participants Demo.sys.1 Demo.sys.2 Hwf Hd Hsteps)
    as [Hr Hh].
  destruct (returned_holds _ _ _ H2) as (cl & Hi & Hin & Hholds).
  split; [exact Hr|]. split; [exact H2|]. rewrite (Hh cl Demo.claim2 Hin Hholds (Hu _)).
  by rewrite (context_at _ _ _ (ClaimFixture.context "beta" "uid-b") Hi) by (vm_compute; reflexivity).
Defined.
