(* ===== verification/Catalog.v ===== *)
(** * The database catalog of a Tenant

    [database-runtime/src/catalog_runtime.rs]: the namespaces and the
    [TenantDatabaseCatalog] object of a Tenant, how they are created, observed
    and drained; and the part of [controller/src/reconcile/mod.rs] that drives
    them through the outcomes recorded in the Tenant status.  [clocks i] is the
    clock read by the [i]-th status update of a reconciliation. *)

From S2P Require Import Prelude RustStd Kube Errors Api Docker Allocation ReconcileErrors.
From S2P Require Import Sanitize Readiness Effects Ops Status.

Open Scope Z_scope.

(** ** [catalog_runtime.rs] *)
Definition CREDENTIAL_ROLE := "tenant-database-credentials".
Definition TENANT_UID := "tenancy.cnpg-vcluster.io/tenant-uid".
Definition CATALOG_FINALIZER := "tenancy.cnpg-vcluster.io/database-catalog-finalizer".

Inductive CatalogRuntimeError :=
| CatalogForeign
| CatalogUnresolved
| CatalogRejected
| CatalogApi (e : KubeError).

Definition catalog_display (e : CatalogRuntimeError) : string :=
  match e with
  | CatalogForeign => "database runtime resource is missing, replaced, or has foreign ownership"
  | CatalogUnresolved => "catalog creation or deletion has an unresolved outcome"
  | CatalogRejected => "resource CREATE was definitely rejected by the API server"
  | CatalogApi e => kube_display e
  end.

Record CatalogIdentity := {
  ci_namespace_uid : string;
  ci_catalog_uid : string;
  ci_storage_namespace_uid : option string;
}.

#[export] Instance CatalogIdentity_eq_dec : EqDecision CatalogIdentity.
Proof. solve_decision. Defined.

Definition storage_namespace (tenant : string) : string := "tenant-db-storage-" +:+ tenant.

Definition as_bool (v : Value) : option bool := match v with VBool b => Some b | _ => None end.
Definition as_object (v : Value) : option (list (string * Value)) :=
  match v with VObject fields => Some fields | _ => None end.
(** [value == Some(&json!(b))] *)
Definition is_json_bool (v : option Value) (b : bool) : bool := and_then as_bool v == Some b.

(** [Map::insert] *)
Fixpoint json_insert (fields : list (string * Value)) (key : string) (v : Value)
    : list (string * Value) :=
  match fields with
  | [] => [(key, v)]
  | (k, x) :: rest => if k == key then (k, v) :: rest else (k, x) :: json_insert rest key v
  end.

Definition catalog_identity (catalog : DynamicObject) (tenant_name tenant_uid : string)
    (expected_uid : option string) (require_open : bool) : result CatalogRuntimeError string :=
  let meta := dyn_meta catalog in
  let! u := ok_or (filter_non_empty (uid meta)) CatalogForeign in
  let! owners := ok_or (owner_references meta) CatalogForeign in
  if (unwrap_or "" (name meta) != tenant_name)
     || (namespace meta != Some (database_namespace tenant_name))
     || is_some (deletion_timestamp meta)
     || is_some_and (λ expected, expected != u) expected_uid
     || match owners with
        | [owner] =>
            (owner_api_version owner != "tenancy.cnpg-vcluster.io/v1alpha4")
            || (owner_kind owner != "Tenant") || (owner_name owner != tenant_name)
            || (owner_uid owner != tenant_uid)
        | _ => true
        end
     || is_none_or (λ fs, negb (any (λ f, f == CATALOG_FINALIZER) fs)) (finalizers meta)
     || (and_then as_str (pointer (dyn_data catalog) ["spec"; "tenantName"]) != Some tenant_name)
     || (and_then as_str (pointer (dyn_data catalog) ["spec"; "tenantUID"]) != Some tenant_uid)
     || is_none (and_then as_bool (pointer (dyn_data catalog) ["spec"; "closed"]))
     || is_none (and_then as_object (pointer (dyn_data catalog) ["spec"; "entries"]))
     || (require_open && negb (is_json_bool (pointer (dyn_data catalog) ["spec"; "closed"]) false))
  then Err CatalogForeign
  else Ok u.

Definition markers (nm tenant_uid : string) : ObjectMeta := {|
  name := Some nm; namespace := None; uid := None; resource_version := None; generation := None;
  labels := Some {[ TENANT_UID := tenant_uid ]}; annotations := None; owner_references := None;
  finalizers := None; deletion_timestamp := None |}.

Definition owned (meta : ObjectMeta) (nm tenant_uid : string) (expected : option string)
    : result CatalogRuntimeError string :=
  let! u := ok_or (filter_non_empty (uid meta)) CatalogForeign in
  if (name meta != Some nm)
     || is_some (deletion_timestamp meta)
     || (get_label meta TENANT_UID != Some tenant_uid)
     || is_some_and (λ owners, match owners with [] => false | _ => true end) (owner_references meta)
     || is_some_and (λ e, e != u) expected
  then Err CatalogForeign
  else Ok u.

(** A status by which the server says that it did not create the object. *)
Definition rejects_create (e : KubeError) : bool :=
  match e with
  | KubeApi code _ _ => any (Z.eqb code) [400; 403; 404; 405; 422]
  | KubeOther _ => false
  end.
Definition already_there (e : KubeError) : bool :=
  match e with KubeApi code _ _ => code =? 409 | KubeOther _ => false end.

Definition ensure_namespace (nm tenant_uid : string) (expected : option string)
    : io CatalogRuntimeError string :=
  try! found <- perform_map CatalogApi (perform (GetNamespace nm)) ;;
  match found with
  | Some ns => Ret (owned (ns_meta ns) nm tenant_uid expected)
  | None =>
      if is_some expected then Ret (Err CatalogForeign) else
      do! created <- perform (CreateNamespace {| ns_meta := markers nm tenant_uid |}) ;;
      match created with
      | Ok ns => Ret (owned (ns_meta ns) nm tenant_uid expected)
      | Err error =>
          if already_there error then
            try! ns <- perform_map CatalogApi (perform (ReadNamespace nm)) ;;
            Ret (owned (ns_meta ns) nm tenant_uid expected)
          else if rejects_create error then Ret (Err CatalogRejected)
          else Ret (Err (CatalogApi error))
      end
  end.

Definition observe_namespace (nm tenant_uid : string) (expected : option string)
    : io CatalogRuntimeError (option string) :=
  try! found <- perform_map CatalogApi (perform (GetNamespace nm)) ;;
  Ret (map_transpose (λ ns, owned (ns_meta ns) nm tenant_uid expected) found).

Definition catalog_types : TypeMeta := {|
  tm_api_version := "tenancy.cnpg-vcluster.io/v1alpha1"; tm_kind := "TenantDatabaseCatalog" |}.

(** The object [ensure_catalog] creates. *)
Definition desired_catalog (tenant_name tenant_uid : string) : DynamicObject := {|
  dyn_types := Some catalog_types;
  dyn_meta := {|
    name := Some tenant_name; namespace := Some (database_namespace tenant_name); uid := None;
    resource_version := None; generation := None; labels := None; annotations := None;
    owner_references := Some [{|
      owner_api_version := "tenancy.cnpg-vcluster.io/v1alpha4"; owner_kind := "Tenant";
      owner_name := tenant_name; owner_uid := tenant_uid;
      owner_controller := None; owner_block_deletion := None |}];
    finalizers := Some [CATALOG_FINALIZER]; deletion_timestamp := None |};
  dyn_data := VObject [("spec", VObject [
    ("tenantName", VString tenant_name); ("tenantUID", VString tenant_uid);
    ("closed", VBool false); ("entries", VObject [])])] |}.

(** The storage namespace of a Tenant on Azure. *)
Definition ensure_storage (tenant_name tenant_uid : string) (expected : option string) (azure : bool)
    : io CatalogRuntimeError (option string) :=
  if azure then
    try! u <- ensure_namespace (storage_namespace tenant_name) tenant_uid expected ;;
    Ret (Ok (Some u))
  else Ret (Ok None).

(** The catalog object, created when it is missing and none is expected. *)
Definition find_or_create (tenant_name tenant_uid : string) (expected_catalog_uid : option string)
    : io CatalogRuntimeError DynamicObject :=
  let ns := database_namespace tenant_name in
  try! found <- perform_map CatalogApi (perform (GetCatalog ns tenant_name)) ;;
  match found with
  | Some catalog => Ret (Ok catalog)
  | None =>
      if is_some expected_catalog_uid then Ret (Err CatalogForeign) else
      do! created <- perform (CreateCatalog ns (desired_catalog tenant_name tenant_uid)) ;;
      match created with
      | Ok catalog => Ret (Ok catalog)
      | Err error =>
          if already_there error
          then perform_map CatalogApi (perform (ReadCatalog ns tenant_name))
          else if rejects_create error then Ret (Err CatalogRejected)
          else Ret (Err (CatalogApi error))
      end
  end.

Definition ensure_catalog (tenant_name tenant_uid : string)
    (expected_namespace_uid expected_catalog_uid expected_storage_uid : option string) (azure : bool)
    : io CatalogRuntimeError CatalogIdentity :=
  try! namespace_uid <- ensure_namespace (database_namespace tenant_name) tenant_uid
                          expected_namespace_uid ;;
  try! storage_namespace_uid <- ensure_storage tenant_name tenant_uid expected_storage_uid azure ;;
  try! catalog <- find_or_create tenant_name tenant_uid expected_catalog_uid ;;
  pure! catalog_uid <- catalog_identity catalog tenant_name tenant_uid expected_catalog_uid true ;;
  Ret (Ok {| ci_namespace_uid := namespace_uid; ci_catalog_uid := catalog_uid;
             ci_storage_namespace_uid := storage_namespace_uid |}).

(** [if expected.is_some() || get_opt(storage).await?.is_some()] *)
Definition storage_expected (tenant_name : string) (expected : option string)
    : io CatalogRuntimeError bool :=
  if is_some expected then Ret (Ok true) else
  try! found <- perform_map CatalogApi (perform (GetNamespace (storage_namespace tenant_name))) ;;
  Ret (Ok (is_some found)).

(** The storage namespace that belongs to an observed catalog, if any. *)
Definition observe_storage (tenant_name tenant_uid : string) (expected : option string)
    : io CatalogRuntimeError (option string) :=
  let storage := storage_namespace tenant_name in
  try! has_storage <- storage_expected tenant_name expected ;;
  if (has_storage : bool) then
    try! object <- perform_map CatalogApi (perform (ReadNamespace storage)) ;;
    pure! u <- owned (ns_meta object) storage tenant_uid expected ;;
    Ret (Ok (Some u))
  else Ret (Ok None).

Definition observe_catalog (tenant_name tenant_uid : string) (expected : option CatalogIdentity)
    : io CatalogRuntimeError (option CatalogIdentity) :=
  let ns := database_namespace tenant_name in
  try! found <- perform_map CatalogApi (perform (GetCatalog ns tenant_name)) ;;
  match found with
  | None => Ret (Ok None)
  | Some catalog =>
      pure! catalog_uid <- catalog_identity catalog tenant_name tenant_uid
                             (option_map ci_catalog_uid expected) false ;;
      try! ns_object <- perform_map CatalogApi (perform (ReadNamespace ns)) ;;
      pure! namespace_uid <- owned (ns_meta ns_object) ns tenant_uid
                               (option_map ci_namespace_uid expected) ;;
      try! storage_uid <- observe_storage tenant_name tenant_uid
                            (and_then ci_storage_namespace_uid expected) ;;
      Ret (Ok (Some {| ci_namespace_uid := namespace_uid; ci_catalog_uid := catalog_uid;
                       ci_storage_namespace_uid := storage_uid |}))
  end.

(** [DeleteParams] with preconditions and the default propagation. *)
Definition precise_delete (u : string) (rv : option string) : DeleteParams := {|
  precondition_uid := Some u; precondition_resource_version := rv; background := false |}.

Definition delete_namespace (nm tenant_uid recorded_uid : string) : io CatalogRuntimeError bool :=
  try! found <- perform_map CatalogApi (perform (GetNamespace nm)) ;;
  match found with
  | None => Ret (Ok true)
  | Some ns =>
      if is_some (deletion_timestamp (ns_meta ns)) && (uid (ns_meta ns) == Some recorded_uid)
      then Ret (Ok false)
      else
        pure! _ <- owned (ns_meta ns) nm tenant_uid (Some recorded_uid) ;;
        try! _ <- perform_map CatalogApi (perform (DeleteNamespace nm
                    (precise_delete recorded_uid (resource_version (ns_meta ns))))) ;;
        Ret (Ok false)
  end.

Definition credential_delete_params (meta : ObjectMeta) : result CatalogRuntimeError DeleteParams :=
  let! u := ok_or (filter_non_empty (uid meta)) CatalogForeign in
  let! rv := ok_or (filter_non_empty (resource_version meta)) CatalogForeign in
  Ok (precise_delete u (Some rv)).

(** [!recorded.namespace_uid.is_empty() && !delete_namespace(..).await?] *)
Definition namespace_remains (nm tenant_uid recorded_uid : string) : io CatalogRuntimeError bool :=
  if non_empty recorded_uid
  then try! gone <- delete_namespace nm tenant_uid recorded_uid ;; Ret (Ok (negb gone))
  else Ret (Ok false).

Definition drain_storage (tenant_name tenant_uid : string) (storage_uid : option string)
    : io CatalogRuntimeError bool :=
  match storage_uid with
  | None => Ret (Ok true)
  | Some u =>
      let storage := storage_namespace tenant_name in
      try! disks <- perform_map CatalogApi (perform (ListDisks storage)) ;;
      match disks with
      | _ :: _ => Ret (Ok false)
      | [] =>
          try! gone <- delete_namespace storage tenant_uid u ;;
          Ret (Ok gone)
      end
  end.

Definition drain_catalog_without_catalog (tenant_name tenant_uid : string) (recorded : CatalogIdentity)
    : io CatalogRuntimeError bool :=
  try! role <- perform_map CatalogApi (perform (GetRole tenant_name CREDENTIAL_ROLE)) ;;
  try! binding <- perform_map CatalogApi (perform (GetRoleBinding tenant_name CREDENTIAL_ROLE)) ;;
  pure! _ <- map_transpose (λ r, owned (role_meta r) CREDENTIAL_ROLE tenant_uid None) role ;;
  pure! _ <- map_transpose (λ b, owned (binding_meta b) CREDENTIAL_ROLE tenant_uid None) binding ;;
  match binding, role with
  | Some b, _ =>
      pure! params <- credential_delete_params (binding_meta b) ;;
      try! _ <- perform_map CatalogApi (perform (DeleteRoleBinding tenant_name CREDENTIAL_ROLE params)) ;;
      Ret (Ok false)
  | None, Some r =>
      pure! params <- credential_delete_params (role_meta r) ;;
      try! _ <- perform_map CatalogApi (perform (DeleteRole tenant_name CREDENTIAL_ROLE params)) ;;
      Ret (Ok false)
  | None, None =>
      try! remains <- namespace_remains (database_namespace tenant_name) tenant_uid
                        (ci_namespace_uid recorded) ;;
      if (remains : bool) then Ret (Ok false)
      else drain_storage tenant_name tenant_uid (ci_storage_namespace_uid recorded)
  end.

(** Some entry of a catalog is not marked for deletion. *)
Definition unmarked_entry (entries : list (string * Value)) : bool :=
  any (λ '(_, entry), negb (is_json_bool (pointer entry ["deleting"]) true)) entries.

(** Mark every entry, failing on one that is not an object. *)
Definition mark_entries (entries : list (string * Value))
    : result CatalogRuntimeError (list (string * Value)) :=
  try_map (λ '(key, entry),
    let! fields := ok_or (as_object entry) CatalogForeign in
    Ok (key, VObject (json_insert fields "deleting" (VBool true)))) entries.

(** The branch of [drain_catalog] for an existing catalog. *)
Definition drain_existing (tenant_name tenant_uid : string) (recorded : CatalogIdentity)
    (catalog : DynamicObject) : io CatalogRuntimeError bool :=
  let ns := database_namespace tenant_name in
  if is_some (deletion_timestamp (dyn_meta catalog))
     && (uid (dyn_meta catalog) == Some (ci_catalog_uid recorded))
  then Ret (Ok false)
  else
    pure! catalog_uid <- catalog_identity catalog tenant_name tenant_uid
                           (Some (ci_catalog_uid recorded)) false ;;
    pure! version <- ok_or (resource_version (dyn_meta catalog)) CatalogForeign ;;
    pure! entries <- ok_or (and_then as_object (pointer (dyn_data catalog) ["spec"; "entries"]))
                       CatalogForeign ;;
    if negb (is_json_bool (pointer (dyn_data catalog) ["spec"; "closed"]) true)
       || unmarked_entry entries
    then
      pure! deleting <- mark_entries entries ;;
      try! _ <- perform_map CatalogApi (perform (PatchCatalog ns tenant_name
                  (CloseCatalog catalog_uid version deleting))) ;;
      Ret (Ok false)
    else if match entries with [] => false | _ => true end
            || is_some_and (λ status, match status with [] => false | _ => true end)
                 (and_then as_object (pointer (dyn_data catalog) ["status"; "entries"]))
    then Ret (Ok false)
    else
      try! updated <- perform_map CatalogApi (perform (PatchCatalog ns tenant_name
                        (ReleaseCatalog catalog_uid version))) ;;
      if uid (dyn_meta updated) != Some catalog_uid then Ret (Err CatalogForeign) else
      try! _ <- perform_map CatalogApi (perform (DeleteCatalog ns tenant_name
                  (precise_delete catalog_uid (resource_version (dyn_meta updated))))) ;;
      Ret (Ok false).

(** The branch of [drain_catalog] when no catalog identity is recorded: what
    exists is taken over if it carries the Tenant's marker. *)
Definition drain_unrecorded (tenant_name tenant_uid : string) (recorded : option CatalogIdentity)
    : io CatalogRuntimeError bool :=
  let ns := database_namespace tenant_name in
  let storage := storage_namespace tenant_name in
  let recorded_namespace := filter_non_empty (option_map ci_namespace_uid recorded) in
  let recorded_storage := and_then ci_storage_namespace_uid recorded in
  try! found <- perform_map CatalogApi (perform (GetCatalog ns tenant_name)) ;;
  if is_some found then Ret (Err CatalogForeign) else
  try! ns_object <- perform_map CatalogApi (perform (GetNamespace ns)) ;;
  pure! namespace_uid <- map_transpose (λ o, owned (ns_meta o) ns tenant_uid recorded_namespace) ns_object ;;
  try! storage_object <- perform_map CatalogApi (perform (GetNamespace storage)) ;;
  pure! storage_uid <- map_transpose (λ o, owned (ns_meta o) storage tenant_uid recorded_storage)
                         storage_object ;;
  drain_catalog_without_catalog tenant_name tenant_uid {|
    ci_namespace_uid := unwrap_or "" (match recorded_namespace with Some u => Some u | None => namespace_uid end);
    ci_catalog_uid := "";
    ci_storage_namespace_uid := match recorded_storage with Some u => Some u | None => storage_uid end |}.

Definition drain_catalog (tenant_name tenant_uid : string) (recorded : option CatalogIdentity)
    : io CatalogRuntimeError bool :=
  match recorded with
  | Some identity =>
      if is_empty (ci_catalog_uid identity)
      then drain_unrecorded tenant_name tenant_uid recorded
      else
        try! found <- perform_map CatalogApi (perform (GetCatalog (database_namespace tenant_name) tenant_name)) ;;
        match found with
        | Some catalog => drain_existing tenant_name tenant_uid identity catalog
        | None => drain_catalog_without_catalog tenant_name tenant_uid identity
        end
  | None => drain_unrecorded tenant_name tenant_uid None
  end.

(** ** Credential access *)
Definition in_namespace (ns : string) (meta : ObjectMeta) : ObjectMeta := {|
  name := name meta; namespace := Some ns; uid := uid meta;
  resource_version := resource_version meta; generation := generation meta; labels := labels meta;
  annotations := annotations meta; owner_references := owner_references meta;
  finalizers := finalizers meta; deletion_timestamp := deletion_timestamp meta |}.

Definition desired_role (tenant_name tenant_uid : string) : Role := {|
  role_meta := in_namespace tenant_name (markers CREDENTIAL_ROLE tenant_uid);
  role_rules := Some [{|
    rule_api_groups := Some [""]; rule_resources := Some ["secrets"];
    rule_non_resource_urls := None; rule_resource_names := Some [tenant_name +:+ "-kubeconfig"]; rule_verbs := ["get"] |}] |}.

Definition desired_binding (tenant_name tenant_uid : string) : RoleBinding := {|
  binding_meta := in_namespace tenant_name (markers CREDENTIAL_ROLE tenant_uid);
  binding_role_ref := {|
    ref_api_group := Some "rbac.authorization.k8s.io"; ref_kind := "Role"; ref_name := CREDENTIAL_ROLE |};
  binding_subjects := Some (map (λ nm, {|
    subject_kind := "ServiceAccount"; subject_name := nm; subject_namespace := Some "tenant-system";
    subject_api_group := None |})
    ["tenant-admin"; "database-controller"]) |}.

(** [get_opt], or [create], or [get] when the object appeared meanwhile. *)
Definition ensure_role (ns : string) (desired : Role) : io CatalogRuntimeError Role :=
  try! found <- perform_map CatalogApi (perform (GetRole ns CREDENTIAL_ROLE)) ;;
  match found with
  | Some role => Ret (Ok role)
  | None =>
      do! created <- perform (CreateRole ns desired) ;;
      match created with
      | Ok role => Ret (Ok role)
      | Err error =>
          if already_there error
          then perform_map CatalogApi (perform (ReadRole ns CREDENTIAL_ROLE))
          else Ret (Err (CatalogApi error))
      end
  end.

Definition ensure_binding (ns : string) (desired : RoleBinding) : io CatalogRuntimeError RoleBinding :=
  try! found <- perform_map CatalogApi (perform (GetRoleBinding ns CREDENTIAL_ROLE)) ;;
  match found with
  | Some binding => Ret (Ok binding)
  | None =>
      do! created <- perform (CreateRoleBinding ns desired) ;;
      match created with
      | Ok binding => Ret (Ok binding)
      | Err error =>
          if already_there error
          then perform_map CatalogApi (perform (ReadRoleBinding ns CREDENTIAL_ROLE))
          else Ret (Err (CatalogApi error))
      end
  end.

Definition ensure_credentials (tenant_name tenant_uid : string) : io CatalogRuntimeError unit :=
  let desired := desired_role tenant_name tenant_uid in
  let binding := desired_binding tenant_name tenant_uid in
  try! role <- ensure_role tenant_name desired ;;
  pure! _ <- owned (role_meta role) CREDENTIAL_ROLE tenant_uid None ;;
  if (namespace (role_meta role) != Some tenant_name) || (role_rules role != role_rules desired)
  then Ret (Err CatalogForeign) else
  try! current <- ensure_binding tenant_name binding ;;
  pure! _ <- owned (binding_meta current) CREDENTIAL_ROLE tenant_uid None ;;
  if (namespace (binding_meta current) != Some tenant_name)
     || (binding_role_ref current != binding_role_ref binding)
     || (binding_subjects current != binding_subjects binding)
  then Ret (Err CatalogForeign) else Ret (Ok tt).

(** ** [reconcile/mod.rs] *)
Definition create_intent (tenant : Tenant) : result ReconcileError CatalogCreateIntent :=
  let! u := ok_or (uid (tenant_meta tenant)) (ROwnershipInvalid "Tenant UID is missing") in
  Ok {| intent_namespace := database_namespace (name_any tenant);
        intent_name := name_any tenant; intent_tenant_uid := u |}.

Definition prior_intent (tenant : Tenant) : option CatalogCreateIntent :=
  and_then catalog_create_intent (tenant_status tenant).
Definition outcome_of (tenant : Tenant) : option string :=
  and_then catalog_create_outcome (tenant_status tenant).

Definition recorded_catalog (tenant : Tenant) : option CatalogIdentity :=
  and_then (λ status, and_then (λ value,
    if non_empty (cap_catalog_uid value) && non_empty (cap_namespace_uid value)
    then Some {| ci_namespace_uid := cap_namespace_uid value; ci_catalog_uid := cap_catalog_uid value;
                 ci_storage_namespace_uid := cap_storage_namespace_uid value |}
    else None) (database_capability status)) (tenant_status tenant).

Definition catalog_error (error : CatalogRuntimeError) : ReconcileError :=
  ROwnershipInvalid (catalog_display error).

(** [p.await?] on a function of the controller and on a request. *)
Definition runtime {A} (p : io ControllerError A) : io ReconcileError A := perform_map RRuntime p.
Definition catalog_call {A} (p : io CatalogRuntimeError A) : io ReconcileError A :=
  perform_map catalog_error p.
Definition get_tenant (nm : string) : io ReconcileError Tenant := perform_map RKube (perform (GetTenant nm)).

Section Protocol.
Context `{SJ : SerdeJson} (clocks : nat → nat → Time).

(** The closure of [record_catalog_identity]. *)
Definition identity_mutation (tenant : Tenant) (intent : CatalogCreateIntent)
    (identity : CatalogIdentity) (clock : nat → Time) : Mutation := λ attempt status,
  if catalog_create_intent status != Some intent
  then Err (OwnershipInvalid "catalog intent changed")
  else
    let capability := unwrap_or default_capability (database_capability status) in
    if (non_empty (cap_namespace_uid capability)
          && (cap_namespace_uid capability != ci_namespace_uid identity))
       || (is_some (cap_storage_namespace_uid capability)
           && (cap_storage_namespace_uid capability != ci_storage_namespace_uid identity))
       || (non_empty (cap_catalog_uid capability)
           && (cap_catalog_uid capability != ci_catalog_uid identity))
    then Err (OwnershipInvalid "catalog identity changed")
    else
      let status := with_capability status (Some {|
        cap_available := false; cap_reason := "CatalogObserved";
        cap_namespace := intent_namespace intent; cap_namespace_uid := ci_namespace_uid identity;
        cap_catalog_uid := ci_catalog_uid identity;
        cap_storage_namespace_uid := ci_storage_namespace_uid identity |}) in
      Ok (set_condition (clock attempt) status tenant CATALOG_CREATE_CONDITION true
            "Observed" "Catalog identity persisted").

Definition record_catalog_identity (clock : nat → Time) (tenant : Tenant)
    (intent : CatalogCreateIntent) (identity : CatalogIdentity) : io ReconcileError unit :=
  runtime (update_status tenant (identity_mutation tenant intent identity clock)).

(** A catalog was observed: record it, or report the capability once recorded. *)
Definition catalog_observed (tenant : Tenant) (intent : CatalogCreateIntent)
    (identity : CatalogIdentity) : io ReconcileError DatabaseCapability :=
  if (recorded_catalog tenant != Some identity) || (outcome_of tenant != Some "Observed")
  then
    try! _ <- record_catalog_identity (clocks 0) tenant intent identity ;;
    Ret (Err (RPending "catalog identity recorded"))
  else Ret (Ok {|
    cap_available := false; cap_reason := "RuntimeNotReady"; cap_namespace := intent_namespace intent;
    cap_namespace_uid := ci_namespace_uid identity; cap_catalog_uid := ci_catalog_uid identity;
    cap_storage_namespace_uid := ci_storage_namespace_uid identity |}).

(** A namespace created while preparing; a rejected CREATE is recorded. *)
Definition prepare_namespace (intent : CatalogCreateIntent) (ns rejected : string)
    : io ReconcileError string :=
  do! created <- ensure_namespace ns (intent_tenant_uid intent) None ;;
  match created with
  | Ok u => Ret (Ok u)
  | Err CatalogRejected =>
      try! latest <- get_tenant (intent_name intent) ;;
      try! _ <- runtime (set_catalog_create_outcome (clocks 1) latest intent "Preparing" "PreparationRejected") ;;
      Ret (Err (RPending rejected))
  | Err error => Ret (Err (catalog_error error))
  end.

Definition prepare_storage (intent : CatalogCreateIntent) (azure : bool)
    : io ReconcileError (option string) :=
  if azure then
    try! u <- prepare_namespace intent (storage_namespace (intent_name intent))
                "storage namespace CREATE rejected" ;;
    Ret (Ok (Some u))
  else Ret (Ok None).

(** Outcome [Prepared]: create the namespaces and record their identities. *)
Definition prepare_namespaces (tenant : Tenant) (intent : CatalogCreateIntent) (azure : bool)
    : io ReconcileError DatabaseCapability :=
  try! _ <- runtime (set_catalog_create_outcome (clocks 0) tenant intent "Prepared" "Preparing") ;;
  try! namespace_uid <- prepare_namespace intent (intent_namespace intent) "namespace CREATE rejected" ;;
  try! storage_uid <- prepare_storage intent azure ;;
  try! latest <- get_tenant (intent_name intent) ;;
  try! _ <- runtime (record_catalog_namespaces (clocks 1) latest intent namespace_uid storage_uid) ;;
  Ret (Err (RPending "catalog namespace identities recorded")).

(** Outcome [Preparing]: the namespaces may exist; record them once they do. *)
Definition observe_namespaces (tenant : Tenant) (intent : CatalogCreateIntent) (azure : bool)
    : io ReconcileError DatabaseCapability :=
  try! namespace_uid <- catalog_call
    (observe_namespace (intent_namespace intent) (intent_tenant_uid intent) None) ;;
  try! storage_uid <-
    (if azure
     then catalog_call (observe_namespace (storage_namespace (intent_name intent))
                          (intent_tenant_uid intent) None)
     else Ret (Ok None)) ;;
  try! _ <-
    match namespace_uid with
    | Some u =>
        if negb azure || is_some storage_uid
        then runtime (record_catalog_namespaces (clocks 0) tenant intent u storage_uid)
        else Ret (Ok tt)
    | None => Ret (Ok tt)
    end ;;
  Ret (Err (RPending "catalog namespace preparation is pending")).

(** The CREATE itself and its outcome, after it was announced as [Unknown]. *)
Definition issue_create (intent : CatalogCreateIntent) (namespace_uid : string)
    (storage_uid : option string) (azure : bool) : io ReconcileError DatabaseCapability :=
  do! created <- ensure_catalog (intent_name intent) (intent_tenant_uid intent) (Some namespace_uid)
                   None storage_uid azure ;;
  match created with
  | Ok identity =>
      try! latest <- get_tenant (intent_name intent) ;;
      try! _ <- record_catalog_identity (clocks 1) latest intent identity ;;
      Ret (Err (RPending "catalog CREATE outcome recorded"))
  | Err CatalogRejected =>
      try! latest <- get_tenant (intent_name intent) ;;
      try! _ <- runtime (set_catalog_create_outcome (clocks 1) latest intent "Unknown" "Rejected") ;;
      Ret (Err (RPending "catalog CREATE outcome recorded"))
  | Err error => Ret (Err (catalog_error error))
  end.

(** Outcomes [Namespaced] and [Rejected]: announce the CREATE on the Tenant as
    it was read, then issue it. *)
Definition announce_create (tenant : Tenant) (intent : CatalogCreateIntent) (outcome : string)
    (azure : bool) : io ReconcileError DatabaseCapability :=
  let capability := and_then database_capability (tenant_status tenant) in
  pure! namespace_uid <- ok_or (filter_non_empty (option_map cap_namespace_uid capability))
                           (ROwnershipInvalid "catalog namespace UID is missing") ;;
  let storage_uid := and_then cap_storage_namespace_uid capability in
  if azure && is_none storage_uid
  then Ret (Err (ROwnershipInvalid "storage namespace UID is missing")) else
  try! _ <- catalog_call (ensure_namespace (intent_namespace intent) (intent_tenant_uid intent)
              (Some namespace_uid)) ;;
  try! _ <-
    match storage_uid with
    | Some u => catalog_call (ensure_namespace (storage_namespace (intent_name intent))
                  (intent_tenant_uid intent) (Some u))
    | None => Ret (Ok "")
    end ;;
  try! current <- get_tenant (intent_name intent) ;;
  if (uid (tenant_meta current) != uid (tenant_meta tenant))
     || (resource_version (tenant_meta current) != resource_version (tenant_meta tenant))
     || is_some (deletion_timestamp (tenant_meta current))
  then Ret (Err (RPending "Tenant changed before catalog CREATE")) else
  try! _ <- runtime (set_catalog_create_outcome (clocks 0) current intent outcome "Unknown") ;;
  issue_create intent namespace_uid storage_uid azure.

Definition ensure_database_catalog (tenant : Tenant) (azure : bool)
    : io ReconcileError DatabaseCapability :=
  pure! intent <- create_intent tenant ;;
  match prior_intent tenant with
  | None =>
      try! _ <- runtime (record_catalog_create_intent (clocks 0) tenant intent) ;;
      Ret (Err (RPending "catalog creation intent recorded"))
  | Some prior =>
      if prior != intent then Ret (Err (ROwnershipInvalid "catalog creation intent changed")) else
      let recorded := recorded_catalog tenant in
      try! observed <- catalog_call
        (observe_catalog (intent_name intent) (intent_tenant_uid intent) recorded) ;;
      match observed with
      | Some identity => catalog_observed tenant intent identity
      | None =>
          if is_some recorded
          then Ret (Err (ROwnershipInvalid "catalog identity disappeared")) else
          let outcome := outcome_of tenant in
          if outcome == Some "PreparationRejected" then
            try! _ <- runtime (set_catalog_create_outcome (clocks 0) tenant intent
                        "PreparationRejected" "Prepared") ;;
            Ret (Err (RPending "namespace CREATE retry prepared"))
          else if negb (bool_decide (outcome ∈ [Some "Prepared"; Some "Preparing"; Some "Namespaced";
                                                Some "Rejected"]))
          then Ret (Err (RPending "catalog CREATE outcome is unresolved"))
          else if outcome == Some "Prepared" then prepare_namespaces tenant intent azure
          else if outcome == Some "Preparing" then observe_namespaces tenant intent azure
          else announce_create tenant intent (unwrap_or "" outcome) azure
      end
  end.

(** The identity drained: the recorded one, or the namespaces recorded so far. *)
Definition drained_identity (tenant : Tenant) : option CatalogIdentity :=
  match recorded_catalog tenant with
  | Some identity => Some identity
  | None =>
      option_map (λ value, {| ci_namespace_uid := cap_namespace_uid value; ci_catalog_uid := "";
                              ci_storage_namespace_uid := cap_storage_namespace_uid value |})
        (and_then database_capability (tenant_status tenant))
  end.

Definition drain_recorded (tenant : Tenant) (intent : CatalogCreateIntent) : io ReconcileError bool :=
  catalog_call (drain_catalog (intent_name intent) (intent_tenant_uid intent) (drained_identity tenant)).

Definition drain_databases (tenant : Tenant) : io ReconcileError bool :=
  pure! intent <- create_intent tenant ;;
  let prior := prior_intent tenant in
  if is_some_and (λ p, p != intent) prior
  then Ret (Err (ROwnershipInvalid "catalog creation intent changed")) else
  let recorded := recorded_catalog tenant in
  let outcome := outcome_of tenant in
  if is_none prior && is_none recorded && (outcome != Some "Closed")
  then
    try! _ <- runtime (close_catalog_creation_without_intent (clocks 0) tenant) ;;
    Ret (Ok false)
  else if is_some prior && (is_none recorded || (outcome != Some "Observed"))
  then
    try! observed <- catalog_call
      (observe_catalog (intent_name intent) (intent_tenant_uid intent) recorded) ;;
    match observed with
    | Some identity =>
        try! _ <- record_catalog_identity (clocks 0) tenant intent identity ;;
        Ret (Ok false)
    | None =>
        if bool_decide (outcome ∈ [Some "Prepared"; Some "Namespaced"; Some "Rejected";
                                   Some "PreparationRejected"])
        then drain_recorded tenant intent
        else Ret (Ok false)
    end
  else drain_recorded tenant intent.
End Protocol.
