(* ===== verification/Reconcile.v ===== *)
(** * The Tenant reconciler

    [controller/src/reconcile/mod.rs]: the reconciliation of one Tenant over a
    provider ([ProviderLifecycle] is the trait of [reconcile/local.rs]), the
    statuses it publishes, and the mapping from watched objects to Tenants.
    [clocks] and [now] are the clocks of the status updates: call and attempt,
    attempt and condition type. *)

From S2P Require Import Prelude RustStd Kube Errors Api Management Ownership Foundation Docker.
From S2P Require Import Allocation ReconcileErrors Sanitize Readiness Effects Ops Status Catalog.

Open Scope Z_scope.

(** [trait ProviderLifecycle] *)
Class ProviderLifecycle := {
  supports : TenantProviderSpec → bool;
  validate_mutation : io ReconcileError unit;
  provider_reconcile : Tenant → TenantSpec → io ReconcileError Action;
  provider_finalize : Tenant → string → io ReconcileError Action;
}.

Section Reconciler.
Context `{SJ : SerdeJson, KS : KubeStatusOps, PL : ProviderLifecycle}.
Context (supported_version : string) (clocks : nat → nat → Time) (now : nat → string → Time).

(** [if let Err(guard) = provider.validate_mutation().await { return Ok(guard.action()) }] *)
Definition guarded (k : io ReconcileError Action) : io ReconcileError Action :=
  do! guard <- validate_mutation ;;
  match guard with
  | Err guard => Ret (Ok (error_action guard))
  | Ok _ => k
  end.

(** The closure that reports a specification [canonical_spec] refuses. *)
Definition invalid_spec_mutation (tenant : Tenant) (error : SpecError) : Mutation := λ attempt status,
  Ok (fold_left (λ status '(condition, message),
        set_condition (now attempt condition) status tenant condition false "InvalidSpec" message)
      [("Accepted", spec_error_display error); ("Ready", "Tenant specification is invalid")]
      (with_phase status (Some PhaseFailed))).

Definition unsupported_mutation (tenant : Tenant) : Mutation := λ attempt status,
  let '(provider_status', provider_name) :=
    match provider (tenant_spec tenant) with
    | SpecLocal => (StatusLocal default_local, "Local")
    | SpecAzure => (StatusAzure default_azure, "Azure")
    end in
  let '(reason, detail) :=
    if has_finalizer tenant FINALIZER
    then ("ProviderFinalizerUnsupported",
          "carries the controller finalizer; lifecycle is not implemented")
    else ("ProviderUnsupported", "reconciliation is not implemented") in
  let message := provider_name +:+ " provider " +:+ detail in
  let status := with_provider_status status (Some (unwrap_or provider_status' (provider_status status))) in
  let status := with_phase status
    (Some (if is_some (deletion_timestamp (tenant_meta tenant)) then PhaseDeleting else PhaseFailed)) in
  Ok (fold_left (λ status condition,
        set_condition (now attempt condition) status tenant condition false reason message)
      ["Accepted"; "Ready"] status).

Definition unsupported_provider (tenant : Tenant) : io ReconcileError Action :=
  try! _ <- runtime (update_status tenant (unsupported_mutation tenant)) ;;
  Ret (Ok ActionAwaitChange).

(** The phase and reason a failed reconciliation reports. *)
Definition failure_report (deleting : bool) (error : ReconcileError) : TenantPhase * string :=
  let failed := if deleting then PhaseDeleting else PhaseFailed in
  if ownership_invalid error then (PhaseOwnershipInvalid, "OwnershipInvalid")
  else match degraded_reason error with
  | Some reason => (PhaseDegraded, reason)
  | None =>
      match error with
      | RFoundation FIdentity => (failed, "FoundationMismatch")
      | RFoundation _ => (failed, "FoundationInvalid")
      | _ => (failed, if deleting then "DeletionBlocked" else "ReconcileFailed")
      end
  end.

Definition failure_mutation (tenant : Tenant) (phase : TenantPhase) (reason message : string)
    : Mutation := λ attempt status,
  let status := with_phase status (Some phase) in
  let status := set_condition (now attempt "Ready") status tenant "Ready" false reason message in
  let status :=
    if phase == PhaseOwnershipInvalid
    then set_condition (now attempt "OwnershipValid") status tenant "OwnershipValid" false reason message
    else status in
  Ok (if bool_decide (reason ∈ ["FoundationMismatch"; "FoundationInvalid"])
      then set_condition (now attempt "FoundationReady") status tenant "FoundationReady" false reason message
      else status).

Definition failure (tenant : Tenant) (error : ReconcileError) : io ReconcileError Action :=
  let '(phase, reason) :=
    failure_report (is_some (deletion_timestamp (tenant_meta tenant))) error in
  if conflict error then Ret (Ok (ActionRequeue PROGRESS_INTERVAL)) else
  try! _ <- runtime (update_status tenant
              (failure_mutation tenant phase reason (reconcile_display error))) ;;
  Ret (Ok (error_action error)).

Definition progress_mutation (tenant : Tenant) : Mutation := λ attempt status,
  Ok (progress_status (now attempt) status tenant).

Definition progress (tenant : Tenant) (interval : Z) : io ReconcileError Action :=
  try! _ <- runtime (update_status tenant (progress_mutation tenant)) ;;
  Ret (Ok (ActionRequeue interval)).

(** The provider's part: deletion drains the databases first. *)
Definition lifecycle (tenant : Tenant) (spec : TenantSpec) : io ReconcileError Action :=
  if is_some (deletion_timestamp (tenant_meta tenant)) then
    do! drained <- drain_databases clocks tenant ;;
    match drained with
    | Ok true => provider_finalize tenant supported_version
    | Ok false => Ret (Err (RPending "catalog drain is pending"))
    | Err error => Ret (Err error)
    end
  else provider_reconcile tenant spec.

(** What becomes of the provider's result. *)
Definition conclude (tenant : Tenant) (result : result ReconcileError Action)
    : io ReconcileError Action :=
  match result with
  | Ok action => Ret (Ok action)
  | Err error =>
      if negb (is_some (deletion_timestamp (tenant_meta tenant))) && is_pending error
      then guarded (progress tenant DEPENDENCY_INTERVAL)
      else match error with
      | RMutationGuard _ => Ret (Ok (error_action error))
      | _ => guarded (failure tenant error)
      end
  end.

(** The reconciliation of a Tenant whose specification is canonical. *)
Definition reconcile_spec (tenant : Tenant) (spec : TenantSpec) : io ReconcileError Action :=
  match validate_provider_status spec (tenant_status tenant) with
  | Err error => guarded (failure tenant (ROwnershipInvalid (spec_error_display error)))
  | Ok _ =>
      if negb (supports (provider (tenant_spec tenant))) then unsupported_provider tenant else
      do! result <- lifecycle tenant spec ;;
      conclude tenant result
  end.

Definition reconcile_tenant (nm : string) (tenant : Tenant) : io ReconcileError Action :=
  match canonical_spec nm (tenant_spec tenant) supported_version with
  | Err error =>
      try! _ <- runtime (update_status tenant (invalid_spec_mutation tenant error)) ;;
      Ret (Ok ActionAwaitChange)
  | Ok spec => reconcile_spec tenant spec
  end.

Definition reconcile_name (nm : string) : io ReconcileError Action :=
  try! found <- perform_map RKube (perform (GetTenantOpt nm)) ;;
  match found with
  | None => Ret (Ok ActionAwaitChange)
  | Some tenant =>
      if is_some (deletion_timestamp (tenant_meta tenant)) && negb (has_finalizer tenant FINALIZER)
      then Ret (Ok ActionAwaitChange)
      else if supports (provider (tenant_spec tenant))
      then guarded (reconcile_tenant nm tenant)
      else reconcile_tenant nm tenant
  end.
End Reconciler.

(** ** Watches *)

(** [runtime::TENANT_ANNOTATION] is [ownership::TENANT_ANNOTATION]. *)
Definition map_dependent_to_tenant (meta : ObjectMeta) : list string :=
  match filter_non_empty (get_annotation meta TENANT_ANNOTATION) with
  | Some nm => [nm]
  | None => []
  end.

(** [azure::TENANT_LABEL] and [azure::TENANT_ANNOTATION] *)
Definition AZURE_TENANT_LABEL := "cnpg-vcluster-tenant".
Definition AZURE_TENANT_ANNOTATION := "lifecycle.cnpg-vcluster.capi/tenant".

Definition map_management_to_tenant (definition : ManagementResource) (object : DynamicObject)
    : list string :=
  let meta := dyn_meta object in
  match map_dependent_to_tenant meta with
  | nm :: rest => nm :: rest
  | [] =>
      let azure := match get_annotation meta AZURE_TENANT_ANNOTATION with
                   | Some nm => Some nm
                   | None => get_label meta AZURE_TENANT_LABEL
                   end in
      match filter_non_empty azure with
      | Some nm => [nm]
      | None =>
          match mr_watch_name_suffix definition, mr_watch_cluster_label definition with
          | Some suffix, _ =>
              match opt_filter (λ ns, unwrap_or "" (name meta) == ns +:+ suffix) (namespace meta) with
              | Some ns => [ns]
              | None => []
              end
          | None, Some label =>
              match filter_non_empty (get_label meta label) with Some nm => [nm] | None => [] end
          | None, None => []
          end
      end
  end.
