(* ===== verification/CatalogSafety.v ===== *)
(** * The catalog-creation protocol: what a reconciliation sends

    Properties of [Catalog] against any API server.  A catalog CREATE is only
    sent after the server confirmed the outcome [Unknown] on a Tenant that was
    not being deleted, at most once per reconciliation; the outcome only moves
    along the edges of the protocol ([edge]); and a deletion only removes
    anything once no CREATE can be in flight.  [CatalogSystem] combines these
    facts with a server. *)

From S2P Require Import Prelude RustStd Kube Errors Api Docker Allocation ReconcileErrors.
From S2P Require Import Sanitize Readiness Effects Ops Status Catalog Reconcile.

Open Scope Z_scope.

(** ** What a history shows *)
Definition tenant_reply (e : event Resp) : option Tenant :=
  match e with
  | existT o r =>
      match o return Resp o → option Tenant with
      | GetTenant _ => λ r, match r with Ok t => Some t | Err _ => None end
      | GetTenantOpt _ => λ r, match r with Ok t => t | Err _ => None end
      | _ => λ _, None
      end r
  end.

Definition patch_event (e : event Resp) : option (StatusPatch * result KubeError Tenant) :=
  match e with
  | existT o r =>
      match o return Resp o → option (StatusPatch * result KubeError Tenant) with
      | PatchTenantStatus _ p => λ r, Some (p, r)
      | _ => λ _, None
      end r
  end.

Definition create_event (e : event Resp) : option (result KubeError DynamicObject) :=
  match e with
  | existT o r =>
      match o return Resp o → option (result KubeError DynamicObject) with
      | CreateCatalog _ _ => λ r, Some r
      | _ => λ _, None
      end r
  end.

Definition catalog_event (e : event Resp) : option DynamicObject :=
  match e with
  | existT o r =>
      match o return Resp o → option DynamicObject with
      | GetCatalog _ _ => λ r, match r with Ok c => c | Err _ => None end
      | ReadCatalog _ _ | CreateCatalog _ _ => λ r, match r with Ok c => Some c | Err _ => None end
      | _ => λ _, None
      end r
  end.

Definition reads (h : trace Resp) : list Tenant := omap tenant_reply h.
Definition patches (h : trace Resp) : list (StatusPatch * result KubeError Tenant) := omap patch_event h.
Definition creates (h : trace Resp) : list (result KubeError DynamicObject) := omap create_event h.
Definition catalogs_seen (h : trace Resp) : list DynamicObject := omap catalog_event h.

Lemma omap_snoc {A B} (f : A → option B) (l : list A) (x : A) :
  omap f (l ++ [x]) = omap f l ++ option_list (f x).
Proof. rewrite omap_app. simpl. by destruct (f x). Qed.

(** ** The protocol *)

(** What the protocol depends on: the recorded intent and the outcome. *)
Definition View : Type := option CatalogCreateIntent * option string.
Definition status_view (s : TenantStatus) : View := (catalog_create_intent s, catalog_create_outcome s).
Definition view (t : Tenant) : View := status_view (unwrap_or default_status (tenant_status t)).
Definition deleting (t : Tenant) : bool := is_some (deletion_timestamp (tenant_meta t)).

(** The patch announces a CREATE on a Tenant that had no unresolved one. *)
Definition announces (h : trace Resp) (p : StatusPatch) : Prop :=
  catalog_create_outcome (sp_status p) = Some "Unknown" ∧
  ∃ t, t ∈ reads h ∧ resource_version (tenant_meta t) = Some (sp_resource_version p) ∧
    (view t).2 ≠ Some "Unknown".

(** The server confirmed the announcement of a CREATE. *)
Definition authorised (h : trace Resp) : Prop :=
  ∃ p t, (p, Ok t) ∈ patches h ∧ announces h p.

(** No patch that records a rejection can have been applied: each was refused
    by a conflict. *)
Definition unwritten (h : trace Resp) : Prop :=
  ∀ p r, (p, r) ∈ patches h → catalog_create_outcome (sp_status p) = Some "Rejected" →
    ∃ e, r = Err e ∧ already_there e = true.

Definition create_rejected (h : trace Resp) : Prop :=
  ∃ e, creates h = [Err e] ∧ rejects_create e = true.

(** The reconciliation holds the right to CREATE, or must still give it back. *)
Definition holding (h : trace Resp) : Prop :=
  authorised h ∧ (creates h = [] ∨ (create_rejected h ∧ unwritten h)).

(** The edges a status patch may follow, with what the history must show.
    [del] tells whether the Tenant being reconciled was being deleted. *)
Inductive edge (del : bool) (h : trace Resp) : View → View → Prop :=
| edge_keep v : edge del h v v
| edge_close o : del = true → o = None ∨ o = Some "Closed" →
    edge del h (None, o) (None, Some "Closed")
| edge_intent o i : del = false → edge del h (None, o) (Some i, Some "Prepared")
| edge_preparing i : del = false → edge del h (Some i, Some "Prepared") (Some i, Some "Preparing")
| edge_retry i : del = false →
    edge del h (Some i, Some "PreparationRejected") (Some i, Some "Prepared")
| edge_unprepared i : edge del h (Some i, Some "Preparing") (Some i, Some "PreparationRejected")
| edge_namespaced i : edge del h (Some i, Some "Preparing") (Some i, Some "Namespaced")
| edge_announce i from : del = false → from = "Namespaced" ∨ from = "Rejected" → creates h = [] →
    edge del h (Some i, Some from) (Some i, Some "Unknown")
| edge_rejected i : authorised h → create_rejected h → unwritten h →
    edge del h (Some i, Some "Unknown") (Some i, Some "Rejected")
| edge_observed i o : catalogs_seen h ≠ [] → edge del h (Some i, o) (Some i, Some "Observed").

(** A status patch is computed from a Tenant that was read, bound to its
    version, and follows an edge. *)
Definition justified (h : trace Resp) (p : StatusPatch) : Prop :=
  ∃ original current, original ∈ reads h ∧ current ∈ reads h ∧
    validate_identity original current = Ok (sp_uid p, sp_resource_version p) ∧
    edge (deleting original) h (view current) (status_view (sp_status p)).

(** Draining may begin: a Tenant was read that is being deleted and whose
    outcome excludes a CREATE in flight. *)
Definition drain_ready (h : trace Resp) : Prop :=
  ∃ t, t ∈ reads h ∧ deleting t = true ∧
    ((view t).1 = None ∨ (view t).2 ≠ Some "Unknown").

(** The objects of a kind of the management cluster. *)
Definition managed_kind (kinds : list string) (api : ObjectApi) : bool :=
  (oa_side api == ManagementSide) && bool_decide (tm_kind (oa_types api) ∈ kinds).

Definition destructive (o : Op) : bool :=
  match o with
  | DeleteNamespace _ _ | PatchCatalog _ _ _ | DeleteCatalog _ _ _ | DeleteRole _ _ _
  | DeleteRoleBinding _ _ _ => true
  | ObjectDelete api _ _ => managed_kind ["Namespace"; "Role"; "RoleBinding"] api
  | _ => false
  end.

(** Writing a Tenant or a catalog as an object of any kind would go round the
    protocol. *)
Definition bypass (o : Op) : bool :=
  match o with
  | ObjectCreate api _ | ObjectApply api _ _ | ObjectMerge api _ _ _ | ObjectDelete api _ _ =>
      managed_kind ["Tenant"; "TenantDatabaseCatalog"] api
  | _ => false
  end.

(** The requests of a catalog reconciliation. *)
Definition catalog_request (h : trace Resp) (o : Op) : Prop :=
  match o with
  | PatchTenantStatus _ p => justified h p
  | CreateCatalog _ _ => authorised h ∧ creates h = []
  | o => bypass o = false ∧ (destructive o = true → drain_ready h)
  end.

(** Requests that leave the Tenant status, the catalog and what belongs to it
    alone. *)
Definition neutral (o : Op) : bool :=
  match o with
  | PatchTenantStatus _ _ | CreateCatalog _ _ => false
  | o => negb (bypass o) && negb (destructive o)
  end.

(** A history that grew by neutral requests. *)
Record grows (h h' : trace Resp) : Prop := {
  grows_patches : patches h' = patches h;
  grows_creates : creates h' = creates h;
  grows_reads : ∀ t, t ∈ reads h → t ∈ reads h';
  grows_seen : catalogs_seen h ≠ [] → catalogs_seen h' ≠ [];
}.

Lemma grows_refl h : grows h h.
Proof. by split. Qed.

Lemma grows_trans h1 h2 h3 : grows h1 h2 → grows h2 h3 → grows h1 h3.
Proof. intros [] []. split; [congruence|congruence|auto|auto]. Qed.

Lemma elem_of_reads_snoc h e t : t ∈ reads (h ++ [e]) ↔ t ∈ reads h ∨ tenant_reply e = Some t.
Proof.
  unfold reads. rewrite omap_snoc, elem_of_app. destruct (tenant_reply e); simpl; set_solver.
Qed.

Lemma catalogs_seen_snoc h e :
  catalogs_seen (h ++ [e]) ≠ [] ↔ catalogs_seen h ≠ [] ∨ is_Some (catalog_event e).
Proof.
  unfold catalogs_seen. rewrite omap_snoc. destruct (catalog_event e) as [c|] eqn:E; simpl.
  - split; [eauto|]. intros _ H. by apply app_eq_nil in H as [_ ?].
  - rewrite app_nil_r. split; [auto|]. intros [?|[? ?]]; done.
Qed.

Lemma grows_snoc h o (r : Resp o) : neutral o = true → grows h (h ++ [existT o r]).
Proof.
  intros Hn. split.
  - unfold patches. rewrite omap_snoc. destruct o; try done; apply app_nil_r.
  - unfold creates. rewrite omap_snoc. destruct o; try done; apply app_nil_r.
  - intros t. rewrite elem_of_reads_snoc. auto.
  - rewrite catalogs_seen_snoc. auto.
Qed.

Lemma authorised_mono h h' :
  (∀ x, x ∈ patches h → x ∈ patches h') → (∀ t, t ∈ reads h → t ∈ reads h') →
  authorised h → authorised h'.
Proof.
  intros Hp Hr (p & t & Hpt & Ho & c & Hc & Hx). exists p, t. split; [auto|]. split; [done|].
  exists c. auto.
Qed.

Lemma authorised_grows h h' : grows h h' → authorised h → authorised h'.
Proof. intros [Hp _ Hr _]. apply authorised_mono; [|done]. intros x. by rewrite Hp. Qed.

Lemma neutral_request h o : neutral o = true → catalog_request h o.
Proof.
  destruct o; try done; unfold catalog_request, neutral; intros [Hb Hd]%andb_true_iff;
    apply negb_true_iff in Hb, Hd; (split; [exact Hb|]); rewrite Hd; discriminate.
Qed.

(** A program of neutral requests. *)
Lemma wp_neutral {A} (p : prog Resp A) h (Post : trace Resp → A → Prop) :
  wp p h (λ _ o, neutral o = true) Post →
  wp p h catalog_request (λ h' a, grows h h' ∧ Post h' a).
Proof.
  enough (Hgen : ∀ h0, grows h0 h → wp p h (λ _ o, neutral o = true) Post →
    wp p h catalog_request (λ h' a, grows h0 h' ∧ Post h' a)) by (apply Hgen, grows_refl).
  revert h. induction p as [a|o k IH]; intros h h0 Hg; [by split|].
  intros [Ho Hk]. split; [by apply neutral_request|]. intros r. apply IH; [|apply Hk].
  eapply grows_trans; [done|]. by apply grows_snoc.
Qed.

(** ** Mutations follow the edges *)
Section Mutations.
Context `{SJ : SerdeJson}.

Lemma mutated_view mutate a t s :
  mutated mutate a t = Ok s →
  ∃ s0, mutate a (unwrap_or default_status (tenant_status t)) = Ok s0 ∧ status_view s = status_view s0.
Proof.
  unfold mutated. destruct (mutate a _) as [s0|e]; [|done]. intros [= <-]. by exists s0.
Qed.

(** The view a status has after its outcome was set. *)
Lemma set_outcome_view now s tenant r reason message :
  status_view (set_condition now s tenant CATALOG_CREATE_CONDITION r reason message)
  = (catalog_create_intent s, Some reason).
Proof.
  unfold status_view, catalog_create_outcome. by rewrite set_condition_same.
Qed.

Lemma close_edge clock tenant a t s h :
  deleting tenant = true → mutated (close_mutation clock tenant) a t = Ok s →
  edge (deleting tenant) h (view t) (status_view s).
Proof.
  intros Hd (s0 & Hm & ->)%mutated_view. unfold close_mutation in Hm.
  destruct (is_some (catalog_create_intent _)) eqn:Hi; [done|].
  destruct (bool_decide _) eqn:Ho; [|done]. cbn [orb negb] in Hm.
  bool_hyp. injection Hm as <-. rewrite set_outcome_view. unfold view, status_view.
  rewrite H in *. apply edge_close; [done|].
  set_solver.
Qed.

Lemma intent_edge clock tenant intent a t s h :
  deleting tenant = false → mutated (record_intent_mutation clock tenant intent) a t = Ok s →
  edge (deleting tenant) h (view t) (status_view s).
Proof.
  intros Hd (s0 & Hm & ->)%mutated_view. unfold record_intent_mutation in Hm.
  destruct (is_some_and _ _); [done|]. unfold view.
  destruct (is_none _) eqn:Hi; injection Hm as <-; [|apply edge_keep].
  rewrite set_outcome_view. unfold status_view, with_intent. simpl.
  destruct (catalog_create_intent _); [done|]. by apply edge_intent.
Qed.

Lemma outcome_mutation_view clock tenant intent from to a t s :
  mutated (outcome_mutation clock tenant intent from to) a t = Ok s →
  view t = (Some intent, Some from) ∧ status_view s = (Some intent, Some to).
Proof.
  intros (s0 & Hm & ->)%mutated_view. unfold outcome_mutation in Hm. unfold view, status_view at 1.
  destruct (_ || _) eqn:Hg; [done|]. bool_hyp. injection Hm as <-.
  rewrite set_outcome_view. by rewrite H, H0.
Qed.

Lemma namespaces_mutation_view clock tenant intent u su a t s :
  mutated (namespaces_mutation clock tenant intent u su) a t = Ok s →
  view t = (Some intent, Some "Preparing") ∧ status_view s = (Some intent, Some "Namespaced").
Proof.
  intros (s0 & Hm & ->)%mutated_view. unfold namespaces_mutation in Hm. unfold view, status_view at 1.
  destruct ((catalog_create_intent _ != _) || _) eqn:Hg; [done|]. bool_hyp.
  destruct (_ || _); [done|]. injection Hm as <-. rewrite set_outcome_view. by rewrite <-H, <-H0.
Qed.

Lemma identity_mutation_view clock tenant intent identity a t s :
  mutated (identity_mutation tenant intent identity clock) a t = Ok s →
  (view t).1 = Some intent ∧ status_view s = (Some intent, Some "Observed").
Proof.
  intros (s0 & Hm & ->)%mutated_view. unfold identity_mutation in Hm. unfold view. cbn [status_view fst].
  destruct (catalog_create_intent _ != _) eqn:Hg; [done|]. bool_hyp.
  destruct (_ || _); [done|]. injection Hm as <-. rewrite set_outcome_view. by rewrite <-Hg.
Qed.

Lemma view_unchanged t s : unchanged t s = true → status_view s = view t.
Proof.
  unfold unchanged, view. intros [H|H]%orb_true_iff; bool_hyp; [by rewrite H|].
  destruct (tenant_status t); [done|]. by subst.
Qed.
End Mutations.

(** ** Status updates *)
#[local] Arguments wp : simpl never.
#[local] Arguments bind : simpl never.
#[local] Arguments perform_map : simpl never.

(** A history that grew by refused patches and reads. *)
Record retried (h h' : trace Resp) : Prop := {
  retried_creates : creates h' = creates h;
  retried_reads : ∀ t, t ∈ reads h → t ∈ reads h';
  retried_seen : catalogs_seen h ≠ [] → catalogs_seen h' ≠ [];
  retried_patches : ∀ x, x ∈ patches h → x ∈ patches h';
  retried_refused : ∀ p r, (p, r) ∈ patches h' →
    (p, r) ∈ patches h ∨ ∃ e, r = Err e ∧ already_there e = true;
}.

Lemma retried_refl h : retried h h.
Proof. split; auto. Qed.

Lemma elem_of_patches_snoc h e x : x ∈ patches (h ++ [e]) ↔ x ∈ patches h ∨ patch_event e = Some x.
Proof.
  unfold patches. rewrite omap_snoc, elem_of_app. destruct (patch_event e); simpl; set_solver.
Qed.

Lemma retried_again h0 h nm p e nm' t :
  retried h0 h → already_there e = true →
  retried h0 ((h ++ [existT (PatchTenantStatus nm p) (Err e)]) ++ [existT (GetTenant nm') (Ok t)]).
Proof.
  intros [Hc Hr Hs Hp Hf] He. split.
  - unfold creates in *. rewrite !omap_snoc. simpl. by rewrite !app_nil_r.
  - intros t' Ht. rewrite !elem_of_reads_snoc. auto.
  - rewrite !catalogs_seen_snoc. auto.
  - intros x Hx. rewrite !elem_of_patches_snoc. auto.
  - intros p' r. rewrite !elem_of_patches_snoc. simpl. intros [[H|[= <- <-]]|H]; [auto| |done]. eauto.
Qed.

Lemma edge_retried del h0 h v w : retried h0 h → edge del h0 v w → edge del h v w.
Proof.
  intros [Hc Hr Hs Hp Hf] He.
  destruct He as [v|o ? ?|o i ?|i ?|i ?|i|i|i from ? ? ?|i Ha Hcr Hu|i o ?]; try by constructor.
  - apply edge_announce; [done..|]. congruence.
  - apply edge_rejected.
    + destruct Ha as (p & t & Hpt & Ho & c & Hc' & Hx). exists p, t. split; [auto|]. split; [done|]. eauto.
    + destruct Hcr as (e & He & Hre). exists e. split; [congruence|done].
    + intros p r [H|H]%Hf; [by apply Hu|done].
  - apply edge_observed. auto.
Qed.

Lemma wp_patch_edge tenant current mutate a s h :
  tenant ∈ reads h → current ∈ reads h → mutated mutate a current = Ok s →
  unchanged current s = false → is_ok (validate_identity tenant current) = true →
  edge (deleting tenant) h (view current) (status_view s) →
  wp (patch_status tenant current s false) h catalog_request (λ h' r,
    ∃ nm p reply, patch_from tenant current mutate false nm p ∧
      h' = h ++ [existT (PatchTenantStatus nm p) reply] ∧
      match r with
      | Ok _ => ∃ u, reply = Ok u
      | Err (Kube e) => reply = Err e
      | Err e => e = identity_changed
      end).
Proof.
  intros Ht Hc Hm Hu Hid He. unfold patch_status.
  destruct (validate_identity tenant current) as [[u rv]|e] eqn:Hv; [|done]. request.
  { by exists tenant, current. }
  assert (Hpf : patch_from tenant current mutate false (name_any current)
    {| sp_uid := u; sp_resource_version := rv; sp_status := s; sp_clear_allocation := false |})
    by (split_and!; [done..|by eexists|done|done]).
  destruct reply as [t|e]; cbn [map_err]; (eexists _, _, _; split_and!; [exact Hpf|exact Eh|]); [|done].
  unfold checked. case_bool_decide; [by eexists|done].
Qed.

(** The rule for a status update: its mutation follows an edge. *)
Lemma wp_update_edge tenant mutate h0 (Post : trace Resp → result ControllerError unit → Prop) :
  tenant ∈ reads h0 →
  (∀ t a s, mutated mutate a t = Ok s → edge (deleting tenant) h0 (view t) (status_view s)) →
  (∀ h e, Post h (Err e)) →
  (∀ h t nm p u, retried h0 h → t ∈ reads h → patch_from tenant t mutate false nm p →
     Post (h ++ [existT (PatchTenantStatus nm p) (Ok u)]) (Ok tt)) →
  (∀ h t a s, retried h0 h → mutated mutate a t = Ok s → unchanged t s = true → Post h (Ok tt)) →
  wp (update_status tenant mutate) h0 catalog_request Post.
Proof.
  intros Ht Hedge Herr Hok Hun. unfold update_status.
  enough (Hgen : ∀ retries current h, retried h0 h → current ∈ reads h →
    wp (mutate_status retries tenant current mutate false) h catalog_request Post)
    by (apply Hgen; [apply retried_refl|done]).
  induction retries as [|retries IH]; intros current h Hret Hcur; cbn [mutate_status];
    (destruct (validate_identity tenant current) as [[u rv]|e] eqn:Hv; [|apply Herr]);
    (destruct (mutated mutate _ current) as [s|e] eqn:Hm; [|apply Herr]);
    (destruct (unchanged current s) eqn:Hu; [by eapply Hun|]);
    apply wp_bind; (eapply wp_mono; [done| |eapply wp_patch_edge; [by eapply retried_reads|done|done|done| |]];
      [|by rewrite Hv|eapply edge_retried; [done|by eapply Hedge]]);
    simpl; intros h' r (nm & p & reply & Hpf & -> & Hr); (destruct r as [[]|e];
      [destruct Hr as [u' ->]; by eapply Hok|]).
  - match goal with |- wp _ ?h _ _ => assert (Hdone : wp (Ret (Err e)) h catalog_request Post) by apply Herr end.
    destruct e as [[code reason d|]| | | | | | | |]; try exact Hdone.
    destruct code as [|c|]; try exact Hdone. by repeat (destruct c as [c|c|]; try exact Hdone).
  - match goal with |- wp _ ?h _ _ => assert (Hdone : wp (Ret (Err e)) h catalog_request Post) by apply Herr end.
    destruct e as [[code reason d|]| | | | | | | |]; try exact Hdone.
    destruct code as [|c|]; try exact Hdone. repeat (destruct c as [c|c|]; try exact Hdone). subst reply.
    request; [done|]. destruct reply as [t|e]; cbn [map_err]; [|apply Herr]. subst h1.
    apply IH; [by apply retried_again|]. rewrite elem_of_reads_snoc. by right.
Qed.

(** [p.await.map_err(f)?] followed by the rest of the program. *)
Lemma wp_try_map {E F A B} (f : E → F) (p : io E A) (k : A → io F B) h Pre Post :
  wp p h Pre (λ h' r, match r with Ok x => wp (k x) h' Pre Post | Err e => Post h' (Err (f e)) end) →
  wp (bind (perform_map f p) (λ r, match r with Ok x => k x | Err e => Ret (Err e) end)) h Pre Post.
Proof.
  intros Hp. unfold perform_map. apply wp_bind, wp_bind. eapply wp_mono; [done| |exact Hp].
  intros h' [x|e]; done.
Qed.

(** [p.await?] followed by the rest of the program. *)
Lemma wp_try {E A B} (p : io E A) (k : A → io E B) h Pre Post :
  wp p h Pre (λ h' r, match r with Ok x => wp (k x) h' Pre Post | Err e => Post h' (Err e) end) →
  wp (bind p (λ r, match r with Ok x => k x | Err e => Ret (Err e) end)) h Pre Post.
Proof. intros Hp. apply wp_bind. eapply wp_mono; [done| |exact Hp]. intros h' [x|e]; done. Qed.

(** ** The catalog runtime *)
Lemma owned_rejected meta nm u expected : owned meta nm u expected ≠ Err CatalogRejected.
Proof. unfold owned. destruct (ok_or _ _) eqn:Ho; [by case_match|]. destruct (filter_non_empty _); naive_solver. Qed.

Lemma catalog_identity_rejected c nm u expected require_open :
  catalog_identity c nm u expected require_open ≠ Err CatalogRejected.
Proof.
  unfold catalog_identity. destruct (filter_non_empty _); cbn [ok_or]; [|discriminate].
  destruct (owner_references _); cbn [ok_or]; [|discriminate].
  match goal with |- context [if ?b then _ else _] => destruct b end; discriminate.
Qed.

Lemma wp_ensure_namespace nm u expected h :
  wp (ensure_namespace nm u expected) h (λ _ o, neutral o = true)
    (λ _ r, is_some expected = true → r ≠ Err CatalogRejected).
Proof.
  unfold ensure_namespace. request; [done|]. destruct reply as [[ns|]|e]; cbn [map_err];
    [intros _; apply owned_rejected| |done].
  destruct (is_some expected) eqn:Hx; [done|]. request; [done|]. destruct reply as [ns|e]; [done|].
  destruct (already_there e); [|by destruct (rejects_create e)]. request; [done|]. by destruct reply.
Qed.

Lemma wp_observe_namespace nm u expected h :
  wp (observe_namespace nm u expected) h (λ _ o, neutral o = true) (λ _ _, True).
Proof. unfold observe_namespace. request; [done|]. by destruct reply. Qed.

Lemma seen_snoc_catalog h o (r : Resp o) c :
  catalog_event (existT o r) = Some c → catalogs_seen (h ++ [existT o r]) ≠ [].
Proof. intros H. apply catalogs_seen_snoc. right. by eexists. Qed.

Lemma wp_observe_storage nm u expected h :
  wp (observe_storage nm u expected) h (λ _ o, neutral o = true) (λ _ _, True).
Proof.
  unfold observe_storage. apply wp_try, wp_mono with (λ _ o, neutral o = true) (λ _ _, True); [done| |].
  - intros h1 [[]|e] _; [|done..]. request; [done|]. destruct reply; [|done]. cbn [map_err].
    by destruct (owned _ _ _ _).
  - unfold storage_expected. destruct (is_some expected); [done|]. request; [done|]. by destruct reply.
Qed.

Lemma grows_seen_wp {A} (p : prog Resp A) h (Post : trace Resp → A → Prop) :
  catalogs_seen h ≠ [] → wp p h (λ _ o, neutral o = true) Post →
  wp p h (λ _ o, neutral o = true) (λ h' a, catalogs_seen h' ≠ [] ∧ Post h' a).
Proof.
  revert h. induction p as [a|o k IH]; intros h Hs; [intros Hp; exact (conj Hs Hp)|].
  intros [Ho Hk]. split; [done|]. intros r. apply IH; [|apply Hk]. apply catalogs_seen_snoc. auto.
Qed.

Lemma wp_observe_catalog nm u expected h :
  wp (observe_catalog nm u expected) h (λ _ o, neutral o = true)
    (λ h' r, ∀ i, r = Ok (Some i) → catalogs_seen h' ≠ []).
Proof.
  unfold observe_catalog. request; [done|]. destruct reply as [[c|]|e]; cbn [map_err]; [|done..].
  assert (Hseen : catalogs_seen h0 ≠ []) by (subst h0; by eapply seen_snoc_catalog).
  destruct (catalog_identity _ _ _ _ _); [|done]. request; [done|].
  assert (catalogs_seen h1 ≠ []) by (subst h1; apply catalogs_seen_snoc; auto).
  destruct reply as [ns|e]; cbn [map_err]; [|done]. destruct (owned _ _ _ _); [|done].
  apply wp_try. eapply wp_post; [by apply grows_seen_wp, wp_observe_storage|].
  simpl. intros h' [s|e] [Hs _]; intros ? _; exact Hs.
Qed.

Lemma wp_ensure_storage nm u expected azure h :
  wp (ensure_storage nm u expected azure) h (λ _ o, neutral o = true)
    (λ _ r, (azure = true → is_some expected = true) → r ≠ Err CatalogRejected).
Proof.
  unfold ensure_storage. destruct azure; [|done]. apply wp_try.
  eapply wp_post; [apply wp_ensure_namespace|]. intros h' [s|e] Hr Hx; [done|].
  intros [= ->]. by apply Hr; [apply Hx|].
Qed.

(** The only CREATE is the authorised one, and [Rejected] means that the server
    refused it. *)
Lemma wp_find_or_create nm u h :
  authorised h → creates h = [] →
  wp (find_or_create nm u None) h catalog_request (λ h' r,
    patches h' = patches h ∧ (∀ t, t ∈ reads h → t ∈ reads h') ∧
    (∀ c, r = Ok c → catalogs_seen h' ≠ []) ∧
    (r = Err CatalogRejected → create_rejected h')).
Proof.
  intros Ha Hc. unfold find_or_create. request; [done|].
  assert (grows h h0) as Hg0 by (subst h0; by apply grows_snoc).
  assert (Hseen : ∀ c, reply = Ok (Some c) → catalogs_seen h0 ≠ [])
    by (intros c ->; subst h0; by eapply seen_snoc_catalog).
  destruct reply as [[c|]|e]; cbn [map_err];
    [split_and!; [apply Hg0|apply Hg0|naive_solver|done]| |split_and!; [apply Hg0|apply Hg0|done|done]].
  simpl is_some. cbn [is_some]. request.
  { split; [by eapply authorised_grows|rewrite (grows_creates _ _ Hg0); done]. }
  assert (Hp1 : patches h1 = patches h).
  { subst h1. unfold patches. rewrite omap_snoc. simpl. rewrite app_nil_r. apply Hg0. }
  assert (Hr1 : ∀ t, t ∈ reads h → t ∈ reads h1).
  { subst h1. intros t Ht. apply elem_of_reads_snoc. left. by apply Hg0. }
  assert (Hc1 : creates h1 = [reply]).
  { subst h1. unfold creates. rewrite omap_snoc. simpl. fold (creates h0).
    by rewrite (grows_creates _ _ Hg0), Hc. }
  destruct reply as [c|e].
  { split_and!; [done|done| |done]. intros _ _. subst h1. by eapply seen_snoc_catalog. }
  destruct (already_there e).
  - request; [done|].
    assert (grows h1 h2) as Hg2 by (subst h2; by apply grows_snoc).
    destruct reply as [c|e']; cbn [map_err];
      (split_and!; [by rewrite (grows_patches _ _ Hg2)|intros t Ht; by apply Hg2, Hr1| |done]); [|done].
    intros _ _. subst h2. by eapply seen_snoc_catalog.
  - destruct (rejects_create e) eqn:He; split_and!; try done. intros _. by exists e.
Qed.

Lemma wp_ensure_catalog nm u nsu su azure h :
  authorised h → creates h = [] → (azure = true → is_some su = true) →
  wp (ensure_catalog nm u (Some nsu) None su azure) h catalog_request (λ h' r,
    patches h' = patches h ∧ (∀ t, t ∈ reads h → t ∈ reads h') ∧
    (∀ i, r = Ok i → catalogs_seen h' ≠ []) ∧
    (r = Err CatalogRejected → create_rejected h')).
Proof.
  intros Ha Hc Haz. unfold ensure_catalog.
  apply wp_try. eapply wp_post; [apply wp_neutral, wp_ensure_namespace|].
  simpl. intros h1 r [Hg1 Hr1]. destruct r as [nsu'|e];
    [|split_and!; [apply Hg1|apply Hg1|done|intros [= ->]; by destruct Hr1]].
  apply wp_try. eapply wp_post; [apply wp_neutral, wp_ensure_storage|].
  simpl. intros h2 r [Hg2 Hr2]. pose proof (grows_trans _ _ _ Hg1 Hg2) as Hg.
  destruct r as [su'|e]; [|split_and!; [apply Hg|apply Hg|done|intros [= ->]; by destruct Hr2]].
  apply wp_try. eapply wp_post; [apply wp_find_or_create|].
  3: { simpl. intros h3 r (Hp & Hr & Hs & Hrej).
    assert (patches h3 = patches h) by (rewrite Hp; apply Hg).
    assert (∀ t, t ∈ reads h → t ∈ reads h3) by (intros t Ht; by apply Hr, Hg).
    destruct r as [c|e]; [|split_and!; [done|done|done|]; intros [= ->]; by apply Hrej].
    destruct (catalog_identity _ _ _ _ _) as [cu|e] eqn:Hci;
      [split_and!; [done|done|naive_solver|done]|].
    split_and!; [done|done|done|]. intros [= ->].
    by apply catalog_identity_rejected in Hci. }
  - by eapply authorised_grows.
  - by rewrite (grows_creates _ _ Hg).
Qed.

(** ** The steps of the protocol *)
Section Steps.
Context `{SJ : SerdeJson} (clocks : nat → nat → Time).

Lemma wp_set_outcome clock tenant intent from to h Post :
  tenant ∈ reads h → from ≠ to →
  (bool_decide (to ∈ ["Unknown"; "Preparing"; "Prepared"]) && deleting tenant = false →
     edge (deleting tenant) h (Some intent, Some from) (Some intent, Some to)) →
  (∀ h e, Post h (Err e)) →
  (∀ h' t nm p u, retried h h' → catalog_create_outcome (sp_status p) = Some to →
     t ∈ reads h' → resource_version (tenant_meta t) = Some (sp_resource_version p) →
     (view t).2 = Some from → Post (h' ++ [existT (PatchTenantStatus nm p) (Ok u)]) (Ok tt)) →
  wp (set_catalog_create_outcome clock tenant intent from to) h catalog_request Post.
Proof.
  intros Ht Hne Hedge Herr Hok. unfold set_catalog_create_outcome.
  destruct (_ || _) eqn:Hg; [apply Herr|]. apply orb_false_iff in Hg as [_ Hdel].
  apply wp_update_edge; [done| |done| |].
  - intros t a s Hm. apply outcome_mutation_view in Hm as [-> ->]. by apply Hedge.
  - intros h' t nm p u Hr Hread (_ & Hid & [a Hm] & _).
    apply validate_identity_Ok in Hid as (_ & _ & _ & _ & Hrv & _).
    apply outcome_mutation_view in Hm as [Hv Hs]. eapply Hok; [done| |done|done|by rewrite Hv].
    by injection Hs.
  - intros h' t a s _ Hm Hu%view_unchanged. apply outcome_mutation_view in Hm as [Hv Hs].
    rewrite Hv, Hs in Hu. by injection Hu as <-.
Qed.

Lemma wp_record_identity clock tenant intent identity h (Post : trace Resp → result ReconcileError unit → Prop) :
  tenant ∈ reads h → catalogs_seen h ≠ [] → (∀ h e, Post h (Err e)) → (∀ h, Post h (Ok tt)) →
  wp (record_catalog_identity clock tenant intent identity) h catalog_request Post.
Proof.
  intros Ht Hs Herr Hok. unfold record_catalog_identity, runtime, perform_map.
  apply wp_bind, wp_update_edge; [done| |intros; apply Herr|intros; apply Hok|intros; apply Hok].
  intros t a s Hm. apply identity_mutation_view in Hm as [Hv ->].
  destruct (view t) as [i o]. simpl in Hv. subst i. by apply edge_observed.
Qed.

Lemma wp_record_namespaces clock tenant intent u su h (Post : trace Resp → result ControllerError unit → Prop) :
  tenant ∈ reads h → (∀ h e, Post h (Err e)) → (∀ h, Post h (Ok tt)) →
  wp (record_catalog_namespaces clock tenant intent u su) h catalog_request Post.
Proof.
  intros Ht Herr Hok. apply wp_update_edge; [done| |done|intros; apply Hok|intros; apply Hok].
  intros t a s Hm. apply namespaces_mutation_view in Hm as [-> ->]. apply edge_namespaced.
Qed.

(** A Tenant read is available to what follows. *)
Lemma wp_get_tenant {A} nm h (k : Tenant → io ReconcileError A) (Post : trace Resp → result ReconcileError A → Prop) :
  (∀ h e, Post h (Err e)) →
  (∀ h' t, grows h h' → t ∈ reads h' → wp (k t) h' catalog_request Post) →
  wp (bind (get_tenant nm) (λ r, match r with Ok x => k x | Err e => Ret (Err e) end)) h catalog_request Post.
Proof.
  intros Herr Hk. apply wp_try_map. split; [done|]. intros r.
  change (wp (Ret ?x) ?h' ?P ?Q) with (Q h' x). destruct r as [t|e]; [|apply Herr].
  apply Hk; [by apply grows_snoc|]. apply elem_of_reads_snoc. by right.
Qed.

Lemma wp_prepare_namespace intent ns rejected h :
  wp (prepare_namespace clocks intent ns rejected) h catalog_request
    (λ h' r, ∀ u, r = Ok u → grows h h').
Proof.
  unfold prepare_namespace. apply wp_bind. eapply wp_post; [apply wp_neutral, wp_ensure_namespace|].
  cbn beta. intros h1 r [Hg1 _]. destruct r as [u|e]; [by intros ? _|].
  destruct e; [by intros ?| by intros ? | |by intros ?].
  apply wp_get_tenant; [done|]. intros h2 t' Hg2 Ht.
  unfold runtime. apply wp_try_map. apply wp_set_outcome; [done|done| |done|].
  - intros _. apply edge_unprepared.
  - by intros.
Qed.

Lemma wp_prepare_namespaces tenant intent azure h :
  tenant ∈ reads h →
  wp (prepare_namespaces clocks tenant intent azure) h catalog_request (λ _ _, True).
Proof.
  intros Ht. unfold prepare_namespaces, runtime. apply wp_try_map, wp_set_outcome; [done|done| |done|].
  { intros Hd. simpl in Hd. rewrite Hd. by apply edge_preparing. }
  intros h1 t0 nm p u _ _ _ _ _. apply wp_try. eapply wp_post; [apply wp_prepare_namespace|].
  cbn beta. intros h2 [nsu|e] _; [|done]. apply wp_try, wp_post with (λ _ _, True).
  - unfold prepare_storage. destruct azure; [|done]. apply wp_try.
    eapply wp_post; [apply wp_prepare_namespace|]. by intros h3 [] _.
  - intros h3 [su|e] _; [|done]. apply wp_get_tenant; [done|]. intros h4 t _ Ht4.
    unfold runtime. apply wp_try_map. by apply wp_record_namespaces.
Qed.

Lemma wp_observe_namespaces tenant intent azure h :
  tenant ∈ reads h →
  wp (observe_namespaces clocks tenant intent azure) h catalog_request (λ _ _, True).
Proof.
  intros Ht. unfold observe_namespaces, catalog_call. apply wp_try_map.
  eapply wp_post; [apply wp_neutral, wp_observe_namespace|]. cbn beta. intros h1 [nsu|e] [Hg1 _]; [|done].
  apply wp_try, wp_post with (λ h' _, grows h1 h').
  - destruct azure; [|apply grows_refl]. unfold perform_map. apply wp_bind.
    eapply wp_post; [apply wp_neutral, wp_observe_namespace|]. by intros h2 r [Hg _].
  - intros h2 [su|e] Hg2; [|done]. apply wp_try, wp_post with (λ _ _, True); [|by intros h3 [] _].
    destruct nsu as [u|]; [|done]. destruct (_ || _); [|done].
    unfold runtime, perform_map. apply wp_bind, wp_record_namespaces; [by apply Hg2, Hg1|done|done].
Qed.

Lemma wp_issue_create intent nsu su azure h :
  authorised h → creates h = [] → unwritten h → (azure = true → is_some su = true) →
  wp (issue_create clocks intent nsu su azure) h catalog_request (λ _ _, True).
Proof.
  intros Ha Hc Hu Haz. unfold issue_create. apply wp_bind.
  eapply wp_post; [by apply wp_ensure_catalog|]. cbn beta. intros h1 r (Hp1 & Hr1 & Hs1 & Hrej1).
  destruct r as [identity|e].
  { apply wp_get_tenant; [done|]. intros h2 t Hg Ht. apply wp_try.
    apply wp_record_identity; [done|by eapply grows_seen; [|eapply Hs1]|done|done]. }
  destruct e; [done|done| |done]. specialize (Hrej1 eq_refl).
  apply wp_get_tenant; [done|]. intros h2 t [Hp2 Hc2 Hr2 Hs2] Ht.
  unfold runtime. apply wp_try_map, wp_set_outcome; [done|done| |done|done].
  intros _. apply edge_rejected.
  - eapply authorised_mono; [| |exact Ha]; [intros x; by rewrite Hp2, Hp1|auto].
  - destruct Hrej1 as (e & Hce & He). exists e. split; [congruence|done].
  - intros p r Hpr. rewrite Hp2, Hp1 in Hpr. by apply Hu.
Qed.

Lemma wp_announce_create tenant intent outcome azure h :
  outcome = "Namespaced" ∨ outcome = "Rejected" → patches h = [] → creates h = [] →
  wp (announce_create clocks tenant intent outcome azure) h catalog_request (λ _ _, True).
Proof.
  intros Ho Hp Hc. unfold announce_create, catalog_call.
  destruct (ok_or _ _) as [nsu|e]; [|done]. destruct (azure && _) eqn:Haz; [done|].
  apply wp_try_map. eapply wp_post; [apply wp_neutral, wp_ensure_namespace|].
  cbn beta. intros h1 [u|e] [Hg1 _]; [|done].
  apply wp_try, wp_post with (λ h' _, grows h1 h').
  { destruct (and_then cap_storage_namespace_uid _) as [su|]; [|apply grows_refl].
    unfold perform_map. apply wp_bind. eapply wp_post; [apply wp_neutral, wp_ensure_namespace|].
    by intros h2 r [Hg _]. }
  intros h2 [u2|e] Hg2; [|done]. apply wp_get_tenant; [done|]. intros h3 current Hg3 Hcur.
  destruct (_ || _) eqn:Hch; [done|]. apply orb_false_iff in Hch as [_ Hdel].
  pose proof (grows_trans _ _ _ Hg1 (grows_trans _ _ _ Hg2 Hg3)) as [Hp3 Hc3 _ _].
  rewrite Hp in Hp3. rewrite Hc in Hc3.
  unfold runtime. apply wp_try_map, wp_set_outcome; [done|naive_solver| |done|].
  { intros _. unfold deleting. rewrite Hdel. by apply edge_announce. }
  intros h4 c nm p t [Hc4 _ _ _ Href] Hout Hread Hrv Hfrom.
  assert (Hun : ∀ p' r, (p', r) ∈ patches h4 → ∃ e, r = Err e ∧ already_there e = true).
  { intros p' r [H|H]%Href; [|done]. rewrite Hp3 in H. by apply not_elem_of_nil in H. }
  apply wp_issue_create.
  - exists p, t. split; [apply elem_of_patches_snoc; by right|]. split; [done|].
    exists c. split_and!; [apply elem_of_reads_snoc; by left|done|]. destruct Ho; congruence.
  - unfold creates in *. rewrite omap_snoc. simpl. rewrite app_nil_r. congruence.
  - intros p' r [H|[= <- <-]]%elem_of_patches_snoc H'; [by eapply Hun|]. congruence.
  - destruct azure; [|done]. intros _. simpl in Haz. by destruct (and_then _ _).
Qed.

Lemma wp_ensure_database_catalog tenant azure h :
  tenant ∈ reads h → patches h = [] → creates h = [] →
  wp (ensure_database_catalog clocks tenant azure) h catalog_request (λ _ _, True).
Proof.
  intros Ht Hp Hc. unfold ensure_database_catalog. destruct (create_intent tenant) as [intent|e]; [|done].
  destruct (prior_intent tenant) as [prior|].
  2: { unfold runtime. apply wp_try_map. unfold record_catalog_create_intent.
       destruct (ok_or _ _); [|done]. destruct (_ || _) eqn:Hg; [done|].
       do 4 (apply orb_false_iff in Hg as [Hg _]).
       apply wp_update_edge; [done| |done|done|done]. intros t' a' s Hm. by eapply intent_edge. }
  destruct (prior != intent); [done|]. unfold catalog_call. apply wp_try_map.
  eapply wp_post; [apply wp_neutral, wp_observe_catalog|]. cbn beta. intros h1 r [Hg1 Hseen].
  destruct r as [[identity|]|e]; [| |done].
  { unfold catalog_observed. destruct (_ || _); [|done]. apply wp_try.
    apply wp_record_identity; [by apply Hg1|by eapply Hseen|done|done]. }
  destruct (is_some (recorded_catalog tenant)); [done|].
  destruct (outcome_of tenant == Some "PreparationRejected") eqn:H1.
  { unfold runtime. apply wp_try_map, wp_set_outcome; [by apply Hg1|done| |done|done].
    intros Hd. simpl in Hd. rewrite Hd. by apply edge_retry. }
  destruct (bool_decide (outcome_of tenant ∈ _)) eqn:H2; [|done]. cbn [negb].
  destruct (outcome_of tenant == Some "Prepared") eqn:H3;
    [by apply wp_prepare_namespaces, Hg1|].
  destruct (outcome_of tenant == Some "Preparing") eqn:H4;
    [by apply wp_observe_namespaces, Hg1|].
  bool_hyp. apply wp_announce_create; [|by rewrite (grows_patches _ _ Hg1)|by rewrite (grows_creates _ _ Hg1)].
  do 2 (apply elem_of_cons in H2 as [H2|H2]; [done|]).
  apply elem_of_cons in H2 as [->|H2]; [by left|]. apply list_elem_of_singleton in H2 as ->. by right.
Qed.
End Steps.

(** ** Draining *)
Definition drains (o : Op) : Prop := negb (bypass o) && (neutral o || destructive o) = true.

Lemma drain_ready_snoc h e : drain_ready h → drain_ready (h ++ [e]).
Proof. intros (t & Ht & H). exists t. split; [|done]. apply elem_of_reads_snoc. by left. Qed.

Lemma wp_draining {A} (p : prog Resp A) h :
  drain_ready h → wp p h (λ _ o, drains o) (λ _ _, True) →
  wp p h catalog_request (λ h' _, drain_ready h').
Proof.
  revert h. induction p as [a|o k IH]; intros h Hr; [intros _; exact Hr|].
  intros [Ho Hk]. split.
  - destruct o; first [discriminate Ho|split; [by apply andb_true_iff in Ho as [?%negb_true_iff _]|by intros _]].
  - intros r. apply IH; [by apply drain_ready_snoc|apply Hk].
Qed.

Lemma wp_delete_namespace nm u recorded h :
  wp (delete_namespace nm u recorded) h (λ _ o, drains o) (λ _ _, True).
Proof.
  unfold delete_namespace. request; [done|]. destruct reply as [[ns|]|e]; [|done..]. cbn [map_err].
  destruct (_ && _); [done|]. destruct (owned _ _ _ _); [|done]. request; [done|]. by destruct reply.
Qed.

Lemma wp_drain_without nm u recorded h :
  wp (drain_catalog_without_catalog nm u recorded) h (λ _ o, drains o) (λ _ _, True).
Proof.
  unfold drain_catalog_without_catalog. request; [done|]. destruct reply as [role|e]; [|done].
  cbn [map_err]. request; [done|]. destruct reply as [binding|e]; [|done]. cbn [map_err].
  destruct (map_transpose _ role); [|done]. destruct (map_transpose _ binding); [|done].
  destruct binding as [b|]; [|destruct role as [r|]].
  - destruct (credential_delete_params _); [|done]. request; [done|]. by destruct reply.
  - destruct (credential_delete_params _); [|done]. request; [done|]. by destruct reply.
  - apply wp_try, wp_post with (λ _ _, True).
    + unfold namespace_remains. destruct (non_empty _); [|done]. apply wp_try.
      eapply wp_post; [apply wp_delete_namespace|]. by intros h2 [] _.
    + intros h2 [[]|e] _; [done| |done]. unfold drain_storage.
      destruct (ci_storage_namespace_uid recorded) as [su|]; [|done]. request; [done|].
      destruct reply as [[|d ds]|e]; [|done..]. cbn [map_err]. apply wp_try.
      eapply wp_post; [apply wp_delete_namespace|]. by intros h4 [] _.
Qed.

Lemma wp_drain_catalog nm u recorded h :
  wp (drain_catalog nm u recorded) h (λ _ o, drains o) (λ _ _, True).
Proof.
  assert (Hun : ∀ r, wp (drain_unrecorded nm u r) h (λ _ o, drains o) (λ _ _, True)).
  { intros r. unfold drain_unrecorded. request; [done|]. destruct reply as [[c|]|e]; [done| |done].
    cbn [map_err is_some]. request; [done|]. destruct reply as [ns|e]; [|done]. cbn [map_err].
    destruct (map_transpose _ ns); [|done]. request; [done|]. destruct reply as [st|e]; [|done].
    cbn [map_err]. destruct (map_transpose _ st); [|done]. apply wp_drain_without. }
  unfold drain_catalog. destruct recorded as [identity|]; [|apply Hun].
  destruct (is_empty _); [apply Hun|]. request; [done|].
  destruct reply as [[c|]|e]; [|apply wp_drain_without|done]. cbn [map_err]. unfold drain_existing.
  destruct (_ && _); [done|]. destruct (catalog_identity _ _ _ _ _) as [cu|]; [|done].
  destruct (ok_or _ _); [|done]. destruct (ok_or _ _); [|done].
  destruct (_ || _).
  - destruct (mark_entries _); [|done]. request; [done|]. by destruct reply.
  - destruct (_ || _); [done|]. request; [done|]. destruct reply as [updated|e]; [|done]. cbn [map_err].
    destruct (_ != _); [done|]. request; [done|]. by destruct reply.
Qed.

Section Drain.
Context `{SJ : SerdeJson} (clocks : nat → nat → Time).

Lemma wp_drain_recorded tenant intent h :
  drain_ready h →
  wp (drain_recorded tenant intent) h catalog_request (λ h' r, r = Ok true → drain_ready h').
Proof.
  intros Hr. unfold drain_recorded, catalog_call, perform_map. apply wp_bind.
  eapply wp_post; [by apply wp_draining, wp_drain_catalog|]. by intros h' [] ? ?.
Qed.

Lemma view_prior tenant : prior_intent tenant = (view tenant).1.
Proof. unfold prior_intent, view. by destruct (tenant_status tenant). Qed.
Lemma view_outcome tenant : outcome_of tenant = (view tenant).2.
Proof. unfold outcome_of, view. by destruct (tenant_status tenant). Qed.

Lemma wp_drain_databases tenant h :
  tenant ∈ reads h → deleting tenant = true →
  wp (drain_databases clocks tenant) h catalog_request (λ h' r, r = Ok true → drain_ready h').
Proof.
  intros Ht Hd. unfold drain_databases. destruct (create_intent tenant) as [intent|e]; [|done].
  destruct (is_some_and _ _); [done|].
  destruct (is_none _ && _ && _) eqn:Hclose.
  { unfold runtime. apply wp_try_map. unfold close_catalog_creation_without_intent.
    destruct (_ || _); [done|]. apply wp_update_edge; [done| |done|done|done].
    intros t a s Hm. by eapply close_edge. }
  destruct (is_some (prior_intent tenant) && _) eqn:Hobs.
  - unfold catalog_call. apply wp_try_map.
    eapply wp_post; [apply wp_neutral, wp_observe_catalog|]. cbn beta. intros h1 r [Hg Hseen].
    destruct r as [[identity|]|e]; [| |done].
    + apply wp_try. apply wp_record_identity; [by apply Hg|by eapply Hseen|done|done].
    + destruct (bool_decide (outcome_of tenant ∈ _)) eqn:Ho; [|done]. apply wp_drain_recorded. exists tenant.
      split_and!; [by apply Hg|done|]. right. bool_hyp. rewrite <-view_outcome. intros E.
      rewrite E in Ho. set_solver.
  - apply wp_drain_recorded. exists tenant. split_and!; [done|done|].
    rewrite <-view_prior, <-view_outcome.
    destruct (prior_intent tenant); [|by left]. right. simpl in Hobs. bool_hyp. congruence.
Qed.
End Drain.

(** ** The whole reconciliation *)

(** What the reconciler relies on: a provider guards mutations by reading, only
    touches the catalog through the protocol, and writes statuses that follow
    its edges. *)
Class CatalogSafeProvider (PL : ProviderLifecycle) : Prop := {
  guard_neutral h : wp validate_mutation h (λ _ o, neutral o = true) (λ _ _, True);
  reconcile_safe t spec h :
    t ∈ reads h → patches h = [] → creates h = [] →
    wp (provider_reconcile t spec) h catalog_request (λ _ _, True);
  finalize_safe t version h :
    t ∈ reads h → drain_ready h →
    wp (provider_finalize t version) h catalog_request (λ _ _, True);
}.

(** Updates that leave intent and outcome alone. *)
Definition keeps_view (mutate : Mutation) : Prop :=
  ∀ a s s', mutate a s = Ok s' → status_view s' = status_view s.

Lemma wp_update_keep tenant mutate h (Post : trace Resp → result ControllerError unit → Prop) :
  tenant ∈ reads h → keeps_view mutate → (∀ h r, Post h r) →
  wp (update_status tenant mutate) h catalog_request Post.
Proof.
  intros Ht Hk HP. apply wp_update_edge; [done| |auto|auto|auto].
  intros t a s (s0 & Hm & ->)%mutated_view. apply Hk in Hm. unfold view. rewrite Hm. apply edge_keep.
Qed.

Lemma set_condition_view `{SJ : SerdeJson} now s tenant kind r reason message :
  kind ≠ CATALOG_CREATE_CONDITION →
  status_view (set_condition now s tenant kind r reason message) = status_view s.
Proof.
  intros Hne. unfold status_view, catalog_create_outcome. by rewrite set_condition_other.
Qed.

Section Whole.
Context `{SJ : SerdeJson, KS : KubeStatusOps} {PL : ProviderLifecycle} {PS : CatalogSafeProvider PL}.
Context (supported_version : string) (clocks : nat → nat → Time) (now : nat → string → Time).

Lemma initialize_status_view clock s tenant :
  status_view (initialize_status clock s tenant) = status_view s.
Proof.
  unfold initialize_status. cbn [fold_left]. rewrite !set_condition_view by done. by destruct (phase _) as [[]|].
Qed.

Lemma progress_keeps tenant : keeps_view (progress_mutation now tenant).
Proof.
  intros a s s' [= <-]. unfold progress_status. rewrite set_condition_view by done.
  change (status_view (with_phase ?x ?p)) with (status_view x). apply initialize_status_view.
Qed.

Lemma failure_keeps tenant phase reason message : keeps_view (failure_mutation now tenant phase reason message).
Proof.
  intros a s s' [= <-]. destruct (bool_decide (reason ∈ _)); [rewrite set_condition_view by done|];
    (destruct (phase == _); [rewrite set_condition_view by done|]); by rewrite set_condition_view.
Qed.

Lemma unsupported_keeps tenant : keeps_view (unsupported_mutation now tenant).
Proof.
  intros a s s'. unfold unsupported_mutation.
  destruct (match provider _ with SpecLocal => _ | SpecAzure => _ end) as [ps pn].
  destruct (if has_finalizer _ _ then _ else _) as [reason detail]. intros [= <-].
  cbn [fold_left]. by rewrite !set_condition_view.
Qed.

Lemma invalid_spec_keeps tenant error : keeps_view (invalid_spec_mutation now tenant error).
Proof. intros a s s' [= <-]. cbn [fold_left]. by rewrite !set_condition_view. Qed.

Lemma wp_update_then {A} tenant mutate (k : io ReconcileError A) h (Post : trace Resp → result ReconcileError A → Prop) :
  tenant ∈ reads h → keeps_view mutate → (∀ h r, Post h r) → (∀ h, wp k h catalog_request Post) →
  wp (try! _ <- runtime (update_status tenant mutate) ;; k) h catalog_request Post.
Proof.
  intros Ht Hm HP Hk. unfold runtime. apply wp_try_map, wp_update_keep; [done|done|].
  intros h' [u|e]; [apply Hk|apply HP].
Qed.

Lemma wp_guarded tenant (k : io ReconcileError Action) h :
  tenant ∈ reads h →
  (∀ h', grows h h' → wp k h' catalog_request (λ _ _, True)) →
  wp (guarded k) h catalog_request (λ _ _, True).
Proof.
  intros Ht Hk. unfold guarded. apply wp_bind.
  eapply wp_post; [apply wp_neutral, guard_neutral|]. cbn beta. intros h' [u|e] [Hg _]; [|done].
  by apply Hk.
Qed.

Lemma wp_failure tenant error h :
  tenant ∈ reads h → wp (failure now tenant error) h catalog_request (λ _ _, True).
Proof.
  intros Ht. unfold failure. destruct (failure_report _ _) as [phase reason]. destruct (conflict error); [done|].
  apply wp_update_then; [done|apply failure_keeps|done|done].
Qed.

Lemma wp_progress tenant interval h :
  tenant ∈ reads h → wp (progress now tenant interval) h catalog_request (λ _ _, True).
Proof. intros Ht. apply wp_update_then; [done|apply progress_keeps|done|done]. Qed.

Lemma wp_conclude tenant r h :
  tenant ∈ reads h → wp (conclude now tenant r) h catalog_request (λ _ _, True).
Proof.
  intros Ht. unfold conclude. destruct r as [a|error]; [done|].
  destruct (negb _ && _).
  - eapply wp_guarded; [done|]. intros h' Hg. by apply wp_progress, Hg.
  - destruct error; try done; (eapply wp_guarded; [done|]; intros h' Hg; by apply wp_failure, Hg).
Qed.

Lemma reads_app h g t : t ∈ reads h → t ∈ reads (h ++ g).
Proof. intros Ht. unfold reads. rewrite omap_app, elem_of_app. by left. Qed.

Lemma wp_lifecycle tenant spec h :
  tenant ∈ reads h → patches h = [] → creates h = [] →
  wp (lifecycle supported_version clocks tenant spec) h catalog_request (λ _ _, True).
Proof.
  intros Ht Hp Hc. unfold lifecycle. destruct (is_some _) eqn:Hd; [|by apply reconcile_safe].
  apply wp_bind. eapply wp_post; [by apply wp_extends, wp_drain_databases|].
  cbn beta. intros h' [[]|e] [Hr [g ->]]; [|done..]. apply finalize_safe; [by apply reads_app|by apply Hr].
Qed.

Lemma wp_reconcile_tenant nm tenant h :
  tenant ∈ reads h → patches h = [] → creates h = [] →
  wp (reconcile_tenant supported_version clocks now nm tenant) h catalog_request (λ _ _, True).
Proof.
  intros Ht Hp Hc. unfold reconcile_tenant. destruct (canonical_spec _ _ _) as [spec|e].
  2: { apply wp_update_then; [done|apply invalid_spec_keeps|done|done]. }
  unfold reconcile_spec. destruct (validate_provider_status _ _) as [u|e].
  2: { eapply wp_guarded; [done|]. intros h' Hg. by apply wp_failure, Hg. }
  destruct (supports _); cbn [negb].
  2: { apply wp_update_then; [done|apply unsupported_keeps|done|done]. }
  apply wp_bind. eapply wp_post; [by apply wp_extends, wp_lifecycle|].
  cbn beta. intros h' r [_ [g ->]]. by apply wp_conclude, reads_app.
Qed.

Lemma wp_reconcile_name nm :
  wp (reconcile_name supported_version clocks now nm) [] catalog_request (λ _ _, True).
Proof.
  unfold reconcile_name. request; [done|]. destruct reply as [[tenant|]|e]; cbn [map_err]; [|done..].
  destruct (_ && _); [done|].
  assert (Ht : tenant ∈ reads h) by (subst h; apply elem_of_reads_snoc; by right).
  assert (Hg : grows [] h) by (subst h; by apply (grows_snoc [] (GetTenantOpt nm))).
  destruct (supports _).
  - eapply wp_guarded; [done|]. intros h' Hg'. pose proof (grows_trans _ _ _ Hg Hg') as [Hp Hc _ _].
    apply wp_reconcile_tenant; [by apply Hg'|done|done].
  - apply wp_reconcile_tenant; [done|apply Hg|apply Hg].
Qed.
End Whole.

(** Every request of a history follows the protocol, so it has one CREATE. *)
Lemma issued_snoc (h : trace Resp) o (r : Resp o) :
  issued catalog_request [] (h ++ [existT o r]) →
  issued catalog_request [] h ∧ catalog_request h o.
Proof.
  intros Hi. split.
  - intros h1 e h2 -> Hl. apply (Hi h1 e (h2 ++ [existT o r])); [|done]. by rewrite <-(assoc_L (++)).
  - apply (Hi h (existT o r) []); [done|simpl; lia].
Qed.

Lemma creates_snoc (h : trace Resp) e : creates (h ++ [e]) = creates h ++ option_list (create_event e).
Proof. apply omap_snoc. Qed.

Lemma issued_creates h : issued catalog_request [] h → (length (creates h) ≤ 1)%nat.
Proof.
  induction h as [|[o r] h IH] using rev_ind; [simpl; lia|]. intros [Hi Ho]%issued_snoc.
  rewrite creates_snoc. destruct o; try (simpl; rewrite app_nil_r; auto).
  destruct Ho as [_ ->]. simpl. lia.
Qed.

(** Under any provider that keeps to it, a reconciliation follows the catalog
    protocol. *)
Lemma safe_provider_follows `{SJ : SerdeJson, KS : KubeStatusOps} {PL : ProviderLifecycle}
    {PS : CatalogSafeProvider PL} supported_version clocks now nm env :
  let '(h, r) := run env (reconcile_name supported_version clocks now nm) [] in
  issued catalog_request [] h ∧ (length (creates h) ≤ 1)%nat.
Proof.
  pose proof (wp_run env _ [] _ _ (wp_reconcile_name supported_version clocks now nm)) as H.
  destruct (run env _ []) as [h r]. destruct H as [_ Hi]. split; [done|by apply issued_creates].
Qed.

(** A provider that only ensures the catalog. *)
Module CatalogOnly.
#[export] Instance lifecycle : ProviderLifecycle := {
  supports p := match p with SpecLocal => true | SpecAzure => false end;
  validate_mutation := Ret (Ok tt);
  provider_reconcile t spec :=
    try! _ <- @ensure_database_catalog ConcreteJson.json (λ _ _, 0) t false ;;
    Ret (Ok (ActionRequeue READY_INTERVAL));
  provider_finalize t version := Ret (Ok ActionAwaitChange);
}.

#[export] Instance safe : CatalogSafeProvider lifecycle.
Proof.
  split; [done| |done]. intros t spec h Ht Hp Hc. apply wp_bind.
  eapply wp_post; [by apply wp_ensure_database_catalog|]. by intros h' [u|e].
Qed.

Definition tenant : Tenant := {|
  tenant_meta := {|
    name := Some "alpha"; namespace := None; uid := Some "uid-a"; resource_version := Some "0";
    generation := Some 1; labels := None; annotations := None; owner_references := None;
    finalizers := Some [FINALIZER]; deletion_timestamp := None |};
  tenant_spec := {| kubernetes_version := "1.36.4"; workers := 1; provider := SpecLocal |};
  tenant_status := None |}.

(** Another controller created the database namespace; the rest is absent. *)
Definition database : Namespace := {| ns_meta := {|
  name := Some (database_namespace "alpha"); namespace := None; uid := Some "uid-ns";
  resource_version := Some "5"; generation := None; labels := Some {[ TENANT_UID := "uid-a" ]};
  annotations := None; owner_references := None; finalizers := None; deletion_timestamp := None |} |}.

Definition answer (o : Op) : Resp o :=
  match o return Resp o with
  | GetTenant _ => Ok tenant
  | GetTenantOpt _ => Ok (Some tenant)
  | GetNamespace nm => Ok (if nm == database_namespace "alpha" then Some database else None)
  | CreateNamespace obj => Ok {| ns_meta := {|
      name := name (ns_meta obj); namespace := None; uid := Some "uid-new"; resource_version := Some "6";
      generation := None; labels := labels (ns_meta obj); annotations := None; owner_references := None;
      finalizers := None; deletion_timestamp := None |} |}
  | GetRole _ _ | GetRoleBinding _ _ => Ok None
  | PatchTenantStatus _ _ => Ok tenant
  | o => error_reply o (KubeOther "unavailable")
  end.

(** A Tenant whose CREATE was not announced yet, and a server without its
    catalog that stores what it is told. *)
Definition namespaced : Tenant := {|
  tenant_meta := tenant_meta tenant; tenant_spec := tenant_spec tenant;
  tenant_status := Some {|
    observed_generation := Some 1; phase := None;
    conditions := [{| cond_type := CATALOG_CREATE_CONDITION; cond_status := "False"; cond_reason := "Namespaced";
      cond_message := "Namespaced"; cond_observed_generation := Some 1; cond_last_transition_time := 0 |}];
    database_capability := Some {| cap_available := false; cap_reason := "Pending"; cap_namespace := "tenant-db-alpha";
      cap_namespace_uid := "uid-ns"; cap_catalog_uid := ""; cap_storage_namespace_uid := None |};
    catalog_create_intent := Some {| intent_namespace := "tenant-db-alpha"; intent_name := "alpha"; intent_tenant_uid := "uid-a" |};
    provider_status := None |} |}.

Definition create_answer (o : Op) : Resp o :=
  match o return Resp o with
  | GetTenant _ => Ok namespaced
  | GetTenantOpt _ => Ok (Some namespaced)
  | PatchTenantStatus _ _ => Ok namespaced
  | GetNamespace nm => Ok (if nm == database_namespace "alpha" then Some database else None)
  | GetCatalog _ _ => Ok None
  | CreateCatalog _ obj => Ok {| dyn_types := dyn_types obj; dyn_data := dyn_data obj; dyn_meta := {|
      name := name (dyn_meta obj); namespace := namespace (dyn_meta obj); uid := Some "uid-c"; resource_version := Some "8";
      generation := Some 1; labels := None; annotations := None; owner_references := None; finalizers := finalizers (dyn_meta obj);
      deletion_timestamp := None |} |}
  | o => error_reply o (KubeOther "unavailable")
  end.
End CatalogOnly.

(** The protocol lets a CREATE through: a reconciliation that sends it. *)
Example create_is_sent :
  length (creates (run (λ _, CatalogOnly.create_answer)
    (@reconcile_name ConcreteJson.json ConcreteStatus.status_ops CatalogOnly.lifecycle
       "1.36.4" (λ _ _, 0) (λ _ _, 0) "alpha") []).1) = 1%nat.
Proof. vm_compute. reflexivity. Qed.
