(* ===== verification/CatalogSystem.v ===== *)
(** * Concurrent catalog reconciliations

    Any number of reconciliations of one Tenant ([Reconcile.reconcile_name],
    over providers that respect the protocol) run against an API server,
    interleaved request by request with the user who deletes the Tenant, with
    other writers of its status and with the controller of the catalog.  The
    server applies a patch only to the version it names.  A request may be
    refused without effect, or fail without an answer, and then take effect
    at any later time: this is the case the outcome [Unknown] exists for.
    Requests about other objects are answered arbitrarily.

    The history variables [sv_holder] (the client whose announcement set the
    current [Unknown]) and [sv_created] (how often the server created the
    catalog) do not influence the server. *)

From stdpp Require Import relations pretty.
From S2P Require Import Prelude RustStd Kube Errors Api Docker Allocation ReconcileErrors.
From S2P Require Import Sanitize Readiness Effects Ops Status Catalog Reconcile CatalogSafety.

(** ** The server *)

(** How the server merges a status patch: optional fields that are not set and
    an empty condition list are not part of the patch. *)
Class StatusMerge := { merge_status : TenantStatus → StatusPatch → TenantStatus }.
Class StatusMergeLaws (SM : StatusMerge) : Prop := {
  merge_intent old p : catalog_create_intent (merge_status old p)
    = match catalog_create_intent (sp_status p) with Some i => Some i | None => catalog_create_intent old end;
  merge_conditions old p : conditions (merge_status old p)
    = match conditions (sp_status p) with [] => conditions old | cs => cs end;
}.

Record Server := {
  sv_tenant : Tenant;
  sv_catalog : option DynamicObject;
  sv_next : N;
  sv_holder : option nat;
  sv_created : nat;
}.

(** A definite refusal: the server did not and will not apply the request. *)
Definition definite (e : KubeError) : bool :=
  match e with
  | KubeApi code _ _ => any (Z.eqb code) [400; 403; 404; 405; 409; 422]%Z
  | KubeOther _ => false
  end.

Definition not_found : KubeError := KubeApi 404 "NotFound" "not found".
Definition conflicting : KubeError := KubeApi 409 "Conflict" "precondition failed".

Definition with_version (m : ObjectMeta) (n : N) : ObjectMeta := {|
  name := name m; namespace := namespace m; uid := uid m; resource_version := Some (pretty n);
  generation := generation m; labels := labels m; annotations := annotations m;
  owner_references := owner_references m; finalizers := finalizers m;
  deletion_timestamp := deletion_timestamp m |}.

Definition with_finalizers (m : ObjectMeta) (fs : list string) : ObjectMeta := {|
  name := name m; namespace := namespace m; uid := uid m; resource_version := resource_version m;
  generation := generation m; labels := labels m; annotations := annotations m;
  owner_references := owner_references m; finalizers := Some fs;
  deletion_timestamp := deletion_timestamp m |}.

Definition with_deletion (m : ObjectMeta) (at_ : Time) : ObjectMeta := {|
  name := name m; namespace := namespace m; uid := uid m; resource_version := resource_version m;
  generation := generation m; labels := labels m; annotations := annotations m;
  owner_references := owner_references m; finalizers := finalizers m;
  deletion_timestamp := Some at_ |}.

Definition with_uid (m : ObjectMeta) (u : string) : ObjectMeta := {|
  name := name m; namespace := namespace m; uid := Some u; resource_version := resource_version m;
  generation := generation m; labels := labels m; annotations := annotations m;
  owner_references := owner_references m; finalizers := finalizers m;
  deletion_timestamp := deletion_timestamp m |}.

Definition outcome_unknown (t : Tenant) : bool := (view t).2 == Some "Unknown".

(** A new version of the Tenant; the holder is lost with the outcome. *)
Definition store_tenant (s : Server) (t : Tenant) (holder : option nat) : Server := {|
  sv_tenant := t; sv_catalog := sv_catalog s; sv_next := N.succ (sv_next s);
  sv_holder := holder; sv_created := sv_created s |}.

Definition named (t : Tenant) (nm : string) : bool := name (tenant_meta t) == Some nm.
Definition at_version (t : Tenant) (u rv : string) : bool :=
  (uid (tenant_meta t) == Some u) && (resource_version (tenant_meta t) == Some rv).

Definition set_catalog (s : Server) (c : option DynamicObject) : Server := {|
  sv_tenant := sv_tenant s; sv_catalog := c; sv_next := sv_next s;
  sv_holder := sv_holder s; sv_created := sv_created s |}.

Section Serving.
Context {SM : StatusMerge}.

Definition patched (s : Server) (p : StatusPatch) : Tenant := {|
  tenant_meta := with_version (tenant_meta (sv_tenant s)) (sv_next s);
  tenant_spec := tenant_spec (sv_tenant s);
  tenant_status := Some (merge_status (unwrap_or default_status (tenant_status (sv_tenant s))) p) |}.

Definition next_holder (i : nat) (s : Server) (t' : Tenant) : option nat :=
  if outcome_unknown t' then (if outcome_unknown (sv_tenant s) then sv_holder s else Some i) else None.

(** Whether a catalog request is about the catalog of the Tenant. *)
Definition own_catalog (s : Server) (ns nm : string) : bool :=
  named (sv_tenant s) nm && (ns == database_namespace nm).

Definition created_catalog (s : Server) (obj : DynamicObject) : DynamicObject := {|
  dyn_types := dyn_types obj;
  dyn_meta := with_version (with_uid (dyn_meta obj) (pretty (sv_next s))) (sv_next s);
  dyn_data := dyn_data obj |}.

(** The requests the server handles, on behalf of client [i]. *)
Definition serve (i : nat) (s : Server) (o : Op) : option (Resp o * Server) :=
  match o return option (Resp o * Server) with
  | GetTenant nm => Some (if named (sv_tenant s) nm then Ok (sv_tenant s) else Err not_found, s)
  | GetTenantOpt nm => Some (Ok (if named (sv_tenant s) nm then Some (sv_tenant s) else None), s)
  | PatchTenantStatus nm p => Some
      (if negb (named (sv_tenant s) nm) then (Err not_found, s)
       else if negb (at_version (sv_tenant s) (sp_uid p) (sp_resource_version p)) then (Err conflicting, s)
       else (Ok (patched s p), store_tenant s (patched s p) (next_holder i s (patched s p))))
  | PatchTenantFinalizers nm p => Some
      (if negb (named (sv_tenant s) nm) then (Err not_found, s)
       else if negb (at_version (sv_tenant s) (fp_uid p) (fp_resource_version p)) then (Err conflicting, s)
       else
         let t' := {| tenant_meta := with_version (with_finalizers (tenant_meta (sv_tenant s))
                                                     (fp_finalizers p)) (sv_next s);
                      tenant_spec := tenant_spec (sv_tenant s);
                      tenant_status := tenant_status (sv_tenant s) |} in
         (Ok t', store_tenant s t' (sv_holder s)))
  | GetCatalog ns nm => Some (Ok (if own_catalog s ns nm then sv_catalog s else None), s)
  | ReadCatalog ns nm => Some
      (match (if own_catalog s ns nm then sv_catalog s else None) with
       | Some c => Ok c
       | None => Err not_found
       end, s)
  | CreateCatalog ns obj => Some
      (if negb (own_catalog s ns (unwrap_or "" (name (dyn_meta obj)))) then (Err not_found, s)
       else match sv_catalog s with
       | Some _ => (Err conflicting, s)
       | None => (Ok (created_catalog s obj),
           {| sv_tenant := sv_tenant s; sv_catalog := Some (created_catalog s obj);
              sv_next := N.succ (sv_next s); sv_holder := sv_holder s; sv_created := S (sv_created s) |})
       end)
  | _ => None
  end.
End Serving.

(** ** The system *)
Record Client := {
  cl_history : trace Resp;
  cl_prog : io ReconcileError Action;
}.

Record System := {
  sy_server : Server;
  sy_clients : list Client;
  sy_flight : list (nat * Op);
}.

Definition advance (cl : Client) (o : Op) (r : Resp o) (p : io ReconcileError Action) : Client := {|
  cl_history := cl_history cl ++ [existT o r]; cl_prog := p |}.

(** Another writer changed the Tenant, but not its catalog record. *)
Definition foreign_write (s : Server) (t' : Tenant) : Prop :=
  name (tenant_meta t') = name (tenant_meta (sv_tenant s)) ∧
  uid (tenant_meta t') = uid (tenant_meta (sv_tenant s)) ∧
  deletion_timestamp (tenant_meta t') = deletion_timestamp (tenant_meta (sv_tenant s)) ∧
  resource_version (tenant_meta t') = Some (pretty (sv_next s)) ∧
  view t' = view (sv_tenant s).

Definition user_delete (s : Server) (at_ : Time) : Tenant := {|
  tenant_meta := with_version (with_deletion (tenant_meta (sv_tenant s)) at_) (sv_next s);
  tenant_spec := tenant_spec (sv_tenant s); tenant_status := tenant_status (sv_tenant s) |}.

Section Steps.
Context `{SJ : SerdeJson, KS : KubeStatusOps, SM : StatusMerge}.

Inductive sys_step : System → System → Prop :=
| step_spawn s clients flight PL supported_version clocks now nm :
    CatalogSafeProvider PL →
    sys_step {| sy_server := s; sy_clients := clients; sy_flight := flight |}
      {| sy_server := s;
         sy_clients := clients ++ [{| cl_history := [];
           cl_prog := @reconcile_name SJ KS PL supported_version clocks now nm |}];
         sy_flight := flight |}
| step_served s clients flight i cl o k r s' :
    clients !! i = Some cl → cl_prog cl = Vis o k → serve i s o = Some (r, s') →
    sys_step {| sy_server := s; sy_clients := clients; sy_flight := flight |}
      {| sy_server := s'; sy_clients := <[i := advance cl o r (k r)]> clients; sy_flight := flight |}
| step_other s clients flight i cl o k r :
    clients !! i = Some cl → cl_prog cl = Vis o k → serve i s o = None →
    sys_step {| sy_server := s; sy_clients := clients; sy_flight := flight |}
      {| sy_server := s; sy_clients := <[i := advance cl o r (k r)]> clients; sy_flight := flight |}
| step_refused s clients flight i cl o k e :
    clients !! i = Some cl → cl_prog cl = Vis o k → definite e = true →
    sys_step {| sy_server := s; sy_clients := clients; sy_flight := flight |}
      {| sy_server := s;
         sy_clients := <[i := advance cl o (error_reply o e) (k (error_reply o e))]> clients;
         sy_flight := flight |}
| step_lost s clients flight i cl o k e :
    clients !! i = Some cl → cl_prog cl = Vis o k → definite e = false →
    sys_step {| sy_server := s; sy_clients := clients; sy_flight := flight |}
      {| sy_server := s;
         sy_clients := <[i := advance cl o (error_reply o e) (k (error_reply o e))]> clients;
         sy_flight := (i, o) :: flight |}
| step_delivered s clients f1 f2 i o r s' :
    serve i s o = Some (r, s') →
    sys_step {| sy_server := s; sy_clients := clients; sy_flight := f1 ++ (i, o) :: f2 |}
      {| sy_server := s'; sy_clients := clients; sy_flight := f1 ++ f2 |}
| step_user s clients flight at_ :
    deletion_timestamp (tenant_meta (sv_tenant s)) = None →
    sys_step {| sy_server := s; sy_clients := clients; sy_flight := flight |}
      {| sy_server := store_tenant s (user_delete s at_) (sv_holder s);
         sy_clients := clients; sy_flight := flight |}
| step_writer s clients flight t' :
    foreign_write s t' →
    sys_step {| sy_server := s; sy_clients := clients; sy_flight := flight |}
      {| sy_server := store_tenant s t' (sv_holder s); sy_clients := clients; sy_flight := flight |}
| step_catalog s clients flight c c' :
    sv_catalog s = Some c →
    sys_step {| sy_server := s; sy_clients := clients; sy_flight := flight |}
      {| sy_server := set_catalog s c'; sy_clients := clients; sy_flight := flight |}.

(** A Tenant nothing has been recorded of, and no catalog. *)
Definition initial (sy : System) : Prop :=
  sy_clients sy = [] ∧ sy_flight sy = [] ∧
  view (sv_tenant (sy_server sy)) = (None, None) ∧
  (∃ n, (n < sv_next (sy_server sy))%N ∧
     resource_version (tenant_meta (sv_tenant (sy_server sy))) = Some (pretty n)) ∧
  sv_catalog (sy_server sy) = None ∧ sv_holder (sy_server sy) = None ∧ sv_created (sy_server sy) = 0%nat.

Definition reachable (sy : System) : Prop := ∃ sy0, initial sy0 ∧ rtc sys_step sy0 sy.
End Steps.

(** A CREATE of the catalog that may still take effect. *)
Definition is_create (o : Op) : bool := match o with CreateCatalog _ _ => true | _ => false end.
Definition creating (flight : list (nat * Op)) : list (nat * Op) := filter_list (λ x, is_create x.2) flight.

(** No catalog CREATE is in flight, and no client is about to send one. *)
Definition create_free (sy : System) : Prop :=
  creating (sy_flight sy) = [] ∧
  ∀ cl o k, cl ∈ sy_clients sy → cl_prog cl = Vis o k → is_create o = false.

#[local] Arguments view : simpl never.
#[local] Arguments status_view : simpl never.

(** ** The invariant *)

(** No catalog can exist while the outcome is early. *)
Definition early (o : option string) : Prop := o ≠ Some "Unknown" ∧ o ≠ Some "Observed".
Definition version_ok (t : Tenant) : Prop := (view t).1 = None → early (view t).2.

(** Deletion has begun and no CREATE was left unresolved. *)
Definition settled (t : Tenant) : Prop := deleting t = true ∧ (view t).2 ≠ Some "Unknown".

Record server_ok (s : Server) : Prop := {
  so_version : ∃ n, (n < sv_next s)%N ∧ resource_version (tenant_meta (sv_tenant s)) = Some (pretty n);
  so_view : version_ok (sv_tenant s);
  so_holder i : sv_holder s = Some i → (view (sv_tenant s)).2 = Some "Unknown";
  so_early : sv_created s ≠ 0%nat → ¬ early (view (sv_tenant s)).2;
  so_once : (sv_created s ≤ 1)%nat;
  so_catalog : is_Some (sv_catalog s) → sv_created s ≠ 0%nat;
}.

(** A version of the Tenant that a client read. *)
Record read_ok (s : Server) (t : Tenant) : Prop := {
  ro_version : ∃ n, (n < sv_next s)%N ∧ resource_version (tenant_meta t) = Some (pretty n);
  ro_current : resource_version (tenant_meta (sv_tenant s)) = resource_version (tenant_meta t) →
    sv_tenant s = t;
  ro_settled : settled t → settled (sv_tenant s);
  ro_view : version_ok t;
}.

Record client_ok (s : Server) (i : nat) (cl : Client) : Prop := {
  co_wp : wp (cl_prog cl) (cl_history cl) catalog_request (λ _ _, True);
  co_reads t : t ∈ reads (cl_history cl) → read_ok s t;
  co_patches p r : (p, r) ∈ patches (cl_history cl) →
    ∃ t, t ∈ reads (cl_history cl) ∧ resource_version (tenant_meta t) = Some (sp_resource_version p);
  co_seen : catalogs_seen (cl_history cl) ≠ [] → sv_created s ≠ 0%nat;
  co_holding : holding (cl_history cl) → sv_holder s = Some i ∧ sv_created s = 0%nat;
}.

(** What is known of a patch by client [i], whenever it is applied. *)
Inductive move (s : Server) (i : nat) (h : trace Resp) (t : Tenant) (w : View) : Prop :=
| move_keep : w = view t → move s i h t w
| move_early : early (view t).2 → early w.2 → move s i h t w
| move_announce : early (view t).2 → is_Some w.1 → w.2 = Some "Unknown" → deleting t = false → move s i h t w
| move_reject : is_Some w.1 → w.2 = Some "Rejected" → (view t).2 = Some "Unknown" → create_rejected h →
    (sv_tenant s = t → sv_holder s = Some i ∧ sv_created s = 0%nat) → move s i h t w
| move_observe : is_Some w.1 → w.2 = Some "Observed" → sv_created s ≠ 0%nat → move s i h t w.

Section Invariant.
Context `{SJ : SerdeJson, KS : KubeStatusOps, SM : StatusMerge} {SL : StatusMergeLaws SM}.

Record patch_ok (s : Server) (i : nat) (h : trace Resp) (t : Tenant) (p : StatusPatch) : Prop := {
  po_read : read_ok s t;
  po_version : resource_version (tenant_meta t) = Some (sp_resource_version p);
  po_merge old : status_view old = view t → status_view (merge_status old p) = status_view (sp_status p);
  po_move : move s i h t (status_view (sp_status p));
}.

Definition flight_ok (s : Server) (clients : list Client) (i : nat) (o : Op) : Prop :=
  ∃ cl, clients !! i = Some cl ∧
  match o with
  | CreateCatalog _ _ => sv_holder s = Some i ∧ sv_created s = 0%nat ∧
      ∃ e, creates (cl_history cl) = [Err e] ∧ rejects_create e = false
  | PatchTenantStatus _ p => (∃ t, patch_ok s i (cl_history cl) t p) ∧
      ∃ e, (p, Err e) ∈ patches (cl_history cl) ∧ already_there e = false
  | _ => True
  end.

Record inv (sy : System) : Prop := {
  inv_server : server_ok (sy_server sy);
  inv_clients i cl : sy_clients sy !! i = Some cl → client_ok (sy_server sy) i cl;
  inv_flight i o : (i, o) ∈ sy_flight sy → flight_ok (sy_server sy) (sy_clients sy) i o;
  inv_single : (length (creating (sy_flight sy)) ≤ 1)%nat;
}.

Lemma catalog_initial_inv sy : initial sy → inv sy.
Proof.
  intros (Hc & Hf & Hv & Hn & Hk & Hh & Hcr). split.
  - split; rewrite ?Hv, ?Hk, ?Hh, ?Hcr; [done| |done|done|lia|by intros []].
    intros _. unfold version_ok. by rewrite Hv.
  - intros i cl. by rewrite Hc.
  - intros i o. rewrite Hf. by intros ?%not_elem_of_nil.
  - rewrite Hf. simpl. lia.
Qed.

(** *** Edges are moves *)
Lemma edge_merge del h t p : edge del h (view t) (status_view (sp_status p)) →
  ∀ old, status_view old = view t → status_view (merge_status old p) = status_view (sp_status p).
Proof.
  intros He old Ho. rewrite <-Ho in He. clear Ho.
  assert (Hi : catalog_create_intent (sp_status p) = None → catalog_create_intent old = None).
  { inversion He; simpl in *; congruence. }
  assert (Hc : conditions (sp_status p) = [] → catalog_create_outcome old = None).
  { intros Hn. assert (Hp : catalog_create_outcome (sp_status p) = None)
      by (unfold catalog_create_outcome, condition_of; by rewrite Hn).
    inversion He; simpl in *; congruence. }
  unfold status_view. f_equal.
  - rewrite merge_intent. destruct (catalog_create_intent (sp_status p)); auto.
  - unfold catalog_create_outcome at 1, condition_of. rewrite merge_conditions.
    destruct (conditions (sp_status p)) as [|c cs] eqn:E.
    + change (catalog_create_outcome old = catalog_create_outcome (sp_status p)). rewrite Hc by done.
      unfold catalog_create_outcome, condition_of. by rewrite E.
    + unfold catalog_create_outcome, condition_of. by rewrite E.
Qed.

Lemma edge_move s i cl t p del :
  client_ok s i cl → version_ok t → (del = false → deleting t = false) →
  edge del (cl_history cl) (view t) (status_view (sp_status p)) →
  move s i (cl_history cl) t (status_view (sp_status p)).
Proof.
  intros Hco Hv Hd He. unfold version_ok in Hv. remember (view t) as v eqn:Ev.
  destruct He as [v|o ? Ho|o j ?|j ?|j ?|j|j|j from ? Hf ?|j Ha Hcr Hu|j o Hs].
  - by apply move_keep.
  - apply move_early; rewrite <-?Ev; [by apply Hv|done].
  - apply move_early; rewrite <-?Ev; [by apply Hv|done].
  - by apply move_early; rewrite <-?Ev.
  - by apply move_early; rewrite <-?Ev.
  - by apply move_early; rewrite <-?Ev.
  - by apply move_early; rewrite <-?Ev.
  - apply move_announce; [rewrite <-Ev|by eexists|done|by apply Hd]. by destruct Hf as [->| ->].
  - apply move_reject; [by eexists|done|by rewrite <-Ev|done|]. intros _.
    apply (co_holding _ _ _ Hco). split; [done|]. by right.
  - apply move_observe; [by eexists|done|]. by apply (co_seen _ _ _ Hco).
Qed.

(** A patch that a client may send. *)
Lemma justified_patch s i cl p :
  client_ok s i cl → justified (cl_history cl) p →
  ∃ t, t ∈ reads (cl_history cl) ∧ patch_ok s i (cl_history cl) t p.
Proof.
  intros Hco (o & t & _ & Ht & Hv & He). exists t. split; [done|].
  apply validate_identity_Ok in Hv as (_ & _ & _ & _ & Hrv & _ & _ & Hd).
  pose proof (co_reads _ _ _ Hco _ Ht) as Hr. split; [done|done|by eapply edge_merge|].
  eapply edge_move; [done|apply Hr| |done]. unfold deleting. by rewrite Hd.
Qed.

(** *** How the server moves *)
Record evolves (s s' : Server) : Prop := {
  ev_next : (sv_next s ≤ sv_next s')%N;
  ev_fresh : sv_tenant s' = sv_tenant s ∨
    ((sv_next s < sv_next s')%N ∧ resource_version (tenant_meta (sv_tenant s')) = Some (pretty (sv_next s)));
  ev_settled : settled (sv_tenant s) → settled (sv_tenant s');
  ev_created : (sv_created s ≤ sv_created s')%nat;
}.

Lemma evolves_refl s : evolves s s.
Proof. split; [lia|by left|done|lia]. Qed.

Lemma read_evolves s s' t : evolves s s' → read_ok s t → read_ok s' t.
Proof.
  intros Hev [(n & Hn & Hrv) Hc Hs Hv]. split.
  - exists n. split; [|done]. pose proof (ev_next _ _ Hev). lia.
  - destruct (ev_fresh _ _ Hev) as [-> | [_ ->]]; [done|]. rewrite Hrv.
    intros [= E%(inj _)]. lia.
  - intros ?. by apply Hev, Hs.
  - done.
Qed.

Lemma read_current s : server_ok s → read_ok s (sv_tenant s).
Proof. intros Hs. split; [apply Hs|done|done|apply Hs]. Qed.

(** A client whose history and program do not change. *)
Lemma client_evolves s s' i cl :
  evolves s s' → client_ok s i cl →
  (holding (cl_history cl) → sv_holder s' = Some i ∧ sv_created s' = 0%nat) →
  client_ok s' i cl.
Proof.
  intros Hev Hco Hh. split; [apply Hco| |apply Hco| |done].
  - intros t Ht. eapply read_evolves; [done|]. by apply Hco.
  - intros Hc%(co_seen _ _ _ Hco). pose proof (ev_created _ _ Hev). lia.
Qed.

(** A client that got a reply. *)
Lemma client_reply s s' i cl o k r :
  evolves s s' → client_ok s i cl → cl_prog cl = Vis o k →
  (∀ t, tenant_reply (existT o r) = Some t → read_ok s' t) →
  (is_Some (catalog_event (existT o r)) → sv_created s' ≠ 0%nat) →
  (holding (cl_history cl ++ [existT o r]) → sv_holder s' = Some i ∧ sv_created s' = 0%nat) →
  client_ok s' i (advance cl o r (k r)).
Proof.
  intros Hev Hco Hp Hr Hs Hh. pose proof (co_wp _ _ _ Hco) as Hwp. rewrite Hp in Hwp.
  destruct Hwp as [Ho Hk]. split; cbn [advance cl_history cl_prog].
  - apply Hk.
  - intros t [Ht|Ht]%elem_of_reads_snoc; [|by apply Hr]. eapply read_evolves; [done|by apply Hco].
  - intros p x. rewrite elem_of_patches_snoc. intros [Hx|Hx].
    + destruct (co_patches _ _ _ Hco _ _ Hx) as (t & Ht & Hv). exists t.
      split; [|done]. apply elem_of_reads_snoc. by left.
    + destruct o; try done. injection Hx as -> _.
      destruct (justified_patch _ _ _ _ Hco Ho) as (t & Ht & Hpo). exists t.
      split; [apply elem_of_reads_snoc; by left|apply Hpo].
  - intros [Hc|Hc]%catalogs_seen_snoc; [|by apply Hs].
    pose proof (co_seen _ _ _ Hco Hc). pose proof (ev_created _ _ Hev). lia.
  - done.
Qed.

(** The right to CREATE is only won by a confirmed announcement. *)
Lemma holding_snoc s i cl o r :
  client_ok s i cl → (∀ t, tenant_reply (existT o r) = Some t → t = sv_tenant s) →
  holding (cl_history cl ++ [existT o r]) →
  holding (cl_history cl) ∨
  ∃ p t, patch_event (existT o r) = Some (p, Ok t) ∧ announces (cl_history cl ++ [existT o r]) p.
Proof.
  intros Hco Ht [(p & t & Hp & Ha) Hc].
  apply elem_of_patches_snoc in Hp as [Hp|Hp]; [left|right; by exists p, t]. split.
  - exists p, t. split; [done|]. destruct Ha as (Hu & c & Hr & Hv & Hx). split; [done|].
    apply elem_of_reads_snoc in Hr as [Hr|Hr]; [by exists c|].
    destruct (co_patches _ _ _ Hco _ _ Hp) as (c' & Hc' & Hv'). exists c'. split; [done|].
    split; [done|]. rewrite <-(ro_current _ _ (co_reads _ _ _ Hco _ Hc')); [by rewrite <-(Ht _ Hr)|].
    rewrite <-(Ht _ Hr). congruence.
  - destruct Hc as [Hc|[(e & Hc & He) Hu]].
    + left. rewrite creates_snoc in Hc. by apply app_eq_nil in Hc as [? _].
    + rewrite creates_snoc in Hc. destruct (creates (cl_history cl)) as [|x l] eqn:E; [by left|right].
      injection Hc as -> Hl. apply app_eq_nil in Hl as [-> _]. split; [by exists e|].
      intros q y Hq. apply Hu, elem_of_patches_snoc. by left.
Qed.

(** An error reply changes nothing a client holds, except after a CREATE. *)
Lemma holding_error s i cl o e :
  client_ok s i cl → holding (cl_history cl ++ [existT o (error_reply o e)]) →
  sv_holder s = Some i ∧ sv_created s = 0%nat.
Proof.
  intros Hco H. eapply holding_snoc in H as [H|(p & t & H & _)]; [by apply Hco| |done|].
  - by destruct o.
  - by destruct o.
Qed.

(** *** Requests in flight *)
Lemma patch_ok_history s i h h' t p :
  (∀ x, creates h = [x] → creates h' = [x]) → patch_ok s i h t p → patch_ok s i h' t p.
Proof.
  intros Hc [Hr Hv Hm Hmv]. split; [done..|]. destruct Hmv as [| | |H1 H2 H3 (x & Hx & Hrx) H5|];
    [by apply move_keep|by apply move_early|by apply move_announce| |by apply move_observe].
  apply move_reject; [done..| |done]. exists x. auto.
Qed.

Lemma flight_advance s clients i cl o r p j q :
  clients !! i = Some cl → catalog_request (cl_history cl) o →
  flight_ok s clients j q → flight_ok s (<[i := advance cl o r p]> clients) j q.
Proof.
  intros Hi Ho (cl' & Hj & Hq). destruct (decide (j = i)) as [->|Hne].
  2: { exists cl'. by rewrite list_lookup_insert_ne. }
  assert (cl' = cl) as -> by congruence. eexists.
  split; [apply list_lookup_insert_eq; by eapply lookup_lt_Some|].
  assert (Hc : ∀ x, creates (cl_history cl) = [x] → creates (cl_history (advance cl o r p)) = [x]).
  { intros x Hx. simpl. rewrite creates_snoc, Hx. destruct o; try done. destruct Ho as [_ Ho]. congruence. }
  destruct q; try done.
  - destruct Hq as [(t & Ht) (e & He & Hae)]. split.
    + exists t. by eapply patch_ok_history.
    + exists e. split; [|done]. apply elem_of_patches_snoc. by left.
  - destruct Hq as (Hh & Hcr & e & He & Hre). split_and!; [done..|]. exists e. auto.
Qed.

Lemma flight_evolves s s' clients j q :
  evolves s s' → flight_ok s clients j q →
  (∀ cl, clients !! j = Some cl → sv_holder s = Some j → sv_created s = 0%nat →
     (is_create q = true ∧ ∃ e, creates (cl_history cl) = [Err e] ∧ rejects_create e = false)
     ∨ (create_rejected (cl_history cl) ∧ sv_tenant s' = sv_tenant s) →
     sv_holder s' = Some j ∧ sv_created s' = 0%nat) →
  flight_ok s' clients j q.
Proof.
  intros Hev (cl & Hj & Hq) Hh. exists cl. split; [done|]. destruct q; try done.
  - destruct Hq as [(t & [Hr Hv Hm Hmv]) He]. split; [|done]. exists t.
    split; [by eapply read_evolves|done|done|].
    destruct Hmv as [| | |H1 H2 H3 H4 H5|H1 H2 H3];
      [by apply move_keep|by apply move_early|by apply move_announce| |].
    + apply move_reject; [done..|]. intros E.
      assert (Et : sv_tenant s = t).
      { destruct (ev_fresh _ _ Hev) as [E'|[_ E']]; [congruence|].
        destruct (ro_version _ _ Hr) as (n & Hn & Hrn). rewrite E, Hrn in E'.
        injection E' as E'%(inj _). lia. }
      destruct (H5 Et) as [Hho Hc0]. apply (Hh cl); [done..|]. right. split; [done|congruence].
    + apply move_observe; [done..|]. pose proof (ev_created _ _ Hev). lia.
  - destruct Hq as (Hho & Hc & He). destruct (Hh cl) as [? ?]; [done..|by left|]. done.
Qed.

(** *** Applying a patch *)
Definition after_patch (s : Server) (i : nat) (p : StatusPatch) : Server :=
  store_tenant s (patched s p) (next_holder i s (patched s p)).

Lemma patched_view s i h t p :
  patch_ok s i h t p → sv_tenant s = t → view (patched s p) = status_view (sp_status p).
Proof. intros Hp <-. by apply (po_merge _ _ _ _ _ Hp). Qed.

Lemma at_version_current s i h t p u :
  patch_ok s i h t p → at_version (sv_tenant s) u (sp_resource_version p) = true → sv_tenant s = t.
Proof.
  intros Hp. unfold at_version. intros [_ Hv]%andb_true_iff. bool_hyp.
  apply (ro_current _ _ (po_read _ _ _ _ _ Hp)). rewrite Hv. symmetry. apply Hp.
Qed.

Lemma outcome_unknown_spec t : outcome_unknown t = true ↔ (view t).2 = Some "Unknown".
Proof. apply bool_decide_eq_true. Qed.

Lemma patch_holder s i h t p j :
  server_ok s → patch_ok s i h t p → sv_tenant s = t →
  sv_holder s = Some j → sv_created s = 0%nat →
  sv_holder (after_patch s i p) = Some j
  ∨ (j = i ∧ create_rejected h ∧ catalog_create_outcome (sp_status p) = Some "Rejected").
Proof.
  intros Hs Hp Et Hh Hc. pose proof (patched_view _ _ _ _ _ Hp Et) as Hv.
  pose proof (so_holder _ Hs _ Hh) as Hu. simpl. unfold next_holder.
  rewrite (proj2 (outcome_unknown_spec (sv_tenant s)) Hu). rewrite Et in Hu.
  destruct (po_move _ _ _ _ _ Hp) as [H|[H _]|[H _]|H1 H2 H3 H4 H5|H1 H2 H3]; [|done..| |done].
  - left. rewrite (proj2 (outcome_unknown_spec (patched s p))); [done|]. by rewrite Hv, H.
  - right. destruct (H5 Et). split; [congruence|done].
Qed.

Lemma patch_announced s i h t p :
  server_ok s → patch_ok s i h t p → sv_tenant s = t →
  catalog_create_outcome (sp_status p) = Some "Unknown" → (view t).2 ≠ Some "Unknown" →
  sv_holder (after_patch s i p) = Some i ∧ sv_created s = 0%nat.
Proof.
  intros Hs Hp Et Ho Ht. pose proof (patched_view _ _ _ _ _ Hp Et) as Hv.
  destruct (po_move _ _ _ _ _ Hp) as [H|H1 [H2 _]|H1 H2 H3 H4|H1 H2|H1 H2]; try (simpl in *; congruence).
  - by rewrite <-H in Ht.
  - split.
    + simpl. unfold next_holder. rewrite (proj2 (outcome_unknown_spec (patched s p))) by (by rewrite Hv).
      destruct (outcome_unknown (sv_tenant s)) eqn:E; [|done].
      apply outcome_unknown_spec in E. congruence.
    + destruct (decide (sv_created s = 0%nat)) as [|Hne]; [done|]. destruct (so_early _ Hs Hne). by rewrite Et.
Qed.

Lemma patch_evolves s i h t p :
  server_ok s → patch_ok s i h t p → sv_tenant s = t → evolves s (after_patch s i p).
Proof.
  intros Hs Hp Et. pose proof (patched_view _ _ _ _ _ Hp Et) as Hv.
  split; simpl; [lia|right; split; [lia|done]| |lia].
  intros [Hd Hu]. split; [done|]. rewrite Hv. rewrite Et in Hd, Hu.
  destruct (po_move _ _ _ _ _ Hp) as [H|H1 [H2 _]|H1 H2 H3 H4|H1 H2|H1 H2]; try congruence.
Qed.

Lemma patch_server s i h t p :
  server_ok s → patch_ok s i h t p → sv_tenant s = t → server_ok (after_patch s i p).
Proof.
  intros Hs Hp Et. pose proof (patched_view _ _ _ _ _ Hp Et) as Hv.
  split; cbn [after_patch store_tenant sv_tenant sv_next sv_holder sv_created sv_catalog];
    [exists (sv_next s); split; [lia|done]| | | |apply Hs|apply Hs].
  - unfold version_ok. rewrite Hv. pose proof (so_view _ Hs) as Hok. rewrite Et in Hok.
    destruct (po_move _ _ _ _ _ Hp) as [H|H1 H2|H1 [? H2]|[? H1]|[? H1]]; try congruence.
    by rewrite H.
  - intros j. unfold next_holder. destruct (outcome_unknown (patched s p)) eqn:E; [|done].
    intros _. exact (proj1 (outcome_unknown_spec _) E).
  - intros Hc. pose proof (so_early _ Hs Hc) as He. rewrite Et in He. rewrite Hv.
    destruct (po_move _ _ _ _ _ Hp) as [H|H1 H2|H1 H2 H3|H1 H2 H3 H4 H5|H1 H2 H3];
      [by rewrite H|done|done| |rewrite H2; by intros []].
    by destruct (H5 Et).
Qed.

Lemma patch_client s i h t p j cl :
  server_ok s → patch_ok s i h t p → sv_tenant s = t → client_ok s j cl →
  (j = i → create_rejected h → catalog_create_outcome (sp_status p) = Some "Rejected" →
     ¬ holding (cl_history cl)) →
  client_ok (after_patch s i p) j cl.
Proof.
  intros Hs Hp Et Hco Hr. eapply client_evolves; [by eapply patch_evolves|done|]. intros Hh.
  destruct (co_holding _ _ _ Hco Hh) as [Hho Hc]. split; [|done].
  destruct (patch_holder _ _ _ _ _ _ Hs Hp Et Hho Hc) as [?|(E & Hcr & Ho)]; [done|]. by destruct (Hr E Hcr Ho).
Qed.

Lemma patch_flight s i cl t p clients j q :
  server_ok s → clients !! i = Some cl → patch_ok s i (cl_history cl) t p → sv_tenant s = t →
  flight_ok s clients j q → flight_ok (after_patch s i p) clients j q.
Proof.
  intros Hs Hi Hp Et Hf. eapply flight_evolves; [by eapply patch_evolves|done|].
  intros clj Hj Hho Hc [[_ (e & He & Hre)]|[_ E]].
  - split; [|done]. destruct (patch_holder _ _ _ _ _ _ Hs Hp Et Hho Hc) as [?|(-> & (x & Hx & Hrx) & _)]; [done|].
    congruence.
  - destruct (so_version _ Hs) as (n & Hn & Hv). rewrite <-E in Hv. simpl in Hv. injection Hv as Hv%(inj _). lia.
Qed.

(** *** Creating the catalog *)
Definition after_create (s : Server) (obj : DynamicObject) : Server := {|
  sv_tenant := sv_tenant s; sv_catalog := Some (created_catalog s obj);
  sv_next := N.succ (sv_next s); sv_holder := sv_holder s; sv_created := S (sv_created s) |}.

Lemma create_evolves s obj : evolves s (after_create s obj).
Proof. split; simpl; [lia|by left|done|lia]. Qed.

Lemma create_server s i obj :
  server_ok s → sv_holder s = Some i → sv_created s = 0%nat → server_ok (after_create s obj).
Proof.
  intros Hs Hh Hc. split; cbn [after_create sv_tenant sv_next sv_holder sv_created sv_catalog].
  - destruct (so_version _ Hs) as (n & Hn & Hv). exists n. split; [lia|done].
  - apply Hs.
  - apply Hs.
  - intros _. rewrite (so_holder _ Hs _ Hh). by intros [].
  - lia.
  - intros _. lia.
Qed.

Lemma create_client s i obj j cl :
  client_ok s j cl → sv_holder s = Some i → (j = i → ¬ holding (cl_history cl)) →
  client_ok (after_create s obj) j cl.
Proof.
  intros Hco Hh Hn. eapply client_evolves; [apply create_evolves|done|]. intros H.
  destruct (co_holding _ _ _ Hco H) as [E _]. destruct Hn; [congruence|done].
Qed.

Lemma create_flight s i cl obj clients j q :
  clients !! i = Some cl → sv_holder s = Some i → ¬ create_rejected (cl_history cl) →
  is_create q = false → flight_ok s clients j q → flight_ok (after_create s obj) clients j q.
Proof.
  intros Hi Hh Hn Hq Hf. eapply flight_evolves; [apply create_evolves|done|].
  intros clj Hj Hj' Hc [[E _]|[Hr _]]; [congruence|]. assert (j = i) as -> by congruence.
  assert (clj = cl) as -> by congruence. done.
Qed.

(** *** Steps *)
Lemma inv_evolves s s' clients flight :
  inv {| sy_server := s; sy_clients := clients; sy_flight := flight |} →
  evolves s s' → server_ok s' → sv_holder s' = sv_holder s → sv_created s' = sv_created s →
  inv {| sy_server := s'; sy_clients := clients; sy_flight := flight |}.
Proof.
  intros [Hs Hc Hf Hl] Hev Hs' Hh Hcr. simpl in *. split; [done| | |done]; simpl.
  - intros i cl Hi. eapply client_evolves; [done|by apply Hc|]. rewrite Hh, Hcr. by apply Hc.
  - intros i o Ho. eapply flight_evolves; [done|by apply Hf|]. intros. by rewrite Hh, Hcr.
Qed.

Lemma inv_reply s clients flight i cl o k r :
  inv {| sy_server := s; sy_clients := clients; sy_flight := flight |} →
  clients !! i = Some cl → cl_prog cl = Vis o k →
  (∀ t, tenant_reply (existT o r) = Some t → t = sv_tenant s) →
  (is_Some (catalog_event (existT o r)) → sv_created s ≠ 0%nat) →
  (∀ p t, patch_event (existT o r) ≠ Some (p, Ok t)) →
  inv {| sy_server := s; sy_clients := <[i := advance cl o r (k r)]> clients; sy_flight := flight |}.
Proof.
  intros [Hs Hc Hf Hl] Hi Hp Ht Hk Hn. simpl in *. split; [done| | |done]; simpl.
  - intros j clj Hj. destruct (decide (j = i)) as [->|Hne].
    2: { rewrite list_lookup_insert_ne in Hj by done. by apply Hc. }
    rewrite list_lookup_insert_eq in Hj by (by eapply lookup_lt_Some). injection Hj as <-.
    eapply client_reply; [apply evolves_refl|by apply Hc|done| |done|].
    + intros t ->%Ht. by apply read_current.
    + intros [H|(p & t & H & _)]%(holding_snoc s i); [by apply (Hc i cl)| |by apply Hc|done].
      by destruct (Hn p t).
  - intros j q Hq. apply flight_advance; [done| |by apply Hf].
    pose proof (co_wp _ _ _ (Hc i cl Hi)) as Hw. rewrite Hp in Hw. apply Hw.
Qed.

(** What a client may send now. *)
Lemma inv_request sy i cl o k :
  inv sy → sy_clients sy !! i = Some cl → cl_prog cl = Vis o k → catalog_request (cl_history cl) o.
Proof. intros Hinv Hi Hp. pose proof (co_wp _ _ _ (inv_clients _ Hinv _ _ Hi)) as Hw. rewrite Hp in Hw. apply Hw. Qed.

Lemma lookup_advance (clients : list Client) i (cl cl' : Client) j clj :
  clients !! i = Some cl → <[i := cl']> clients !! j = Some clj →
  (j = i ∧ clj = cl') ∨ (j ≠ i ∧ clients !! j = Some clj).
Proof.
  intros Hi Hj. destruct (decide (j = i)) as [->|Hne].
  - rewrite list_lookup_insert_eq in Hj by (by eapply lookup_lt_Some). left. by simplify_eq.
  - rewrite list_lookup_insert_ne in Hj by done. by right.
Qed.

Lemma inv_served_patch s clients flight i cl nm p k :
  inv {| sy_server := s; sy_clients := clients; sy_flight := flight |} →
  clients !! i = Some cl → cl_prog cl = Vis (PatchTenantStatus nm p) k →
  at_version (sv_tenant s) (sp_uid p) (sp_resource_version p) = true →
  let r : Resp (PatchTenantStatus nm p) := Ok (patched s p) in
  inv {| sy_server := after_patch s i p;
         sy_clients := <[i := advance cl (PatchTenantStatus nm p) r (k r)]> clients; sy_flight := flight |}.
Proof.
  intros Hinv Hi Hp Hat r. pose proof (inv_request _ _ _ _ _ Hinv Hi Hp) as Hreq.
  destruct Hinv as [Hs Hc Hf Hl]. simpl in *. pose proof (Hc i cl Hi) as Hco.
  destruct (justified_patch _ _ _ _ Hco Hreq) as (t & Ht & Hpo).
  pose proof (at_version_current _ _ _ _ _ _ Hpo Hat) as Et.
  split; [by eapply patch_server| | |done]; simpl.
  - intros j clj [[-> ->]|[Hne Hj]]%(lookup_advance _ _ _ _ _ _ Hi).
    2: { eapply patch_client; [done|done|done|by apply Hc|done]. }
    eapply client_reply; [by eapply patch_evolves|done|done|done|by intros []|]. intros Hh.
    pose proof Hh as Hh'. apply (holding_snoc s i) in Hh' as [H|(q & u & [= <- _] & Ho & c & Hr & Hv & Hx)];
      [| |done|done].
    + destruct (co_holding _ _ _ Hco H) as [Hho Hc0]. split; [|done].
      destruct (patch_holder _ _ _ _ _ _ Hs Hpo Et Hho Hc0) as [?|(_ & (e & He & _) & Ho)]; [done|].
      destruct Hh as [_ [Hn|[_ Hu]]].
      * rewrite creates_snoc, He in Hn. done.
      * destruct (Hu p (Ok (patched s p))) as (? & ? & _); [|done..].
        apply elem_of_patches_snoc. by right.
    + apply (patch_announced s i (cl_history cl) t p); [done..|]. apply elem_of_reads_snoc in Hr as [Hr|]; [|done].
      rewrite <-Et, (ro_current _ _ (co_reads _ _ _ Hco _ Hr)); [done|].
      rewrite Hv, Et. apply Hpo.
  - intros j q Hq. apply flight_advance; [done|done|]. eapply patch_flight; [done..|by apply Hf].
Qed.

Lemma inv_delivered_patch s clients f1 f2 i nm p :
  inv {| sy_server := s; sy_clients := clients; sy_flight := f1 ++ (i, PatchTenantStatus nm p) :: f2 |} →
  at_version (sv_tenant s) (sp_uid p) (sp_resource_version p) = true →
  inv {| sy_server := after_patch s i p; sy_clients := clients; sy_flight := f1 ++ f2 |}.
Proof.
  intros [Hs Hc Hf Hl] Hat. simpl in *.
  destruct (Hf i (PatchTenantStatus nm p)) as (cl & Hi & (t & Hpo) & e & He & Hae); [set_solver|].
  pose proof (at_version_current _ _ _ _ _ _ Hpo Hat) as Et.
  split; [by eapply patch_server| | |]; simpl.
  - intros j clj Hj. eapply patch_client; [done|done|done|by apply Hc|].
    intros -> (x & Hx & _) Ho [_ Hn]. assert (clj = cl) as -> by congruence.
    destruct Hn as [Hn|[_ Hu]]; [congruence|]. destruct (Hu p (Err e) He Ho) as (? & [= <-] & ?). congruence.
  - intros j q Hq. eapply patch_flight; [done..|]. apply Hf. set_solver.
  - unfold creating in *. rewrite filter_list_app in *. simpl in Hl. done.
Qed.

Lemma not_holding_created h x : creates h = [x] → match x with Ok _ => true | Err e => negb (rejects_create e) end = true →
  ¬ holding h ∧ ¬ create_rejected h.
Proof.
  intros Hx Hr. assert (Hn : ¬ create_rejected h).
  { intros (e & He & Hre). rewrite Hx in He. injection He as ->. by rewrite Hre in Hr. }
  split; [|done]. intros [_ [?|[? _]]]; [congruence|done].
Qed.

Lemma flight_creates_nil s clients i cl j q :
  sv_holder s = Some i → clients !! i = Some cl → creates (cl_history cl) = [] →
  flight_ok s clients j q → is_create q = false.
Proof.
  intros Hh Hi Hn (clj & Hj & Hq). destruct q; try done. destruct Hq as (Hh' & _ & e & He & _).
  assert (j = i) as -> by congruence. assert (clj = cl) as -> by congruence. congruence.
Qed.

Lemma creating_nil flight : (∀ i o, (i, o) ∈ flight → is_create o = false) ↔ creating flight = [].
Proof.
  induction flight as [|[i o] l IH]; [split; [done|]; by intros _ i o ?%not_elem_of_nil|].
  unfold creating in *. simpl. split.
  - intros H. rewrite (H i o) by set_solver. apply IH. set_solver.
  - destruct (is_create o) eqn:E; [done|]. intros Hl j q [[= -> ->]|Hq]%elem_of_cons; [done|].
    by apply (proj2 IH Hl j q).
Qed.

Lemma inv_served_create s clients flight i cl ns obj k :
  inv {| sy_server := s; sy_clients := clients; sy_flight := flight |} →
  clients !! i = Some cl → cl_prog cl = Vis (CreateCatalog ns obj) k →
  let r : Resp (CreateCatalog ns obj) := Ok (created_catalog s obj) in
  inv {| sy_server := after_create s obj;
         sy_clients := <[i := advance cl (CreateCatalog ns obj) r (k r)]> clients; sy_flight := flight |}.
Proof.
  intros Hinv Hi Hp r. pose proof (inv_request _ _ _ _ _ Hinv Hi Hp) as [Ha Hn].
  destruct Hinv as [Hs Hc Hf Hl]. simpl in *. pose proof (Hc i cl Hi) as Hco.
  destruct (co_holding _ _ _ Hco) as [Hh Hc0]; [by split; [|left]|].
  assert (Hcs : creates (cl_history cl ++ [existT (CreateCatalog ns obj) r]) = [r])
    by (by rewrite creates_snoc, Hn).
  split; [by eapply create_server| | |done]; simpl.
  - intros j clj [[-> ->]|[Hne Hj]]%(lookup_advance _ _ _ _ _ _ Hi).
    + eapply client_reply; [apply create_evolves|done|done|done|done|].
      intros Hho. by destruct (proj1 (not_holding_created _ _ Hcs eq_refl)).
    + eapply create_client; [by apply Hc|done|done].
  - intros j q Hq. apply flight_advance; [done|done|]. pose proof (Hf j q Hq) as Hfq.
    eapply create_flight; [done|done| |by eapply flight_creates_nil|done].
    intros (e & He & _). congruence.
Qed.

Lemma inv_delivered_create s clients f1 f2 i ns obj :
  inv {| sy_server := s; sy_clients := clients; sy_flight := f1 ++ (i, CreateCatalog ns obj) :: f2 |} →
  inv {| sy_server := after_create s obj; sy_clients := clients; sy_flight := f1 ++ f2 |}.
Proof.
  intros [Hs Hc Hf Hl]. simpl in *.
  destruct (Hf i (CreateCatalog ns obj)) as (cl & Hi & Hh & Hc0 & e & He & Hre); [set_solver|].
  destruct (not_holding_created _ _ He) as [Hnh Hnr]; [by rewrite Hre|].
  assert (Hnil : creating (f1 ++ f2) = []).
  { unfold creating in *. rewrite filter_list_app in *. simpl in Hl. rewrite length_app in Hl. simpl in Hl.
    destruct (filter_list _ f1), (filter_list _ f2); simpl in *; try lia. done. }
  split; [by eapply create_server| | |simpl; rewrite Hnil; simpl; lia]; simpl.
  - intros j clj Hj. eapply create_client; [by apply Hc|done|]. intros ->. by assert (clj = cl) as -> by congruence.
  - intros j q Hq. eapply create_flight; [done|done|done| |apply Hf; set_solver].
    by eapply (proj2 (creating_nil _) Hnil).
Qed.

Lemma definite_rejects e : definite e = false → rejects_create e = false ∧ already_there e = false.
Proof.
  destruct e as [code r m|]; [|done]. simpl. intros H. split; [|lia].
  repeat (apply orb_false_iff in H as [? H]). repeat (apply orb_false_iff; split); done.
Qed.

Lemma inv_lost s clients flight i cl o k e :
  inv {| sy_server := s; sy_clients := clients; sy_flight := flight |} →
  clients !! i = Some cl → cl_prog cl = Vis o k → definite e = false →
  inv {| sy_server := s;
         sy_clients := <[i := advance cl o (error_reply o e) (k (error_reply o e))]> clients;
         sy_flight := (i, o) :: flight |}.
Proof.
  intros Hinv Hi Hp [Hre Hae]%definite_rejects. pose proof (inv_request _ _ _ _ _ Hinv Hi Hp) as Hreq.
  pose proof (inv_clients _ Hinv _ _ Hi) as Hco.
  pose proof (λ H1 H2 H3, inv_reply _ _ _ _ _ _ _ (error_reply o e) Hinv Hi Hp H1 H2 H3) as Hr.
  destruct Hr as [Hs Hc Hf Hl]; [by destruct o|destruct o; by intros []|by destruct o|].
  destruct Hinv as [_ _ Hf0 Hl0]. simpl in *.
  assert (Hown : ∀ ns obj, o = CreateCatalog ns obj →
    sv_holder s = Some i ∧ sv_created s = 0%nat ∧ creates (cl_history cl) = []).
  { intros ns obj ->. destruct Hreq as [Ha Hn]. destruct (co_holding _ _ _ Hco); [by split; [|left]|done]. }
  split; [done|done| |]; simpl.
  - intros j q [[= -> ->]|Hq]%elem_of_cons; [|by apply Hf].
    eexists. split; [apply list_lookup_insert_eq; by eapply lookup_lt_Some|]. destruct o; try done.
    + destruct (justified_patch _ _ _ _ Hco Hreq) as (t & _ & Hpo). split.
      * exists t. eapply patch_ok_history; [|done]. intros x Hx. simpl. by rewrite creates_snoc, Hx.
      * exists e. split; [|done]. apply elem_of_patches_snoc. by right.
    + destruct (Hown _ _ eq_refl) as (Hh & Hc0 & Hn). split_and!; [done..|]. exists e.
      split; [|done]. simpl. by rewrite creates_snoc, Hn.
  - destruct (is_create o) eqn:Eo; unfold creating in *; simpl; rewrite Eo; [|done]. simpl.
    destruct o; try done. destruct (Hown _ _ eq_refl) as (Hh & Hc0 & Hn).
    change (S (length (creating flight)) ≤ 1)%nat. rewrite (proj1 (creating_nil flight)); [done|].
    intros j q Hq. eapply flight_creates_nil; [done..|by apply Hf0].
Qed.

(** A new version of the Tenant with the same catalog record. *)
Lemma inv_new_version s clients flight t' :
  inv {| sy_server := s; sy_clients := clients; sy_flight := flight |} →
  resource_version (tenant_meta t') = Some (pretty (sv_next s)) → view t' = view (sv_tenant s) →
  (deleting (sv_tenant s) = true → deleting t' = true) →
  inv {| sy_server := store_tenant s t' (sv_holder s); sy_clients := clients; sy_flight := flight |}.
Proof.
  intros Hinv Hrv Hv Hd. pose proof (inv_server _ Hinv) as Hs. simpl in Hs.
  apply (inv_evolves s); [done| | |done|done].
  - split; cbn [store_tenant sv_next sv_tenant sv_created]; [lia|right; split; [lia|done]| |lia].
    intros [? ?]. split; [auto|]. by rewrite Hv.
  - split; cbn [store_tenant sv_next sv_tenant sv_created sv_holder sv_catalog]; [|unfold version_ok; rewrite Hv; apply Hs|rewrite Hv; apply Hs|rewrite Hv; apply Hs|apply Hs|apply Hs].
    exists (sv_next s). split; [lia|done].
Qed.

(** A request the server answered at once. *)
Lemma inv_served s clients flight i cl o k r s' :
  inv {| sy_server := s; sy_clients := clients; sy_flight := flight |} →
  clients !! i = Some cl → cl_prog cl = Vis o k → serve i s o = Some (r, s') →
  inv {| sy_server := s'; sy_clients := <[i := advance cl o r (k r)]> clients; sy_flight := flight |}.
Proof.
  intros Hinv Hi Hp Hsv. pose proof (so_catalog _ (inv_server _ Hinv)) as Hcat. simpl in Hcat.
  destruct o; try done; cbn [serve] in Hsv.
  - injection Hsv as <- <-. apply inv_reply; [done..| |by intros []|done].
    destruct (named _ _); [by intros t [= ->]|done].
  - injection Hsv as <- <-. apply inv_reply; [done..| |by intros []|done].
    destruct (named _ _); [by intros t [= ->]|done].
  - destruct (negb (named _ _)); [injection Hsv as <- <-; apply inv_reply; [done..|by intros []|done]|].
    destruct (at_version _ _ _) eqn:Hat; cbn [negb] in Hsv; injection Hsv as <- <-.
    + by apply inv_served_patch.
    + apply inv_reply; [done..|by intros []|done].
  - destruct (negb (named _ _)); [injection Hsv as <- <-; apply inv_reply; [done..|by intros []|done]|].
    destruct (at_version _ _ _) eqn:Hat; cbn [negb] in Hsv; injection Hsv as <- <-.
    + apply inv_new_version; [|done..]. apply inv_reply; [done..|by intros []|done].
    + apply inv_reply; [done..|by intros []|done].
  - injection Hsv as <- <-. apply inv_reply; [done..| |done]. simpl.
    destruct (own_catalog _ _ _); [done|by intros []].
  - injection Hsv as <- <-. apply inv_reply; [done..| |done]. simpl.
    destruct (own_catalog _ _ _), (sv_catalog s); try (by intros []). by intros; apply Hcat.
  - destruct (negb (own_catalog _ _ _)); [injection Hsv as <- <-; apply inv_reply; [done..|by intros []|done]|].
    destruct (sv_catalog s); injection Hsv as <- <-; [apply inv_reply; [done..|by intros []|done]|].
    by apply inv_served_create.
Qed.

Lemma inv_dropped s clients f1 f2 x :
  inv {| sy_server := s; sy_clients := clients; sy_flight := f1 ++ x :: f2 |} →
  inv {| sy_server := s; sy_clients := clients; sy_flight := f1 ++ f2 |}.
Proof.
  intros [Hs Hc Hf Hl]. simpl in *. split; [done|done| |]; simpl.
  - intros i o Ho. apply Hf. set_solver.
  - unfold creating in *. rewrite filter_list_app in *. simpl in Hl. rewrite length_app in *.
    destruct (is_create x.2); simpl in *; lia.
Qed.

(** A request that takes effect after its sender gave up on it. *)
Lemma inv_delivered s clients f1 f2 i o r s' :
  inv {| sy_server := s; sy_clients := clients; sy_flight := f1 ++ (i, o) :: f2 |} →
  serve i s o = Some (r, s') →
  inv {| sy_server := s'; sy_clients := clients; sy_flight := f1 ++ f2 |}.
Proof.
  intros Hinv Hsv. pose proof (inv_dropped _ _ _ _ _ Hinv) as Hd.
  destruct o; try done; cbn [serve] in Hsv; try (by injection Hsv as <- <-).
  - destruct (negb (named _ _)); [by injection Hsv as <- <-|].
    destruct (at_version _ _ _) eqn:Hat; cbn [negb] in Hsv; injection Hsv as <- <-; [|done].
    by eapply inv_delivered_patch.
  - destruct (negb (named _ _)); [by injection Hsv as <- <-|].
    destruct (at_version _ _ _) eqn:Hat; cbn [negb] in Hsv; injection Hsv as <- <-; [|done].
    by apply inv_new_version.
  - destruct (negb (own_catalog _ _ _)); [by injection Hsv as <- <-|].
    destruct (sv_catalog s); injection Hsv as <- <-; [done|]. by eapply inv_delivered_create.
Qed.

Lemma inv_spawn s clients flight PL supported_version clocks now nm :
  CatalogSafeProvider PL →
  inv {| sy_server := s; sy_clients := clients; sy_flight := flight |} →
  inv {| sy_server := s;
         sy_clients := clients ++ [{| cl_history := [];
           cl_prog := @reconcile_name SJ KS PL supported_version clocks now nm |}];
         sy_flight := flight |}.
Proof.
  intros HPS [Hs Hc Hf Hl]. simpl in *. split; [done| | |done]; simpl.
  - intros i cl [Hi|[_ Hi]]%lookup_app_Some; [by apply Hc|].
    apply list_lookup_singleton_Some in Hi as [_ <-]. split; simpl.
    + apply wp_reconcile_name.
    + by intros t ?%not_elem_of_nil.
    + by intros p r ?%not_elem_of_nil.
    + done.
    + by intros [(p & t & ?%not_elem_of_nil & _) _].
  - intros i o Ho. destruct (Hf i o Ho) as (cl & Hi & Hq). exists cl. split; [|done].
    by apply lookup_app_l_Some.
Qed.

Lemma catalog_inv_step sy sy' : inv sy → sys_step sy sy' → inv sy'.
Proof.
  intros Hinv Hst.
  destruct Hst as [s clients flight PL sv clocks now nm HPS|s clients flight i cl o k r s' Hi Hp Hsv
    |s clients flight i cl o k r Hi Hp Hsv|s clients flight i cl o k e Hi Hp He
    |s clients flight i cl o k e Hi Hp He|s clients f1 f2 i o r s' Hsv|s clients flight at_ Hd
    |s clients flight t' (Hn & Hu & Hd & Hrv & Hv)|s clients flight c c' Hc].
  - by apply inv_spawn.
  - by eapply inv_served.
  - destruct o; try done; (apply inv_reply; [done..|by intros []|done]).
  - apply inv_reply; [done..| | |]; destruct o; try done; by intros [].
  - by apply inv_lost.
  - by eapply inv_delivered.
  - by apply inv_new_version.
  - apply inv_new_version; [done..|]. unfold deleting. by rewrite Hd.
  - apply (inv_evolves s); [done| | |done|done]; pose proof (inv_server _ Hinv) as Hs; simpl in Hs.
    + split; simpl; [lia|by left|done|lia].
    + split; try apply Hs. intros _. apply (so_catalog _ Hs). by rewrite Hc.
Qed.

Lemma catalog_reachable_inv sy : reachable sy → inv sy.
Proof.
  intros (sy0 & Hi & Hr). apply catalog_initial_inv in Hi. induction Hr; [done|]. eauto using catalog_inv_step.
Qed.
End Invariant.

(** ** Theorems *)
Section Theorems.
Context `{SJ : SerdeJson, KS : KubeStatusOps, SM : StatusMerge} {SL : StatusMergeLaws SM}.

Lemma store_evolves s t' holder :
  resource_version (tenant_meta t') = Some (pretty (sv_next s)) →
  (settled (sv_tenant s) → settled t') → evolves s (store_tenant s t' holder).
Proof. intros Hrv Hs. split; simpl; [lia|right; split; [lia|done]|done|lia]. Qed.

Lemma serve_evolves s i o r s' :
  server_ok s → (∀ nm p, o = PatchTenantStatus nm p → ∃ h t, patch_ok s i h t p) →
  serve i s o = Some (r, s') → evolves s s'.
Proof.
  intros Hs Hpo Hsv. destruct o; try done; cbn [serve] in Hsv;
    try (injection Hsv as <- <-; apply evolves_refl).
  - destruct (negb (named _ _)); [injection Hsv as <- <-; apply evolves_refl|].
    destruct (at_version _ _ _) eqn:Hat; cbn [negb] in Hsv; injection Hsv as <- <-; [|apply evolves_refl].
    destruct (Hpo _ _ eq_refl) as (h & t & Hp). eapply patch_evolves; [done|done|].
    by eapply at_version_current.
  - destruct (negb (named _ _)); [injection Hsv as <- <-; apply evolves_refl|].
    destruct (at_version _ _ _) eqn:Hat; cbn [negb] in Hsv; injection Hsv as <- <-; [|apply evolves_refl].
    by apply store_evolves.
  - destruct (negb (own_catalog _ _ _)); [injection Hsv as <- <-; apply evolves_refl|].
    destruct (sv_catalog s); injection Hsv as <- <-; [apply evolves_refl|apply create_evolves].
Qed.

Lemma step_evolves sy sy' : inv sy → sys_step sy sy' → evolves (sy_server sy) (sy_server sy').
Proof.
  intros Hinv Hst. pose proof (inv_server _ Hinv) as Hs.
  destruct Hst as [|s clients flight i cl o k r s' Hi Hp Hsv|s clients flight i cl o k r Hi Hp Hsv|
    |s clients flight i cl o k e Hi Hp He|s clients f1 f2 i o r s' Hsv|s clients flight at_ Hd
    |s clients flight t' (Hn & Hu & Hd & Hrv & Hv)|]; try apply evolves_refl; simpl in *.
  - eapply serve_evolves; [done| |done]. intros nm p ->.
    pose proof (inv_request _ _ _ _ _ Hinv Hi Hp) as Hreq.
    destruct (justified_patch _ _ _ _ (inv_clients _ Hinv _ _ Hi) Hreq) as (t & _ & ?). eauto.
  - eapply serve_evolves; [done| |done]. intros nm p ->.
    destruct (inv_flight _ Hinv i (PatchTenantStatus nm p)) as (cl & _ & (t & ?) & _); [set_solver|eauto].
  - apply store_evolves; [done|]. by intros [? ?].
  - apply store_evolves; [done|]. unfold settled, deleting. by rewrite Hd, Hv.
  - split; simpl; [lia|by left|done|lia].
Qed.

Lemma settled_stable sy sy' :
  inv sy → settled (sv_tenant (sy_server sy)) → rtc sys_step sy sy' →
  inv sy' ∧ settled (sv_tenant (sy_server sy')).
Proof.
  intros Hinv Hset Hr. induction Hr as [sy|sy sy1 sy2 Hst _ IH]; [done|].
  apply IH; [by eapply catalog_inv_step|]. by eapply ev_settled; [eapply step_evolves|].
Qed.

(** Without an unresolved outcome nothing can create the catalog. *)
Lemma resolved_create_free sy :
  inv sy → (view (sv_tenant (sy_server sy))).2 ≠ Some "Unknown" → create_free sy.
Proof.
  intros Hinv Hu. pose proof (inv_server _ Hinv) as Hs. split.
  - apply creating_nil. intros i o Ho. destruct (is_create o) eqn:E; [|done].
    destruct (inv_flight _ Hinv i o Ho) as (cl & _ & Hq). destruct o; try done.
    destruct Hq as (Hh & _). by destruct (so_holder _ Hs _ Hh).
  - intros cl o k [i Hi]%list_elem_of_lookup Hp. destruct (is_create o) eqn:E; [|done].
    pose proof (inv_request _ _ _ _ _ Hinv Hi Hp) as Hreq. destruct o; try done. destruct Hreq as [Ha Hn].
    destruct (co_holding _ _ _ (inv_clients _ Hinv _ _ Hi)) as [Hh _]; [by split; [|left]|].
    by destruct (so_holder _ Hs _ Hh).
Qed.

Lemma drain_settled sy cl o k :
  inv sy → cl ∈ sy_clients sy → cl_prog cl = Vis o k → destructive o = true →
  settled (sv_tenant (sy_server sy)).
Proof.
  intros Hinv [i Hi]%list_elem_of_lookup Hp Hd. pose proof (inv_request _ _ _ _ _ Hinv Hi Hp) as Hreq.
  assert (drain_ready (cl_history cl)) as (t & Ht & Hdel & Hv) by (destruct o; try done; by apply Hreq).
  pose proof (co_reads _ _ _ (inv_clients _ Hinv _ _ Hi) _ Ht) as Hr. apply Hr. split; [done|].
  destruct Hv as [Hv|]; [|done]. by destruct (ro_view _ _ Hr Hv).
Qed.
End Theorems.

(** C10. Draining never races a CREATE: from the moment some reconciliation is
    about to remove anything of the database runtime, in whatever state the
    system reaches from there, no catalog CREATE is in flight at the server
    and no reconciliation is about to send one.  This covers any number of
    interleaved reconciliations, lost and late requests, other writers of the
    status and user deletion. *)
Theorem drain_never_races_create `{SJ : SerdeJson, KS : KubeStatusOps, SM : StatusMerge}
    {SL : StatusMergeLaws SM} sy cl o k sy' :
  reachable sy → cl ∈ sy_clients sy → cl_prog cl = Vis o k → destructive o = true →
  rtc sys_step sy sy' → create_free sy'.
Proof.
  intros Hinv%catalog_reachable_inv Hcl Hp Hd Hr. pose proof (drain_settled _ _ _ _ Hinv Hcl Hp Hd) as Hs.
  destruct (settled_stable _ _ Hinv Hs Hr) as [Hinv' [_ Hu]]. by apply resolved_create_free.
Qed.

(** C11. The catalog of a Tenant is created at most once, counting the CREATE
    that may still be in flight, and never unrecorded: once the server created
    it the Tenant carries its intent and the outcome [Unknown] or [Observed],
    so that a deletion finds it. *)
Theorem catalog_created_once `{SJ : SerdeJson, KS : KubeStatusOps, SM : StatusMerge}
    {SL : StatusMergeLaws SM} sy :
  reachable sy →
  (sv_created (sy_server sy) + length (creating (sy_flight sy)) ≤ 1)%nat ∧
  (sv_created (sy_server sy) ≠ 0%nat →
     is_Some (view (sv_tenant (sy_server sy))).1 ∧
     ((view (sv_tenant (sy_server sy))).2 = Some "Unknown"
      ∨ (view (sv_tenant (sy_server sy))).2 = Some "Observed")).
Proof.
  intros Hinv%catalog_reachable_inv. pose proof (inv_server _ Hinv) as Hs. split.
  - pose proof (inv_single _ Hinv) as H1. pose proof (so_once _ Hs) as H2.
    destruct (creating (sy_flight sy)) as [|[i o] l] eqn:E; [simpl; lia|].
    assert (Hin : (i, o) ∈ creating (sy_flight sy)) by (rewrite E; set_solver).
    apply elem_of_filter_list in Hin as [Ho Hin]. destruct (inv_flight _ Hinv _ _ Hin) as (cl & _ & Hq).
    destruct o; try done. destruct Hq as (_ & -> & _). simpl in *. lia.
  - intros Hc%(so_early _ Hs). pose proof (so_view _ Hs) as Hv. unfold version_ok, early in *.
    destruct (view (sv_tenant (sy_server sy))) as [i o]. simpl in *. split.
    + destruct i; [by eexists|]. by destruct (Hc (Hv eq_refl)).
    + destruct (decide (o = Some "Unknown")); [by left|]. destruct (decide (o = Some "Observed")); [by right|].
      by destruct Hc.
Qed.

(** ** A concrete system *)
Module CatalogDemo.
(** A merge of the fields of a status. *)
#[export] Instance overlay : StatusMerge := { merge_status old p :=
  let new := sp_status p in {|
  observed_generation := match observed_generation new with Some x => Some x | None => observed_generation old end;
  phase := match phase new with Some x => Some x | None => phase old end;
  conditions := match conditions new with [] => conditions old | cs => cs end;
  database_capability := match database_capability new with Some x => Some x | None => database_capability old end;
  catalog_create_intent :=
    match catalog_create_intent new with Some i => Some i | None => catalog_create_intent old end;
  provider_status := match provider_status new with Some x => Some x | None => provider_status old end |} }.

#[export] Instance overlay_laws : StatusMergeLaws overlay.
Proof. by split. Qed.

#[local] Existing Instance ConcreteJson.json.
#[local] Existing Instance ConcreteStatus.status_ops.
#[local] Existing Instance CatalogOnly.lifecycle.

Definition spawned (sy : System) : System := {|
  sy_server := sy_server sy;
  sy_clients := sy_clients sy ++ [{| cl_history := [];
    cl_prog := reconcile_name "1.36.4" (λ _ _, 0%Z) (λ _ _, 0%Z) "alpha" |}];
  sy_flight := sy_flight sy |}.

(** The newest client sends its next request. *)
Definition client_step (i : nat) (sy : System) : System :=
  match sy_clients sy !! i with
  | Some cl =>
      match cl_prog cl with
      | Ret _ => sy
      | Vis o k =>
          match serve i (sy_server sy) o with
          | Some (r, s') => {| sy_server := s'; sy_clients := <[i := advance cl o r (k r)]> (sy_clients sy);
                               sy_flight := sy_flight sy |}
          | None => let r := CatalogOnly.answer o in
              {| sy_server := sy_server sy; sy_clients := <[i := advance cl o r (k r)]> (sy_clients sy);
                 sy_flight := sy_flight sy |}
          end
      end
  | None => sy
  end.

Fixpoint client_run (n i : nat) (sy : System) : System :=
  match n with O => sy | S n' => client_run n' i (client_step i sy) end.

Lemma spawned_step sy : rtc sys_step sy (spawned sy).
Proof. destruct sy. apply rtc_once, step_spawn, CatalogOnly.safe. Qed.

Lemma client_step_steps i sy : rtc sys_step sy (client_step i sy).
Proof.
  destruct sy as [s clients flight]. unfold client_step. cbn [sy_clients sy_server sy_flight].
  destruct (clients !! i) as [cl|] eqn:Hi; [|done]. destruct (cl_prog cl) as [a|o k] eqn:Hp; [done|].
  destruct (serve i s o) as [[r s']|] eqn:Hs; apply rtc_once; [by eapply step_served|by eapply step_other].
Qed.

Lemma client_run_steps n i sy : rtc sys_step sy (client_run n i sy).
Proof.
  revert sy. induction n as [|n IH]; intros sy; [done|]. simpl. etrans; [apply client_step_steps|apply IH].
Qed.

Definition sys0 : System := {|
  sy_server := {| sv_tenant := {|
      tenant_meta := with_version (tenant_meta CatalogOnly.tenant) 0;
      tenant_spec := tenant_spec CatalogOnly.tenant; tenant_status := None |};
    sv_catalog := None; sv_next := 1; sv_holder := None; sv_created := 0 |};
  sy_clients := []; sy_flight := [] |}.

(** [n] reconciliations of at most [m] requests, one after the other. *)
Fixpoint rounds (m n i : nat) (sy : System) : System :=
  match n with O => sy | S n' => rounds m n' (S i) (client_run m i (spawned sy)) end.

Lemma rounds_steps m n i sy : rtc sys_step sy (rounds m n i sy).
Proof.
  revert i sy. induction n as [|n IH]; intros i sy; [done|]. cbn [rounds].
  etrans; [apply spawned_step|]. etrans; [apply client_run_steps|apply IH].
Qed.

Lemma initial_sys0 : initial sys0.
Proof.
  split; [reflexivity|].
  split; [reflexivity|].
  split; [reflexivity|].
  split; [|split; [reflexivity|]; split; reflexivity].
  exists 0%N.
  split; [done|].
  cbn [sys0 sy_server sv_tenant tenant_meta with_version resource_version].
  exact eq_refl.
Qed.

(** The user deletes the Tenant before the catalog exists, and a
    reconciliation gets as far as removing the database namespace. *)
Definition deleted (sy : System) : System := {|
  sy_server := store_tenant (sy_server sy) (user_delete (sy_server sy) 7) (sv_holder (sy_server sy));
  sy_clients := sy_clients sy; sy_flight := sy_flight sy |}.
Definition before : System := rounds 30 2 0 sys0.
Definition draining : System := client_run 8 2 (spawned (deleted before)).

Lemma deleted_step sy :
  deletion_timestamp (tenant_meta (sv_tenant (sy_server sy))) = None → rtc sys_step sy (deleted sy).
Proof. destruct sy. intros. by apply rtc_once, step_user. Qed.

Lemma reachable_draining : reachable draining.
Proof.
  assert (Hb : rtc sys_step sys0 before) by exact (rounds_steps 30 2 0 sys0).
  assert (Hd : deletion_timestamp (tenant_meta (sv_tenant (sy_server before))) = None)
    by (vm_compute; reflexivity).
  exists sys0. split; [exact initial_sys0|].
  etrans; [exact Hb|]. etrans; [exact (deleted_step before Hd)|].
  etrans; [exact (spawned_step (deleted before))|]. exact (client_run_steps 8 2 _).
Qed.
End CatalogDemo.

Lemma drain_never_races_create_witness :
  ∃ cl o k, @reachable ConcreteJson.json ConcreteStatus.status_ops CatalogDemo.overlay CatalogDemo.draining ∧
    cl ∈ sy_clients CatalogDemo.draining ∧ cl_prog cl = Vis o k ∧
    o = DeleteNamespace "tenant-db-alpha" (precise_delete "uid-ns" (Some "5")) ∧
    create_free CatalogDemo.draining.
Proof.
  assert (Hop : match and_then (λ cl, match cl_prog cl with Vis o _ => Some o | Ret _ => None end)
                  (sy_clients CatalogDemo.draining !! 2%nat) with
                | Some o => o | None => ListContainers end
              = DeleteNamespace "tenant-db-alpha" (precise_delete "uid-ns" (Some "5")))
    by (vm_compute; reflexivity).
  destruct (sy_clients CatalogDemo.draining !! 2%nat) as [cl|] eqn:Hi; [|discriminate].
  cbn [and_then] in Hop. destruct (cl_prog cl) as [a|o k] eqn:Hp; [discriminate|].
  pose proof (list_elem_of_lookup_2 _ _ _ Hi) as Hin.
  exists cl, o, k. split; [exact CatalogDemo.reachable_draining|]. split; [exact Hin|].
  split; [exact Hp|]. split; [exact Hop|].
  refine (@drain_never_races_create ConcreteJson.json ConcreteStatus.status_ops CatalogDemo.overlay
            CatalogDemo.overlay_laws _ cl o k _ CatalogDemo.reachable_draining Hin Hp _ (rtc_refl _ _)).
  rewrite Hop. reflexivity.
Defined.

Lemma catalog_created_once_witness :
  sv_created (sy_server (CatalogDemo.rounds 30 3 0 CatalogDemo.sys0)) = 1%nat ∧
  (1 + length (creating (sy_flight (CatalogDemo.rounds 30 3 0 CatalogDemo.sys0))) ≤ 1)%nat.
Proof.
  assert (Hc : sv_created (sy_server (CatalogDemo.rounds 30 3 0 CatalogDemo.sys0)) = 1%nat)
    by (vm_compute; reflexivity).
  split; [exact Hc|]. rewrite <-Hc at 1.
  refine (proj1 (@catalog_created_once ConcreteJson.json ConcreteStatus.status_ops CatalogDemo.overlay
            CatalogDemo.overlay_laws _ _)).
  exists CatalogDemo.sys0.
  split; [exact CatalogDemo.initial_sys0|exact (CatalogDemo.rounds_steps 30 3 0 CatalogDemo.sys0)].
Defined.
