(* ===== verification/CatalogDrain.v ===== *)
(** * Draining a database catalog

    [drain_catalog] against any API server: every destructive request names the
    object it was decided on by UID and resource version, the finalizer of a
    catalog is only dropped when the catalog is closed and empty, and the
    runtime is only reported drained when nothing of it was found. *)

From S2P Require Import Prelude RustStd Kube Errors Api Docker Allocation ReconcileErrors.
From S2P Require Import Sanitize Readiness Effects Ops Status Catalog.

Open Scope Z_scope.

#[local] Arguments wp : simpl never.
#[local] Arguments bind : simpl never.
#[local] Arguments perform_map : simpl never.

(** Delete parameters bound to the object that was read. *)
Definition bound_delete (meta : ObjectMeta) (params : DeleteParams) : Prop :=
  ∃ u, uid meta = Some u ∧ u ≠ "" ∧ params = precise_delete u (resource_version meta).

Lemma json_insert_pointer fields key v :
  is_json_bool (pointer (VObject (json_insert fields key (VBool v))) [key]) v = true.
Proof.
  unfold is_json_bool. cbn [pointer and_then json_get].
  assert (find_first (λ f, f.1 == key) (json_insert fields key (VBool v)) = Some (key, VBool v)) as ->.
  2: { simpl. by rewrite bool_decide_eq_true_2. }
  induction fields as [|[k x] l IH]; simpl.
  - by rewrite bool_decide_eq_true_2.
  - case_bool_decide; simpl; [subst; by rewrite bool_decide_eq_true_2|]. by rewrite bool_decide_eq_false_2.
Qed.

Lemma catalog_identity_non_empty c nm tu e b u : catalog_identity c nm tu e b = Ok u → u ≠ "".
Proof.
  unfold catalog_identity. destruct (filter_non_empty _) as [w|] eqn:Hf; [|done]. cbn [ok_or].
  destruct (owner_references _); cbn [ok_or]; [|done]. intros H.
  assert (Ok w = Ok u :> result CatalogRuntimeError string) as [= <-]
    by (revert H; match goal with |- (if ?b then _ else _) = _ → _ => by destruct b end).
  by apply filter_non_empty_Some in Hf as [_ ?].
Qed.

Section Drain.
Context (tenant_name tenant_uid : string) (recorded : option CatalogIdentity).
Let db := database_namespace tenant_name.
Let storage := storage_namespace tenant_name.

(** The catalog that was read is the recorded one. *)
Definition catalog_matches (c : DynamicObject) (u rv : string) : Prop :=
  resource_version (dyn_meta c) = Some rv ∧
  ∃ identity, recorded = Some identity ∧ ci_catalog_uid identity ≠ "" ∧
    catalog_identity c tenant_name tenant_uid (Some (ci_catalog_uid identity)) false = Ok u.

Definition catalog_entries (c : DynamicObject) : option (list (string * Value)) :=
  and_then as_object (pointer (dyn_data c) ["spec"; "entries"]).

(** Closed, with no entry left in the specification nor in the status. *)
Definition catalog_empty (c : DynamicObject) : Prop :=
  is_json_bool (pointer (dyn_data c) ["spec"; "closed"]) true = true ∧
  catalog_entries c = Some [] ∧
  ∀ es, and_then as_object (pointer (dyn_data c) ["status"; "entries"]) = Some es → es = [].

(** No credential object was found. *)
Definition credentials_gone (h : trace Resp) : Prop :=
  answered h (GetRole tenant_name CREDENTIAL_ROLE) (Ok None) ∧
  answered h (GetRoleBinding tenant_name CREDENTIAL_ROLE) (Ok None).

Definition catalog_gone (h : trace Resp) : Prop := answered h (GetCatalog db tenant_name) (Ok None).

(** The namespace that was read carries the Tenant's marker and the deletion is
    bound to it. *)
Definition namespace_bound (h : trace Resp) (nm : string) (params : DeleteParams) : Prop :=
  ∃ ns u, answered h (GetNamespace nm) (Ok (Some ns)) ∧
    owned (ns_meta ns) nm tenant_uid (Some u) = Ok u ∧
    params = precise_delete u (resource_version (ns_meta ns)).

Definition drain_request (h : trace Resp) (o : Op) : Prop :=
  match o with
  | PatchCatalog ns nm (CloseCatalog u rv entries) => ns = db ∧ nm = tenant_name ∧
      ∃ c es, answered h (GetCatalog db tenant_name) (Ok (Some c)) ∧ catalog_matches c u rv ∧
        catalog_entries c = Some es ∧ entries.*1 = es.*1 ∧
        Forall (λ '(_, e), is_json_bool (pointer e ["deleting"]) true = true) entries
  | PatchCatalog ns nm (ReleaseCatalog u rv) => ns = db ∧ nm = tenant_name ∧
      ∃ c, answered h (GetCatalog db tenant_name) (Ok (Some c)) ∧ catalog_matches c u rv ∧
        catalog_empty c
  | DeleteCatalog ns nm params => ns = db ∧ nm = tenant_name ∧
      ∃ u rv updated, answered h (PatchCatalog db tenant_name (ReleaseCatalog u rv)) (Ok updated) ∧
        bound_delete (dyn_meta updated) params
  | DeleteRoleBinding ns nm params => ns = tenant_name ∧ nm = CREDENTIAL_ROLE ∧
      ∃ b, answered h (GetRoleBinding tenant_name CREDENTIAL_ROLE) (Ok (Some b)) ∧
        is_ok (owned (binding_meta b) CREDENTIAL_ROLE tenant_uid None) = true ∧
        bound_delete (binding_meta b) params ∧ catalog_gone h
  | DeleteRole ns nm params => ns = tenant_name ∧ nm = CREDENTIAL_ROLE ∧
      ∃ r, answered h (GetRole tenant_name CREDENTIAL_ROLE) (Ok (Some r)) ∧
        is_ok (owned (role_meta r) CREDENTIAL_ROLE tenant_uid None) = true ∧
        bound_delete (role_meta r) params ∧ catalog_gone h ∧
        answered h (GetRoleBinding tenant_name CREDENTIAL_ROLE) (Ok None)
  | DeleteNamespace nm params =>
      namespace_bound h nm params ∧ catalog_gone h ∧ credentials_gone h ∧
      (nm = db ∨ (nm = storage ∧ answered h (ListDisks storage) (Ok [])))
  | o => mutates o = false
  end.

(** What [Ok true] means: nothing is left of what was recorded, or of what was
    observed when nothing was recorded. *)
Definition drained (h : trace Resp) : Prop :=
  catalog_gone h ∧ credentials_gone h ∧
  (match recorded with
   | Some i => ci_catalog_uid i = "" ∨ ci_namespace_uid i ≠ ""
   | None => True
   end → answered h (GetNamespace db) (Ok None)) ∧
  (match recorded with
   | Some i => ci_catalog_uid i = "" ∨ is_Some (ci_storage_namespace_uid i)
   | None => True
   end → answered h (GetNamespace storage) (Ok None)) ∧
  (is_Some (and_then ci_storage_namespace_uid recorded) → answered h (ListDisks storage) (Ok [])).

Lemma owned_expected meta nm u v : owned meta nm tenant_uid (Some u) = Ok v → v = u.
Proof.
  unfold owned. destruct (ok_or _ _) as [w|]; [|done]. cbn [is_some_and].
  destruct (_ || (u != w)) eqn:Hg; [done|]. bool_hyp. congruence.
Qed.

Lemma owned_non_empty meta nm e v : owned meta nm tenant_uid e = Ok v → v ≠ "".
Proof.
  unfold owned. destruct (filter_non_empty _) as [w|] eqn:Hf; [|done]. cbn [ok_or].
  destruct (_ || _); [done|]. intros [= <-]. by apply filter_non_empty_Some in Hf as [_ ?].
Qed.

Lemma wp_delete_namespace_exact nm u h :
  (∀ h' params, namespace_bound h' nm params → (∃ g, h' = h ++ g) →
     drain_request h' (DeleteNamespace nm params)) →
  wp (delete_namespace nm tenant_uid u) h drain_request
     (λ h' r, (r = Ok true → answered h' (GetNamespace nm) (Ok None)) ∧ ∃ g, h' = h ++ g).
Proof.
  intros Hpre. apply wp_extends. unfold delete_namespace. request; [done|].
  destruct reply as [[ns|]|e]; cbn [map_err]; [|by intros _; in_history|done].
  destruct (_ && _); [done|]. destruct (owned _ _ _ _) as [v|] eqn:Ho; [|done].
  pose proof (owned_expected _ _ _ _ Ho) as ->.
  request; [|by destruct reply]. apply Hpre; [|by exists [existT (GetNamespace nm) (Ok (Some ns))]].
  exists ns, u. split_and!; [in_history|done|done].
Qed.

Lemma credential_params_bound meta params :
  credential_delete_params meta = Ok params → bound_delete meta params.
Proof.
  unfold credential_delete_params, filter_non_empty.
  destruct (uid meta) as [u|] eqn:Hu; cbn [opt_filter ok_or]; [|done].
  destruct (non_empty u) eqn:Hne; cbn [ok_or]; [|done].
  destruct (resource_version meta) as [rv|] eqn:Hv; cbn [opt_filter ok_or]; [|done].
  destruct (non_empty rv); cbn [ok_or]; [|done]. intros [= <-].
  exists u. split_and!; [done|by intros ->|by rewrite Hv].
Qed.

Lemma wp_without_catalog identity h :
  catalog_gone h →
  wp (drain_catalog_without_catalog tenant_name tenant_uid identity) h drain_request
     (λ h' r, (r = Ok true → credentials_gone h' ∧
        (ci_namespace_uid identity ≠ "" → answered h' (GetNamespace db) (Ok None)) ∧
        (is_Some (ci_storage_namespace_uid identity) →
           answered h' (ListDisks storage) (Ok []) ∧ answered h' (GetNamespace storage) (Ok None)))
      ∧ ∃ g, h' = h ++ g).
Proof.
  intros Hc. apply wp_extends. unfold drain_catalog_without_catalog.
  request; [done|]. destruct reply as [role|e]; cbn [map_err]; [|done].
  request; [done|]. destruct reply as [binding|e]; cbn [map_err]; [|done].
  destruct (map_transpose _ role) as [ru|] eqn:Hr; [|done].
  destruct (map_transpose _ binding) as [bu|] eqn:Hb; [|done].
  assert (Hgone : catalog_gone h1) by (subst; by do 2 apply answered_app_l).
  destruct binding as [b|].
  { destruct (credential_delete_params _) as [params|] eqn:Hp; [|done].
    request; [|by destruct reply]. split_and!; [done|done|]. exists b.
    split_and!; [in_history| |by apply credential_params_bound|done].
    simpl in Hb. by destruct (owned (binding_meta b) _ _ _). }
  destruct role as [r|].
  { destruct (credential_delete_params _) as [params|] eqn:Hp; [|done].
    request; [|by destruct reply]. split_and!; [done|done|]. exists r.
    split_and!; [in_history| |by apply credential_params_bound|done|in_history].
    simpl in Hr. by destruct (owned (role_meta r) _ _ _). }
  assert (Hcred : credentials_gone h1) by (split; in_history).
  assert (Hns : wp (namespace_remains db tenant_uid (ci_namespace_uid identity)) h1 drain_request
    (λ h' r, (r = Ok false → ci_namespace_uid identity ≠ "" → answered h' (GetNamespace db) (Ok None))
       ∧ ∃ g, h' = h1 ++ g)).
  { apply wp_extends. unfold namespace_remains. destruct (non_empty _) eqn:Hne.
    - apply wp_bind. eapply wp_post; [apply wp_delete_namespace_exact|].
      + intros h' params Hb' (g & ->). split_and!; [done|by apply answered_app_l| |by left].
        split; apply answered_app_l, Hcred.
      + cbn beta. intros h' [[]|e] [Hg _]; [|done|done]. intros _ _. by apply Hg.
    - intros _ Hx%non_empty_true. congruence. }
  apply wp_bind. eapply wp_post; [exact Hns|]. cbn beta. intros h' [[]|e] [Hdb (g & Eg)]; [done| |done].
  specialize (Hdb eq_refl).
  assert (Hcred' : credentials_gone h') by (subst h'; split; apply answered_app_l, Hcred).
  assert (Hgone' : catalog_gone h') by (subst h'; by apply answered_app_l).
  unfold drain_storage. destruct (ci_storage_namespace_uid identity) as [su|].
  2: { intros _. split_and!; [done|done|by intros []]. }
  request; [done|]. destruct reply as [[|d disks]|e]; cbn [map_err]; [|done|done].
  apply wp_bind. eapply wp_post; [apply wp_delete_namespace_exact|].
  - intros h3 params Hb' (g' & ->). subst h2. split_and!; [done|by do 2 apply answered_app_l| |].
    + split; do 2 apply answered_app_l; apply Hcred'.
    + right. split; [done|]. apply answered_app_l. in_history.
  - cbn beta. intros h3 [[]|e] [Hg (g' & Eg')]; [|done|done]. intros _. specialize (Hg eq_refl).
    assert (Hext : ∀ o r, answered h' o r → answered h3 o r).
    { intros o r Ha. subst h3 h2. by do 2 apply answered_app_l. }
    split_and!; [split; apply Hext, Hcred'|by intros; apply Hext, Hdb|].
    intros _. split; [|done]. subst h3. apply answered_app_l. in_history.
Qed.

Lemma wp_drain_unrecorded :
  match recorded with Some i => ci_catalog_uid i = "" | None => True end →
  ∀ h, wp (drain_unrecorded tenant_name tenant_uid recorded) h drain_request
     (λ h' r, r = Ok true → drained h').
Proof.
  intros Hrec h. unfold drain_unrecorded.
  request; [done|]. destruct reply as [[c|]|e]; cbn [map_err is_some]; [done| |done].
  request; [done|]. destruct reply as [nso|e]; cbn [map_err]; [|done].
  destruct (map_transpose _ nso) as [nu|] eqn:Hn; [|done].
  request; [done|]. destruct reply as [sto|e]; cbn [map_err]; [|done].
  destruct (map_transpose _ sto) as [su|] eqn:Hs; [|done].
  eapply wp_post; [apply wp_without_catalog; unfold catalog_gone; in_history|]. cbn beta.
  intros h' r [Hd (g & Eg)] ->. destruct (Hd eq_refl) as (Hcred & Hns & Hst). clear Hd.
  cbn [ci_namespace_uid ci_storage_namespace_uid] in Hns, Hst.
  assert (Hext : ∀ o r, answered h2 o r → answered h' o r) by (intros; subst h'; by apply answered_app_l).
  split_and!; [apply Hext; unfold catalog_gone; in_history|done| | |].
  - intros _. destruct nso as [ns|]; [|apply Hext; in_history]. apply Hns.
    destruct (filter_non_empty _) as [u|] eqn:Hf; cbn [unwrap_or].
    + by apply filter_non_empty_Some in Hf as [_ ?].
    + simpl in Hn. destruct (owned _ _ _ _) as [v|] eqn:Ho; [|done]. injection Hn as <-.
      cbn [unwrap_or]. by eapply owned_non_empty.
  - intros _. destruct sto as [so|]; [|apply Hext; in_history]. apply Hst.
    destruct (and_then _ _); [by eexists|]. simpl in Hs. destruct (owned _ _ _ _); [|done].
    injection Hs as <-. by eexists.
  - intros [u Hu]. apply Hst. rewrite Hu. by eexists.
Qed.

Lemma mark_entries_marked entries marked :
  mark_entries entries = Ok marked →
  marked.*1 = entries.*1 ∧
  Forall (λ '(_, e), is_json_bool (pointer e ["deleting"]) true = true) marked.
Proof.
  unfold mark_entries. revert marked. induction entries as [|[k e] l IH]; intros marked.
  { intros [= <-]. by split; [|constructor]. }
  cbn [try_map]. destruct (as_object e) as [fields|]; cbn [ok_or]; [|done].
  destruct (try_map _ l) as [ms|] eqn:Hl; [|done]. intros [= <-].
  destruct (IH ms eq_refl) as [Hk Hf]. split; [simpl; by f_equal|]. constructor; [|done].
  apply json_insert_pointer.
Qed.

Lemma wp_drain_existing identity c h :
  recorded = Some identity → ci_catalog_uid identity ≠ "" →
  answered h (GetCatalog db tenant_name) (Ok (Some c)) →
  wp (drain_existing tenant_name tenant_uid identity c) h drain_request (λ _ r, r ≠ Ok true).
Proof.
  intros Hrec Hne Hc. unfold drain_existing. destruct (_ && _); [done|].
  destruct (catalog_identity _ _ _ _ _) as [u|] eqn:Hid; [|done].
  destruct (resource_version (dyn_meta c)) as [rv|] eqn:Hrv; cbn [ok_or]; [|done].
  destruct (and_then as_object (pointer (dyn_data c) ["spec"; "entries"])) as [es|] eqn:Hes; cbn [ok_or]; [|done].
  assert (Hm : catalog_matches c u rv) by (split; [done|]; by exists identity).
  destruct (negb _ || _) eqn:Hopen.
  { destruct (mark_entries es) as [marked|] eqn:Hmark; [|done].
    destruct (mark_entries_marked _ _ Hmark). request; [|by destruct reply].
    split_and!; [done|done|]. by exists c, es. }
  apply orb_false_iff in Hopen as [Hcl _]. apply negb_false_iff in Hcl.
  destruct (_ || is_some_and _ _) eqn:Hleft; [done|]. apply orb_false_iff in Hleft as [Hl Hst].
  assert (Hempty : catalog_empty c).
  { destruct es; [|done]. split_and!; [done|done|]. intros es' Hes'. rewrite Hes' in Hst. by destruct es'. }
  request; [split_and!; [done|done|]; by exists c|].
  destruct reply as [updated|e]; cbn [map_err]; [|done].
  destruct (uid (dyn_meta updated) != Some u) eqn:Hu; [done|]. bool_hyp.
  request; [|by destruct reply]. split_and!; [done|done|]. exists u, rv, updated.
  split; [in_history|]. exists u. split_and!; [done| |done]. by eapply catalog_identity_non_empty.
Qed.

End Drain.

Lemma wp_drain_catalog_exact tenant_name tenant_uid recorded h :
  wp (drain_catalog tenant_name tenant_uid recorded) h (drain_request tenant_name tenant_uid recorded)
     (λ h' r, r = Ok true → drained tenant_name recorded h').
Proof.
  unfold drain_catalog. destruct recorded as [identity|]; [|by apply wp_drain_unrecorded].
  destruct (is_empty (ci_catalog_uid identity)) eqn:Hempty.
  { apply wp_drain_unrecorded. by destruct (ci_catalog_uid identity). }
  assert (Hne : ci_catalog_uid identity ≠ "") by (intros E; by rewrite E in Hempty).
  request; [done|]. destruct reply as [[c|]|e]; cbn [map_err]; [| |done].
  { eapply wp_post; [apply wp_drain_existing; [done|done|in_history]|]. by intros h' r Hr ->. }
  assert (Hgone : catalog_gone tenant_name h0) by (unfold catalog_gone; in_history).
  eapply wp_post; [by apply wp_without_catalog|]. cbn beta. intros h' r [Hd (g & Eg)] ->.
  destruct (Hd eq_refl) as (Hcred & Hns & Hst).
  split_and!; [subst h'; by apply answered_app_l|done| | |].
  - intros [?|?]; [done|by apply Hns].
  - intros [?|?]; [done|by apply Hst].
  - intros ?. by apply Hst.
Qed.

(** C31. Whatever the API server answers, draining the database runtime only
    removes what it proved to be the Tenant's.  The catalog is closed and its
    entries marked on the exact version of the recorded catalog, and its
    finalizer is dropped only when that version is closed with no entry left
    in specification or status; the catalog is then deleted by its UID and
    the version of that patch.  Credentials go only after the catalog, the
    binding before the role; namespaces go only after both, the storage
    namespace only when it lists no disk; each by UID and version, with the
    Tenant's marker.  Nothing else is changed, and the runtime is reported
    drained only when nothing of it was found. *)
Theorem drain_catalog_exact tenant_name tenant_uid recorded env :
  let '(h, r) := run env (drain_catalog tenant_name tenant_uid recorded) [] in
  issued (drain_request tenant_name tenant_uid recorded) [] h ∧
  (r = Ok true → drained tenant_name recorded h).
Proof.
  pose proof (wp_run env _ [] _ _ (wp_drain_catalog_exact tenant_name tenant_uid recorded [])) as H.
  destruct (run env _ []) as [h r]. destruct H as [Hr Hi]. by split.
Qed.
