(* ===== verification/ReconcileReport.v ===== *)
(** * What a failed reconciliation reports

    The status updates of [Reconcile.conclude], over any provider and against
    any API server. *)

From S2P Require Import Prelude RustStd Kube Errors Api Foundation Docker Allocation ReconcileErrors.
From S2P Require Import Sanitize Readiness Effects Ops Status Catalog Reconcile CatalogSafety.

Open Scope Z_scope.

#[local] Arguments wp : simpl never.
#[local] Arguments bind : simpl never.
#[local] Arguments perform_map : simpl never.

(** Every status patch satisfies [Q]. *)
Definition patches_satisfy (Q : TenantStatus → Prop) (o : Op) : Prop :=
  match o with PatchTenantStatus _ p => Q (sp_status p) | _ => True end.

(** A status update writes what its mutation computes. *)
Lemma wp_update_writes tenant mutate (Q : TenantStatus → Prop) h :
  (∀ a s s' g, mutate a s = Ok s' → Q (with_observed_generation s' g)) →
  wp (update_status tenant mutate) h (λ _ o, patches_satisfy Q o) (λ _ _, True).
Proof.
  intros HQ. apply (wp_anywhere _ []). eapply wp_mono; [| |by apply (wp_mutate_status _ _ _ _ _ [] tenant)].
  - intros h' [] Ho; try done. destruct Ho as (_ & _ & (a & Ha) & _). unfold mutated in Ha.
    destruct (mutate a _) as [s'|] eqn:Hm; [|done]. injection Ha as Ha. simpl. rewrite <-Ha. by eapply HQ.
  - done.
Qed.

(** The verdict a failed reconciliation writes. *)
Definition failure_status (tenant : Tenant) (error : ReconcileError) (s : TenantStatus) : Prop :=
  reports s tenant "Ready" false ∧ phase s ≠ Some PhaseReady ∧
  (ownership_invalid error = true →
     phase s = Some PhaseOwnershipInvalid ∧ reports s tenant "OwnershipValid" false) ∧
  (∀ f, error = RFoundation f → reports s tenant "FoundationReady" false).

Section Report.
Context `{SJ : SerdeJson, KS : KubeStatusOps} {PL : ProviderLifecycle} {PS : CatalogSafeProvider PL}.
Context (now : nat → string → Time).

Lemma failure_report_phase del error :
  (failure_report del error).1 ≠ PhaseReady ∧
  (ownership_invalid error = true → failure_report del error = (PhaseOwnershipInvalid, "OwnershipInvalid")) ∧
  (∀ f, error = RFoundation f → (failure_report del error).2 ∈ ["FoundationMismatch"; "FoundationInvalid"]).
Proof.
  unfold failure_report. split_and!.
  - destruct (ownership_invalid error); [done|]. destruct (degraded_reason error); [done|].
    destruct error as [| | | | |[]| | | | | | |]; by destruct del.
  - by intros ->.
  - intros f ->. simpl. destruct f; simpl; set_solver.
Qed.

Lemma failure_mutation_writes tenant error message a s s' g :
  let '(ph, reason) := failure_report (is_some (deletion_timestamp (tenant_meta tenant))) error in
  failure_mutation now tenant ph reason message a s = Ok s' →
  failure_status tenant error (with_observed_generation s' g).
Proof.
  pose proof (failure_report_phase (is_some (deletion_timestamp (tenant_meta tenant))) error) as (Hp & Ho & Hf).
  destruct (failure_report _ error) as [ph reason]. simpl in Hp, Hf. unfold failure_mutation.
  intros [= <-]. unfold failure_status.
  change (reports (with_observed_generation ?x g)) with (reports x).
  change (phase (with_observed_generation ?x g)) with (phase x).
  set (s1 := set_condition _ (with_phase s (Some ph)) _ _ _ _ _).
  set (s2 := if ph == PhaseOwnershipInvalid then _ else _).
  assert (H1 : reports s2 tenant "Ready" false ∧ phase s2 = Some ph).
  { unfold s2. destruct (ph == _); split; try done.
    - apply set_condition_reports_other; [done|]. apply set_condition_reports.
    - apply set_condition_reports. }
  destruct H1 as [Hr Hph]. split_and!.
  - destruct (bool_decide (reason ∈ _)); [by apply set_condition_reports_other|done].
  - assert (phase (if bool_decide (reason ∈ ["FoundationMismatch"; "FoundationInvalid"])
      then set_condition (now a "FoundationReady") s2 tenant "FoundationReady" false reason message else s2)
      = Some ph) as -> by (by destruct (bool_decide (reason ∈ _))). congruence.
  - intros Hown. specialize (Ho Hown). injection Ho as -> ->.
    rewrite (bool_decide_eq_false_2 (_ ∈ _)) by set_solver. split; [done|].
    unfold s2. rewrite bool_decide_eq_true_2 by done. apply set_condition_reports.
  - intros f Hfe. rewrite bool_decide_eq_true_2 by (by eapply Hf). apply set_condition_reports.
Qed.

Lemma progress_writes tenant a s s' g :
  progress_mutation now tenant a s = Ok s' →
  reports (with_observed_generation s' g) tenant "Ready" false ∧
  phase (with_observed_generation s' g) ≠ Some PhaseReady.
Proof.
  intros [= <-]. split; [apply set_condition_reports|]. unfold progress_status. simpl.
  by destruct (established _).
Qed.

Lemma pending_not_ownership error :
  is_pending error = true → ownership_invalid error = false ∧ ∀ f, error ≠ RFoundation f.
Proof.
  destruct error as [| |e|e|e| |e| | | | | |]; try done; intros Hp; (split; [|done]).
  - by destruct e.
  - by destruct e.
  - by destruct e.
Qed.

Lemma wp_guarded_writes (Q : TenantStatus → Prop) (k : io ReconcileError Action) h :
  (∀ h', wp k h' (λ _ o, patches_satisfy Q o) (λ _ _, True)) →
  wp (guarded k) h (λ _ o, patches_satisfy Q o) (λ _ _, True).
Proof.
  intros Hk. unfold guarded. apply wp_bind. eapply wp_mono; [| |apply guard_neutral].
  - intros h' o Ho. by destruct o.
  - intros h' [u|e] _; [apply Hk|done].
Qed.

Lemma wp_conclude_writes tenant error h :
  wp (conclude now tenant (Err error)) h (λ _ o, patches_satisfy (failure_status tenant error) o) (λ _ _, True).
Proof.
  unfold conclude. destruct (_ && is_pending error) eqn:Hp.
  - apply andb_true_iff in Hp as [_ Hp]. destruct (pending_not_ownership _ Hp) as [Ho Hf].
    apply wp_guarded_writes. intros h'. unfold progress, runtime. apply wp_try_map.
    eapply wp_post; [apply wp_update_writes|by intros h'' []].
    intros a s s' g [Hr Hph]%(progress_writes _ _ _ _ g). split_and!; [done|done|by rewrite Ho|].
    intros f E. by destruct (Hf f).
  - assert (Hfail : ∀ h', wp (failure now tenant error) h'
      (λ _ o, patches_satisfy (failure_status tenant error) o) (λ _ _, True)).
    { intros h'. unfold failure.
      pose proof (λ m a s s' g, failure_mutation_writes tenant error m a s s' g) as Hw.
      destruct (failure_report _ error) as [ph reason]. destruct (conflict error); [done|].
      unfold runtime. apply wp_try_map. eapply wp_post; [apply wp_update_writes|by intros h'' []].
      intros a s s' g Hm. by eapply Hw. }
    destruct error; try (by apply wp_guarded_writes). done.
Qed.
End Report.

(** C37. A failed reconciliation never reports the Tenant as ready: whatever
    the provider's error and the server's answers, every status patch that
    follows it has Ready False at the Tenant's generation and a phase other
    than Ready.  Invalid ownership is reported as the phase OwnershipInvalid
    with OwnershipValid False, a foundation error with FoundationReady
    False. *)
Theorem failed_reconcile_reported `{SJ : SerdeJson, KS : KubeStatusOps} {PL : ProviderLifecycle}
    {PS : CatalogSafeProvider PL} now tenant error env :
  let '(h, r) := run env (conclude now tenant (Err error)) [] in
  issued (λ _ o, patches_satisfy (failure_status tenant error) o) [] h.
Proof.
  pose proof (wp_run env _ [] _ _ (wp_conclude_writes now tenant error [])) as H.
  destruct (run env _ []) as [h r]. apply H.
Qed.

Lemma failed_reconcile_reported_witness :
  let error := ROwnershipInvalid "foreign" in
  let '(h, r) := run (λ _, CatalogOnly.answer)
    (@conclude ConcreteJson.json ConcreteStatus.status_ops CatalogOnly.lifecycle (λ _ _, 0)
       CatalogOnly.tenant (Err error)) [] in
  issued (λ _ o, patches_satisfy (failure_status CatalogOnly.tenant error) o) [] h.
Proof.
  exact (@failed_reconcile_reported ConcreteJson.json ConcreteStatus.status_ops CatalogOnly.lifecycle
           CatalogOnly.safe (λ _ _, 0) CatalogOnly.tenant (ROwnershipInvalid "foreign")
           (λ _, CatalogOnly.answer)).
Defined.
