(* ===== verification/Gate.v ===== *)
(** * The leadership gate

    [controller/src/runtime.rs]: [LeadershipGate] admits work while the process
    leads and lets the leader wait until all admitted work is done.  Its
    methods are modelled step by step, one step per access to an atomic or to
    the [Notify], interleaved over any number of workers and the task that
    retires the gate ([stop_accepting] followed by [drain]).  [HealthState] is
    at the end of the file.

    The atomics are read and written in one order that all threads agree on.
    The source uses acquire and release orderings; between [stop_accepting] and
    [drain] its only caller sends on a watch channel, whose lock separates the
    store of [accepting] from the loads of [active]. *)

From stdpp Require Import relations.
From S2P Require Import Prelude.

(** ** [tokio::sync::Notify] with the one future that [drain] waits on *)
Class NotifyOps := {
  Notify : Type;
  notify_one : Notify → Notify;
  notify_waiters : Notify → Notify;
  (** Whether [notified().await] completes now, and the state after it is
      polled. *)
  poll : Notify → bool * Notify;
}.

(** Documented behaviour: a notification is received by the future, or kept
    for the next one; [notify_waiters] takes none away. *)
Class NotifyLaws (NO : NotifyOps) : Prop := {
  notify_one_signals n : (poll (notify_one n)).1 = true;
  notify_waiters_keeps n : (poll n).1 = true → (poll (notify_waiters n)).1 = true;
}.

Module Gate.
Section Gate.
Context `{NO : NotifyOps}.

(** The fields of [LeadershipGateInner]. *)
Record Inner := {
  accepting : bool;
  active : nat;
  drained : Notify;
}.

Definition with_accepting (g : Inner) (b : bool) : Inner := {|
  accepting := b; active := active g; drained := drained g |}.
Definition with_active (g : Inner) (n : nat) : Inner := {|
  accepting := accepting g; active := n; drained := drained g |}.
Definition with_drained (g : Inner) (n : Notify) : Inner := {|
  accepting := accepting g; active := active g; drained := n |}.

(** A thread that calls [try_enter] and drops the permit it gets, at its next
    atomic access. *)
Inductive Worker :=
| Idle
| Increment  (** [accepting] was true: [fetch_add] *)
| Recheck    (** the second [is_accepting] *)
| Permit     (** holds a [WorkPermit] *)
| Decrement  (** [leave]: [fetch_sub] *)
| LeaveCheck (** [fetch_sub] returned 1: [is_accepting] *)
| LeaveNotifyWaiters
| LeaveNotifyOne.

#[export] Instance Worker_eq_dec : EqDecision Worker.
Proof. solve_decision. Defined.

Inductive worker_step (g : Inner) : Worker → Inner → Worker → Prop :=
| enter_refused : accepting g = false → worker_step g Idle g Idle
| enter_checked : accepting g = true → worker_step g Idle g Increment
| enter_counted : worker_step g Increment (with_active g (S (active g))) Recheck
| enter_granted : accepting g = true → worker_step g Recheck g Permit
| enter_undone : accepting g = false → worker_step g Recheck g Decrement
| permit_dropped : worker_step g Permit g Decrement
| leave_last : active g = 1%nat → worker_step g Decrement (with_active g 0) LeaveCheck
| leave_more n : active g = S (S n) → worker_step g Decrement (with_active g (S n)) Idle
| leave_accepting : accepting g = true → worker_step g LeaveCheck g Idle
| leave_stopped : accepting g = false → worker_step g LeaveCheck g LeaveNotifyWaiters
| leave_notify_waiters :
    worker_step g LeaveNotifyWaiters (with_drained g (notify_waiters (drained g))) LeaveNotifyOne
| leave_notify_one :
    worker_step g LeaveNotifyOne (with_drained g (notify_one (drained g))) Idle.

(** The task that runs [stop_accepting] and then [drain]. *)
Inductive Leader :=
| Leading
| StopLoad            (** [accepting] is stored: load [active] *)
| StopNotifyWaiters
| StopNotifyOne
| DrainLoad           (** the condition of the loop *)
| DrainWait           (** [notified().await] *)
| Drained.

Inductive leader_step (g : Inner) : Leader → Inner → Leader → Prop :=
| stop_store : leader_step g Leading (with_accepting g false) StopLoad
| stop_empty : active g = 0%nat → leader_step g StopLoad g StopNotifyWaiters
| stop_busy : active g ≠ 0%nat → leader_step g StopLoad g DrainLoad
| stop_notify_waiters :
    leader_step g StopNotifyWaiters (with_drained g (notify_waiters (drained g))) StopNotifyOne
| stop_notify_one :
    leader_step g StopNotifyOne (with_drained g (notify_one (drained g))) DrainLoad
| drain_busy : active g ≠ 0%nat → leader_step g DrainLoad g DrainWait
| drain_done : active g = 0%nat → leader_step g DrainLoad g Drained
| drain_pending n : poll (drained g) = (false, n) → leader_step g DrainWait (with_drained g n) DrainWait
| drain_notified n : poll (drained g) = (true, n) → leader_step g DrainWait (with_drained g n) DrainLoad.

Record System := { inner : Inner; workers : list Worker; leader : Leader }.

Inductive step : System → System → Prop :=
| worker_moves g ws l i w g' w' :
    ws !! i = Some w → worker_step g w g' w' →
    step {| inner := g; workers := ws; leader := l |}
         {| inner := g'; workers := <[i := w']> ws; leader := l |}
| leader_moves g ws l g' l' :
    leader_step g l g' l' →
    step {| inner := g; workers := ws; leader := l |}
         {| inner := g'; workers := ws; leader := l' |}.

(** After [start_accepting], before any call. *)
Definition initial (s : System) : Prop :=
  accepting (inner s) = true ∧ active (inner s) = 0%nat ∧ leader s = Leading ∧
  ∀ w, w ∈ workers s → w = Idle.

Definition reachable (s : System) : Prop := ∃ s0, initial s0 ∧ rtc step s0 s.

(** ** Invariant *)
Definition counted (w : Worker) : bool := bool_decide (w ∈ [Recheck; Permit; Decrement]).
Definition notifying (w : Worker) : bool := bool_decide (w ∈ [LeaveCheck; LeaveNotifyWaiters; LeaveNotifyOne]).
Definition count (ws : list Worker) : nat := length (filter_list counted ws).

Record inv (s : System) : Prop := {
  inv_active : active (inner s) = count (workers s);
  inv_stopped : leader s ≠ Leading → accepting (inner s) = false;
  inv_drained : leader s = Drained → Permit ∉ workers s;
  inv_wait : leader s = DrainWait →
    active (inner s) ≠ 0%nat ∨ (poll (drained (inner s))).1 = true ∨
    Exists (λ w, notifying w = true) (workers s);
}.

Lemma count_insert ws i w w' :
  ws !! i = Some w →
  (count (<[i := w']> ws) + (if counted w then 1 else 0) = count ws + (if counted w' then 1 else 0))%nat.
Proof.
  unfold count. revert i. induction ws as [|x ws IH]; intros [|i]; simpl; [done..| |].
  - intros [= ->]. destruct (counted w), (counted w'); simpl; lia.
  - intros Hi. specialize (IH i Hi). destruct (counted x); simpl; lia.
Qed.

Lemma count_zero ws w : count ws = 0%nat → w ∈ ws → counted w = false.
Proof.
  intros Hc Hw. destruct (counted w) eqn:E; [|done].
  assert (Hin : w ∈ filter_list counted ws) by (by apply elem_of_filter_list).
  unfold count in Hc. destruct (filter_list counted ws); [by apply not_elem_of_nil in Hin|done].
Qed.

Lemma gate_initial_inv s : initial s → inv s.
Proof.
  intros (Ha & Hn & Hl & Hw). split; rewrite ?Hn, ?Hl; try done.
  unfold count. assert (filter_list counted (workers s) = []) as ->; [|done].
  destruct (filter_list counted (workers s)) as [|w l] eqn:E; [done|].
  assert (w ∈ filter_list counted (workers s)) as [Hc Hin]%elem_of_filter_list by (rewrite E; by left).
  by rewrite (Hw w Hin) in Hc.
Qed.

(** What a worker's step does to the gate once it stopped accepting. *)
Lemma worker_step_count g w g' w' :
  worker_step g w g' w' →
  accepting g' = accepting g ∧
  (active g' + (if counted w then 1 else 0) = active g + (if counted w' then 1 else 0))%nat ∧
  (w' = Permit → accepting g = true).
Proof.
  intros Hs. assert (C : ∀ x, counted x = match x with Recheck | Permit | Decrement => true | _ => false end)
    by (by intros []).
  rewrite !C. destruct Hs; simpl; split_and!; try done; lia.
Qed.

Lemma Exists_insert (P : Worker → Prop) ws i w w' :
  ws !! i = Some w → P w' ∨ (Exists P ws ∧ ¬ P w) → Exists P (<[i := w']> ws).
Proof.
  intros Hi [Hp|[He Hn]]; apply list.Exists_exists.
  - exists w'. split; [|done]. apply list_elem_of_lookup. exists i.
    apply list_lookup_insert_eq. by eapply lookup_lt_Some.
  - apply list.Exists_exists in He as (x & [j Hj]%list_elem_of_lookup & Hx).
    exists x. split; [|done]. apply list_elem_of_lookup. exists j.
    rewrite list_lookup_insert_ne; [done|]. intros ->. congruence.
Qed.

Context {NL : NotifyLaws NO}.

(** A worker's step keeps the waiting leader wakeable. *)
Lemma worker_step_wakes g w g' w' :
  worker_step g w g' w' → accepting g = false →
  (active g ≠ 0%nat → active g' ≠ 0%nat ∨ notifying w' = true) ∧
  ((poll (drained g)).1 = true → (poll (drained g')).1 = true) ∧
  (notifying w = true → notifying w' = true ∨ (poll (drained g')).1 = true).
Proof.
  intros Hs Ha. destruct Hs; simpl; split_and!; try done; try congruence;
    try (by left); try (intros; by right); try (intros; by left).
  - intros H. by apply notify_waiters_keeps.
  - intros _. apply notify_one_signals.
  - intros _. right. apply notify_one_signals.
Qed.

Lemma gate_inv_step s s' : inv s → step s s' → inv s'.
Proof.
  intros [Hact Hst Hdr Hw] Hs. destruct Hs as [g ws l i w g' w' Hi Hws|g ws l g' l' Hls]; simpl in *.
  - destruct (worker_step_count _ _ _ _ Hws) as (Ha & Hc & Hp).
    pose proof (count_insert ws i w w' Hi) as Hci. split; simpl.
    + lia.
    + intros Hl. rewrite Ha. auto.
    + intros ->. intros [j Hj]%list_elem_of_lookup. destruct (decide (j = i)) as [->|Hne].
      * rewrite list_lookup_insert_eq in Hj by (by eapply lookup_lt_Some). injection Hj as Hj.
        specialize (Hp Hj). rewrite Hst in Hp; done.
      * rewrite list_lookup_insert_ne in Hj by done. apply (Hdr eq_refl). by eapply list_elem_of_lookup_2.
    + intros ->. assert (Hacc : accepting g = false) by (by apply Hst).
      destruct (worker_step_wakes _ _ _ _ Hws Hacc) as (H1 & H2 & H3).
      destruct (Hw eq_refl) as [H|[H|H]].
      * destruct (H1 H) as [?|?]; [by left|]. right. right. eapply Exists_insert; [done|by left].
      * right. left. auto.
      * destruct (notifying w) eqn:Hn.
        -- destruct (H3 eq_refl) as [?|?]; [|by right; left]. right. right.
           eapply Exists_insert; [done|by left].
        -- right. right. eapply Exists_insert; [done|]. right. by rewrite Hn.
  - destruct Hls; split; simpl in *; try done; auto.
    + intros _ Hin. rewrite Hact in H. by specialize (count_zero ws Permit H Hin).
    + intros _. destruct (Hw eq_refl) as [?|[Hp|?]]; [by left| |by right; right]. by rewrite H in Hp.
Qed.

Lemma gate_reachable_inv s : reachable s → inv s.
Proof. intros (s0 & Hi & Hr). apply gate_initial_inv in Hi. induction Hr; eauto using gate_inv_step. Qed.

(** A gate that stopped accepting stays so. *)
Lemma step_drained s s' : step s s' → leader s = Drained → leader s' = Drained.
Proof. intros Hs Hl. destruct Hs as [| g ws l g' l' Hls]; simpl in *; [done|]. subst. inversion Hls. Qed.

(** C26. When [drain] returns after [stop_accepting], no thread holds a work
    permit, and none ever gets one again, however the calls of [try_enter] and
    the drops of permits are interleaved with it. *)
Theorem gate_drain_exclusive s s' :
  reachable s → leader s = Drained → rtc step s s' → Permit ∉ workers s'.
Proof.
  intros Hr Hl Hss. assert (Hinv : inv s) by (by apply gate_reachable_inv). clear Hr.
  induction Hss as [s|s s1 s2 Hs _ IH]; [by apply Hinv|].
  apply IH; [by eapply step_drained|by eapply gate_inv_step].
Qed.

(** C27. No wake-up is lost: whenever [drain] waits and no thread is inside
    [try_enter] or [leave] or holds a permit, its notification has arrived, so
    it runs again; and then the count of active permits is zero, so it
    returns. *)
Theorem gate_no_lost_wakeup s :
  reachable s → leader s = DrainWait → (∀ w, w ∈ workers s → w = Idle) →
  (poll (drained (inner s))).1 = true ∧ active (inner s) = 0%nat.
Proof.
  intros Hr Hl Hidle. assert (Hinv : inv s) by (by apply gate_reachable_inv).
  assert (Ha : active (inner s) = 0%nat).
  { rewrite (inv_active _ Hinv). unfold count.
    destruct (filter_list counted (workers s)) as [|w l] eqn:E; [done|].
    assert (w ∈ filter_list counted (workers s)) as [Hc Hin]%elem_of_filter_list by (rewrite E; by left).
    by rewrite (Hidle w Hin) in Hc. }
  split; [|done]. destruct (inv_wait _ Hinv Hl) as [?|[?|He]]; [lia|done|].
  apply list.Exists_exists in He as (w & Hin & Hn). by rewrite (Hidle w Hin) in Hn.
Qed.
End Gate.
End Gate.

(** ** A gate with one worker *)
Module GateDemo.
Import Gate.

(** A [Notify] that only keeps its permit. *)
#[export] Instance permit : NotifyOps := {
  Notify := bool; notify_one _ := true; notify_waiters n := n; poll n := (n, false) }.
#[export] Instance permit_laws : NotifyLaws permit.
Proof. by split. Qed.

Definition state (acc : bool) (n : nat) (p : bool) (w : Worker) (l : Leader) : System := {|
  inner := {| accepting := acc; active := n; drained := p |}; workers := [w]; leader := l |}.

Lemma worker_moved g w l g' w' :
  worker_step g w g' w' →
  step {| inner := g; workers := [w]; leader := l |} {| inner := g'; workers := [w']; leader := l |}.
Proof. intros Hs. by apply (worker_moves g [w] l 0 w g' w'). Qed.

(** The worker is admitted before the gate stops and leaves after the drain
    began to wait. *)
Lemma trail_waiting : rtc step (state true 0 false Idle Leading) (state false 0 true Idle DrainWait).
Proof.
  eapply rtc_l; [by apply worker_moved, enter_checked|].
  eapply rtc_l; [by apply worker_moved, enter_counted|].
  eapply rtc_l; [by apply worker_moved, enter_granted|].
  eapply rtc_l; [by apply leader_moves, stop_store|].
  eapply rtc_l; [by apply leader_moves, stop_busy|].
  eapply rtc_l; [by apply leader_moves, drain_busy|].
  eapply rtc_l; [by apply worker_moved, permit_dropped|].
  eapply rtc_l; [by apply worker_moved, leave_last|].
  eapply rtc_l; [by apply worker_moved, leave_stopped|].
  eapply rtc_l; [by apply worker_moved, leave_notify_waiters|].
  eapply rtc_l; [by apply worker_moved, leave_notify_one|]. apply rtc_refl.
Qed.

Lemma trail_drained : rtc step (state true 0 false Idle Leading) (state false 0 false Idle Drained).
Proof.
  etrans; [apply trail_waiting|]. eapply rtc_l; [by eapply leader_moves, drain_notified|].
  eapply rtc_l; [by apply leader_moves, drain_done|]. apply rtc_refl.
Qed.

Lemma initial_state : initial (state true 0 false Idle Leading).
Proof. split_and!; try done. simpl. by intros w ->%list_elem_of_singleton. Qed.
End GateDemo.

Lemma gate_drain_exclusive_witness :
  Gate.Permit ∉ Gate.workers (GateDemo.state false 0 false Gate.Idle Gate.Drained).
Proof.
  refine (@Gate.gate_drain_exclusive GateDemo.permit GateDemo.permit_laws
            (GateDemo.state false 0 false Gate.Idle Gate.Drained) _ _ eq_refl (rtc_refl _ _)).
  exists (GateDemo.state true 0 false Gate.Idle Gate.Leading).
  split; [apply GateDemo.initial_state|apply GateDemo.trail_drained].
Defined.

Lemma gate_no_lost_wakeup_witness :
  (poll (Gate.drained (Gate.inner (GateDemo.state false 0 true Gate.Idle Gate.DrainWait)))).1 = true ∧
  Gate.active (Gate.inner (GateDemo.state false 0 true Gate.Idle Gate.DrainWait)) = 0%nat.
Proof.
  refine (@Gate.gate_no_lost_wakeup GateDemo.permit GateDemo.permit_laws
            (GateDemo.state false 0 true Gate.Idle Gate.DrainWait) _ eq_refl _).
  - exists (GateDemo.state true 0 false Gate.Idle Gate.Leading).
    split; [apply GateDemo.initial_state|apply GateDemo.trail_waiting].
  - intros w Hw. by apply list_elem_of_singleton in Hw.
Defined.

(** ** Health *)
Module Health.
Record HealthState := { live : bool; ready : bool }.

Definition default : HealthState := {| live := true; ready := false |}.
Definition set_ready (s : HealthState) (r : bool) : HealthState := {| live := live s; ready := r |}.
Definition set_live (s : HealthState) (l : bool) : HealthState :=
  let s := {| live := l; ready := ready s |} in
  if negb l then set_ready s false else s.
Definition healthz (s : HealthState) : Z := if live s then 200 else 503.
Definition readyz (s : HealthState) : Z := if ready s then 200 else 503.
End Health.
