(* ===== verification/Leadership.v ===== *)
(** * Leader election

    [controller/src/runtime.rs]: the configuration check, the confirmation that
    the Lease is still ours ([LeaseConfirmation]), and [run_leader_elected].
    Times are in nanoseconds; [Instant] and [SystemTime] are separate clocks
    whose readings are inputs. *)

From S2P Require Import Prelude RustStd Kube Errors Effects.

Open Scope Z_scope.

Definition SECOND : Z := 1000000000.
Definition I32_MAX : Z := 2 ^ 31 - 1.
(** [x as i32] of a [u64] *)
Definition as_i32 (x : Z) : Z := (x + 2 ^ 31) mod 2 ^ 32 - 2 ^ 31.

Record LeaderConfig := {
  lease_name : string;
  lease_namespace : string;
  identity : string;
  duration_seconds : Z;
  grace_seconds : Z;
}.

Definition validate (c : LeaderConfig) : result ControllerError unit :=
  if is_empty (trim (lease_name c))
  then Err (Configuration "leader election lease name must not be empty")
  else if is_empty (trim (lease_namespace c))
  then Err (Configuration "leader election namespace must not be empty")
  else if is_empty (trim (identity c))
  then Err (Configuration "leader election identity must not be empty")
  else if (grace_seconds c =? 0) || (duration_seconds c <=? grace_seconds c) || (I32_MAX <? duration_seconds c)
  then Err (Configuration "leader lease duration must fit the Lease API and exceed a non-zero grace period")
  else Ok tt.

(** ** Confirmation of the Lease *)
Record LeaseConfirmation := {
  lc_identity : string;
  lc_duration : Z;
  lc_grace : Z;
  lc_uid : option string;
  lc_transitions : option Z;
  lc_last_renewal : option Z;
  lc_deadline : Z;
}.

(** [new], with the reading of [Instant::now()] *)
Definition new (c : LeaderConfig) (instant : Z) : LeaseConfirmation :=
  let duration := duration_seconds c * SECOND in
  let grace := grace_seconds c * SECOND in {|
  lc_identity := identity c; lc_duration := duration; lc_grace := grace;
  lc_uid := None; lc_transitions := None; lc_last_renewal := None;
  lc_deadline := instant + duration - grace / 2 |}.

(** One call of [observe]: the reply and the clock readings in their order. *)
Record Observation := {
  ob_lease : result KubeError Lease;
  ob_before : Z;  (** [Instant], after the reply *)
  ob_system : Z;  (** [SystemTime] *)
  ob_after : Z;   (** [Instant], for the new deadline *)
  ob_end : Z;     (** [Instant] *)
}.

(** [SystemTime] counts seconds in an [i64]. *)
Definition system_time (t : Z) : option Z :=
  if (- 2 ^ 63 * SECOND <=? t) && (t <? 2 ^ 63 * SECOND) then Some t else None.

Definition lease_foreign (c : LeaseConfirmation) (spec : LeaseSpec) (u : string) (renew : Z) : bool :=
  (holder_identity spec != Some (lc_identity c))
  || (lease_duration_seconds spec != Some (as_i32 (lc_duration c / SECOND)))
  || is_some_and (λ previous, previous != u) (lc_uid c)
  || is_some_and (λ previous, lease_transitions spec != Some previous) (lc_transitions c)
  || is_some_and (λ previous, renew <? previous) (lc_last_renewal c).

Definition renewed (c : LeaseConfirmation) (u : string) (spec : LeaseSpec) (renew deadline : Z)
    : LeaseConfirmation := {|
  lc_identity := lc_identity c; lc_duration := lc_duration c; lc_grace := lc_grace c;
  lc_uid := Some u; lc_transitions := lease_transitions spec; lc_last_renewal := Some renew;
  lc_deadline := deadline |}.

Definition observe (c : LeaseConfirmation) (ob : Observation)
    : result ControllerError unit * LeaseConfirmation :=
  let lost := (Err LeadershipLost, c) in
  match ob_lease ob with
  | Err e => (Err (Kube e), c)
  | Ok lease =>
      if lc_deadline c <=? ob_before ob then lost else
      match lease_spec lease with
      | None => lost
      | Some spec =>
          match renew_time spec, uid (lease_meta lease) with
          | None, _ | _, None => lost
          | Some renew, Some u =>
              if lease_foreign c spec u renew then lost else
              match and_then (λ expiry, system_time (expiry - lc_grace c / 2))
                      (system_time (renew + lc_duration c)) with
              | None => lost
              | Some expires_safely =>
                  if expires_safely <? ob_system ob then lost else
                  let remaining := expires_safely - ob_system ob in
                  let c' :=
                    if lc_last_renewal c != Some renew
                    then renewed c u spec renew
                           (ob_after ob + Z.min remaining (lc_duration c - lc_grace c / 2))
                    else c in
                  if lc_deadline c' <=? ob_end ob then (Err LeadershipLost, c') else (Ok tt, c')
              end
          end
      end
  end.

(** One turn of the loop of [monitor]: the deadline wins a race. *)
Inductive Turn :=
| DeadlineElapsed
| DeadlineDuringObserve
| Observed (ob : Observation).

(** The loop of [monitor]: the deadlines it publishes, its state, and the error
    it ended with, if it ended. *)
Fixpoint monitor (c : LeaseConfirmation) (turns : list Turn)
    : list Z * LeaseConfirmation * option ControllerError :=
  match turns with
  | [] => ([], c, None)
  | DeadlineElapsed :: _ | DeadlineDuringObserve :: _ => ([], c, Some LeadershipLost)
  | Observed ob :: turns' =>
      match observe c ob with
      | (Ok _, c') =>
          let '(published, c'', e) := monitor c' turns' in (lc_deadline c' :: published, c'', e)
      | (Err (Kube _), c') => monitor c' turns'
      | (Err e, c') => ([], c', Some e)
      end
  end.

(** [retire_by] of [run_leader_elected] *)
Definition retire_by (c : LeaderConfig) (deadline : Z) : Z := deadline + grace_seconds c * SECOND / 4.

(** What a successful [observe] saw. *)
Record confirms (c c' : LeaseConfirmation) (ob : Observation) (lease : Lease) (spec : LeaseSpec)
    (u : string) (renew : Z) : Prop := {
  cf_lease : ob_lease ob = Ok lease;
  cf_spec : lease_spec lease = Some spec;
  cf_renew : renew_time spec = Some renew;
  cf_uid : uid (lease_meta lease) = Some u;
  cf_holder : holder_identity spec = Some (lc_identity c);
  cf_duration : lease_duration_seconds spec = Some (as_i32 (lc_duration c / SECOND));
  cf_same_uid : ∀ v, lc_uid c = Some v → v = u;
  cf_monotone : ∀ r, lc_last_renewal c = Some r → r ≤ renew;
  cf_alive : ob_end ob < lc_deadline c';
  cf_last : lc_last_renewal c' = Some renew;
  cf_fixed : lc_identity c' = lc_identity c ∧ lc_duration c' = lc_duration c ∧ lc_grace c' = lc_grace c;
  cf_deadline : (lc_last_renewal c = Some renew ∧ c' = c) ∨
    (lc_last_renewal c ≠ Some renew ∧
     lc_deadline c' ≤ ob_after ob + (renew + lc_duration c - lc_grace c / 2 - ob_system ob) ∧
     lc_deadline c' ≤ ob_after ob + lc_duration c - lc_grace c / 2);
}.

Lemma system_time_Some t t' : system_time t = Some t' → t' = t.
Proof. unfold system_time. destruct (_ && _); congruence. Qed.

Lemma observe_confirms c c' ob r :
  observe c ob = (Ok r, c') → ∃ lease spec u renew, confirms c c' ob lease spec u renew.
Proof.
  unfold observe. destruct (ob_lease ob) as [lease|] eqn:Hl; [|done].
  destruct (_ <=? ob_before ob); [done|]. destruct (lease_spec lease) as [spec|] eqn:Hs; [|done].
  destruct (renew_time spec) as [renew|] eqn:Hr; [|done].
  destruct (uid (lease_meta lease)) as [u|] eqn:Hu; [|done].
  destruct (lease_foreign c spec u renew) eqn:Hf; [done|].
  destruct (system_time (renew + _)) as [expiry|] eqn:He; cbn [and_then]; [|done].
  apply system_time_Some in He as ->.
  destruct (system_time _) as [safe|] eqn:He; [|done]. apply system_time_Some in He as ->.
  destruct (_ <? ob_system ob) eqn:Hlt; [done|].
  set (c1 := if lc_last_renewal c != Some renew then _ else c). destruct (lc_deadline c1 <=? ob_end ob) eqn:Hend; [done|].
  intros [= _ <-]. exists lease, spec, u, renew.
  unfold lease_foreign in Hf. repeat (apply orb_false_iff in Hf as [Hf ?]). bool_hyp.
  unfold c1 in *. destruct (lc_last_renewal c != Some renew) eqn:Hn; bool_hyp.
  - split; simpl; try done.
    + intros v Hv. rewrite Hv in *. simpl in *. bool_hyp. done.
    + intros v Hv. rewrite Hv in *. simpl in *. lia.
    + simpl in Hend. lia.
    + right. split; [done|]. lia.
  - split; simpl; try done.
    + intros v Hv. rewrite Hv in *. simpl in *. bool_hyp. done.
    + intros v Hv. rewrite Hv in *. simpl in *. lia.
    + lia.
    + by left.
Qed.

(** The two clocks differ by [off], up to a delay of [eps] between reading one
    and reading the other. *)
Definition timely (off eps : Z) (t : Turn) : Prop :=
  match t with Observed ob => ob_after ob ≤ ob_system ob + off + eps | _ => True end.

Definition deadline_safe (off eps : Z) (c : LeaseConfirmation) : Prop :=
  ∀ r, lc_last_renewal c = Some r → lc_deadline c ≤ r + off + lc_duration c - lc_grace c / 2 + eps.

Lemma observe_state c c' ob e : observe c ob = (Err (Kube e), c') → c' = c.
Proof.
  unfold observe. destruct (ob_lease ob) as [lease|]; [|by intros [= _ <-]].
  repeat case_match; intros; simplify_eq; done.
Qed.

Lemma observe_safe off eps c c' ob r :
  deadline_safe off eps c → timely off eps (Observed ob) → observe c ob = (Ok r, c') →
  deadline_safe off eps c'.
Proof.
  intros Hs Ht (lease & spec & u & renew & Hc)%observe_confirms v Hv. simpl in Ht.
  rewrite (cf_last _ _ _ _ _ _ _ Hc) in Hv. injection Hv as <-.
  destruct (cf_fixed _ _ _ _ _ _ _ Hc) as (_ & -> & ->).
  destruct (cf_deadline _ _ _ _ _ _ _ Hc) as [[Hr ->]|(_ & Hd & _)]; [by apply Hs|lia].
Qed.

(** A published deadline is backed by a Lease that was read. *)
Definition backed (off eps : Z) (c : LeaseConfirmation) (turns : list Turn) (d : Z) : Prop :=
  ∃ ob lease spec renew, Observed ob ∈ turns ∧ ob_lease ob = Ok lease ∧ lease_spec lease = Some spec ∧
    holder_identity spec = Some (lc_identity c) ∧
    lease_duration_seconds spec = Some (as_i32 (lc_duration c / SECOND)) ∧
    renew_time spec = Some renew ∧ ob_end ob < d ∧
    d ≤ renew + off + lc_duration c - lc_grace c / 2 + eps.

Lemma monitor_backed off eps turns c published c' e :
  deadline_safe off eps c → Forall (timely off eps) turns →
  monitor c turns = (published, c', e) → Forall (backed off eps c turns) published.
Proof.
  revert c published c' e. induction turns as [|[| |ob] turns IH]; intros c published c' e Hs Ht; cbn [monitor];
    try (intros [= <- _ _]; by constructor).
  apply list.Forall_cons in Ht as [Hob Ht]. destruct (observe c ob) as [[r|e1] c1] eqn:Ho.
  - destruct (monitor c1 turns) as [[ps c2] e2] eqn:Hm. intros [= <- _ _].
    pose proof (observe_safe _ _ _ _ _ _ Hs Hob Ho) as Hs1.
    destruct (observe_confirms _ _ _ _ Ho) as (lease & spec & u & renew & Hc).
    pose proof (cf_fixed _ _ _ _ _ _ _ Hc) as (Hi & Hdu & Hg). apply list.Forall_cons; split.
    + exists ob, lease, spec, renew. destruct Hc. split_and!; try done; [apply elem_of_cons; by left|].
      rewrite <-Hdu, <-Hg. by apply Hs1.
    + eapply list.Forall_impl; [by eapply IH|]. intros d (ob' & l' & s' & r' & Hin & H).
      exists ob', l', s', r'. rewrite <-Hi, <-Hdu, <-Hg. split; [apply elem_of_cons; by right|done].
  - destruct e1; try (intros [= <- _ _]; by constructor). intros Hm.
    pose proof (observe_state _ _ _ _ Ho) as ->.
    eapply list.Forall_impl; [by eapply IH|]. intros d (ob' & l' & s' & r' & Hin & H).
    exists ob', l', s', r'. split; [apply elem_of_cons; by right|done].
Qed.

Lemma as_i32_small x : 0 ≤ x ≤ I32_MAX → as_i32 x = x.
Proof. unfold as_i32, I32_MAX. intros H. rewrite Z.mod_small; lia. Qed.

Lemma validate_Ok c : validate c = Ok tt →
  grace_seconds c ≠ 0 ∧ grace_seconds c < duration_seconds c ≤ I32_MAX.
Proof.
  unfold validate. repeat (destruct (is_empty _); [done|]).
  destruct (_ || _) eqn:Hg; [done|]. intros _. repeat (apply orb_false_iff in Hg as [Hg ?]). lia.
Qed.

(** C25. Work is retired before the Lease expires: under a valid configuration
    every deadline the monitor publishes comes from a Lease it read that names
    this process as its holder for the configured duration, and the time by
    which run_leader_elected retires after it lies strictly before the expiry
    of that renewal, provided the delay between the two clock readings stays
    below a quarter of the grace period.  A deadline is published only before
    it has passed. *)
Theorem retired_before_expiry config start turns published c' e off eps :
  validate config = Ok tt → 0 ≤ grace_seconds config → eps < grace_seconds config * SECOND / 4 →
  Forall (timely off eps) turns →
  monitor (new config start) turns = (published, c', e) →
  Forall (λ d, ∃ ob lease spec renew, Observed ob ∈ turns ∧ ob_lease ob = Ok lease ∧
    lease_spec lease = Some spec ∧ holder_identity spec = Some (identity config) ∧
    lease_duration_seconds spec = Some (duration_seconds config) ∧ renew_time spec = Some renew ∧
    ob_end ob < d ∧ retire_by config d < renew + duration_seconds config * SECOND + off) published.
Proof.
  intros Hv Hg0 He Ht Hm. destruct (validate_Ok _ Hv) as (Hg & Hd).
  eapply list.Forall_impl; [eapply monitor_backed; [|exact Ht|exact Hm]|]; [done|].
  intros d (ob & lease & spec & renew & Hin & Hl & Hs & Hh & Hdu & Hr & Hend & Hle).
  exists ob, lease, spec, renew. simpl in *. split_and!; try done.
  - rewrite Hdu. f_equal. rewrite Z.div_mul by done. apply as_i32_small. lia.
  - unfold retire_by, SECOND in *. lia.
Qed.

(** A monitor that reads one renewal. *)
Module LeaseDemo.
Definition config : LeaderConfig := {|
  lease_name := "leader"; lease_namespace := "system"; identity := "pod-a";
  duration_seconds := 30; grace_seconds := 5 |}.
Definition lease : Lease := {|
  lease_meta := {|
    name := Some "leader"; namespace := Some "system"; uid := Some "lease-uid";
    resource_version := Some "2"; generation := None; labels := None; annotations := None;
    owner_references := None; finalizers := None; deletion_timestamp := None |};
  lease_spec := Some {|
    acquire_time := None; holder_identity := Some "pod-a"; lease_duration_seconds := Some 30;
    lease_transitions := Some 1; preferred_holder := None; renew_time := Some (100 * SECOND);
    strategy := None |} |}.
Definition turn : Turn := Observed {|
  ob_lease := Ok lease; ob_before := 2 * SECOND; ob_system := 101 * SECOND; ob_after := 2 * SECOND;
  ob_end := 2 * SECOND |}.
Definition deadline : Z := 28 * SECOND + SECOND / 2.
End LeaseDemo.

Lemma retired_before_expiry_witness :
  (monitor (new LeaseDemo.config SECOND) [LeaseDemo.turn]).1.1 = [LeaseDemo.deadline] ∧
  retire_by LeaseDemo.config LeaseDemo.deadline < 100 * SECOND + 30 * SECOND + -99 * SECOND.
Proof.
  destruct (monitor (new LeaseDemo.config SECOND) [LeaseDemo.turn]) as [[ps c'] e] eqn:Hm.
  assert (Hps : ps = [LeaseDemo.deadline]) by (vm_compute in Hm; injection Hm as <- _ _; reflexivity).
  split; [exact Hps|].
  pose proof (retired_before_expiry LeaseDemo.config SECOND [LeaseDemo.turn] ps c' e (-99 * SECOND) 0
    eq_refl ltac:(discriminate) ltac:(reflexivity)
    ltac:(constructor; [discriminate|constructor]) Hm) as Hb.
  rewrite Hps in Hb. apply list.Forall_cons in Hb as [(ob & lease & spec & renew & Hin & Hl & Hs & _ & _ & Hr & _ & Hlt) _].
  apply list_elem_of_singleton in Hin. injection Hin as ->. simpl in Hl. injection Hl as <-.
  simpl in Hs. injection Hs as <-. simpl in Hr. injection Hr as <-. exact Hlt.
Defined.
