(* ===== verification/LeaderRun.v ===== *)
(** * The leader-elected process

    [run_leader_elected] and [LeadershipContext::stopped] of
    [controller/src/runtime.rs].  A [select!] is a request whose reply says
    which branch won; a [watch] channel that changed replies with whether its
    sender is gone and with its new value.  The lease manager, the monitor and
    the workload are part of the environment.  The two waiting loops run with a
    bound on their turns; [StillWaiting] is a run that has not left them.

    Values that go out of scope are dropped where Rust drops them, also without
    a [drop] in the source: an early return drops [leadership], a panic drops
    [workload] and then [leadership], and when [timeout_at] elapses it drops the
    future [retirement], which owns both.  The lease manager gives the Lease up
    when the receivers of [leadership] are gone. *)

From S2P Require Import Prelude RustStd Kube Errors Effects Leadership.

Open Scope Z_scope.

Inductive StopReason := StopLeadershipLost | StopShutdown.

#[export] Instance StopReason_eq_dec : EqDecision StopReason.
Proof. solve_decision. Defined.

(** [changed().await] and the value borrowed after it. *)
Record Changed := { changed_is_err : bool; changed_value : bool }.

Inductive AcquireEvent := AcquireShutdown (c : Changed) | AcquireLeadership (is_err : bool).
Inductive ConfirmEvent :=
| ConfirmMonitor (r : result ControllerError unit)
| Confirmed (received : bool)
| ConfirmShutdown (c : Changed)
| ConfirmLeadership (c : Changed).
Inductive RunEvent :=
| RunMonitor (r : result ControllerError unit)
| RunWorkload (r : result ControllerError unit)
| RunShutdown (c : Changed)
| RunLeadership (c : Changed).

Inductive LeadOp :=
| BuildManager
| ShutdownRequested | LeadershipHeld
| SelectAcquire | SelectConfirm | SelectRun
| StartMonitor
| StartAccepting | StopAccepting
| SetReady (ready : bool)
| StartWorkload | SendStop | ReadDeadline
(** Awaits under [timeout_at]: [None] is the timeout. *)
| AwaitDrain (by_ : Z) | AwaitWorkload (by_ : Z) | AwaitManagerBy (by_ : Z)
| AwaitManager | AbortManager
| DropWorkload | DropLeadership.

Definition LeadResp (o : LeadOp) : Type :=
  match o with
  | BuildManager | AwaitManager => result ControllerError unit
  | ShutdownRequested | LeadershipHeld => bool
  | SelectAcquire => AcquireEvent
  | SelectConfirm => ConfirmEvent
  | SelectRun => RunEvent
  | ReadDeadline => Z
  | AwaitDrain _ => option unit
  | AwaitWorkload _ | AwaitManagerBy _ => option (result ControllerError unit)
  | StartMonitor | StartAccepting | StopAccepting | SetReady _ | StartWorkload | SendStop
  | AbortManager | DropWorkload | DropLeadership => unit
  end.

Inductive RunResult :=
| Returned (r : result ControllerError unit)
| Panicked (message : string)
| StillWaiting.

Notation lead A := (prog LeadResp A).

Definition gone (c : Changed) (stop : bool) : bool := changed_is_err c || (changed_value c == stop).

(** An early return: [leadership] goes out of scope. *)
Definition leave (r : RunResult) : lead (option RunResult) :=
  do! _ <- perform DropLeadership ;;
  Ret (Some r).

(** [drop(leadership); manager_task.await...??; return Ok(())] *)
Definition release_and_return : lead RunResult :=
  do! _ <- perform DropLeadership ;;
  do! r <- perform AwaitManager ;;
  Ret (Returned r).

(** The loop that waits for leadership: [Some] result ends the function. *)
Fixpoint acquire (turns : nat) : lead (option RunResult) :=
  match turns with
  | O => Ret (Some StillWaiting)
  | S turns' =>
      do! shutdown <- perform ShutdownRequested ;;
      if (shutdown : bool) then do! r <- release_and_return ;; Ret (Some r) else
      do! leading <- perform LeadershipHeld ;;
      if (leading : bool) then Ret None else
      do! event <- perform SelectAcquire ;;
      match event with
      | AcquireShutdown c =>
          if gone c true then do! r <- release_and_return ;; Ret (Some r) else acquire turns'
      | AcquireLeadership is_err =>
          if (is_err : bool) then leave (Returned (Err LeadershipLost)) else acquire turns'
      end
  end.

(** The loop that waits for the first confirmation of the Lease. *)
Fixpoint confirm (turns : nat) : lead (option RunResult) :=
  match turns with
  | O => Ret (Some StillWaiting)
  | S turns' =>
      do! event <- perform SelectConfirm ;;
      match event with
      | ConfirmMonitor r =>
          do! _ <- perform DropLeadership ;;
          do! _ <- perform AbortManager ;;
          Ret (Some (Returned (Err (match r with Err e => e | Ok _ => LeadershipLost end))))
      | Confirmed received =>
          if (received : bool) then Ret None else leave (Returned (Err LeadershipLost))
      | ConfirmShutdown c =>
          if gone c true then do! r <- release_and_return ;; Ret (Some r) else confirm turns'
      | ConfirmLeadership c =>
          if gone c false then leave (Returned (Err LeadershipLost)) else confirm turns'
      end
  end.

(** The [select!] that ends the work: why it stopped, and the workload's result
    if it finished. *)
Definition work_ended (event : RunEvent)
    : string + (option StopReason * option (result ControllerError unit)) :=
  match event with
  | RunMonitor _ => inr (Some StopLeadershipLost, None)
  | RunWorkload r => inr (None, Some r)
  | RunShutdown c =>
      if gone c true then inr (Some StopShutdown, None)
      else inl "shutdown watch changed without becoming true"
  | RunLeadership c =>
      if gone c false then inr (Some StopLeadershipLost, None)
      else inl "leader watch changed without losing leadership"
  end.

(** What a scope that owns both drops: the workload, whether finished or not,
    and the receiver of the leadership. *)
Definition drop_both : lead unit :=
  do! _ <- perform DropWorkload ;;
  perform DropLeadership.

(** [timeout_at] elapsed: the future is dropped with what it owns. *)
Definition cancelled : lead (option (result ControllerError unit)) :=
  do! _ <- drop_both ;;
  Ret None.

(** The future [retirement] under [timeout_at]. *)
Definition retirement (by_ : Z) (stop_reason : option StopReason)
    (finished : option (result ControllerError unit)) : lead (option (result ControllerError unit)) :=
  do! drained <- perform (AwaitDrain by_) ;;
  match drained with
  | None => cancelled
  | Some _ =>
      do! result <- match finished with
                    | Some r => Ret (Some r)
                    | None => perform (AwaitWorkload by_)
                    end ;;
      match result with
      | None => cancelled
      | Some result =>
          do! _ <- drop_both ;;
          if stop_reason == Some StopLeadershipLost then
            do! _ <- perform AbortManager ;;
            Ret (Some result)
          else
            do! released <- perform (AwaitManagerBy by_) ;;
            match released with
            | None => Ret None
            | Some (Err e) => Ret (Some (Err e))
            | Some (Ok _) => Ret (Some result)
            end
      end
  end.

Definition finish (stop_reason : option StopReason) (retired : option (result ControllerError unit))
    : lead RunResult :=
  match retired with
  | Some (Err e) => Ret (Returned (Err e))
  | Some (Ok _) =>
      Ret (Returned (match stop_reason with
                     | None | Some StopShutdown => Ok tt
                     | Some StopLeadershipLost => Err LeadershipLost
                     end))
  | None =>
      do! _ <- perform AbortManager ;;
      Ret (Returned (Err (Task "controller did not retire before leader lease expiry")))
  end.

Definition work (config : LeaderConfig) : lead RunResult :=
  do! _ <- perform StartAccepting ;;
  do! _ <- perform (SetReady true) ;;
  do! _ <- perform StartWorkload ;;
  do! event <- perform SelectRun ;;
  match work_ended event with
  | inl message =>
      do! _ <- drop_both ;;
      Ret (Panicked message)
  | inr (stop_reason, finished) =>
      do! _ <- perform (SetReady false) ;;
      do! _ <- perform StopAccepting ;;
      do! _ <- perform SendStop ;;
      do! deadline <- perform ReadDeadline ;;
      do! retired <- retirement (retire_by config deadline) stop_reason finished ;;
      finish stop_reason retired
  end.

Definition run_leader_elected (turns : nat) (config : LeaderConfig) : lead RunResult :=
  match validate config with
  | Err e => Ret (Returned (Err e))
  | Ok _ =>
      do! built <- perform BuildManager ;;
      match built with
      | Err e => Ret (Returned (Err e))
      | Ok _ =>
          do! ended <- acquire turns ;;
          match ended with
          | Some r => Ret r
          | None =>
              do! _ <- perform StartMonitor ;;
              do! ended <- confirm turns ;;
              match ended with
              | Some r => Ret r
              | None => work config
              end
          end
      end
  end.

(** [LeadershipContext::stopped]: each turn is the values of shutdown,
    leadership and stop at the top of the loop and the channel that changed
    after it.  [None] is a future that is still pending. *)
Inductive StopEvent := StopChanged (c : Changed) | ShutdownChanged (c : Changed) | LeadershipChanged (c : Changed).

Fixpoint stopped (turns : list (bool * bool * bool * StopEvent)) : option StopReason :=
  match turns with
  | [] => None
  | (shutdown, leadership, stop, event) :: turns' =>
      if (shutdown : bool) then Some StopShutdown
      else if negb leadership || stop then Some StopLeadershipLost
      else match event with
      | StopChanged c => if gone c true then Some StopLeadershipLost else stopped turns'
      | ShutdownChanged c => if gone c true then Some StopShutdown else stopped turns'
      | LeadershipChanged c => if gone c false then Some StopLeadershipLost else stopped turns'
      end
  end.

(** ** What a history shows *)
Definition gate_open (h : trace LeadResp) : bool :=
  fold_left (λ b e, match projT1 e with StartAccepting => true | StopAccepting => false | _ => b end) h false.
Definition is_ready (h : trace LeadResp) : bool :=
  fold_left (λ b e, match projT1 e with SetReady r => r | _ => b end) h false.
Definition started (h : trace LeadResp) : bool :=
  any (λ e, match projT1 e with StartWorkload => true | _ => false end) h.

Definition was_confirmed (h : trace LeadResp) : Prop :=
  existT SelectConfirm (Confirmed true) ∈ h.
(** The branches of the [select!] that ended the work. *)
Definition run_event (e : event LeadResp) : option RunEvent :=
  match e with
  | existT o r => match o return LeadResp o → option RunEvent with SelectRun => Some | _ => λ _, None end r
  end.
Definition selected (h : trace LeadResp) : list RunEvent := omap run_event h.
Definition workload_result (h : trace LeadResp) (r : result ControllerError unit) : Prop :=
  RunWorkload r ∈ selected h ∨ ∃ by_, existT (AwaitWorkload by_) (Some r) ∈ h.
(** The gate was drained by the time to retire. *)
Definition drained_by (config : LeaderConfig) (h : trace LeadResp) : Prop :=
  ∃ d, existT ReadDeadline d ∈ h ∧ existT (AwaitDrain (retire_by config d)) (Some tt) ∈ h.
(** And the workload finished. *)
Definition retired (config : LeaderConfig) (h : trace LeadResp) : Prop :=
  drained_by config h ∧ ∃ r, workload_result h r.
(** The time to retire came first. *)
Definition expired (config : LeaderConfig) (h : trace LeadResp) : Prop :=
  ∃ d, existT ReadDeadline d ∈ h ∧
    (existT (AwaitDrain (retire_by config d)) None ∈ h ∨ existT (AwaitWorkload (retire_by config d)) None ∈ h).
(** A watch channel changed in a way that the process declares unreachable. *)
Definition impossible (h : trace LeadResp) : Prop := ∃ e m, e ∈ selected h ∧ work_ended e = inl m.
Definition built (h : trace LeadResp) : Prop := existT BuildManager (Ok tt) ∈ h.
Definition cancelled_work (h : trace LeadResp) : Prop := existT DropWorkload tt ∈ h.
Definition given_up (h : trace LeadResp) : Prop := existT DropLeadership tt ∈ h.

Record closed (h : trace LeadResp) : Prop := {
  closed_gate : gate_open h = false;
  closed_ready : is_ready h = false;
}.

(** The work may end here. *)
Definition may_end (config : LeaderConfig) (h : trace LeadResp) : Prop :=
  closed h ∧ (started h = true → retired config h ∨ expired config h) ∨ impossible h.

Definition lead_request (config : LeaderConfig) (h : trace LeadResp) (o : LeadOp) : Prop :=
  match o with
  | StartAccepting => validate config = Ok tt ∧ was_confirmed h ∧ started h = false ∧ ¬ given_up h
  | SetReady true | StartWorkload => gate_open h = true ∧ ¬ given_up h
  | AwaitDrain by_ => closed h ∧ ∃ d, existT ReadDeadline d ∈ h ∧ by_ = retire_by config d
  | DropWorkload => ¬ given_up h ∧ started h = true ∧ may_end config h
  | DropLeadership => ¬ given_up h ∧ (started h = true → cancelled_work h) ∧ may_end config h
  | AwaitManager | AwaitManagerBy _ => closed h ∧ given_up h ∧ (started h = true → retired config h)
  | AbortManager => closed h ∧ given_up h
  | _ => True
  end.

Definition lead_result (config : LeaderConfig) (h : trace LeadResp) (r : RunResult) : Prop :=
  match r with
  | Returned res =>
      closed h ∧ (built h → given_up h) ∧
      (res = Ok tt → started h = true → drained_by config h ∧ workload_result h (Ok tt) ∧ ∀ e, RunMonitor e ∉ selected h)
  | Panicked _ => impossible h ∧ given_up h
  | StillWaiting => started h = false ∧ ¬ given_up h
  end.

#[local] Arguments wp : simpl never.
#[local] Arguments bind : simpl never.

Definition opens (o : LeadOp) : bool :=
  match o with StartAccepting | SetReady true => true | _ => false end.

Lemma fold_snoc {A B} (f : A → B → A) l x a : fold_left f (l ++ [x]) a = f (fold_left f l a) x.
Proof. by rewrite fold_left_app. Qed.

Lemma closed_snoc h o r : opens o = false → closed h → closed (h ++ [existT o r]).
Proof.
  intros Ho [Hg Hr]. split; unfold gate_open, is_ready in *; rewrite fold_snoc; simpl;
    destruct o as [| | | | | | | | |[]| | | | | | | | | |]; done.
Qed.

Lemma started_snoc h o r :
  started (h ++ [existT o r]) = started h || match o with StartWorkload => true | _ => false end.
Proof. unfold started. rewrite any_app. simpl. by rewrite orb_false_r. Qed.

Lemma selected_snoc (h : trace LeadResp) (o : LeadOp) (r : LeadResp o) :
  selected (h ++ [existT o r]) = selected h ++ option_list (run_event (existT o r)).
Proof. unfold selected. rewrite omap_app. simpl. by destruct o. Qed.

(** An event of another request is not the giving up. *)
Lemma given_up_snoc h o r : o ≠ DropLeadership → given_up (h ++ [existT o r]) ↔ given_up h.
Proof.
  intros Ho. unfold given_up. rewrite elem_of_app, list_elem_of_singleton. split; [|by left].
  intros [?|E]; [done|]. apply (f_equal (@projT1 _ _)) in E. by destruct Ho.
Qed.

Lemma elem_snoc (h : trace LeadResp) e e' : e ∈ h → e ∈ h ++ [e'].
Proof. intros. apply elem_of_app. by left. Qed.
Lemma elem_last (h : trace LeadResp) e : e ∈ h ++ [e].
Proof. apply elem_of_app. right. by apply list_elem_of_singleton. Qed.
#[local] Hint Resolve elem_snoc elem_last : core.

Lemma drained_snoc config h e : drained_by config h → drained_by config (h ++ [e]).
Proof. intros (d & ? & ?). exists d. auto. Qed.
Lemma workload_snoc h o r res : workload_result h res → workload_result (h ++ [existT o r]) res.
Proof.
  intros [H|(b & H)]; [left|right; exists b; auto]. rewrite selected_snoc. apply elem_of_app. by left.
Qed.
Lemma retired_snoc config h o r : retired config h → retired config (h ++ [existT o r]).
Proof. intros [Hd [res Hr]]. split; [by apply drained_snoc|]. exists res. by apply workload_snoc. Qed.
Lemma expired_snoc config h e : expired config h → expired config (h ++ [e]).
Proof. intros (d & Hd & [H|H]); exists d; split; auto. Qed.
Lemma impossible_snoc h o r : impossible h → impossible (h ++ [existT o r]).
Proof. intros (e & m & He & Hm). exists e, m. split; [|done]. rewrite selected_snoc. apply elem_of_app. by left. Qed.
#[local] Hint Resolve drained_snoc workload_snoc retired_snoc expired_snoc impossible_snoc : core.

(** Nothing was started or given up yet; and after an early return. *)
Record quiet (h : trace LeadResp) : Prop := {
  qt_closed : closed h; qt_started : started h = false; qt_selected : selected h = []; qt_held : ¬ given_up h;
}.
Record left_early (h : trace LeadResp) : Prop := {
  le_closed : closed h; le_started : started h = false; le_up : given_up h;
}.
Definition ended_early (h : trace LeadResp) (r : option RunResult) : Prop :=
  match r with
  | None | Some StillWaiting => quiet h
  | Some (Returned _) => left_early h
  | Some (Panicked _) => False
  end.

Lemma quiet_snoc h o r :
  opens o = false → o ∉ [StartWorkload; SelectRun; DropLeadership] → quiet h → quiet (h ++ [existT o r]).
Proof.
  intros Ho Hn [Hc Hs Hl Hg]. split; [by apply closed_snoc|rewrite started_snoc, Hs|rewrite selected_snoc, Hl|].
  1,2: destruct o; try done; by exfalso; set_solver.
  rewrite given_up_snoc; [done|]. set_solver.
Qed.

Lemma left_snoc h o r : opens o = false → o ≠ StartWorkload → left_early h → left_early (h ++ [existT o r]).
Proof.
  intros Ho Hn [Hc Hs Hu]. split; [by apply closed_snoc|rewrite started_snoc, Hs; by destruct o|by apply elem_snoc].
Qed.

Lemma quiet_end config h : quiet h → ¬ given_up h ∧ (started h = true → cancelled_work h) ∧ may_end config h.
Proof. intros [Hc Hs _ Hg]. split_and!; [done|congruence|]. left. split; [done|congruence]. Qed.

Lemma quiet_dropped h : quiet h → left_early (h ++ [existT DropLeadership tt]).
Proof. intros [Hc Hs _ _]. split; [by apply closed_snoc|by rewrite started_snoc, Hs|by apply elem_last]. Qed.

Section Safe.
Context (config : LeaderConfig).

Lemma wp_leave r h :
  quiet h → wp (leave (Returned r)) h (lead_request config) ended_early.
Proof. intros Hq. unfold leave. request; [by apply quiet_end|]. subst h0. destruct reply. by apply quiet_dropped. Qed.

Lemma wp_release_and_return h :
  quiet h → wp (do! r <- release_and_return ;; Ret (Some r)) h (lead_request config) ended_early.
Proof.
  intros Hq. apply wp_bind. unfold release_and_return. request; [by apply quiet_end|]. destruct reply.
  assert (left_early h0) as Hl by (subst; by apply quiet_dropped).
  request; [split_and!; [apply Hl|apply Hl|rewrite (le_started _ Hl); done]|]. subst h1. by apply left_snoc.
Qed.

Lemma wp_acquire turns h :
  quiet h → wp (acquire turns) h (lead_request config) ended_early.
Proof.
  revert h. induction turns as [|turns IH]; intros h Hq; [done|]. cbn [acquire].
  request; [done|]. assert (quiet h0) by (subst; apply quiet_snoc; [done|set_solver|done]).
  destruct reply; [by apply wp_release_and_return|].
  request; [done|]. assert (quiet h1) by (subst h1; apply quiet_snoc; [done|set_solver|done]). destruct reply; [done|].
  request; [done|]. assert (quiet h2) by (subst h2; apply quiet_snoc; [done|set_solver|done]).
  destruct reply as [c|[]]; [|by apply wp_leave|by apply IH].
  destruct (gone c true); [by apply wp_release_and_return|by apply IH].
Qed.

Lemma wp_confirm turns h :
  quiet h → wp (confirm turns) h (lead_request config)
    (λ h' r, ended_early h' r ∧ (r = None → was_confirmed h')).
Proof.
  revert h. induction turns as [|turns IH]; intros h Hq; [done|]. cbn [confirm].
  request; [done|]. assert (Hq0 : quiet h0) by (subst; apply quiet_snoc; [done|set_solver|done]).
  destruct reply as [r|[]|c|c].
  - request; [by apply quiet_end|]. destruct reply. assert (Hq1 : left_early h1) by (subst h1; by apply quiet_dropped).
    request; [split; apply Hq1|]. split; [|done]. subst h2. by apply left_snoc.
  - split; [done|]. intros _. subst h0. apply elem_last.
  - unfold leave. request; [by apply quiet_end|]. subst h1. destruct reply. split; [by apply quiet_dropped|done].
  - destruct (gone c true); [|by apply IH]. unfold release_and_return. apply wp_bind.
    request; [by apply quiet_end|]. destruct reply. assert (Hq1 : left_early h1) by (subst h1; by apply quiet_dropped).
    request; [split_and!; [apply Hq1|apply Hq1|rewrite (le_started _ Hq1); done]|]. split; [|done]. subst h2. by apply left_snoc.
  - destruct (gone c false); [|by apply IH].
    unfold leave. request; [by apply quiet_end|]. subst h1. destruct reply. split; [by apply quiet_dropped|done].
Qed.

(** ** Retirement *)

(** A history after the work was told to stop. *)
Record retiring (d : Z) (h0 h : trace LeadResp) : Prop := {
  rt_closed : closed h; rt_deadline : existT ReadDeadline d ∈ h; rt_selected : selected h = selected h0;
  rt_started : started h = true;
}.

Lemma retiring_snoc d h0 h o r :
  opens o = false → o ≠ SelectRun → retiring d h0 h → retiring d h0 (h ++ [existT o r]).
Proof.
  intros Ho Hr [Hc Hd Hs Hw]. split; [by apply closed_snoc|auto| |by rewrite started_snoc, Hw].
  rewrite selected_snoc, Hs. destruct o; try done; apply app_nil_r.
Qed.

(** Both are dropped where the work may end. *)
Lemma wp_drop_both h (Post : trace LeadResp → unit → Prop) :
  ¬ given_up h → started h = true → may_end config h →
  Post ((h ++ [existT DropWorkload tt]) ++ [existT DropLeadership tt]) tt →
  wp drop_both h (lead_request config) Post.
Proof.
  intros Hg Hs He Hp. unfold drop_both. request; [done|]. destruct reply. subst h0.
  split; [|intros []; exact Hp]. split_and!.
  - by rewrite given_up_snoc.
  - intros _. apply elem_last.
  - destruct He as [[Hc Hr]|Hi]; [left|right; auto]. split; [by apply closed_snoc|]. intros _.
    destruct (Hr Hs); auto.
Qed.

Definition retirement_done (d : Z) (h0 h : trace LeadResp) (res : option (result ControllerError unit)) : Prop :=
  retiring d h0 h ∧ given_up h ∧ (res = Some (Ok tt) → drained_by config h ∧ workload_result h (Ok tt)).

Lemma dropped_both d h0 h :
  retiring d h0 h → let h' := (h ++ [existT DropWorkload tt]) ++ [existT DropLeadership tt] in
  retiring d h0 h' ∧ given_up h'.
Proof. intros Hr. split; [by repeat apply retiring_snoc|apply elem_last]. Qed.

Lemma wp_cancelled d h0 h :
  retiring d h0 h → ¬ given_up h → expired config h →
  wp cancelled h (lead_request config) (retirement_done d h0).
Proof.
  intros Hr Hg He. unfold cancelled. apply wp_bind. apply wp_drop_both; [done|apply Hr| |].
  - left. split; [apply Hr|auto].
  - destruct (dropped_both _ _ _ Hr). by split_and!.
Qed.

(** The part after the workload finished. *)
Lemma wp_released d stop h0 h res :
  retiring d h0 h → ¬ given_up h → drained_by config h → workload_result h res →
  wp (do! _ <- drop_both ;;
      if stop == Some StopLeadershipLost then do! _ <- perform AbortManager ;; Ret (Some res)
      else do! released <- perform (AwaitManagerBy (retire_by config d)) ;;
           match released with
           | None => Ret None | Some (Err e) => Ret (Some (Err e)) | Some (Ok _) => Ret (Some res)
           end) h (lead_request config) (retirement_done d h0).
Proof.
  intros Hr Hg Hd Hw. apply wp_bind, wp_drop_both; [done|apply Hr| |].
  { left. split; [apply Hr|]. left. split; [done|by exists res]. }
  destruct (dropped_both _ _ _ Hr) as [Hr1 Hg1]. set (h1 := (h ++ _) ++ _) in *.
  assert (drained_by config h1) by (unfold h1; auto). assert (workload_result h1 res) by (unfold h1; auto). clearbody h1.
  destruct (stop == _).
  - request; [split; [apply Hr1|done]|]. subst h2.
    split_and!; [by apply retiring_snoc|by apply elem_snoc|]. intros [= ->]. auto.
  - request; [split_and!; [apply Hr1|done|]|]; [intros _; split; [done|by exists res]|]. subst h2.
    destruct reply as [[u|e]|]; (split_and!; [by apply retiring_snoc|by apply elem_snoc|]); [|done..]. intros [= ->]. auto.
Qed.

Lemma wp_retirement d stop finished h0 h :
  retiring d h0 h → ¬ given_up h → (∀ r, finished = Some r → RunWorkload r ∈ selected h0) →
  wp (retirement (retire_by config d) stop finished) h (lead_request config) (retirement_done d h0).
Proof.
  intros Hr Hg Hf. unfold retirement. request; [split; [apply Hr|exists d; split; [apply Hr|done]]|].
  assert (Hr1 : retiring d h0 h1) by (subst; by apply retiring_snoc).
  assert (Hg1 : ¬ given_up h1) by (subst; by rewrite given_up_snoc).
  destruct reply as [[]|].
  2: { apply wp_cancelled; [done|done|]. exists d. split; [apply Hr1|]. left. subst h1. apply elem_last. }
  assert (Hdr : drained_by config h1) by (exists d; split; [apply Hr1|subst h1; apply elem_last]).
  destruct finished as [r|].
  - change (bind (Ret (Some r)) ?f) with (f (Some r)). cbn beta. apply wp_released; [done..|].
    left. rewrite (rt_selected _ _ _ Hr1). by apply Hf.
  - request; [done|]. assert (Hr2 : retiring d h0 h2) by (subst h2; by apply retiring_snoc).
    assert (Hg2 : ¬ given_up h2) by (subst h2; by rewrite given_up_snoc).
    destruct reply as [r|].
    + apply wp_released; [done|done|subst h2; auto|]. right. eexists. subst h2. apply elem_last.
    + apply wp_cancelled; [done|done|]. exists d. split; [apply Hr2|]. right. subst h2. apply elem_last.
Qed.

Lemma wp_work h :
  validate config = Ok tt → was_confirmed h → quiet h →
  wp (work config) h (lead_request config) (lead_result config).
Proof.
  intros Hv Hc Hq. unfold work. request; [split_and!; [done|done|apply Hq|apply Hq]|].
  assert (Hg0 : gate_open h0 = true) by (subst; unfold gate_open; by rewrite fold_snoc).
  assert (Hu0 : ¬ given_up h0) by (subst; rewrite given_up_snoc by done; apply Hq).
  request; [done|].
  assert (Hg1 : gate_open h1 = true) by (subst h1; unfold gate_open; by rewrite fold_snoc).
  assert (Hu1 : ¬ given_up h1) by (subst h1; by rewrite given_up_snoc).
  request; [done|]. request; [done|].
  assert (Hs3 : started h3 = true) by (subst h3 h2; rewrite !started_snoc; by rewrite orb_true_r).
  assert (Hu3 : ¬ given_up h3) by (subst h3 h2; by rewrite !given_up_snoc).
  assert (Hsel : selected h3 = [reply2]) by (subst; rewrite !selected_snoc, (qt_selected _ Hq); done).
  destruct (work_ended reply2) as [m|[stop finished]] eqn:Hw.
  { assert (impossible h3) as Hi by (exists reply2, m; split; [rewrite Hsel; left|done]).
    apply wp_bind, wp_drop_both; [done|done|by right|]. split; [by repeat apply impossible_snoc|apply elem_last]. }
  request; [done|]. request; [done|]. request; [done|]. request; [done|].
  assert (Hret : retiring reply6 h3 h7).
  { split.
    - subst h7. apply closed_snoc; [done|]. subst h6. apply closed_snoc; [done|].
      subst h5. split; unfold gate_open, is_ready; rewrite fold_snoc; simpl; [done|]. subst h4. by rewrite fold_snoc.
    - subst h7. apply elem_last.
    - subst h7 h6 h5 h4. rewrite !selected_snoc. by rewrite !app_nil_r.
    - subst h7 h6 h5 h4. by rewrite !started_snoc, Hs3. }
  assert (Hu7 : ¬ given_up h7) by (subst h7 h6 h5 h4; by rewrite !given_up_snoc).
  apply wp_bind. eapply wp_post; [apply (wp_retirement reply6 stop finished h3); [done|done|]|].
  { intros r ->. rewrite Hsel. destruct reply2 as [?|?|c|c]; simpl in Hw.
    - done.
    - injection Hw as _ <-. by apply list_elem_of_singleton.
    - by destruct (gone c true).
    - by destruct (gone c false). }
  intros h8 res ([Hcl _ Hs _] & Hu & Hres). unfold finish. destruct res as [[[]|e]|].
  - split_and!; [done|done|]. intros Hok _. destruct (Hres eq_refl) as [? ?].
    split_and!; [done|done|]. intros e. rewrite Hs, Hsel. intros Hin%list_elem_of_singleton. subst reply2.
    simpl in Hw. injection Hw as <- _. done.
  - by split_and!.
  - request; [done|]. subst h9. split_and!; [by apply closed_snoc|intros _; by apply elem_snoc|done].
Qed.

Lemma early_result h r : ended_early h (Some r) → lead_result config h r.
Proof.
  destruct r as [res| |]; cbn; [|done|].
  - intros [Hc Hs Hu]. rewrite Hs. by split_and!.
  - intros [_ Hs _ Hg]. done.
Qed.

Lemma wp_run_leader_elected turns h :
  quiet h → ¬ built h → wp (run_leader_elected turns config) h (lead_request config) (lead_result config).
Proof.
  intros Hq Hb. unfold run_leader_elected. destruct (validate config) as [[]|e] eqn:Hv.
  2: { split_and!; [apply Hq|done|done]. }
  request; [done|]. assert (Hq0 : quiet h0) by (subst; apply quiet_snoc; [done|set_solver|done]).
  destruct reply as [u|e].
  2: { split_and!; [apply Hq0| |done]. subst h0. intros [?|E]%elem_of_app; [done|].
       apply list_elem_of_singleton in E.
       by apply (f_equal (λ ev : event LeadResp, match ev with existT BuildManager r => is_ok r | _ => false end)) in E. }
  apply wp_bind. eapply wp_post; [by apply wp_acquire|]. intros h1 [r|] Hq1; [by apply early_result|].
  request; [done|]. assert (Hq2 : quiet h2) by (subst; apply quiet_snoc; [done|set_solver|done]).
  apply wp_bind. eapply wp_post; [by apply wp_confirm|].
  intros h3 [r|] [Hq3 Hc]; [by apply early_result|]. apply wp_work; [done|by apply Hc|done].
Qed.
End Safe.

(** C24. The process works only while it leads: whatever the lease manager,
    the monitor, the workload and the clocks do, the gate opens and the
    process reports ready only under a valid configuration after the Lease was
    confirmed and before it is given up.  The Lease is given up at most once,
    after the workload was dropped, and, unless a watch channel changed in a way
    the process declares unreachable, only with the gate closed and readiness
    withdrawn, when the admitted work was drained and the workload finished, or
    else when the time to retire had come.  The manager is awaited only after
    the former.  Whenever the function returns, the gate is closed, the process
    is not ready and the Lease is given up; it panics only on such a change; it
    returns success after work only if the work was drained, the workload
    succeeded and the monitor did not lose the Lease. *)
Theorem run_leader_elected_safe turns config env :
  let '(h, r) := run env (run_leader_elected turns config) [] in
  issued (lead_request config) [] h ∧ lead_result config h r.
Proof.
  assert (Hn : ∀ e : event LeadResp, e ∉ []) by (intros e; apply not_elem_of_nil).
  assert (Hq : quiet []) by (split; [done..|apply Hn]).
  pose proof (wp_run env _ [] _ _ (wp_run_leader_elected config turns [] Hq (Hn _))) as H.
  destruct (run env _ []) as [h r]. by destruct H.
Qed.
