(* ===== verification/AzureAllocation.v ===== *)
(** * Network allocation for Azure Tenants

    [controller/src/azure_allocation.rs]: the approved catalog of network slots,
    its validation, and claims that reuse the Lease protocol of [Allocation]
    after checking that no active claim overlaps the catalog. *)

From S2P Require Import Prelude RustStd Externals Kube Errors Api Ownership Foundation Effects Docker.
From S2P Require Import Allocation Ops AllocationRun.

Open Scope Z_scope.

Definition CONFIG_NAME := "tenant-azure-allocation".
Definition APPROVED_SHA256_ANNOTATION := "tenancy.cnpg-vcluster.io/approved-allocation-sha256".
Definition PLACEHOLDER_ENDPOINT := "0.0.0.0".
(** [reconcile::FOUNDATION_NAMESPACE] *)
Definition AZURE_LEASE_NAMESPACE := "tenant-system".

Record AzureNetworkSlot := {
  ns_slot_id : string;
  ns_pod_cidr : string;
  ns_service_cidr : string;
}.

Record AzureAllocationDocument := {
  doc_schema : Z;
  doc_reserved_cidrs : list string;
  doc_slots : list AzureNetworkSlot;
}.

Record AzureAllocationCatalog := {
  cat_values : AzureAllocationDocument;
  cat_config_map_uid : string;
  cat_sha256 : string;
}.

Record AzureClaimIdentity := {
  ci_tenant_name : string;
  ci_tenant_uid : string;
  ci_spec_hash : string;
}.

Inductive AzureAllocationError :=
| AzMissing
| AzJson (message : string)
| AzUid
| AzSchema
| AzApproval
| AzSlot (slot : string)
| AzOverlap
| AzManagement (network : string).

Definition azure_allocation_display (e : AzureAllocationError) : string :=
  match e with
  | AzMissing => "Azure allocation ConfigMap slots.json is missing"
  | AzJson m => "Azure allocation ConfigMap slots.json is invalid: " +:+ m
  | AzUid => "Azure allocation ConfigMap UID is missing"
  | AzSchema => "Azure allocation catalog schema must be 1"
  | AzApproval => "Azure allocation catalog approval is missing or stale"
  | AzSlot s => "Azure allocation slot " +:+ s +:+ " is invalid"
  | AzOverlap => "Azure allocation networks overlap"
  | AzManagement n => "Azure allocation network overlaps management network " +:+ n
  end.

(** Decoding and canonical encoding of a catalog document ([serde_json]). *)
Class CatalogJson := {
  decode_document : string → result string AzureAllocationDocument;
  canonical_document : AzureAllocationDocument → result string string;
}.

Definition valid_name (value : string) : bool :=
  (1 <=? len value) && (len value <=? 63)
  && is_some_and (λ c, is_ascii_lowercase c || is_ascii_digit c) (hd_error (bytes value))
  && is_some_and (λ c, is_ascii_lowercase c || is_ascii_digit c) (list.last (bytes value))
  && all (λ c, is_ascii_lowercase c || is_ascii_digit c || Ascii.eqb c "-"%char) (bytes value).

(** [metadata]: a label or an annotation that is not empty. *)
Definition metadata (lease : Lease) (label : bool) (key : string) : option string :=
  filter_non_empty (if label then get_label (lease_meta lease) key else get_annotation (lease_meta lease) key).

Section Azure.
Context `{SO : Sha256Ops, NO : Ipv4NetOps, CJ : CatalogJson}.

(** [network]: a network in canonical form. *)
Definition slot_network (value slot : string) : result AzureAllocationError Ipv4Net :=
  ok_or (opt_filter (λ net, addr net == network net) (parse_net value)) (AzSlot slot).

Definition overlaps (left right : Ipv4Net) : bool :=
  contains left (network right) || contains right (network left).

(** One turn of the loop over the slots: the identifiers and networks so far. *)
Definition scan_slot (scan : list string * list Ipv4Net) (slot : AzureNetworkSlot)
    : result AzureAllocationError (list string * list Ipv4Net) :=
  let '(ids, networks) := scan in
  let id := ns_slot_id slot in
  if negb (starts_with id "azure-") || negb (valid_name id) || bool_decide (id ∈ ids)
  then Err (AzSlot id) else
  let! pod := slot_network (ns_pod_cidr slot) id in
  let! service := slot_network (ns_service_cidr slot) id in
  if 28 <? prefix_len service then Err (AzSlot id)
  else Ok (ids ++ [id], networks ++ [pod; service]).

(** The loop over [networks.iter().enumerate()]. *)
Fixpoint check_networks (reserved networks : list Ipv4Net) : result AzureAllocationError unit :=
  match networks with
  | [] => Ok tt
  | net :: rest =>
      if any (overlaps net) rest then Err AzOverlap
      else match find_first (overlaps net) reserved with
      | Some conflict => Err (AzManagement (net_to_string conflict))
      | None => check_networks reserved rest
      end
  end.

(** [AzureAllocationDocument::validate] *)
Definition document_validate (doc : AzureAllocationDocument) : result AzureAllocationError unit :=
  if doc_schema doc != 1 then Err AzSchema else
  match doc_slots doc with
  | [] => Err (AzSlot "empty")
  | _ =>
      let! reserved := map_err (λ _, AzManagement "invalid")
                         (try_map (λ value, ok_or (parse_net value) tt) (doc_reserved_cidrs doc)) in
      let! scan := try_fold scan_slot ([], []) (doc_slots doc) in
      check_networks reserved (snd scan)
  end.

Definition from_config_map (config : ConfigMap) : result AzureAllocationError AzureAllocationCatalog :=
  let! raw := ok_or (and_then (λ data, data !! "slots.json") (cm_data config)) AzMissing in
  let! values := map_err AzJson (decode_document raw) in
  let! _ := document_validate values in
  let! canonical := map_err AzJson (canonical_document values) in
  let sha256 := sha256_hex canonical in
  if get_annotation (cm_meta config) APPROVED_SHA256_ANNOTATION != Some sha256 then Err AzApproval else
  let! u := ok_or (filter_non_empty (uid (cm_meta config))) AzUid in
  Ok {| cat_values := values; cat_config_map_uid := u; cat_sha256 := sha256 |}.

(** ** Conversions *)
Definition slots (doc : AzureAllocationDocument) : list AllocationSlot :=
  map (λ slot, {| as_slot_id := ns_slot_id slot; as_vip_ordinal := 0;
                  as_endpoint := PLACEHOLDER_ENDPOINT; as_pod_cidr := ns_pod_cidr slot;
                  as_service_cidr := ns_service_cidr slot |}) (doc_slots doc).

Definition recorded_slot (status : AzureAllocationStatus) : AllocationSlot := {|
  as_slot_id := az_slot_id status; as_vip_ordinal := 0; as_endpoint := PLACEHOLDER_ENDPOINT;
  as_pod_cidr := az_pod_cidr status; as_service_cidr := az_service_cidr status |}.

Definition local (status : AzureAllocationStatus) : AllocationStatus := {|
  slot_id := az_slot_id status; endpoint := PLACEHOLDER_ENDPOINT;
  pod_cidr := az_pod_cidr status; service_cidr := az_service_cidr status |}.

Definition context (identity : AzureClaimIdentity) (catalog_uid catalog_sha : string)
    (slots : list AllocationSlot) : ClaimContext := {|
  cx_namespace := AZURE_LEASE_NAMESPACE; cx_ownership_label := AZURE_CATALOG_UID_LABEL;
  cx_lab_prefix := catalog_uid; cx_tenant_name := ci_tenant_name identity;
  cx_tenant_uid := ci_tenant_uid identity; cx_spec_hash := ci_spec_hash identity;
  cx_foundation_hash := catalog_sha; cx_slots := slots |}.

Definition status (catalog : AzureAllocationCatalog) (slot : AllocationSlot) (lease_uid : string)
    : AzureAllocationStatus := {|
  az_slot_id := as_slot_id slot; az_pod_cidr := as_pod_cidr slot; az_service_cidr := as_service_cidr slot;
  az_catalog_uid := cat_config_map_uid catalog; az_catalog_sha256 := cat_sha256 catalog;
  az_lease_name := lease_name (as_slot_id slot); az_lease_uid := lease_uid |}.

(** ** Claims *)

(** The Lease backs a recorded allocation of the Tenant. *)
Definition lease_backs (tenant : Tenant) (active : AzureAllocationStatus) (lease : Lease) : bool :=
  (name (lease_meta lease) == Some (az_lease_name active))
  && (uid (lease_meta lease) == Some (az_lease_uid active))
  && (metadata lease false TENANT_UID_ANNOTATION == uid (tenant_meta tenant))
  && (metadata lease false POD_CIDR_ANNOTATION == Some (az_pod_cidr active))
  && (metadata lease false SERVICE_CIDR_ANNOTATION == Some (az_service_cidr active)).

Definition parse_or {E} (value : string) (e : E) : result E Ipv4Net := ok_or (parse_net value) e.

(** [[pod, service].iter().any(|active| overlaps(active, &slot_pod) || ..)] *)
Definition any_overlap (pod service slot_pod slot_service : Ipv4Net) : bool :=
  any (λ active, overlaps active slot_pod || overlaps active slot_service) [pod; service].

Definition recorded_network (tenant : Tenant) : option AzureAllocationStatus :=
  and_then azure_network_allocation (and_then azure (tenant_status tenant)).

(** The body of the loop over the Tenants. *)
Definition check_tenant_claim (catalog : AzureAllocationCatalog) (identity : AzureClaimIdentity)
    (leases : list Lease) (tenant : Tenant) : result AllocationError unit :=
  match recorded_network tenant with
  | None => Ok tt
  | Some active =>
      if uid (tenant_meta tenant) == Some (ci_tenant_uid identity) then Ok tt else
      let nm := unwrap_or "" (name (tenant_meta tenant)) in
      let! pod := parse_or (az_pod_cidr active) (ClaimError nm) in
      let! service := parse_or (az_service_cidr active) (ClaimError nm) in
      try_for (λ slot,
        let! slot_pod := parse_or (ns_pod_cidr slot) InvalidPool in
        let! slot_service := parse_or (ns_service_cidr slot) InvalidPool in
        if any_overlap pod service slot_pod slot_service && negb (any (lease_backs tenant active) leases)
        then Err (ClaimError (az_slot_id active)) else Ok tt) (doc_slots (cat_values catalog))
  end.

Definition validate_status_claims (catalog : AzureAllocationCatalog) (identity : AzureClaimIdentity)
    : io AllocationError unit :=
  try! leases <- perform_map AllocApi (perform (ListLeases AZURE_LEASE_NAMESPACE)) ;;
  try! tenants <- perform_map AllocApi (perform ListTenants) ;;
  Ret (try_for (check_tenant_claim catalog identity leases) tenants).

(** The body of the loop over the Leases. *)
Definition check_active_claim (catalog : AzureAllocationCatalog) (lease : Lease)
    : result AllocationError unit :=
  let nm := unwrap_or "" (name (lease_meta lease)) in
  let! pod := ok_or (and_then parse_net (metadata lease false POD_CIDR_ANNOTATION)) (ClaimError nm) in
  let! service := ok_or (and_then parse_net (metadata lease false SERVICE_CIDR_ANNOTATION)) (ClaimError nm) in
  try_for (λ slot,
    let exact := (nm == lease_name (ns_slot_id slot)) && (ns_pod_cidr slot == net_to_string pod)
                 && (ns_service_cidr slot == net_to_string service) in
    let! slot_pod := parse_or (ns_pod_cidr slot) InvalidPool in
    let! slot_service := parse_or (ns_service_cidr slot) InvalidPool in
    if negb exact && any_overlap pod service slot_pod slot_service
    then Err (ClaimError nm) else Ok tt) (doc_slots (cat_values catalog)).

Definition azure_lease (lease : Lease) : bool :=
  is_some_and (λ nm, starts_with nm "tenant-azure-slot-") (name (lease_meta lease)).

Definition validate_active_claims (catalog : AzureAllocationCatalog) : io AllocationError unit :=
  try! leases <- perform_map AllocApi (perform (ListLeases AZURE_LEASE_NAMESPACE)) ;;
  Ret (try_for (check_active_claim catalog) (filter_list azure_lease leases)).

Definition azure_claim (catalog : AzureAllocationCatalog) (identity : AzureClaimIdentity)
    : io AllocationError AzureAllocationStatus :=
  try! _ <- validate_status_claims catalog identity ;;
  try! _ <- validate_active_claims catalog ;;
  let cx := context identity (cat_config_map_uid catalog) (cat_sha256 catalog) (slots (cat_values catalog)) in
  try! claim <- allocate cx None ;;
  Ret (Ok (status catalog (claim_slot claim) (claim_lease_uid claim))).

Definition validate_recorded (identity : AzureClaimIdentity) (recorded : AzureAllocationStatus)
    : io AllocationError unit :=
  let cx := context identity (az_catalog_uid recorded) (az_catalog_sha256 recorded) [recorded_slot recorded] in
  try! claim <- allocate cx (Some (local recorded)) ;;
  Ret (if (claim_lease_uid claim != az_lease_uid recorded)
          || (lease_name (az_slot_id recorded) != az_lease_name recorded)
       then Err StatusMismatch else Ok tt).

(** The part of [recover] after the inventory was read. *)
Definition recover_from (identity : AzureClaimIdentity) (leases : list Lease)
    : result AllocationError (option AzureAllocationStatus) :=
  match filter_list (λ lease, metadata lease false TENANT_UID_ANNOTATION == Some (ci_tenant_uid identity)) leases with
  | [] => Ok None
  | _ :: _ :: _ => Err Duplicate
  | [lease] =>
      let nm := unwrap_or "" (name (lease_meta lease)) in
      let! catalog_uid := ok_or (metadata lease true AZURE_CATALOG_UID_LABEL) (ClaimError nm) in
      let! catalog_sha := ok_or (metadata lease false FOUNDATION_ANNOTATION) (ClaimError nm) in
      let cx := context identity catalog_uid catalog_sha [] in
      let! found := recover_allocation cx leases in
      let! allocation := ok_or found Missing in
      let! u := ok_or (filter_non_empty (uid (lease_meta lease))) (ClaimError nm) in
      Ok (Some {| az_slot_id := slot_id allocation; az_pod_cidr := pod_cidr allocation;
                  az_service_cidr := service_cidr allocation; az_catalog_uid := catalog_uid;
                  az_catalog_sha256 := catalog_sha; az_lease_name := lease_name (slot_id allocation);
                  az_lease_uid := u |})
  end.

Definition recover (identity : AzureClaimIdentity) : io AllocationError (option AzureAllocationStatus) :=
  try! leases <- perform_map AllocApi (perform (ListLeases AZURE_LEASE_NAMESPACE)) ;;
  Ret (recover_from identity leases).

(** [release] once the allocation is known. *)
Definition release_recorded (identity : AzureClaimIdentity) (recorded : AzureAllocationStatus)
    (residue_absent : bool) : io AllocationError ReleaseDecision :=
  try! live <- perform_map AllocApi (perform (GetLease AZURE_LEASE_NAMESPACE (az_lease_name recorded))) ;;
  if is_some_and (λ live, (metadata live false TENANT_UID_ANNOTATION == Some (ci_tenant_uid identity))
                          && (uid (lease_meta live) != Some (az_lease_uid recorded))) live
  then Ret (Err StatusMismatch)
  else
    let cx := context identity (az_catalog_uid recorded) (az_catalog_sha256 recorded) [] in
    AllocationRun.release cx (Some (local recorded)) residue_absent.

Definition azure_release (identity : AzureClaimIdentity) (recorded : option AzureAllocationStatus)
    (residue_absent : bool) : io AllocationError ReleaseDecision :=
  match recorded with
  | Some recorded => release_recorded identity recorded residue_absent
  | None =>
      try! recovered <- recover identity ;;
      match recovered with
      | None => Ret (Ok (if residue_absent then ReleaseComplete else ReleasePending))
      | Some recorded => release_recorded identity recorded residue_absent
      end
  end.
End Azure.

(** ** The catalog document *)
Section Document.
Context {NO : Ipv4NetOps} {NL : Ipv4NetLaws NO}.

(** Two networks with no address in common. *)
Definition apart (n m : Ipv4Net) : Prop := ∀ a, contains n a = true → contains m a = true → False.

Lemma overlaps_false n m : overlaps n m = false ↔ apart n m.
Proof.
  unfold overlaps. split.
  - intros [H1 H2]%orb_false_iff a Hn Hm. destruct (common_address_contains n m a Hn Hm); congruence.
  - intros Ha. apply orb_false_iff. split; apply not_true_is_false; intros H.
    + by apply (Ha (network m)); [|apply network_in].
    + by apply (Ha (network n)); [apply network_in|].
Qed.

(** A slot with its two networks. *)
Definition slot_ok (slot : AzureNetworkSlot) (nets : Ipv4Net * Ipv4Net) : Prop :=
  starts_with (ns_slot_id slot) "azure-" = true ∧ valid_name (ns_slot_id slot) = true ∧
  parse_net (ns_pod_cidr slot) = Some nets.1 ∧ addr nets.1 = network nets.1 ∧
  parse_net (ns_service_cidr slot) = Some nets.2 ∧ addr nets.2 = network nets.2 ∧
  prefix_len nets.2 ≤ 28.

Definition flat (pairs : list (Ipv4Net * Ipv4Net)) : list Ipv4Net := concat (map (λ p, [p.1; p.2]) pairs).

Lemma slot_network_Ok value slot n :
  slot_network value slot = Ok n ↔ parse_net value = Some n ∧ addr n = network n.
Proof.
  unfold slot_network, opt_filter. destruct (parse_net value) as [m|]; [|naive_solver].
  case_bool_decide; simpl; naive_solver.
Qed.

Lemma scan_slot_Ok ids nets slot ids' nets' :
  scan_slot (ids, nets) slot = Ok (ids', nets') ↔
  ns_slot_id slot ∉ ids ∧ ids' = ids ++ [ns_slot_id slot] ∧
  ∃ p, slot_ok slot p ∧ nets' = nets ++ [p.1; p.2].
Proof.
  unfold scan_slot, slot_ok.
  destruct (starts_with (ns_slot_id slot) "azure-"); simpl; [|naive_solver].
  destruct (valid_name (ns_slot_id slot)); simpl; [|naive_solver].
  case_bool_decide; simpl; [naive_solver|].
  destruct (slot_network (ns_pod_cidr slot) _) as [pod|] eqn:Hp.
  2: { split; [done|]. intros (_ & _ & p & (_ & _ & H1 & H2 & _) & _).
       rewrite (proj2 (slot_network_Ok _ _ p.1)) in Hp; done. }
  destruct (slot_network (ns_service_cidr slot) _) as [service|] eqn:Hs.
  2: { split; [done|]. intros (_ & _ & p & (_ & _ & _ & _ & H1 & H2 & _) & _).
       rewrite (proj2 (slot_network_Ok _ _ p.2)) in Hs; done. }
  apply slot_network_Ok in Hp as [Hp Hpc]. apply slot_network_Ok in Hs as [Hs Hsc].
  destruct (28 <? prefix_len service) eqn:Hl.
  - split; [done|]. intros (_ & _ & p & (_ & _ & _ & _ & H1 & _ & H2) & _).
    assert (service = p.2) as -> by congruence. lia.
  - split.
    + intros [= <- <-]. split_and!; [done|done|]. exists (pod, service). simpl. split_and!; try done; lia.
    + intros (_ & -> & [p s] & (_ & _ & H1 & _ & H2 & _) & ->). simpl in *. congruence.
Qed.

Lemma scan_slots_Ok l ids nets ids' nets' :
  try_fold scan_slot (ids, nets) l = Ok (ids', nets') ↔
  ∃ pairs, Forall2 slot_ok l pairs ∧ nets' = nets ++ flat pairs ∧ ids' = ids ++ map ns_slot_id l ∧
    NoDup (map ns_slot_id l) ∧ (∀ i, i ∈ map ns_slot_id l → i ∉ ids).
Proof.
  revert ids nets. induction l as [|slot l IH]; intros ids nets; cbn [try_fold map].
  - split.
    + intros [= -> ->]. exists []. split_and!; [constructor|simpl; by rewrite app_nil_r|simpl; by rewrite app_nil_r|constructor|set_solver].
    + intros (pairs & Hf & -> & -> & _). inversion Hf. simpl. by rewrite !app_nil_r.
  - destruct (scan_slot (ids, nets) slot) as [[ids1 nets1]|] eqn:Hs.
    + apply scan_slot_Ok in Hs as (Hn & -> & p & Hp & ->). rewrite IH. split.
      * intros (pairs & Hf & -> & -> & Hnd & Hout). exists (p :: pairs).
        split_and!; [by constructor|simpl; by rewrite <-app_assoc|simpl; by rewrite <-app_assoc| |].
        -- apply list.NoDup_cons. split; [|done]. intros Hin. specialize (Hout _ Hin). set_solver.
        -- intros i [->|Hi]%elem_of_cons; [done|]. specialize (Hout _ Hi). set_solver.
      * intros (pairs & Hf & -> & -> & Hnd & Hout). inversion Hf as [|? q ? pairs' Hq Hf']; subst.
        assert (q = p) as ->.
        { destruct Hp as (_ & _ & H1 & _ & H2 & _), Hq as (_ & _ & H3 & _ & H4 & _). destruct p, q. simpl in *. congruence. }
        apply list.NoDup_cons in Hnd as [Hni Hnd]. exists pairs'.
        split_and!; [done|simpl; by rewrite <-app_assoc|by rewrite <-app_assoc|done|]. set_solver.
    + split; [done|]. intros (pairs & Hf & _ & _ & Hnd & Hout). inversion Hf as [|? q ? pairs' Hq Hf']; subst.
      assert (Hx : scan_slot (ids, nets) slot = Ok (ids ++ [ns_slot_id slot], nets ++ [q.1; q.2])).
      { apply scan_slot_Ok. split_and!; [set_solver|done|by exists q]. }
      congruence.
Qed.

Lemma any_overlaps_false n l : any (overlaps n) l = false ↔ Forall (apart n) l.
Proof.
  induction l as [|m l IH]; simpl; [split; [constructor|done]|].
  rewrite orb_false_iff, IH, overlaps_false, list.Forall_cons. done.
Qed.

Lemma find_overlaps_None n l : find_first (overlaps n) l = None ↔ Forall (apart n) l.
Proof.
  induction l as [|m l IH]; simpl; [split; [constructor|done]|].
  rewrite list.Forall_cons, <-overlaps_false, <-IH. destruct (overlaps n m); naive_solver.
Qed.

Lemma check_networks_Ok reserved nets :
  check_networks reserved nets = Ok tt ↔
  ForallOrdPairs apart nets ∧ Forall (λ n, Forall (apart n) reserved) nets.
Proof.
  induction nets as [|n nets IH]; cbn [check_networks]; [split; [split; constructor|done]|].
  rewrite list.Forall_cons. destruct (any (overlaps n) nets) eqn:Ho.
  { split; [done|]. intros [Hp _]. inversion Hp as [|? ? Hn _]; subst.
    apply any_overlaps_false in Hn. congruence. }
  apply any_overlaps_false in Ho. destruct (find_first (overlaps n) reserved) eqn:Hf.
  { split; [done|]. intros [_ [Hn _]]. apply find_overlaps_None in Hn. congruence. }
  apply find_overlaps_None in Hf. rewrite IH. split.
  - intros [? ?]. split; [by constructor|done].
  - intros [Hp [_ ?]]. inversion Hp; by subst.
Qed.

Lemma slots_ok_unique l ps qs : Forall2 slot_ok l ps → Forall2 slot_ok l qs → ps = qs.
Proof.
  intros Hp. revert qs. induction Hp as [|s [p1 p2] l ps Hsp _ IH]; intros qs Hq; inversion Hq as [|? [q1 q2] ? qs' Hsq Hq']; subst; [done|].
  f_equal; [|by apply IH]. destruct Hsp as (_ & _ & Hp1 & _ & Hp2 & _), Hsq as (_ & _ & Hq1 & _ & Hq2 & _).
  simpl in *. congruence.
Qed.

(** C34. A catalog of Azure networks is accepted exactly when its schema is 1,
    it has slots with distinct valid identifiers of the Azure prefix, every
    pod and service network is canonical, every service network has at least
    sixteen addresses, no two networks of the catalog share an address, and
    none shares an address with a reserved network. *)
Theorem document_validate_exact (doc : AzureAllocationDocument) :
  document_validate doc = Ok tt ↔
  doc_schema doc = 1 ∧ doc_slots doc ≠ [] ∧ NoDup (map ns_slot_id (doc_slots doc)) ∧
  ∃ reserved pairs, Forall2 (λ v n, parse_net v = Some n) (doc_reserved_cidrs doc) reserved ∧
    Forall2 slot_ok (doc_slots doc) pairs ∧ ForallOrdPairs apart (flat pairs) ∧
    Forall (λ n, Forall (apart n) reserved) (flat pairs).
Proof.
  unfold document_validate. case_bool_decide as Hschema; simpl; [|split; [done|by intros []]].
  destruct (doc_slots doc) as [|slot l] eqn:Hl; [split; [done|by intros (_ & ? & _)]|]. rewrite <-Hl.
  assert (Hparse : ∀ rs, try_map (λ v, ok_or (parse_net v) tt) (doc_reserved_cidrs doc) = Ok rs ↔
    Forall2 (λ v n, parse_net v = Some n) (doc_reserved_cidrs doc) rs).
  { intros rs. rewrite try_map_Ok. split; apply Forall2_impl; intros v n; destruct (parse_net v); simpl; congruence. }
  destruct (try_map _ _) as [reserved|] eqn:Hr; simpl.
  2: { split; [done|]. intros (_ & _ & _ & rs & _ & Hrs%Hparse & _). congruence. }
  pose proof (proj1 (Hparse reserved) eq_refl) as Hres.
  destruct (try_fold scan_slot ([], []) (doc_slots doc)) as [[ids nets]|] eqn:Hs.
  - apply scan_slots_Ok in Hs as (pairs & Hf & -> & _ & Hnd & _). simpl. rewrite check_networks_Ok. split.
    + intros [Hp Hm]. split_and!; [done|by rewrite Hl|done|]. by exists reserved, pairs.
    + intros (_ & _ & _ & rs & ps & Hrs%Hparse & Hps & Hap & Hm).
      assert (rs = reserved) as -> by congruence. assert (ps = pairs) as ->; [|done].
      by eapply slots_ok_unique.
  - split; [done|]. intros (_ & _ & Hnd & rs & ps & _ & Hps & _).
    assert (Hx : try_fold scan_slot ([], []) (doc_slots doc)
      = Ok ([] ++ map ns_slot_id (doc_slots doc), [] ++ flat ps)).
    { apply scan_slots_Ok. exists ps. split_and!; try done. set_solver. }
    congruence.
Qed.
End Document.

(** ** Claims against any API server *)
#[local] Arguments wp : simpl never.
#[local] Arguments bind : simpl never.
#[local] Arguments perform_map : simpl never.

Section Claims.
Context {SO : Sha256Ops} {NO : Ipv4NetOps} {NL : Ipv4NetLaws NO}.

(** The networks share no address with those of the slot. *)
Definition slot_apart (pod service : Ipv4Net) (slot : AzureNetworkSlot) : Prop :=
  ∃ p s, parse_net (ns_pod_cidr slot) = Some p ∧ parse_net (ns_service_cidr slot) = Some s ∧
    apart pod p ∧ apart pod s ∧ apart service p ∧ apart service s.

(** A Lease of an Azure slot does not collide with the catalog: for each slot
    it is that slot's own Lease with its networks, or shares no address. *)
Definition lease_compatible (catalog : AzureAllocationCatalog) (lease : Lease) : Prop :=
  ∃ pod service, and_then parse_net (metadata lease false POD_CIDR_ANNOTATION) = Some pod ∧
    and_then parse_net (metadata lease false SERVICE_CIDR_ANNOTATION) = Some service ∧
    ∀ slot, slot ∈ doc_slots (cat_values catalog) →
      (unwrap_or "" (name (lease_meta lease)) = lease_name (ns_slot_id slot) ∧
       ns_pod_cidr slot = net_to_string pod ∧ ns_service_cidr slot = net_to_string service) ∨
      slot_apart pod service slot.

(** A Tenant does not collide with the catalog: nothing recorded, the claimant
    itself, or an allocation that is backed by its Lease or shares no address
    with any slot. *)
Definition tenant_compatible (catalog : AzureAllocationCatalog) (identity : AzureClaimIdentity)
    (leases : list Lease) (tenant : Tenant) : Prop :=
  ∀ active, recorded_network tenant = Some active →
  uid (tenant_meta tenant) = Some (ci_tenant_uid identity) ∨
  ∃ pod service, parse_net (az_pod_cidr active) = Some pod ∧ parse_net (az_service_cidr active) = Some service ∧
    ∀ slot, slot ∈ doc_slots (cat_values catalog) →
      (∃ lease, lease ∈ leases ∧ lease_backs tenant active lease = true) ∨ slot_apart pod service slot.

Lemma any_overlap_false pod service p s :
  any_overlap pod service p s = false ↔ apart pod p ∧ apart pod s ∧ apart service p ∧ apart service s.
Proof.
  unfold any_overlap. simpl. rewrite orb_false_r, !orb_false_iff, !overlaps_false. tauto.
Qed.

Lemma check_active_claim_Ok catalog lease :
  check_active_claim catalog lease = Ok tt → lease_compatible catalog lease.
Proof.
  unfold check_active_claim. intros H.
  destruct (and_then parse_net (metadata lease false POD_CIDR_ANNOTATION)) as [pod|] eqn:Hp; [|done].
  destruct (and_then parse_net (metadata lease false SERVICE_CIDR_ANNOTATION)) as [service|] eqn:Hs; [|done].
  exists pod, service. split_and!; [done|done|]. cbn [ok_or] in H.
  intros slot Hin. pose proof (proj1 (try_for_Ok _ _) H slot Hin) as Hslot. cbn beta in Hslot. unfold parse_or in Hslot.
  destruct (parse_net (ns_pod_cidr slot)) as [p|] eqn:Hpp; [|done].
  destruct (parse_net (ns_service_cidr slot)) as [s|] eqn:Hss; [|done]. cbn [ok_or] in Hslot.
  destruct ((_ == _) && _ && _) eqn:Hex.
  - left. apply andb_true_iff in Hex as [[? ?]%andb_true_iff ?]. by bool_hyp.
  - right. simpl in Hslot. destruct (any_overlap pod service p s) eqn:Ho; [done|].
    apply any_overlap_false in Ho as (? & ? & ? & ?). by exists p, s.
Qed.

Lemma check_tenant_claim_Ok catalog identity leases tenant :
  check_tenant_claim catalog identity leases tenant = Ok tt →
  tenant_compatible catalog identity leases tenant.
Proof.
  unfold check_tenant_claim. intros H active Ha. rewrite Ha in H.
  case_bool_decide; [by left|right]. unfold parse_or at 1 2 in H.
  destruct (parse_net (az_pod_cidr active)) as [pod|] eqn:Hp; [|done].
  destruct (parse_net (az_service_cidr active)) as [service|] eqn:Hs; [|done]. cbn [ok_or] in H.
  exists pod, service. split_and!; [done|done|]. intros slot Hin.
  pose proof (proj1 (try_for_Ok _ _) H slot Hin) as Hslot. cbn beta in Hslot. unfold parse_or in Hslot.
  destruct (parse_net (ns_pod_cidr slot)) as [p|] eqn:Hpp; [|done].
  destruct (parse_net (ns_service_cidr slot)) as [s|] eqn:Hss; [|done]. cbn [ok_or] in Hslot.
  destruct (any_overlap pod service p s) eqn:Ho.
  - left. destruct (any _ leases) eqn:Hb; [|done]. by apply any_true in Hb.
  - right. apply any_overlap_false in Ho as (? & ? & ? & ?). by exists p, s.
Qed.

(** What a claim was checked against. *)
Definition claim_checked (catalog : AzureAllocationCatalog) (identity : AzureClaimIdentity)
    (h : trace Resp) : Prop :=
  (∃ leases tenants, answered h (ListLeases AZURE_LEASE_NAMESPACE) (Ok leases) ∧
     answered h ListTenants (Ok tenants) ∧ ∀ t, t ∈ tenants → tenant_compatible catalog identity leases t) ∧
  ∃ leases, answered h (ListLeases AZURE_LEASE_NAMESPACE) (Ok leases) ∧
    ∀ lease, lease ∈ leases → azure_lease lease = true → lease_compatible catalog lease.

Definition claim_context (catalog : AzureAllocationCatalog) (identity : AzureClaimIdentity) : ClaimContext :=
  context identity (cat_config_map_uid catalog) (cat_sha256 catalog) (slots (cat_values catalog)).

Definition azure_claim_request (catalog : AzureAllocationCatalog) (identity : AzureClaimIdentity)
    (h : trace Resp) (o : Op) : Prop :=
  mutates o = true → claim_checked catalog identity h ∧ alloc_request (claim_context catalog identity) None h o.

Definition azure_claim_reply (catalog : AzureAllocationCatalog) (identity : AzureClaimIdentity)
    (h : trace Resp) (r : result AllocationError AzureAllocationStatus) : Prop :=
  ∀ st, r = Ok st → claim_checked catalog identity h ∧
    ∃ c slot, backed (claim_context catalog identity) None h c ∧ slot ∈ doc_slots (cat_values catalog) ∧
      claim_slot c = {| as_slot_id := ns_slot_id slot; as_vip_ordinal := 0; as_endpoint := PLACEHOLDER_ENDPOINT;
                        as_pod_cidr := ns_pod_cidr slot; as_service_cidr := ns_service_cidr slot |} ∧
      st = {| az_slot_id := ns_slot_id slot; az_pod_cidr := ns_pod_cidr slot;
              az_service_cidr := ns_service_cidr slot; az_catalog_uid := cat_config_map_uid catalog;
              az_catalog_sha256 := cat_sha256 catalog; az_lease_name := lease_name (ns_slot_id slot);
              az_lease_uid := claim_lease_uid c |}.

Lemma claim_checked_app catalog identity h g :
  claim_checked catalog identity h → claim_checked catalog identity (h ++ g).
Proof.
  intros [(l & t & Hl & Ht & H) (l' & Hl' & H')]. split.
  - exists l, t. split_and!; [by apply answered_app_l|by apply answered_app_l|done].
  - exists l'. split; [by apply answered_app_l|done].
Qed.

Lemma slots_elem doc s : s ∈ slots doc → ∃ slot, slot ∈ doc_slots doc ∧
  s = {| as_slot_id := ns_slot_id slot; as_vip_ordinal := 0; as_endpoint := PLACEHOLDER_ENDPOINT;
         as_pod_cidr := ns_pod_cidr slot; as_service_cidr := ns_service_cidr slot |}.
Proof. unfold slots. intros (slot & -> & Hin)%list_elem_of_fmap. by exists slot. Qed.

Lemma wp_azure_claim catalog identity h :
  wp (azure_claim catalog identity) h (azure_claim_request catalog identity) (azure_claim_reply catalog identity).
Proof.
  unfold azure_claim. apply wp_bind. unfold validate_status_claims.
  request; [done|]. destruct reply as [leases|e]; cbn [map_err]; [|done].
  request; [done|]. destruct reply as [tenants|e]; cbn [map_err]; [|done].
  destruct (try_for _ tenants) as [[]|e] eqn:Ht; [|by intros st].
  apply wp_bind. unfold validate_active_claims.
  request; [done|]. destruct reply as [leases2|e]; cbn [map_err]; [|by intros st].
  destruct (try_for _ (filter_list azure_lease leases2)) as [[]|e] eqn:Hl; [|by intros st].
  assert (Hc : claim_checked catalog identity h2).
  { split.
    - exists leases, tenants. split_and!; [in_history|in_history|]. intros t Hin.
      eapply check_tenant_claim_Ok, (proj1 (try_for_Ok _ _) Ht t Hin).
    - exists leases2. split; [in_history|]. intros lease Hin Haz.
      eapply check_active_claim_Ok, (proj1 (try_for_Ok _ _) Hl). by apply elem_of_filter_list. }
  apply wp_bind. eapply wp_mono; [| |apply wp_within, (wp_allocate (claim_context catalog identity) None h2)].
  - intros h3 o [Ho (g & ->)] _. split; [by apply claim_checked_app|done].
  - intros h3 [c|e] [[_ Hb] (g & ->)]; [|by intros st]. intros st [= <-].
    split; [by apply claim_checked_app|]. specialize (Hb c eq_refl).
    destruct (slots_elem (cat_values catalog) (claim_slot c)) as (slot & Hin & Hs); [apply Hb|].
    exists c, slot. split_and!; [done..|]. unfold status. by rewrite Hs.
Qed.

(** C32. An Azure network claim is isolated whatever the API server answers:
    before it creates anything it has read the Leases and Tenants and found
    that every Azure Lease is a catalog slot's own with that slot's networks
    or shares no address with any slot, and that every other Tenant's recorded
    networks are backed by its live Lease or share no address with any slot;
    it then follows the Lease protocol, and the status it returns is the slot of
    the approved catalog that the Tenant's Lease claims, with that Lease's
    UID. *)
Theorem azure_claim_isolated catalog identity env :
  let '(h, r) := run env (azure_claim catalog identity) [] in
  azure_claim_reply catalog identity h r ∧ issued (azure_claim_request catalog identity) [] h.
Proof. apply wp_run, wp_azure_claim. Qed.

(** The allocation a release acts on: the recorded one, or the one recovered
    from an inventory. *)
Definition released_allocation (identity : AzureClaimIdentity) (recorded : option AzureAllocationStatus)
    (h : trace Resp) (a : AzureAllocationStatus) : Prop :=
  match recorded with
  | Some r => a = r
  | None => ∃ leases, answered h (ListLeases AZURE_LEASE_NAMESPACE) (Ok leases) ∧
      recover_from identity leases = Ok (Some a)
  end.

Definition release_context (identity : AzureClaimIdentity) (a : AzureAllocationStatus) : ClaimContext :=
  context identity (az_catalog_uid a) (az_catalog_sha256 a) [].

Definition azure_release_request (identity : AzureClaimIdentity) (recorded : option AzureAllocationStatus)
    (residue_absent : bool) (h : trace Resp) (o : Op) : Prop :=
  mutates o = true →
  ∃ a, released_allocation identity recorded h a ∧
    release_request (release_context identity a) (Some (local a)) residue_absent h o ∧
    ∃ live, answered h (GetLease AZURE_LEASE_NAMESPACE (az_lease_name a)) (Ok live) ∧
      ∀ l, live = Some l → metadata l false TENANT_UID_ANNOTATION = Some (ci_tenant_uid identity) →
        uid (lease_meta l) = Some (az_lease_uid a).

Definition azure_release_reply (identity : AzureClaimIdentity) (residue_absent : bool)
    (h : trace Resp) (r : result AllocationError ReleaseDecision) : Prop :=
  match r with
  | Ok (ReleaseDelete _) => False
  | Ok ReleaseComplete => residue_absent = true ∧ ∃ inv, listed h inv ∧
      ∀ l, l ∈ inv → metadata l false TENANT_UID_ANNOTATION ≠ Some (ci_tenant_uid identity)
  | _ => True
  end.

Lemma metadata_carries identity a l :
  metadata l false TENANT_UID_ANNOTATION = Some (ci_tenant_uid identity) →
  carries_uid (release_context identity a) l.
Proof. unfold metadata. intros [H _]%filter_non_empty_Some. exact H. Qed.

Lemma wp_release_recorded identity recorded residue a h :
  released_allocation identity recorded h a →
  wp (release_recorded identity a residue) h (azure_release_request identity recorded residue)
     (azure_release_reply identity residue).
Proof.
  intros Ha. unfold release_recorded. request; [done|]. destruct reply as [live|e]; cbn [map_err]; [|done].
  destruct (is_some_and _ live) eqn:Hg; [done|].
  eapply wp_mono; [| |apply wp_within, wp_release].
  - intros h1 o [Ho (g & ->)] _. exists a. split_and!.
    + destruct recorded; [done|]. destruct Ha as (leases & Hl & Hr). exists leases.
      split; [subst; by do 2 apply answered_app_l|done].
    + done.
    + exists live. split; [apply answered_app_l; in_history|]. intros l -> Hm. simpl in Hg.
      rewrite Hm, bool_decide_eq_true_2 in Hg by done. simpl in Hg. by bool_hyp.
  - intros h1 r [[_ Hr] _]. destruct r as [[| |]|e]; try done.
    destruct Hr as [Hres (inv & Hl & Hn)]. split; [done|]. exists inv. split; [done|].
    intros l Hin Hm. apply (Hn l Hin). by apply metadata_carries.
Qed.

Lemma wp_azure_release identity recorded residue h :
  wp (azure_release identity recorded residue) h (azure_release_request identity recorded residue)
     (azure_release_reply identity residue).
Proof.
  unfold azure_release. destruct recorded as [r|]; [by apply wp_release_recorded|].
  apply wp_bind. unfold recover. request; [done|]. destruct reply as [leases|e]; cbn [map_err]; [|done].
  destruct (recover_from identity leases) as [[a|]|e] eqn:Hr; [| |done].
  - apply wp_release_recorded. exists leases. split; [in_history|done].
  - destruct residue; [|done]. split; [done|]. exists leases. split; [subst; by apply listed_last|].
    unfold recover_from in Hr. destruct (filter_list _ leases) as [|l [|l' ls]] eqn:Hf; [|repeat case_hyp Hr; done|done].
    intros l Hl Hm. assert (Hin : l ∈ @nil Lease); [|by apply not_elem_of_nil in Hin].
    rewrite <-Hf. apply elem_of_filter_list. split; [by apply bool_decide_eq_true_2|done].
Qed.

(** C33. Releasing an Azure network claim deletes at most the Tenant's own
    Lease whatever the API server answers: by UID and version, for the
    recorded allocation or the one recovered from the single Lease that
    carries the Tenant's UID, only once the residue is gone, and never when
    the slot's Lease is the Tenant's but not the recorded one.  Completion is
    reported only on an inventory without the Tenant's UID. *)
Theorem azure_release_safe identity recorded residue_absent env :
  let '(h, r) := run env (azure_release identity recorded residue_absent) [] in
  azure_release_reply identity residue_absent h r ∧
  issued (azure_release_request identity recorded residue_absent) [] h.
Proof. apply wp_run, wp_azure_release. Qed.
End Claims.

(** A catalog with one slot. *)
Module AzureDemo.
Definition document : AzureAllocationDocument := {|
  doc_schema := 1; doc_reserved_cidrs := ["10.220.0.0/16"];
  doc_slots := [{| ns_slot_id := "azure-01"; ns_pod_cidr := "10.72.0.0/16";
                   ns_service_cidr := "10.142.0.0/16" |}] |}.
Definition catalog : AzureAllocationCatalog := {|
  cat_values := document; cat_config_map_uid := "config-uid"; cat_sha256 := "sha" |}.
Definition identity : AzureClaimIdentity := {|
  ci_tenant_name := "alpha"; ci_tenant_uid := "uid-a"; ci_spec_hash := "spec" |}.
(** An empty cluster that keeps the Leases created. *)
Definition admitted (lease : Lease) : Lease := {|
  lease_meta := {|
    name := name (lease_meta lease); namespace := namespace (lease_meta lease);
    uid := Some "lease-uid"; resource_version := Some "1"; generation := generation (lease_meta lease);
    labels := labels (lease_meta lease); annotations := annotations (lease_meta lease);
    owner_references := owner_references (lease_meta lease); finalizers := finalizers (lease_meta lease);
    deletion_timestamp := None |};
  lease_spec := lease_spec lease |}.
Definition stored (h : trace Resp) : list Lease :=
  concat (map (λ e : event Resp, match e with existT (CreateLease _ l) _ => [admitted l] | _ => [] end) h).
Definition answer (h : trace Resp) (o : Op) : Resp o :=
  match o return Resp o with
  | ListLeases _ => Ok (stored h)
  | GetLease _ n => Ok (find_first (λ l, name (lease_meta l) == Some n) (stored h))
  | CreateLease _ l => Ok (admitted l)
  | ListTenants => Ok []
  | o => error_reply o (KubeOther "unavailable")
  end.
End AzureDemo.

Lemma document_validate_exact_witness :
  @document_validate Concrete.cidr_ops AzureDemo.document = Ok tt ∧
  NoDup (map ns_slot_id (doc_slots AzureDemo.document)).
Proof.
  assert (Hv : @document_validate Concrete.cidr_ops AzureDemo.document = Ok tt) by (vm_compute; reflexivity).
  split; [exact Hv|].
  exact (proj1 (proj2 (proj2 (proj1 (@document_validate_exact Concrete.cidr_ops Concrete.cidr_laws
           AzureDemo.document) Hv)))).
Defined.

Lemma azure_claim_isolated_witness :
  ∃ c, (run AzureDemo.answer
          (@azure_claim Concrete.hex_ops Concrete.cidr_ops AzureDemo.catalog AzureDemo.identity) []).2 =
       Ok (@status Concrete.hex_ops AzureDemo.catalog (claim_slot c) "lease-uid") ∧
       as_pod_cidr (claim_slot c) = "10.72.0.0/16".
Proof.
  pose proof (@azure_claim_isolated Concrete.hex_ops Concrete.cidr_ops Concrete.cidr_laws AzureDemo.catalog
                AzureDemo.identity AzureDemo.answer) as H.
  destruct (run _ _ _) as [h r] eqn:Hrun.
  assert (Hr : r = Ok (@status Concrete.hex_ops AzureDemo.catalog (hd (recorded_slot {|
    az_slot_id := ""; az_pod_cidr := ""; az_service_cidr := ""; az_catalog_uid := ""; az_catalog_sha256 := "";
    az_lease_name := ""; az_lease_uid := "" |}) (slots AzureDemo.document)) "lease-uid")).
  { apply (f_equal snd) in Hrun. simpl in Hrun. rewrite <-Hrun. vm_compute. reflexivity. }
  destruct H as [H _]. specialize (H _ Hr) as (_ & c & slot & _ & Hin & Hs & _).
  apply list_elem_of_singleton in Hin as ->. exists c. rewrite Hs. simpl. split; [exact Hr|reflexivity].
Defined.
