(* ===== verification/Activation.v ===== *)
(** * Activation of a controller configuration

    [controller/src/activation.rs]: a manager with a new configuration starts
    only with a fresh single-use ticket and on a management cluster and a
    Docker host that hold nothing of any Tenant. *)

From S2P Require Import Prelude RustStd Kube Errors Api Management Sanitize Readiness Docker Effects Allocation Ops.

Open Scope Z_scope.

Definition STATE_NAME := "tenant-controller-state".
Definition TICKET_NAME := "tenant-controller-activation".
Definition ACTIVATION_NAMESPACE := "tenant-system".
Definition MAX_TICKET_AGE_SECONDS : Z := 600.

(** [chrono]'s [parse::<DateTime<Utc>>()] in nanoseconds, and decoding of a
    dynamic object by [serde_json]. *)
Class ActivationCodec := {
  parse_datetime : string → option Z;
  decode_object : Value → result string DynamicObject;
}.

Definition data_of (cm : option ConfigMap) (key : string) : option string :=
  and_then (λ data, data !! key) (and_then cm_data cm).

Definition age_seconds (now created : Z) : Z := Z.quot (now - created) 1000000000.

Section Activation.
Context `{AC : ActivationCodec}.

(** Whether the ticket was already consumed; [now] is the clock reading. *)
Definition validate_ticket (now : Z) (ticket : ConfigMap) (configuration_hash activation_token : string)
    (current_hash : option string) : result ControllerError bool :=
  let! data := ok_or (cm_data ticket) (Configuration "activation ticket has no data") in
  if is_empty activation_token
     || (data !! "configurationHash" != Some configuration_hash)
     || (data !! "token" != Some activation_token)
     || (data !! "hostClean" != Some "true")
     || (data !! "previousConfigurationHash" != Some (unwrap_or "" current_hash))
  then Err (Configuration "activation ticket identity is invalid") else
  let! text := ok_or (data !! "createdAt") (Configuration "activation ticket has no time") in
  let! created := ok_or (parse_datetime text) (Configuration "activation ticket time is invalid") in
  let age := age_seconds now created in
  if negb ((0 <=? age) && (age <=? MAX_TICKET_AGE_SECONDS))
  then Err (Configuration "activation ticket is stale") else
  match data !! "consumed" with
  | None => Ok false
  | Some value =>
      if value == "false" then Ok false
      else if value == "true" then Ok true
      else Err (Configuration "activation ticket consumption state is invalid")
  end.

Definition is_null (v : Value) : bool := match v with VNull => true | _ => false end.

Definition validate_raw_inventory_item (resource : ManagementResource) (item : Value)
    : result ControllerError unit :=
  let invalid := Err (Configuration (mr_kind resource +:+ " inventory item is invalid")) in
  match json_get item "metadata" with
  | Some (VObject fields) =>
      if all (λ field, is_none_or (λ v, negb (is_null v)) (json_get (VObject fields) field))
           ["annotations"; "labels"; "ownerReferences"]
      then Ok tt else invalid
  | _ => invalid
  end.

Definition valid_namespace (resource : ManagementResource) (ns : option string) : bool :=
  if mr_namespaced resource
  then is_some_and (λ ns, non_empty ns && is_none_or (λ expected, ns == expected) (mr_inventory_namespace resource)) ns
  else is_none_or is_empty ns.

Definition validate_inventory_item (resource : ManagementResource) (item : DynamicObject)
    : result ControllerError unit :=
  let meta := dyn_meta item in
  if is_none_or (λ types, (tm_api_version types == mr_api_version resource) && (tm_kind types == mr_kind resource))
       (dyn_types item)
     && is_some_and non_empty (name meta)
     && is_some_and non_empty (uid meta)
     && all (λ owner, non_empty (owner_api_version owner) && non_empty (owner_kind owner)
                      && non_empty (owner_name owner) && non_empty (owner_uid owner))
          (unwrap_or [] (owner_references meta))
     && valid_namespace resource (namespace meta)
  then Ok tt
  else Err (Configuration (mr_kind resource +:+ " inventory identity is invalid")).

Definition has_annotation (meta : ObjectMeta) (key : string) : bool := is_some (get_annotation meta key).
Definition has_label (meta : ObjectMeta) (key : string) : bool := is_some (get_label meta key).

Definition inventory_blocks (resource : ManagementResource) (item : DynamicObject) : bool :=
  let meta := dyn_meta item in
  let tenant_marked := has_annotation meta "tenancy.cnpg-vcluster.io/tenant"
                       || has_annotation meta "tenancy.cnpg-vcluster.io/tenant-uid" in
  let allocation_marked := has_label meta "tenancy.cnpg-vcluster.io/slot-id"
                           || has_label meta "tenancy.cnpg-vcluster.io/tenant"
                           || (get_annotation meta "tenancy.cnpg-vcluster.io/resource" == Some "allocation-lease")
                           || has_annotation meta "tenancy.cnpg-vcluster.io/slot-id" in
  if tenant_marked || allocation_marked then true
  else match mr_inventory_policy resource with
  | BlockAnyInstance => true
  | TenantMarkersOrKamajiOwner =>
      is_some_and (any (λ owner, owner_kind owner == "KamajiControlPlane")) (owner_references meta)
      || negb (exempts_unmarked resource)
  | TenantMarkers | AllocationMarkers => negb (exempts_unmarked resource)
  end.

(** [inventory] once the list was read. *)
Definition inventory_items (resource : ManagementResource) (document : Value)
    : result ControllerError (list DynamicObject) :=
  let! items := ok_or (and_then as_array (json_get document "items"))
                  (Configuration (mr_kind resource +:+ " inventory list is invalid")) in
  if negb (index_is document "apiVersion" (mr_api_version resource))
     || negb (index_is document "kind" (mr_kind resource +:+ "List"))
  then Err (Configuration (mr_kind resource +:+ " inventory list identity is invalid")) else
  try_map (λ item,
    let! _ := validate_raw_inventory_item resource item in
    let! object := map_err (λ e, Configuration (mr_kind resource +:+ " inventory item is invalid: " +:+ e))
                     (decode_object item) in
    let! _ := validate_inventory_item resource object in
    Ok object) items.

Definition inventory (resource : ManagementResource) : io ControllerError (list DynamicObject) :=
  try! document <- perform_map Kube (perform (RawInventory (inventory_path resource))) ;;
  Ret (inventory_items resource document).

Fixpoint require_resources (resources : list ManagementResource) : io ControllerError unit :=
  match resources with
  | [] => Ret (Ok tt)
  | resource :: rest =>
      if negb (valid_inventory_contract resource)
      then Ret (Err (Configuration "management resource inventory contract is invalid")) else
      try! items <- inventory resource ;;
      if any (inventory_blocks resource) items
      then Ret (Err (Configuration (mr_kind resource +:+ " resources block configuration activation")))
      else require_resources rest
  end.

Definition container_blocks (container : DockerContainer) : bool :=
  let label key := dc_labels container !! key in
  bool_decide (label WORKER_ROLE_LABEL ∈ [Some "worker"; Some "external-load-balancer"])
  || is_some_and (λ role, role != "offline-registry") (label "cnpg-vcluster.capi/role")
  || any (λ key, is_some (label key)) ["cnpg-vcluster.capi/tenant"; "tenancy.cnpg-vcluster.io/tenant-uid"].

Definition volume_blocks (volume : DockerVolume) : bool :=
  let label key := dv_labels volume !! key in
  ends_with (dv_name volume) "-storage" || is_some (label "cnpg-vcluster.capi/role")
  || is_some (label "cnpg-vcluster.capi/tenant") || is_some (label "tenancy.cnpg-vcluster.io/tenant-uid").

Definition require_clean_inventory : io ControllerError unit :=
  try! tenants <- perform_map Kube (perform ListTenants) ;;
  match tenants with
  | _ :: _ => Ret (Err (Configuration "Tenant resources block configuration activation"))
  | [] =>
      try! _ <- require_resources MANAGEMENT_RESOURCES ;;
      try! containers <- perform_map (λ e, Configuration ("Docker inventory failed: " +:+ docker_display e))
                           (perform ListContainers) ;;
      if any container_blocks containers
      then Ret (Err (Configuration "worker or load-balancer containers block configuration activation")) else
      try! volumes <- perform_map (λ e, Configuration ("Docker volume inventory failed: " +:+ docker_display e))
                        (perform ListVolumes) ;;
      Ret (if any volume_blocks volumes
           then Err (Configuration "Tenant storage volume residue blocks configuration activation")
           else Ok tt)
  end.

Definition consume (ticket : ConfigMap) : ConfigMap := {|
  cm_meta := cm_meta ticket; cm_data := Some (<["consumed" := "true"]> (unwrap_or ∅ (cm_data ticket))) |}.

Definition new_state (state : option ConfigMap) (configuration_hash : string) : ConfigMap := {|
  cm_meta := {|
    name := Some STATE_NAME; namespace := Some ACTIVATION_NAMESPACE; uid := None;
    resource_version := and_then (λ s, resource_version (cm_meta s)) state;
    generation := None; labels := None; annotations := None; owner_references := None;
    finalizers := None; deletion_timestamp := None |};
  cm_data := Some {[ "configurationHash" := configuration_hash ]} |}.

(** [admit_activation] from the write of the state on. *)
Definition record_configuration (state : option ConfigMap) (consumed : ConfigMap) (configuration_hash : string)
    : io ControllerError unit :=
  try! _ <- match state with
            | Some _ => perform_map Kube (perform (ReplaceConfigMap ACTIVATION_NAMESPACE STATE_NAME
                                                     (new_state state configuration_hash)))
            | None => perform_map Kube (perform (CreateConfigMap ACTIVATION_NAMESPACE
                                                   (new_state state configuration_hash)))
            end ;;
  pure! u <- ok_or (uid (cm_meta consumed)) (Configuration "activation ticket has no UID") ;;
  pure! rv <- ok_or (resource_version (cm_meta consumed))
                (Configuration "activation ticket has no resourceVersion") ;;
  perform_map Kube (perform (DeleteConfigMap ACTIVATION_NAMESPACE TICKET_NAME {|
    precondition_uid := Some u; precondition_resource_version := Some rv; background := false |})).

Definition admit_activation (now : Z) (configuration_hash activation_token : string) (creation_valid : bool)
    : io ControllerError unit :=
  try! state <- perform_map Kube (perform (GetConfigMap ACTIVATION_NAMESPACE STATE_NAME)) ;;
  if is_some (data_of state "rollbackToken")
  then Ret (Err (Configuration "controller configuration rollback is in progress"))
  else if data_of state "configurationHash" == Some configuration_hash then Ret (Ok tt)
  else if negb creation_valid
  then Ret (Err (Configuration "changed configuration is invalid for Tenant creation")) else
  try! found <- perform_map Kube (perform (GetConfigMap ACTIVATION_NAMESPACE TICKET_NAME)) ;;
  pure! ticket <- ok_or found (Configuration "activation ticket is missing") ;;
  pure! consumed <- validate_ticket now ticket configuration_hash activation_token
                      (data_of state "configurationHash") ;;
  try! _ <- require_clean_inventory ;;
  try! consumed <- (if (consumed : bool) then Ret (Ok ticket)
                    else perform_map Kube (perform (ReplaceConfigMap ACTIVATION_NAMESPACE TICKET_NAME
                                                      (consume ticket)))) ;;
  record_configuration state consumed configuration_hash.
End Activation.

(** ** Safety *)
#[local] Arguments wp : simpl never.
#[local] Arguments bind : simpl never.
#[local] Arguments perform_map : simpl never.

Section Safety.
Context `{AC : ActivationCodec}.
Context (now : Z) (configuration_hash activation_token : string) (creation_valid : bool).

(** Nothing of a Tenant was found, neither in the cluster nor on the host. *)
Definition clean_resource (h : trace Resp) (resource : ManagementResource) : Prop :=
  ∃ document items, answered h (RawInventory (inventory_path resource)) (Ok document) ∧
    inventory_items resource document = Ok items ∧ ∀ i, i ∈ items → inventory_blocks resource i = false.

Record clean (h : trace Resp) : Prop := {
  clean_tenants : answered h ListTenants (Ok []);
  clean_resources : ∀ resource, resource ∈ MANAGEMENT_RESOURCES → clean_resource h resource;
  clean_containers : ∃ cs, answered h ListContainers (Ok cs) ∧ ∀ c, c ∈ cs → container_blocks c = false;
  clean_volumes : ∃ vs, answered h ListVolumes (Ok vs) ∧ ∀ v, v ∈ vs → volume_blocks v = false;
}.

(** The state and the ticket that were read; the ticket is valid for them. *)
Record ticketed (h : trace Resp) (state : option ConfigMap) (ticket : ConfigMap) (used : bool) : Prop := {
  ticketed_state : answered h (GetConfigMap ACTIVATION_NAMESPACE STATE_NAME) (Ok state);
  ticketed_rollback : data_of state "rollbackToken" = None;
  ticketed_ticket : answered h (GetConfigMap ACTIVATION_NAMESPACE TICKET_NAME) (Ok (Some ticket));
  ticketed_valid : validate_ticket now ticket configuration_hash activation_token
    (data_of state "configurationHash") = Ok used;
}.

(** The ticket as it is marked consumed in the cluster. *)
Definition consumed_ticket (h : trace Resp) (ticket : ConfigMap) (used : bool) (t : ConfigMap) : Prop :=
  (used = true ∧ t = ticket) ∨
  (used = false ∧ answered h (ReplaceConfigMap ACTIVATION_NAMESPACE TICKET_NAME (consume ticket)) (Ok t)).

Definition state_written (h : trace Resp) (state : option ConfigMap) : Prop :=
  ∃ s, answered h (ReplaceConfigMap ACTIVATION_NAMESPACE STATE_NAME (new_state state configuration_hash)) (Ok s)
     ∨ answered h (CreateConfigMap ACTIVATION_NAMESPACE (new_state state configuration_hash)) (Ok s).

Definition admit_request (h : trace Resp) (o : Op) : Prop :=
  mutates o = true →
  creation_valid = true ∧ clean h ∧ ∃ state ticket used, ticketed h state ticket used ∧
  match o with
  | ReplaceConfigMap ns nm obj => ns = ACTIVATION_NAMESPACE ∧
      ((nm = TICKET_NAME ∧ used = false ∧ obj = consume ticket) ∨
       (nm = STATE_NAME ∧ is_Some state ∧ obj = new_state state configuration_hash ∧
        ∃ t, consumed_ticket h ticket used t))
  | CreateConfigMap ns obj => ns = ACTIVATION_NAMESPACE ∧ state = None ∧
      obj = new_state None configuration_hash ∧ ∃ t, consumed_ticket h ticket used t
  | DeleteConfigMap ns nm params => ns = ACTIVATION_NAMESPACE ∧ nm = TICKET_NAME ∧
      state_written h state ∧ ∃ t u rv, consumed_ticket h ticket used t ∧
        uid (cm_meta t) = Some u ∧ resource_version (cm_meta t) = Some rv ∧
        params = {| precondition_uid := Some u; precondition_resource_version := Some rv; background := false |}
  | _ => False
  end.

Definition admit_reply (h : trace Resp) (r : result ControllerError unit) : Prop :=
  r = Ok tt →
  ∃ state, answered h (GetConfigMap ACTIVATION_NAMESPACE STATE_NAME) (Ok state) ∧
    data_of state "rollbackToken" = None ∧
    (data_of state "configurationHash" = Some configuration_hash ∨ (clean h ∧ state_written h state)).

Lemma clean_resource_app h g resource : clean_resource h resource → clean_resource (h ++ g) resource.
Proof. intros (d & items & Hd & H). exists d, items. split; [by apply answered_app_l|done]. Qed.

Lemma clean_app h g : clean h → clean (h ++ g).
Proof.
  intros [H1 H2 (cs & H3 & H3') (vs & H4 & H4')]. split.
  - by apply answered_app_l.
  - intros r Hr. by apply clean_resource_app, H2.
  - exists cs. split; [by apply answered_app_l|done].
  - exists vs. split; [by apply answered_app_l|done].
Qed.

Lemma ticketed_app h g state ticket used : ticketed h state ticket used → ticketed (h ++ g) state ticket used.
Proof. intros []. split; try done; by apply answered_app_l. Qed.

Lemma wp_require_resources resources h :
  wp (require_resources resources) h reads_only (λ h' r,
    r = Ok tt → ∀ resource, resource ∈ resources → clean_resource h' resource).
Proof.
  revert h. induction resources as [|resource rest IH]; intros h; cbn [require_resources].
  { intros _ r Hr. by apply not_elem_of_nil in Hr. }
  destruct (negb _); [done|]. unfold inventory. apply wp_bind. request; [done|].
  destruct reply as [document|e]; cbn [map_err]; [|done].
  change (wp (match inventory_items resource document with
    | Ok items => if any (inventory_blocks resource) items
        then Ret (Err (Configuration (mr_kind resource +:+ " resources block configuration activation")))
        else require_resources rest
    | Err e => Ret (Err e) end) h0 reads_only (λ h' r,
    r = Ok tt → ∀ r', r' ∈ resource :: rest → clean_resource h' r')).
  destruct (inventory_items resource document) as [items|e] eqn:Hi; [|done].
  destruct (any _ items) eqn:Hb; [done|].
  eapply wp_post; [apply wp_extends, IH|]. cbn beta. intros h' r [Hr (g & ->)] Hok r' [->|Hin]%elem_of_cons.
  - apply clean_resource_app. exists document, items. split_and!; [in_history|done|]. by apply any_false.
  - by apply Hr.
Qed.

Lemma wp_require_clean_inventory h :
  wp require_clean_inventory h reads_only (λ h' r, r = Ok tt → clean h').
Proof.
  unfold require_clean_inventory. request; [done|].
  destruct reply as [[|t ts]|e]; cbn [map_err]; [|done|done].
  apply wp_bind. eapply wp_post; [apply wp_extends, wp_require_resources|]. cbn beta.
  intros h1 [[]|e] [Hr (g & Eg)]; [|done]. specialize (Hr eq_refl).
  request; [done|]. destruct reply as [cs|e]; cbn [map_err]; [|done].
  destruct (any container_blocks cs) eqn:Hc; [done|].
  request; [done|]. destruct reply as [vs|e]; cbn [map_err]; [|done].
  destruct (any volume_blocks vs) eqn:Hv; [done|]. intros _. split.
  - in_history.
  - intros r Hin. subst h3 h2. do 2 apply clean_resource_app. by apply Hr.
  - exists cs. split; [in_history|by apply any_false].
  - exists vs. split; [in_history|by apply any_false].
Qed.

Lemma consumed_ticket_app h g ticket used t :
  consumed_ticket h ticket used t → consumed_ticket (h ++ g) ticket used t.
Proof. intros [H|[H1 H2]]; [by left|right; split; [done|by apply answered_app_l]]. Qed.

Lemma state_written_app h g state : state_written h state → state_written (h ++ g) state.
Proof. intros (s & [H|H]); exists s; [left|right]; by apply answered_app_l. Qed.

Lemma wp_delete_ticket state ticket used t h :
  creation_valid = true → clean h → ticketed h state ticket used → consumed_ticket h ticket used t →
  state_written h state →
  wp (pure! u <- ok_or (uid (cm_meta t)) (Configuration "activation ticket has no UID") ;;
      pure! rv <- ok_or (resource_version (cm_meta t))
                    (Configuration "activation ticket has no resourceVersion") ;;
      perform_map Kube (perform (DeleteConfigMap ACTIVATION_NAMESPACE TICKET_NAME {|
        precondition_uid := Some u; precondition_resource_version := Some rv; background := false |})))
    h admit_request admit_reply.
Proof.
  intros Hcv Hc Ht Hu Hw. destruct (uid (cm_meta t)) as [u|] eqn:Eu; [|done].
  destruct (resource_version (cm_meta t)) as [rv|] eqn:Er; [|done]. cbn [ok_or].
  unfold perform_map. request.
  - intros _. split_and!; [done..|]. exists state, ticket, used. split_and!; [done..|]. by exists t, u, rv.
  - destruct reply as [[]|e]; [|done]. intros _. exists state. subst h0.
    split_and!; [by apply answered_app_l; destruct Ht|by destruct Ht|right].
    split; [by apply clean_app|by apply state_written_app].
Qed.

Lemma wp_record_configuration state ticket used t h :
  creation_valid = true → clean h → ticketed h state ticket used → consumed_ticket h ticket used t →
  wp (record_configuration state t configuration_hash) h admit_request admit_reply.
Proof.
  intros Hcv Hc Ht Hu. unfold record_configuration. destruct state as [s|]; request.
  1,3: intros _; split_and!; [done..|]; eexists _, ticket, used; split_and!; [done..|]; naive_solver.
  all: destruct reply as [s'|e]; cbn [map_err]; [|done]; subst h0.
  all: eapply wp_delete_ticket; eauto using clean_app, ticketed_app, consumed_ticket_app.
  all: exists s'; first [left; apply answered_last | right; apply answered_last].
Qed.

Lemma reads_only_admit h o : reads_only h o → admit_request h o.
Proof. unfold reads_only, admit_request. by intros ->. Qed.

Lemma wp_admit h :
  wp (admit_activation now configuration_hash activation_token creation_valid) h admit_request admit_reply.
Proof.
  unfold admit_activation. request; [done|]. destruct reply as [state|e]; cbn [map_err]; [|done].
  destruct (data_of state "rollbackToken") eqn:Hr; cbn [is_some]; [done|].
  destruct (data_of state "configurationHash" == Some configuration_hash) eqn:Hh.
  { intros _. exists state. split_and!; [in_history|done|left]. by apply bool_decide_eq_true in Hh. }
  destruct creation_valid eqn:Hcv; cbn [negb]; [|done].
  request; [done|]. destruct reply as [[ticket|]|e]; cbn [map_err ok_or]; [|done|done].
  destruct (validate_ticket _ _ _ _ _) as [used|e] eqn:Hv; [|done].
  assert (Ht : ticketed h1 state ticket used) by (split; [in_history|done|in_history|done]). clear Eh Eh0.
  apply wp_bind. eapply wp_post.
  { eapply wp_mono; [exact reads_only_admit|intros ?? H; exact H|].
    apply wp_extends, wp_require_clean_inventory. }
  cbn beta. intros h2 [[]|e] [Hc (g & ->)]; [|done].
  specialize (Hc eq_refl). apply (ticketed_app _ g) in Ht. destruct used.
  { eapply wp_record_configuration; [done..|by left]. }
  request.
  - intros _. split_and!; [done..|]. exists state, ticket, false. naive_solver.
  - destruct reply as [t|e]; cbn [map_err]; [|done]. subst h2.
    eapply wp_record_configuration; eauto using clean_app, ticketed_app.
    right. split; [done|apply answered_last].
Qed.
(** C35. Activating a changed configuration is guarded. The controller changes the cluster only when the
    configuration may create Tenants, when a ticket valid for exactly this configuration, token and recorded
    state was read, and when the whole inventory holds no Tenant resource, container or
    volume. It marks the ticket consumed before it records the configuration, records exactly the new hash
    on the version of the state it read, and deletes only that consumed ticket, and only after the record
    was stored. It reports success only if the configuration was already recorded or was stored by this run;
    during a rollback it never does. *)
Theorem activation_guarded env :
  let '(h, r) := run env (admit_activation now configuration_hash activation_token creation_valid) [] in
  admit_reply h r ∧ issued admit_request [] h.
Proof. apply wp_run, wp_admit. Qed.
End Safety.
