(* ===== verification/Requests.v ===== *)
(** * Requests of the programs

    Which requests the programs of the Tenant controller send, whatever the
    replies: the catalog protocol, the Lease protocol, the observation of a
    teardown and the creation of a local Tenant.  [Permissions] shows that these
    requests are granted, [LocalTenantSafety] that they leave the catalog
    alone. *)

From S2P Require Import Prelude RustStd Externals Kube Errors Api Management Ownership Foundation Docker.
From S2P Require Import Effects Ops Allocation ReconcileErrors Readiness Status AllocationRun Finalize Catalog.

#[local] Arguments within : simpl never.
#[local] Arguments wp : simpl never.
#[local] Arguments bind : simpl never.
#[local] Arguments perform_map : simpl never.

Lemma within_mono {Op} {Resp : Op → Type} {A} (P Q : Op → Prop) (p : prog Resp A) :
  (∀ o, P o → Q o) → within P p → within Q p.
Proof. intros HPQ Hp h. eapply wp_mono; [|done|apply Hp]. intros h' o. apply HPQ. Qed.

(** ** The catalog protocol *)

(** Requests on Tenants, namespaces, catalogs and credentials. *)
Definition catalog_op (o : Op) : bool :=
  match o with
  | GetTenant _ | GetTenantOpt _ | PatchTenantStatus _ _ | PatchTenantFinalizers _ _
  | GetNamespace _ | ReadNamespace _ | CreateNamespace _ | DeleteNamespace _ _
  | GetCatalog _ _ | ReadCatalog _ _ | CreateCatalog _ _ | PatchCatalog _ _ _ | DeleteCatalog _ _ _
  | GetRole _ _ | ReadRole _ _ | CreateRole _ _ | DeleteRole _ _ _
  | GetRoleBinding _ _ | ReadRoleBinding _ _ | CreateRoleBinding _ _ | DeleteRoleBinding _ _ _ => true
  | _ => false
  end.

Definition is_disk_list (o : Op) : bool := match o with ListDisks _ => true | _ => false end.

Section CatalogRequests.
Context (P : Op → Prop) (HP : ∀ o, catalog_op o = true → P o).

#[local] Hint Extern 1 (P _) => (apply HP; reflexivity) : permits.

Lemma within_mutate_status retries original current mutate clear :
  within P (mutate_status retries original current mutate clear).
Proof.
  revert current. induction retries as [|retries IH]; intros current; cbn [mutate_status]; unfold patch_status; walk;
    apply IH.
Qed.

Lemma within_update_status tenant mutate : within P (update_status tenant mutate).
Proof. unfold update_status. walk. apply within_mutate_status. Qed.
#[local] Hint Resolve within_update_status : permits.

Lemma within_ensure_namespace nm u expected : within P (ensure_namespace nm u expected).
Proof. unfold ensure_namespace. walk. Qed.
Lemma within_observe_namespace nm u expected : within P (observe_namespace nm u expected).
Proof. unfold observe_namespace. walk. Qed.
Lemma within_delete_namespace nm u recorded : within P (delete_namespace nm u recorded).
Proof. unfold delete_namespace. walk. Qed.
#[local] Hint Resolve within_ensure_namespace within_observe_namespace within_delete_namespace : permits.

Lemma within_ensure_catalog nm u e1 e2 e3 azure : within P (ensure_catalog nm u e1 e2 e3 azure).
Proof. unfold ensure_catalog, ensure_storage, find_or_create. walk. Qed.
Lemma within_observe_catalog nm u expected : within P (observe_catalog nm u expected).
Proof. unfold observe_catalog, observe_storage, storage_expected. walk. Qed.
Lemma within_ensure_credentials nm u : within P (ensure_credentials nm u).
Proof. unfold ensure_credentials, ensure_role, ensure_binding. walk. Qed.
#[local] Hint Resolve within_ensure_catalog within_observe_catalog within_ensure_credentials : permits.

Context `{SJ : Sanitize.SerdeJson}.

Lemma within_close_creation clock tenant : within P (close_catalog_creation_without_intent clock tenant).
Proof. unfold close_catalog_creation_without_intent. walk. Qed.
Lemma within_record_intent clock tenant intent : within P (record_catalog_create_intent clock tenant intent).
Proof. unfold record_catalog_create_intent. walk. Qed.
Lemma within_set_outcome clock tenant intent from to :
  within P (set_catalog_create_outcome clock tenant intent from to).
Proof. unfold set_catalog_create_outcome. walk. Qed.
#[local] Hint Resolve within_close_creation within_record_intent within_set_outcome : permits.

Lemma within_ensure_database_catalog clocks tenant azure :
  within P (ensure_database_catalog clocks tenant azure).
Proof.
  unfold ensure_database_catalog, announce_create, issue_create, observe_namespaces, prepare_namespaces,
    prepare_storage, prepare_namespace, catalog_observed, record_catalog_identity,
    record_catalog_namespaces, get_tenant, runtime, catalog_call.
  walk.
Qed.

Context (Hdisks : ∀ ns, P (ListDisks ns)).
#[local] Hint Resolve Hdisks : permits.

Lemma within_drain_catalog nm u recorded : within P (drain_catalog nm u recorded).
Proof.
  unfold drain_catalog, drain_existing, drain_unrecorded, drain_catalog_without_catalog, drain_storage,
    namespace_remains. walk.
Qed.
#[local] Hint Resolve within_drain_catalog : permits.

Lemma within_drain_databases clocks tenant : within P (drain_databases clocks tenant).
Proof. unfold drain_databases, drain_recorded, record_catalog_identity, runtime, catalog_call, get_tenant. walk. Qed.
End CatalogRequests.

(** ** Leases *)
Section LeaseRequests.
Context `{SO : Sha256Ops, NO : Ipv4NetOps}.
Context (P : Op → Prop) (ns : string).
Context (Hlist : P (ListLeases ns)) (Hget : ∀ nm, P (GetLease ns nm))
  (Hcreate : ∀ l, P (CreateLease ns l)) (Hdelete : ∀ nm params, P (DeleteLease ns nm params)).

Lemma within_release cx bound residue_absent :
  cx_namespace cx = ns → within P (release cx bound residue_absent).
Proof. intros <-. unfold release. walk; auto. Qed.

Lemma within_allocate_loop attempts cx bound : cx_namespace cx = ns → within P (allocate_loop attempts cx bound).
Proof.
  intros <-. induction attempts as [|attempts IH]; cbn [allocate_loop];
    unfold confirm_created, check_conflict; walk; auto.
Qed.

Lemma within_allocate cx bound : cx_namespace cx = ns → within P (allocate cx bound).
Proof. intros. unfold allocate. walk. by apply within_allocate_loop. Qed.
End LeaseRequests.

(** ** The observation of a teardown *)
Definition finalize_read (o : Op) : bool :=
  match o with
  | GetTenantOpt _ | GetNamespace _ | GetSecret _ _ | ListContainers | InspectVolume _ => true
  | ListLeases ns => ns == FOUNDATION_NAMESPACE
  | GetDynamic k _ _ => bool_decide (k ∈ roots)
  | ListDynamic k _ => bool_decide (k ∈ descendant_kinds)
  | _ => false
  end.

Section FinalizeReads.
Context `{SO : Sha256Ops, NO : Ipv4NetOps, SP : SpecJson}.
Context (P : Op → Prop) (HP : ∀ o, finalize_read o = true → P o).

#[local] Hint Extern 1 (P _) => (apply HP; reflexivity) : permits.

Lemma within_observe_roots tenant td kinds :
  (∀ k, k ∈ kinds → k ∈ roots) → within P (observe_roots tenant td kinds).
Proof.
  induction kinds as [|k kinds IH]; intros Hk; cbn [observe_roots]; [apply within_ret|].
  assert (within P (observe_roots tenant td kinds)) by (apply IH; intros; apply Hk, elem_of_cons; by right).
  unfold dynamic_get. walk. apply HP, bool_decide_eq_true, Hk, elem_of_cons. by left.
Qed.

Lemma within_observe_descendants td kinds :
  (∀ k, k ∈ kinds → k ∈ descendant_kinds) → within P (observe_descendants td kinds).
Proof.
  induction kinds as [|k kinds IH]; intros Hk; cbn [observe_descendants]; [apply within_ret|].
  assert (within P (observe_descendants td kinds)) by (apply IH; intros; apply Hk, elem_of_cons; by right).
  unfold dynamic_list. walk. apply HP, bool_decide_eq_true, Hk, elem_of_cons. by left.
Qed.

Lemma within_observe tenant td : within P (observe tenant td).
Proof.
  unfold observe. walk; [by apply within_observe_roots|by apply within_observe_descendants].
Qed.
End FinalizeReads.
