(* ===== verification/Manifests.v ===== *)
(** * Objects of a local Tenant

    [controller/src/resources/]: the objects the controller wants in the
    management cluster and in the hosted cluster of a local Tenant, the
    commands that prepare its workers, and the marking of the staged manifests.
    YAML, the serialisation of objects and the parsing of networks are
    parameters. *)

From S2P Require Import Prelude RustStd Externals Kube Errors Api Management Ownership Foundation Docker.
From S2P Require Import Allocation ReconcileErrors Sanitize Readiness.

Open Scope Z_scope.

(** ** [serde_yaml] and [serde_json] on objects *)
Class ManifestCodec := {
  yaml_documents : string → list (result string Value);
  object_to_value : DynamicObject → result string Value;
  object_from_value : Value → result string DynamicObject;
}.

(** ** [ipnet] on either family *)
Inductive IpAddr := IpV4 (address : Z) | IpV6 (address : Z).

Class IpNetOps := {
  IpNet : Type;
  parse_ip_net : string → result string IpNet;
  ip_network : IpNet → IpAddr;
  ip_contains : IpNet → IpAddr → bool;
  ip_to_string : IpAddr → string;
}.

(** A network is an interval of addresses of its family, its first address
    included; addresses have 32 or 128 bits. *)
Class IpNetLaws (I : IpNetOps) : Prop := {
  ip_network_in n : ip_contains n (ip_network n) = true;
  ip_network_range n : match ip_network n with
    | IpV4 a => 0 ≤ a < 2 ^ 32
    | IpV6 a => 0 ≤ a < 2 ^ 128
    end;
  ip_contains_range n a : ip_contains n a = true → match a with
    | IpV4 a => 0 ≤ a < 2 ^ 32
    | IpV6 a => 0 ≤ a < 2 ^ 128
    end;
}.

(** ** [resources/mod.rs] *)
Record ResourceContext := {
  rc_tenant : Tenant;
  rc_spec : TenantSpec;
  rc_spec_hash : string;
  rc_foundation_hash : string;
  rc_endpoint : string;
  rc_pod_cidr : string;
  rc_service_cidr : string;
  rc_volume_path : string;
  rc_worker_bootstrap_commands : list string;
  rc_inputs : FoundationInputs;
}.

Definition rc_name (cx : ResourceContext) : string := unwrap_or "" (name (tenant_meta (rc_tenant cx))).

Definition rc_identity (cx : ResourceContext) : Identity := {|
  id_tenant_name := rc_name cx;
  id_tenant_uid := unwrap_or "" (uid (tenant_meta (rc_tenant cx)));
  id_spec_hash := rc_spec_hash cx;
  id_foundation_hash := rc_foundation_hash cx;
  id_ownership_label := fi_ownership_label (rc_inputs cx);
  id_lab_prefix := fi_lab_prefix (rc_inputs cx) |}.

Definition rc_metadata (cx : ResourceContext) (nm ns resource : string) : ObjectMeta := {|
  name := Some nm;
  namespace := if is_empty ns then None else Some ns;
  uid := None; resource_version := None; generation := None;
  labels := Some (identity_labels (rc_identity cx));
  annotations := Some (identity_annotations (rc_identity cx) resource);
  owner_references := None; finalizers := None; deletion_timestamp := None |}.

Definition is_null (v : Value) : bool := match v with VNull => true | _ => false end.

Definition rc_object (cx : ResourceContext) (api_version kind nm ns resource : string) (spec : Value)
    : DynamicObject := {|
  dyn_types := Some {| tm_api_version := api_version; tm_kind := kind |};
  dyn_meta := rc_metadata cx nm ns resource;
  dyn_data := if is_null spec then VObject [] else VObject [("spec", spec)] |}.

(** The entry of a kind; every kind used below is catalogued and has a name,
    see [LocalTenantSafety.catalogued_root]. *)
Definition catalogued (kind : string) : ManagementResource :=
  unwrap_or (root "" kind "" "" None NameTenant) (find_first (λ r, mr_kind r == kind) MANAGEMENT_RESOURCES).
Definition catalogued_name (kind tenant : string) : string := unwrap_or "" (expected_name (catalogued kind) tenant).

Definition management_object (cx : ResourceContext) (kind : string) (spec : Value) : DynamicObject :=
  let resource := catalogued kind in
  rc_object cx (mr_api_version resource) (mr_kind resource) (catalogued_name kind (rc_name cx)) (rc_name cx)
    (mr_role resource) spec.

Definition management_ref (cx : ResourceContext) (kind : string) : Value :=
  let resource := catalogued kind in
  VObject [("apiGroup", VString (group_version (mr_api_version resource)).1);
           ("kind", VString (mr_kind resource));
           ("name", VString (catalogued_name kind (rc_name cx)))].

Definition dns_service_ip `{IpNetOps} (cidr : string) : result BuildError string :=
  let! net := map_err BuildServiceCidr (parse_ip_net cidr) in
  let! address := ok_or (match ip_network net with
    | IpV4 ip => if ip + 10 <? 2 ^ 32 then Some (IpV4 (ip + 10)) else None
    | IpV6 ip => if ip + 10 <? 2 ^ 128 then Some (IpV6 (ip + 10)) else None
    end) BuildDnsAddress in
  if negb (ip_contains net address) then Err BuildDnsAddress else Ok (ip_to_string address).

Definition endpoint (value : string) : result BuildError (string * Z) :=
  let! (host, port) := ok_or (match strip_prefix value "[" with
    | Some rest => split_once_str rest "]:"
    | None => opt_filter (λ parts, negb (contains_char parts.2 ":"%char)) (split_once value ":"%char)
    end) (BuildEndpoint "expected host:port") in
  let! port := map_err BuildEndpoint (parse_i32 port) in
  if is_empty host || negb ((1 <=? port) && (port <=? 65535)) || has_whitespace host
  then Err (BuildEndpoint "invalid host or port") else Ok (host, port).

Definition split_image (reference : string) : result BuildError (string * string) :=
  let! (tagged, digest) := ok_or (rsplit_once reference "@"%char) BuildImageReference in
  let! (repository, tag) := ok_or (rsplit_once tagged ":"%char) BuildImageReference in
  if is_empty repository || is_empty tag || contains_char tag "/"%char || is_empty digest
  then Err BuildImageReference else Ok (repository, tag +:+ "@" +:+ digest).

(** ** [resources/controlplane.rs] *)
Definition tenant_namespace (cx : ResourceContext) : Namespace := {|
  ns_meta := rc_metadata cx (rc_name cx) "" "namespace" |}.

Definition endpoint_value (host : string) (port : Z) : Value :=
  VObject [("host", VString host); ("port", VNumber port)].

Definition with_labels (m : ObjectMeta) (l : option (gmap string string)) : ObjectMeta := {|
  name := name m; namespace := namespace m; uid := uid m; resource_version := resource_version m;
  generation := generation m; labels := l; annotations := annotations m;
  owner_references := owner_references m; finalizers := finalizers m; deletion_timestamp := deletion_timestamp m |}.
Definition with_annotations (m : ObjectMeta) (a : option (gmap string string)) : ObjectMeta := {|
  name := name m; namespace := namespace m; uid := uid m; resource_version := resource_version m;
  generation := generation m; labels := labels m; annotations := a;
  owner_references := owner_references m; finalizers := finalizers m; deletion_timestamp := deletion_timestamp m |}.

Definition with_meta (o : DynamicObject) (m : ObjectMeta) : DynamicObject := {|
  dyn_types := dyn_types o; dyn_meta := m; dyn_data := dyn_data o |}.
Definition with_data (o : DynamicObject) (v : Value) : DynamicObject := {|
  dyn_types := dyn_types o; dyn_meta := dyn_meta o; dyn_data := v |}.

Definition cluster (cx : ResourceContext) : result BuildError DynamicObject :=
  let! (host, port) := endpoint (rc_endpoint cx) in
  let object := management_object cx "Cluster" (VObject [
    ("controlPlaneEndpoint", endpoint_value host port);
    ("clusterNetwork", VObject [
      ("apiServerPort", VNumber port);
      ("services", VObject [("cidrBlocks", VArray [VString (rc_service_cidr cx)])]);
      ("pods", VObject [("cidrBlocks", VArray [VString (rc_pod_cidr cx)])]);
      ("serviceDomain", VString (fi_cluster_domain (rc_inputs cx)))]);
    ("infrastructureRef", management_ref cx "DevCluster");
    ("controlPlaneRef", management_ref cx "KamajiControlPlane")]) in
  Ok (with_meta object (with_labels (dyn_meta object)
    (Some (<["cnpg-vcluster.capi/addons" := rc_name cx]> (unwrap_or ∅ (labels (dyn_meta object))))))).

Definition dev_cluster (cx : ResourceContext) : result BuildError DynamicObject :=
  let! (host, port) := endpoint (rc_endpoint cx) in
  Ok (management_object cx "DevCluster" (VObject [
    ("controlPlaneEndpoint", endpoint_value host port);
    ("backend", VObject [("docker", VObject [("loadBalancer", VObject [])])])])).

Definition toleration (key : string) (effect : option string) : Value :=
  VObject ([("key", VString key); ("operator", VString "Exists")]
           ++ match effect with Some e => [("effect", VString e)] | None => [] end).

Definition kamaji_control_plane `{IpNetOps} (cx : ResourceContext) : result BuildError DynamicObject :=
  let! (host, _) := endpoint (rc_endpoint cx) in
  let! dns := dns_service_ip (rc_service_cidr cx) in
  let! (server, server_version) := split_image (fi_konnectivity_server_image (rc_inputs cx)) in
  let! (agent, agent_version) := split_image (fi_konnectivity_agent_image (rc_inputs cx)) in
  Ok (management_object cx "KamajiControlPlane" (VObject [
    ("version", VString ("v" +:+ kubernetes_version (rc_spec cx))); ("replicas", VNumber 1);
    ("dataStoreName", VString "default");
    ("network", VObject [
      ("serviceType", VString "LoadBalancer"); ("serviceAddress", VString host);
      ("serviceAnnotations", VObject [("metallb.io/loadBalancerIPs", VString host)]);
      ("certSANs", VArray [VString host; VString (rc_name cx)]);
      ("dnsServiceIPs", VArray [VString dns])]);
    ("addons", VObject [
      ("coreDNS", VObject [("dnsServiceIPs", VArray [VString dns])]);
      ("konnectivity", VObject [
        ("server", VObject [("image", VString server); ("version", VString server_version); ("port", VNumber 8132)]);
        ("agent", VObject [
          ("image", VString agent); ("version", VString agent_version); ("mode", VString "DaemonSet");
          ("hostNetwork", VBool true);
          ("tolerations", VArray [
            toleration "CriticalAddonsOnly" None;
            toleration "node.kubernetes.io/not-ready" (Some "NoSchedule");
            toleration "node.kubernetes.io/not-ready" (Some "NoExecute")])])])])])).

(** ** [resources/workers.rs] *)
Definition kubeadm_config_template (cx : ResourceContext) : DynamicObject :=
  management_object cx "KubeadmConfigTemplate" (VObject [
    ("template", VObject [("spec", VObject (
      [("joinConfiguration", VObject [("nodeRegistration", VObject [("kubeletExtraArgs", VArray [VObject [
          ("name", VString "eviction-hard");
          ("value", VString "nodefs.available<0%,nodefs.inodesFree<0%,imagefs.available<0%")]])])])]
      ++ match rc_worker_bootstrap_commands cx with
         | [] => []
         | commands => [("preKubeadmCommands", VArray (map VString commands))]
         end))])]).

Definition mount (host container : string) (read_only : bool) : Value :=
  VObject [("hostPath", VString host); ("containerPath", VString container); ("readOnly", VBool read_only)].

Definition dev_machine_template (cx : ResourceContext) : DynamicObject :=
  management_object cx "DevMachineTemplate" (VObject [
    ("template", VObject [("spec", VObject [("backend", VObject [("docker", VObject [
      ("customImage", VString (fi_node_image (rc_inputs cx))); ("bootstrapTimeout", VString "5m");
      ("extraMounts", VArray [
        mount (fi_cache_host_path (rc_inputs cx)) (fi_cache_container_path (rc_inputs cx)) true;
        mount (rc_volume_path cx) (fi_storage_container_path (rc_inputs cx)) false])])])])])]).

Definition machine_deployment (cx : ResourceContext) : DynamicObject :=
  let lbls := <["cnpg-vcluster.capi/nodepool" := "worker"]>
    (<["cluster.x-k8s.io/cluster-name" := rc_name cx]> (identity_labels (rc_identity cx))) in
  management_object cx "MachineDeployment" (VObject [
    ("clusterName", VString (rc_name cx)); ("replicas", VNumber (workers (rc_spec cx)));
    ("machineNaming", VObject [("template", VString "{{ .cluster.name }}-worker-{{ .random }}")]);
    ("selector", VObject [("matchLabels", VObject [
      ("cluster.x-k8s.io/cluster-name", VString (rc_name cx));
      ("cnpg-vcluster.capi/nodepool", VString "worker")])]);
    ("template", VObject [
      ("metadata", VObject [("labels", json_labels lbls);
                            ("annotations", json_labels (identity_annotations (rc_identity cx) "machine"))]);
      ("spec", VObject [
        ("clusterName", VString (rc_name cx));
        ("version", VString ("v" +:+ kubernetes_version (rc_spec cx)));
        ("bootstrap", VObject [("configRef", management_ref cx "KubeadmConfigTemplate")]);
        ("infrastructureRef", management_ref cx "DevMachineTemplate")])])]).

Definition storage_volume_name (cx : ResourceContext) : string :=
  fi_lab_prefix (rc_inputs cx) +:+ "-" +:+ rc_name cx +:+ "-storage".

Definition storage_volume_labels (cx : ResourceContext) : gmap string string :=
  fold_left (λ lbls '(key, value), <[key := value]> lbls) [
    ("cnpg-vcluster.capi/role", "tenant-storage");
    ("cnpg-vcluster.capi/tenant", rc_name cx);
    (TENANT_UID_ANNOTATION, id_tenant_uid (rc_identity cx));
    (SPEC_HASH_ANNOTATION, rc_spec_hash cx);
    (FOUNDATION_ANNOTATION, rc_foundation_hash cx)] (identity_labels (rc_identity cx)).
