(* ===== verification/Bundles.v ===== *)
(** * Bundles of the hosted cluster

    [controller/src/resources/manifest.rs], [network.rs], [cnpg.rs] and
    [access.rs]: the staged manifests with exact images and ownership marks,
    the objects that connect a local Tenant's network, and the roles kubeadm
    needs to join workers. *)

From stdpp Require Import sorting.
From S2P Require Import Prelude RustStd Externals Kube Errors Api Management Ownership Foundation Docker.
From S2P Require Import Allocation ReconcileErrors Sanitize Readiness Manifests.

Open Scope Z_scope.

(** ** [resources/manifest.rs] *)

(** How often each string was replaced. *)
Notation Counts := (gmap string nat).

Section Codec.
Context `{MC : ManifestCodec}.

Definition decode_object (value : Value) : result BuildError DynamicObject :=
  let! object := map_err BuildJson (object_from_value value) in
  if is_none_or (λ types, is_empty (tm_api_version types) || is_empty (tm_kind types)) (dyn_types object)
     || is_none_or is_empty (name (dyn_meta object))
  then Err (BuildManifest "manifest object requires apiVersion, kind, and metadata.name") else Ok object.

(** The objects of one document. *)
Definition decode_document (raw : Value) : result BuildError (list DynamicObject) :=
  if is_null raw || match raw with VObject [] => true | _ => false end then Ok [] else
  if and_then as_str (json_get raw "kind") == Some "List" then
    match json_get raw "items" with
    | Some (VArray items) => try_map decode_object items
    | None | Some VNull => Ok []
    | Some _ => Err (BuildManifest "manifest List items must be an array")
    end
  else let! object := decode_object raw in Ok [object].

Definition decode_manifest (content : string) : result BuildError (list DynamicObject) :=
  try_fold (λ objects document,
    let! raw := map_err BuildYaml document in
    let! decoded := decode_document raw in
    Ok (objects ++ decoded)) [] (yaml_documents content).

(** [get_or_insert_default().extend(..)] on labels and annotations. *)
Definition mark_tenant_object (cx : ResourceContext) (object : DynamicObject) (resource : string) : DynamicObject :=
  let m := dyn_meta object in
  with_meta object (with_annotations (with_labels m
      (Some (identity_labels (rc_identity cx) ∪ unwrap_or ∅ (labels m))))
    (Some (identity_annotations (rc_identity cx) resource ∪ unwrap_or ∅ (annotations m)))).

Definition object_key (object : DynamicObject) : string :=
  let '(api, kind) := match dyn_types object with
    | Some types => (tm_api_version types, tm_kind types)
    | None => ("", "")
    end in
  api +:+ "/" +:+ kind +:+ "/" +:+ unwrap_or "" (namespace (dyn_meta object))
  +:+ "/" +:+ unwrap_or "" (name (dyn_meta object)).

Definition sort_objects (objects : list DynamicObject) : list DynamicObject :=
  sort_by (λ a b, String.leb (object_key a) (object_key b)) objects.

Fixpoint replace_strings (replacements : gmap string string) (value : Value) (counts : Counts) : Value * Counts :=
  match value with
  | VString text =>
      match replacements !! text with
      | Some replacement => (VString replacement, <[text := S (unwrap_or 0%nat (counts !! text))]> counts)
      | None => (value, counts)
      end
  | VArray values =>
      let '(values, counts) :=
        (fix go (l : list Value) (counts : Counts) : list Value * Counts :=
           match l with
           | [] => ([], counts)
           | item :: rest =>
               let '(item, counts) := replace_strings replacements item counts in
               let '(rest, counts) := go rest counts in (item :: rest, counts)
           end) values counts in
      (VArray values, counts)
  | VObject fields =>
      let '(fields, counts) :=
        (fix go (l : list (string * Value)) (counts : Counts) : list (string * Value) * Counts :=
           match l with
           | [] => ([], counts)
           | (key, item) :: rest =>
               let '(item, counts) := replace_strings replacements item counts in
               let '(rest, counts) := go rest counts in ((key, item) :: rest, counts)
           end) fields counts in
      (VObject fields, counts)
  | _ => (value, counts)
  end.

Definition replace_object_strings (replacements : gmap string string) (object : DynamicObject) (counts : Counts)
    : result BuildError (DynamicObject * Counts) :=
  let! value := map_err BuildJson (object_to_value object) in
  let '(value, counts) := replace_strings replacements value counts in
  let! object := map_err BuildJson (object_from_value value) in
  Ok (object, counts).

(** The loop over the objects of a manifest: exact images, then [adjust], then
    the marks. *)
Definition prepare_object (cx : ResourceContext) (replacements : gmap string string) (resource : string)
    (adjust : DynamicObject → result BuildError DynamicObject) (state : list DynamicObject * Counts)
    (object : DynamicObject) : result BuildError (list DynamicObject * Counts) :=
  let! (object, counts) := replace_object_strings replacements object state.2 in
  let! object := adjust object in
  Ok (state.1 ++ [mark_tenant_object cx object resource], counts).

Definition prepare_objects (cx : ResourceContext) (replacements : gmap string string) (resource : string)
    (adjust : DynamicObject → result BuildError DynamicObject) (objects : list DynamicObject)
    : result BuildError (list DynamicObject * Counts) :=
  try_fold (prepare_object cx replacements resource adjust) ([], ∅) objects.

(** ** [resources/cnpg.rs] *)
Definition storage_class (cx : ResourceContext) (nm : string) : StorageClass := {|
  sc_meta := rc_metadata cx nm "" "storage";
  sc_provisioner := "kubernetes.io/no-provisioner";
  sc_reclaim_policy := Some "Retain";
  sc_volume_binding_mode := Some "Immediate";
  sc_allow_volume_expansion := None; sc_parameters := None; sc_mount_options := None;
  sc_allowed_topologies := None |}.

Definition cnpg_operator (cx : ResourceContext) (manifest tagged_image exact_image : string)
    : result BuildError (list DynamicObject) :=
  let! objects := decode_manifest manifest in
  let! (objects, counts) :=
    prepare_objects cx {[tagged_image := exact_image]} "cnpg-operator" Ok objects in
  if counts !! tagged_image != Some 2%nat
  then Err (BuildManifest "unexpected CNPG operator image count") else Ok objects.
End Codec.

(** ** Typed objects as dynamic ones *)
Class ToDynamic (A : Type) := { to_dynamic : A → result BuildError DynamicObject }.

Definition dynamic (api_version kind : string) (m : ObjectMeta) (fields : list (string * Value))
    : result BuildError DynamicObject :=
  Ok {| dyn_types := Some {| tm_api_version := api_version; tm_kind := kind |}; dyn_meta := m;
        dyn_data := VObject fields |}.

(** A field that is left out when it is [None]. *)
Definition optional {A} (key : string) (f : A → Value) (v : option A) : list (string * Value) :=
  match v with Some v => [(key, f v)] | None => [] end.

#[export] Instance namespace_dynamic : ToDynamic Namespace := {|
  to_dynamic n := dynamic "v1" "Namespace" (ns_meta n) [] |}.
#[export] Instance config_map_dynamic : ToDynamic ConfigMap := {|
  to_dynamic cm := dynamic "v1" "ConfigMap" (cm_meta cm) (optional "data" json_labels (cm_data cm)) |}.
#[export] Instance storage_class_dynamic : ToDynamic StorageClass := {|
  to_dynamic sc := dynamic "storage.k8s.io/v1" "StorageClass" (sc_meta sc) (
    optional "allowVolumeExpansion" VBool (sc_allow_volume_expansion sc)
    ++ optional "allowedTopologies" VArray (sc_allowed_topologies sc)
    ++ optional "mountOptions" (λ l, VArray (map VString l)) (sc_mount_options sc)
    ++ optional "parameters" json_labels (sc_parameters sc)
    ++ [("provisioner", VString (sc_provisioner sc))]
    ++ optional "reclaimPolicy" VString (sc_reclaim_policy sc)
    ++ optional "volumeBindingMode" VString (sc_volume_binding_mode sc)) |}.

Record ServiceAccount := { sa_meta : ObjectMeta }.
Record ClusterRoleBinding := {
  crb_meta : ObjectMeta;
  crb_role_ref : RoleRef;
  crb_subjects : option (list Subject);
}.
Record DaemonSet := { ds_meta : ObjectMeta; ds_spec : Value }.

Definition subject_value (s : Subject) : Value :=
  VObject (optional "apiGroup" VString (subject_api_group s)
           ++ [("kind", VString (subject_kind s)); ("name", VString (subject_name s))]
           ++ optional "namespace" VString (subject_namespace s)).
Definition role_ref_value (r : RoleRef) : Value :=
  VObject (optional "apiGroup" VString (ref_api_group r)
           ++ [("kind", VString (ref_kind r)); ("name", VString (ref_name r))]).

#[export] Instance service_account_dynamic : ToDynamic ServiceAccount := {|
  to_dynamic sa := dynamic "v1" "ServiceAccount" (sa_meta sa) [] |}.
#[export] Instance cluster_role_binding_dynamic : ToDynamic ClusterRoleBinding := {|
  to_dynamic b := dynamic "rbac.authorization.k8s.io/v1" "ClusterRoleBinding" (crb_meta b)
    ([("roleRef", role_ref_value (crb_role_ref b))]
     ++ optional "subjects" (λ l, VArray (map subject_value l)) (crb_subjects b)) |}.
#[export] Instance daemon_set_dynamic : ToDynamic DaemonSet := {|
  to_dynamic d := dynamic "apps/v1" "DaemonSet" (ds_meta d) [("spec", ds_spec d)] |}.

(** ** [resources/network.rs] *)
Record NetworkImages := {
  ni_calico_cni : string;
  ni_calico_cni_tagged : string;
  ni_calico_node : string;
  ni_calico_node_tagged : string;
  ni_calico_controllers : string;
  ni_calico_controllers_tagged : string;
  ni_kube_proxy : string;
}.

(** An update of the value that [pointer_mut] finds. *)
Fixpoint update_at (path : list string) (f : Value → result BuildError Value) (missing : BuildError) (v : Value)
    : result BuildError Value :=
  match path with
  | [] => f v
  | key :: path' =>
      let! inner := ok_or (json_get v key) missing in
      let! inner := update_at path' f missing inner in
      Ok (json_insert v key inner)
  end.

Definition POOL := "CALICO_IPV4POOL_CIDR".

(** The loop over the variables, and whether one was updated. *)
Definition set_pool (cidr : string) (env : list Value) : result BuildError (list Value * bool) :=
  try_fold (λ '(done, updated) entry,
    match entry with
    | VObject _ =>
        if and_then as_str (json_get entry "name") == Some POOL
        then Ok (done ++ [json_insert entry "value" (VString cidr)], true)
        else Ok (done ++ [entry], updated)
    | _ => Err (BuildManifest "calico-node env entry must be an object")
    end) ([], false) env.

Definition set_container_pool (cidr : string) (container : Value) : result BuildError Value :=
  let! env := ok_or (as_array (unwrap_or (VArray []) (json_get container "env")))
                (BuildManifest "calico-node env must be an array") in
  let! (env, updated) := set_pool cidr env in
  let env := if updated then env else env ++ [VObject [("name", VString POOL); ("value", VString cidr)]] in
  Ok (json_insert container "env" (VArray env)).

Definition is_calico_node (v : Value) : bool := and_then as_str (json_get v "name") == Some "calico-node".

(** The first container of the name is updated in place. *)
Fixpoint update_container (cidr : string) (containers : list Value) : result BuildError (list Value) :=
  match containers with
  | [] => Err (BuildManifest "calico-node container is missing")
  | container :: rest =>
      if is_calico_node container
      then let! container := set_container_pool cidr container in Ok (container :: rest)
      else let! rest := update_container cidr rest in Ok (container :: rest)
  end.

Definition set_calico_pool (object : DynamicObject) (cidr : string) : result BuildError DynamicObject :=
  let missing := BuildManifest "calico-node containers are missing" in
  let! data := update_at ["spec"; "template"; "spec"; "containers"]
    (λ containers, let! l := ok_or (as_array containers) missing in
                   let! l := update_container cidr l in Ok (VArray l)) missing (dyn_data object) in
  Ok (with_data object data).

Definition endpoint_config_map (cx : ResourceContext) : result BuildError ConfigMap :=
  let! (host, _) := endpoint (rc_endpoint cx) in
  Ok {| cm_meta := rc_metadata cx "kubernetes-services-endpoint" "kube-system" "network-endpoint";
        cm_data := Some (collect_map [
          ("KUBERNETES_SERVICE_HOST", host);
          ("KUBERNETES_SERVICE_PORT", int_to_string (fi_api_port (rc_inputs cx)));
          ("KUBERNETES_SERVICE_PORT_HTTPS", int_to_string (fi_api_port (rc_inputs cx)))]) |}.

Definition text (l : list string) : string := join (String LF "") l +:+ String LF "".

Definition kube_proxy_config_map (cx : ResourceContext) : ConfigMap := {|
  cm_meta := rc_metadata cx "capi-kube-proxy" "kube-system" "kube-proxy";
  cm_data := Some (collect_map [
    ("config.conf", text ["apiVersion: kubeproxy.config.k8s.io/v1alpha1"; "kind: KubeProxyConfiguration";
       "bindAddress: 0.0.0.0"; "clientConnection:"; "  kubeconfig: /var/lib/kube-proxy/kubeconfig.conf";
       "clusterCIDR: " +:+ rc_pod_cidr cx; "conntrack:"; "  maxPerCore: 0"; "  min: 0"; "mode: iptables"]);
    ("kubeconfig.conf", text ["apiVersion: v1"; "kind: Config"; "clusters:"; "- cluster:";
       "    certificate-authority: /var/run/secrets/kubernetes.io/serviceaccount/ca.crt";
       "    server: https://" +:+ rc_endpoint cx; "  name: default"; "contexts:"; "- context:";
       "    cluster: default"; "    namespace: default"; "    user: default"; "  name: default";
       "current-context: default"; "users:"; "- name: default"; "  user:";
       "    tokenFile: /var/run/secrets/kubernetes.io/serviceaccount/token"])]) |}.

Definition volume_mount (nm path : string) (read_only : bool) : Value :=
  VObject ([("name", VString nm); ("mountPath", VString path)]
           ++ if read_only then [("readOnly", VBool true)] else []).
Definition host_volume (nm path type : string) : Value :=
  VObject [("name", VString nm); ("hostPath", VObject [("path", VString path); ("type", VString type)])].

Definition kube_proxy_daemon_set (cx : ResourceContext) (image : string) : DaemonSet := {|
  ds_meta := rc_metadata cx "capi-kube-proxy" "kube-system" "kube-proxy";
  ds_spec := VObject [
    ("selector", VObject [("matchLabels", VObject [("k8s-app", VString "capi-kube-proxy")])]);
    ("template", VObject [
      ("metadata", VObject [("labels", VObject [("k8s-app", VString "capi-kube-proxy")])]);
      ("spec", VObject [
        ("priorityClassName", VString "system-node-critical"); ("serviceAccountName", VString "capi-kube-proxy");
        ("hostNetwork", VBool true);
        ("tolerations", VArray [VObject [("operator", VString "Exists")]]);
        ("containers", VArray [VObject [
          ("name", VString "kube-proxy"); ("image", VString image);
          ("command", VArray [VString "/usr/local/bin/kube-proxy";
             VString "--config=/var/lib/kube-proxy/config.conf"; VString "--v=2"]);
          ("securityContext", VObject [("privileged", VBool true)]);
          ("volumeMounts", VArray [
             volume_mount "kube-proxy" "/var/lib/kube-proxy" false;
             volume_mount "xtables-lock" "/run/xtables.lock" false;
             volume_mount "lib-modules" "/lib/modules" true])]]);
        ("volumes", VArray [
          VObject [("name", VString "kube-proxy"); ("configMap", VObject [("name", VString "capi-kube-proxy")])];
          host_volume "xtables-lock" "/run/xtables.lock" "FileOrCreate";
          host_volume "lib-modules" "/lib/modules" "Directory"])])])] |}.

Definition kube_proxy_objects (cx : ResourceContext) (image : string) : result BuildError (list DynamicObject) :=
  let! account := to_dynamic {| sa_meta := rc_metadata cx "capi-kube-proxy" "kube-system" "kube-proxy" |} in
  let! binding := to_dynamic {|
    crb_meta := rc_metadata cx "capi-system:node-proxier" "" "kube-proxy";
    crb_role_ref := {| ref_api_group := Some "rbac.authorization.k8s.io"; ref_kind := "ClusterRole";
                       ref_name := "system:node-proxier" |};
    crb_subjects := Some [{| subject_kind := "ServiceAccount"; subject_name := "capi-kube-proxy";
                             subject_namespace := Some "kube-system"; subject_api_group := None |}] |} in
  let! config := to_dynamic (kube_proxy_config_map cx) in
  let! daemon := to_dynamic (kube_proxy_daemon_set cx image) in
  Ok [account; binding; config; daemon].

Definition adjust_calico (cx : ResourceContext) (object : DynamicObject) : result BuildError DynamicObject :=
  if is_some_and (λ types, tm_kind types == "DaemonSet") (dyn_types object)
     && (name (dyn_meta object) == Some "calico-node")
  then set_calico_pool object (rc_pod_cidr cx) else Ok object.

Definition build_network `{ManifestCodec} (cx : ResourceContext) (calico : string) (images : NetworkImages)
    : result BuildError (list DynamicObject) :=
  let! objects := decode_manifest calico in
  let! (objects, counts) := prepare_objects cx (collect_map [
      (ni_calico_cni_tagged images, ni_calico_cni images);
      (ni_calico_node_tagged images, ni_calico_node images);
      (ni_calico_controllers_tagged images, ni_calico_controllers images)])
    "network-workload" (adjust_calico cx) objects in
  let! _ := try_for (λ '(tagged, expected),
      if counts !! tagged != Some expected
      then Err (BuildManifest ("unexpected Calico image count for " +:+ tagged)) else Ok tt)
    [(ni_calico_cni_tagged images, 2%nat); (ni_calico_node_tagged images, 2%nat);
     (ni_calico_controllers_tagged images, 1%nat)] in
  let! endpoint_map := endpoint_config_map cx in
  let! endpoint_map := to_dynamic endpoint_map in
  let! proxy := kube_proxy_objects cx (ni_kube_proxy images) in
  Ok (sort_objects (objects ++ [endpoint_map] ++ proxy)).

(** ** [resources/access.rs] *)
Record BootstrapRole := { br_role : Role; br_binding : RoleBinding }.

Definition bootstrap_subjects : list Subject :=
  map (λ nm, {| subject_kind := "Group"; subject_name := nm; subject_namespace := None;
                subject_api_group := Some "rbac.authorization.k8s.io" |})
    ["system:bootstrappers:kubeadm:default-node-token"; "system:nodes"].

Definition bootstrap_meta (nm : string) : ObjectMeta := {|
  name := Some nm; namespace := Some "kube-system"; uid := None; resource_version := None; generation := None;
  labels := None; annotations := None; owner_references := None; finalizers := None; deletion_timestamp := None |}.

Definition bootstrap_rbac : list BootstrapRole :=
  map (λ '(nm, resource), {|
    br_role := {| role_meta := bootstrap_meta nm; role_rules := Some [{|
      rule_api_groups := Some [""]; rule_resources := Some ["configmaps"];
      rule_resource_names := Some [resource]; rule_non_resource_urls := None; rule_verbs := ["get"] |}] |};
    br_binding := {| binding_meta := bootstrap_meta nm;
      binding_role_ref := {| ref_api_group := Some "rbac.authorization.k8s.io"; ref_kind := "Role"; ref_name := nm |};
      binding_subjects := Some bootstrap_subjects |} |})
    [("kubeadm:nodes-kubeadm-config", "kubeadm-config"); ("kubeadm:kubelet-config", "kubelet-config")].

(** Tuples are ordered field by field. *)
Definition subject_key (s : Subject) : list string :=
  [unwrap_or "" (subject_api_group s); subject_kind s; subject_name s; unwrap_or "" (subject_namespace s)].
Fixpoint keys_le (a b : list string) : bool :=
  match a, b with
  | [], _ => true
  | _ :: _, [] => false
  | x :: a', y :: b' => if x == y then keys_le a' b' else String.leb x y
  end.

Definition bootstrap_subjects_match (actual expected : list Subject) : bool :=
  sort_by keys_le (map subject_key actual) == sort_by keys_le (map subject_key expected).

(** ** Marks *)
Lemma identity_annotations_lookup i resource k v :
  (k, v) ∈ identity_annotation_list i resource → identity_annotations i resource !! k = Some v.
Proof.
  unfold identity_annotations, identity_annotation_list. intros H.
  repeat (apply elem_of_cons in H as [[= -> ->]|H]; [done|]). by apply not_elem_of_nil in H.
Qed.

(** The marks of a Tenant on an object. *)
Record marked (i : Identity) (resource : string) (m : ObjectMeta) : Prop := {
  mk_label : get_label m (id_ownership_label i) = Some (id_lab_prefix i);
  mk_annotations k v : identity_annotations i resource !! k = Some v → get_annotation m k = Some v;
}.

Lemma marked_owned i resource m : marked i resource m → validate_tenant_object_ownership m i resource = Ok tt.
Proof.
  intros [_ Ha]. unfold validate_tenant_object_ownership. rewrite (proj2 (any_false _ _)); [done|].
  intros [k v] Hkv%elem_of_map_to_list. cbn [fst snd]. apply Ha in Hkv as ->. by rewrite bool_decide_eq_true_2.
Qed.

Lemma marked_metadata cx nm ns resource : marked (rc_identity cx) resource (rc_metadata cx nm ns resource).
Proof. split; cbn; [apply lookup_insert_eq|auto]. Qed.

Lemma marked_mark cx object resource :
  marked (rc_identity cx) resource (dyn_meta (mark_tenant_object cx object resource)).
Proof.
  split; unfold get_label, get_annotation; cbn.
  - apply lookup_union_Some_l, lookup_insert_eq.
  - intros k v Hk. by apply lookup_union_Some_l.
Qed.

Section Marked.
Context `{MC : ManifestCodec}.

Lemma prepare_objects_marked cx replacements resource adjust objects done counts :
  prepare_objects cx replacements resource adjust objects = Ok (done, counts) →
  Forall (λ o, marked (rc_identity cx) resource (dyn_meta o)) done.
Proof.
  unfold prepare_objects. intros H.
  apply (try_fold_inv _ (λ s, Forall (λ o, marked (rc_identity cx) resource (dyn_meta o)) s.1)) in H; [done| |constructor].
  intros [l c] o s' _ Hl. unfold prepare_object. cbn [fst snd]. destruct (replace_object_strings _ _ _) as [[o1 c1]|]; [|done].
  destruct (adjust o1) as [o2|]; [|done]. intros [= <-]. cbn in *.
  apply list.Forall_app. split; [done|]. constructor; [apply marked_mark|constructor].
Qed.

(** A mark the object has: its role, and that the role's check passes. *)
Definition marked_as (cx : ResourceContext) (roles : list string) (o : DynamicObject) : Prop :=
  ∃ resource, resource ∈ roles ∧ marked (rc_identity cx) resource (dyn_meta o).

Lemma cnpg_operator_marked cx manifest tagged exact objects :
  cnpg_operator cx manifest tagged exact = Ok objects → Forall (marked_as cx ["cnpg-operator"]) objects.
Proof.
  unfold cnpg_operator. intros H. run H. eapply list.Forall_impl; [by eapply prepare_objects_marked|].
  intros o Ho. exists "cnpg-operator". by split; [left|].
Qed.

Lemma build_network_marked cx calico images objects :
  build_network cx calico images = Ok objects →
  Forall (marked_as cx ["network-workload"; "network-endpoint"; "kube-proxy"]) objects.
Proof.
  unfold build_network, endpoint_config_map, kube_proxy_objects. cbn [to_dynamic config_map_dynamic
    service_account_dynamic cluster_role_binding_dynamic daemon_set_dynamic dynamic]. intros H.
  run H; (destruct (try_for _ _) as [_|]; [|done]); [injection H as <-|done].
  unfold sort_objects. rewrite sort_by_perm. rewrite !list.Forall_app. split_and!.
  - eapply list.Forall_impl; [by eapply prepare_objects_marked|]. intros o Ho. exists "network-workload".
    by split; [left|].
  - repeat constructor; [exists "network-endpoint"; split; [right; left|]; apply marked_metadata|..];
      (exists "kube-proxy"; split; [right; right; left|]; apply marked_metadata).
Qed.
End Marked.

(** ** Replaced strings *)
Section ValueInduction.
Context (P : Value → Prop) (Hleaf : ∀ v, match v with VArray _ | VObject _ => True | _ => P v end).
Context (Harray : ∀ vs, Forall P vs → P (VArray vs)).
Context (Hobject : ∀ fs, Forall (λ f, P f.2) fs → P (VObject fs)).

Fixpoint value_induction (v : Value) : P v :=
  match v with
  | VArray vs => Harray vs ((fix go l : Forall P l :=
      match l with [] => Forall_nil_2 _ | x :: l' => Forall_cons_2 _ _ _ (value_induction x) (go l') end) vs)
  | VObject fs => Hobject fs ((fix go l : Forall (λ f : string * Value, P f.2) l :=
      match l with [] => Forall_nil_2 _ | f :: l' => Forall_cons_2 _ _ _ (value_induction f.2) (go l') end) fs)
  | v => Hleaf v
  end.
End ValueInduction.

(** The strings of a value that [replace_strings] looks at: not the keys. *)
Fixpoint strings_of (v : Value) : list string :=
  match v with
  | VString s => [s]
  | VArray vs => (fix go l := match l with [] => [] | x :: l' => strings_of x ++ go l' end) vs
  | VObject fs => (fix go (l : list (string * Value)) :=
      match l with [] => [] | (_, x) :: l' => strings_of x ++ go l' end) fs
  | _ => []
  end.

Definition occurrences (t : string) (l : list string) : nat := length (filter_list (λ s, s == t) l).
Definition count (c : Counts) (t : string) : nat := unwrap_or 0%nat (c !! t).

Definition replaced (r : gmap string string) (t : string) : string := unwrap_or t (r !! t).

(** What [replace_strings] did to the strings of a value, and what it counted. *)
Record replacement (r : gmap string string) (c c' : Counts) (before after : list string) : Prop := {
  rp_strings : after = map (replaced r) before;
  rp_counts t : is_Some (r !! t) → count c' t = (count c t + occurrences t before)%nat;
}.

Lemma occurrences_app t l k : occurrences t (l ++ k) = (occurrences t l + occurrences t k)%nat.
Proof. unfold occurrences. by rewrite filter_list_app, length_app. Qed.

Lemma replacement_refl r c : replacement r c c [] [].
Proof. split; [done|]. intros. unfold occurrences. simpl. lia. Qed.

Lemma replacement_app r c1 c2 c3 l1 l1' l2 l2' :
  replacement r c1 c2 l1 l1' → replacement r c2 c3 l2 l2' → replacement r c1 c3 (l1 ++ l2) (l1' ++ l2').
Proof.
  intros [-> H1] [-> H2]. split; [by rewrite map_app|]. intros t Ht.
  rewrite H2, H1, occurrences_app by done. lia.
Qed.

Lemma replace_strings_spec r v c :
  replacement r c (replace_strings r v c).2 (strings_of v) (strings_of (replace_strings r v c).1).
Proof.
  revert v c.
  refine (value_induction (λ v, ∀ c, replacement r c (replace_strings r v c).2 (strings_of v)
    (strings_of (replace_strings r v c).1)) _ _ _); [intros v; destruct v; try done; intros c|intros vs IH|intros fs IH].
  - cbn. destruct (r !! s) as [t|] eqn:E; cbn.
    + split; [by unfold replaced; cbn; rewrite E|]. intros u Hu. unfold count, occurrences. cbn.
      destruct (decide (s = u)) as [->|Hne].
      * rewrite lookup_insert_eq, bool_decide_eq_true_2 by done. cbn. lia.
      * rewrite lookup_insert_ne, bool_decide_eq_false_2 by done. cbn. lia.
    + split; [by unfold replaced; cbn; rewrite E|]. intros u [x Hu]. unfold occurrences. cbn.
      rewrite bool_decide_eq_false_2 by congruence. cbn. lia.
  - cbn. set (go := fix go (l : list Value) (counts : Counts) : list Value * Counts := _).
    assert (∀ c, replacement r c (go vs c).2 (strings_of (VArray vs)) (strings_of (VArray (go vs c).1))) as H.
    { clear -IH. induction IH as [|v vs Hv IH IHvs]; intros c; [apply replacement_refl|].
      cbn [go]. specialize (Hv c). destruct (replace_strings r v c) as [v' c1]. specialize (IHvs c1).
      destruct (go vs c1) as [vs' c2]. cbn in *. by eapply replacement_app. }
    intros c. specialize (H c). by destruct (go vs c).
  - cbn. set (go := fix go (l : list (string * Value)) (counts : Counts) : list (string * Value) * Counts := _).
    assert (∀ c, replacement r c (go fs c).2 (strings_of (VObject fs)) (strings_of (VObject (go fs c).1))) as H.
    { clear -IH. induction IH as [|[k v] vs Hv IH IHvs]; intros c; [apply replacement_refl|].
      cbn [go]. cbn [snd] in Hv. specialize (Hv c). destruct (replace_strings r v c) as [v' c1]. specialize (IHvs c1).
      destruct (go vs c1) as [vs' c2]. cbn in *. by eapply replacement_app. }
    intros c. specialize (H c). by destruct (go fs c).
Qed.

(** ** Bootstrap subjects *)
Lemma keys_le_refl a : keys_le a a = true.
Proof. induction a as [|x a IH]; [done|]. cbn. by rewrite bool_decide_eq_true_2. Qed.

Lemma keys_le_total a b : keys_le a b = false → keys_le b a = true.
Proof.
  revert b. induction a as [|x a IH]; intros [|y b]; try done. cbn.
  destruct (decide (x = y)) as [->|Hne].
  - rewrite !bool_decide_eq_true_2 by done. apply IH.
  - rewrite !bool_decide_eq_false_2 by done. intros H. destruct (leb_cases x y); congruence.
Qed.

Lemma keys_le_antisym a b : keys_le a b = true → keys_le b a = true → a = b.
Proof.
  revert b. induction a as [|x a IH]; intros [|y b]; try done. cbn.
  destruct (decide (x = y)) as [->|Hne].
  - rewrite !bool_decide_eq_true_2 by done. intros H1 H2. f_equal. by apply IH.
  - rewrite !bool_decide_eq_false_2 by done. intros H1 H2. by destruct Hne; apply leb_antisym.
Qed.

Lemma keys_le_trans a b c : keys_le a b = true → keys_le b c = true → keys_le a c = true.
Proof.
  revert b c. induction a as [|x a IH]; intros [|y b] [|z c]; try done. cbn.
  destruct (decide (x = y)) as [->|H1]; [rewrite (bool_decide_eq_true_2 (y = y)) by done|rewrite (bool_decide_eq_false_2 (x = y)) by done];
  (destruct (decide (y = z)) as [->|H2]; [rewrite (bool_decide_eq_true_2 (z = z)) by done|rewrite (bool_decide_eq_false_2 (y = z)) by done]).
  - apply IH.
  - done.
  - by rewrite bool_decide_eq_false_2.
  - intros L1 L2. pose proof (leb_trans _ _ _ L1 L2) as L. destruct (decide (x = z)) as [->|H3].
    + destruct H1. by apply leb_antisym.
    + by rewrite bool_decide_eq_false_2.
Qed.

(** The comparison of subjects ignores their order, and nothing else. *)
Lemma bootstrap_subjects_match_perm actual expected :
  bootstrap_subjects_match actual expected = true ↔ map subject_key actual ≡ₚ map subject_key expected.
Proof.
  unfold bootstrap_subjects_match. rewrite bool_decide_eq_true. split.
  - intros H. by rewrite <-(sort_by_perm keys_le (map subject_key actual)), H, sort_by_perm.
  - apply sort_by_unique; [apply keys_le_total|apply keys_le_trans|apply keys_le_antisym].
Qed.

(** ** The address pool *)
Definition names_pool (e : Value) : bool := and_then as_str (json_get e "name") == Some POOL.

(** The variables set the pool, and to nothing else. *)
Definition env_pool (cidr : string) (env : list Value) : Prop :=
  any names_pool env = true ∧ ∀ e, e ∈ env → names_pool e = true → json_get e "value" = Some (VString cidr).

Definition pool_set (cidr : string) (data : Value) : Prop :=
  ∃ containers container env,
    pointer data ["spec"; "template"; "spec"; "containers"] = Some (VArray containers) ∧
    find_first is_calico_node containers = Some container ∧
    json_get container "env" = Some (VArray env) ∧ env_pool cidr env.

Lemma set_pool_env cidr env done updated :
  set_pool cidr env = Ok (done, updated) →
  updated = any names_pool done ∧ ∀ e, e ∈ done → names_pool e = true → json_get e "value" = Some (VString cidr).
Proof.
  unfold set_pool. intros H. apply (try_fold_inv _ (λ s, s.2 = any names_pool s.1 ∧
    ∀ e, e ∈ s.1 → names_pool e = true → json_get e "value" = Some (VString cidr))) in H; [done| |].
  2: { split; [done|]. intros e He. by apply not_elem_of_nil in He. }
  intros [l u] e s' _ [Hu Hl] Hs. destruct e; try done. cbn [fst snd] in *.
  case_bool_decide as Hn; injection Hs as <-; cbn [fst snd].
  - assert (names_pool (json_insert (VObject fields) "value" (VString cidr)) = true) as Hp.
    { unfold names_pool. rewrite json_get_insert_ne by done. by apply bool_decide_eq_true. }
    split; [rewrite any_app; symmetry; apply orb_true_iff; right; cbn [any]; rewrite orb_false_r; exact Hp|].
    intros e [He|He%list_elem_of_singleton]%elem_of_app; [by apply Hl|]. intros _. subst e.
    apply (json_get_insert (VObject fields) "value" (VString cidr)). eauto.
  - assert (names_pool (VObject fields) = false) as Hp by by apply bool_decide_eq_false.
    split; [rewrite any_app; cbn [any]; rewrite orb_false_r, Hu; symmetry; etrans; [apply f_equal, Hp|apply orb_false_r]|].
    intros e [He|He%list_elem_of_singleton]%elem_of_app; [by apply Hl|]. subst e. congruence.
Qed.

Lemma set_container_pool_env cidr container container' :
  is_calico_node container = true → set_container_pool cidr container = Ok container' →
  is_calico_node container' = true ∧ ∃ env, json_get container' "env" = Some (VArray env) ∧ env_pool cidr env.
Proof.
  intros Hn. unfold set_container_pool. destruct (ok_or _ _) as [env|]; [|done].
  destruct (set_pool cidr env) as [[env' updated]|] eqn:Hs; [|done]. apply set_pool_env in Hs as [-> Hl]. intros [= <-].
  split; [unfold is_calico_node in *; by rewrite json_get_insert_ne|].
  exists (if any names_pool env' then env' else env' ++ [VObject [("name", VString POOL); ("value", VString cidr)]]).
  split.
  - apply json_get_insert. unfold is_calico_node in Hn. apply bool_decide_eq_true in Hn.
    destruct (json_get container "name") as [x|] eqn:E; [|done]. by eapply json_get_object.
  - destruct (any names_pool env') eqn:Ha; [by split|]. split; [by rewrite any_app, orb_true_r|].
    intros e [He|He%list_elem_of_singleton]%elem_of_app; [by apply Hl|]. by subst e.
Qed.

Lemma update_container_env cidr containers containers' :
  update_container cidr containers = Ok containers' →
  ∃ container env, find_first is_calico_node containers' = Some container ∧
    json_get container "env" = Some (VArray env) ∧ env_pool cidr env.
Proof.
  revert containers'. induction containers as [|c l IH]; intros containers'; [done|]. cbn [update_container].
  destruct (is_calico_node c) eqn:Hc.
  - destruct (set_container_pool cidr c) as [c'|] eqn:Hs; [|done]. intros [= <-].
    apply set_container_pool_env in Hs as (Hn & env & He & Hp); [|done]. exists c', env. cbn. by rewrite Hn.
  - destruct (update_container cidr l) as [l'|] eqn:Hl; [|done]. intros [= <-]. cbn. rewrite Hc. by apply IH.
Qed.

Lemma update_at_pointer path f missing v v' :
  update_at path f missing v = Ok v' → ∃ x x', pointer v path = Some x ∧ f x = Ok x' ∧ pointer v' path = Some x'.
Proof.
  revert v v'. induction path as [|k path IH]; intros v v'; cbn [update_at]; [intros H; by exists v, v'|].
  destruct (json_get v k) as [x|] eqn:E; [|done]. cbn [ok_or]. destruct (update_at path f missing x) as [y|] eqn:Hu; [|done].
  intros [= <-]. apply IH in Hu as (z & z' & Hz & Hf & Hz'). exists z, z'. cbn [pointer]. rewrite E. cbn [and_then].
  rewrite json_get_insert by (by eapply json_get_object). by cbn [and_then].
Qed.

Lemma set_calico_pool_set object cidr object' :
  set_calico_pool object cidr = Ok object' →
  pool_set cidr (dyn_data object') ∧ dyn_types object' = dyn_types object ∧ dyn_meta object' = dyn_meta object.
Proof.
  unfold set_calico_pool. destruct (update_at _ _ _ _) as [data|] eqn:H; [|done]. intros [= <-].
  split; [|done]. apply update_at_pointer in H as (x & x' & _ & Hf & Hx).
  destruct (as_array x) as [l|]; [|done]. cbn [ok_or] in Hf. destruct (update_container cidr l) as [l'|] eqn:Hl; [|done].
  injection Hf as <-. apply update_container_env in Hl as (c & env & ? & ? & ?). by exists l', c, env.
Qed.

Definition calico_node (o : DynamicObject) : bool :=
  is_some_and (λ types, tm_kind types == "DaemonSet") (dyn_types o) && (name (dyn_meta o) == Some "calico-node").

(** ** The prepared objects *)
Section Prepared.
Context `{MC : ManifestCodec}.

(** How often a string occurs in the objects as they are rendered. *)
Definition rendered (t : string) (o : DynamicObject) : nat :=
  match object_to_value o with Ok v => occurrences t (strings_of v) | Err _ => 0%nat end.
Definition rendered_all (t : string) (l : list DynamicObject) : nat := sum_list_with (rendered t) l.

(** How an object of the result comes from one of the manifest: every tagged
    image in it is replaced. *)
Definition prepared (cx : ResourceContext) (r : gmap string string) (resource : string)
    (adjust : DynamicObject → result BuildError DynamicObject) (o d : DynamicObject) : Prop :=
  ∃ v v' o1 o2, object_to_value o = Ok v ∧ strings_of v' = map (replaced r) (strings_of v) ∧
    object_from_value v' = Ok o1 ∧ adjust o1 = Ok o2 ∧ d = mark_tenant_object cx o2 resource.

Lemma prepare_objects_spec cx r resource adjust objects done counts :
  prepare_objects cx r resource adjust objects = Ok (done, counts) →
  Forall2 (prepared cx r resource adjust) objects done ∧
  ∀ t, is_Some (r !! t) → count counts t = rendered_all t objects.
Proof.
  unfold prepare_objects.
  enough (∀ l0 l c, try_fold (prepare_object cx r resource adjust) (l, c) objects = Ok (done, counts) →
    Forall2 (prepared cx r resource adjust) l0 l →
    Forall2 (prepared cx r resource adjust) (l0 ++ objects) done ∧
    ∀ t, is_Some (r !! t) → count counts t = (count c t + rendered_all t objects)%nat) as Hgen.
  { intros H. destruct (Hgen [] [] ∅ H) as [H1 H2]; [constructor|]. split; [done|]. intros t Ht. by rewrite H2. }
  induction objects as [|o objects IH]; intros l0 l c.
  - intros [= <- <-] Hl. rewrite app_nil_r. split; [done|]. intros. unfold rendered_all. cbn. lia.
  - cbn [try_fold]. unfold prepare_object at 1, replace_object_strings at 1. cbn [fst snd]. destruct (object_to_value o) as [v|] eqn:Hv; [|done]. cbn [map_err].
    pose proof (replace_strings_spec r v c) as Hr. destruct (replace_strings r v c) as [v' c1]. cbn [fst snd] in Hr.
    destruct (object_from_value v') as [o1|] eqn:Ho1; [|done]. cbn [map_err].
    destruct (adjust o1) as [o2|] eqn:Ho2; [|done]. intros H Hl.
    destruct (IH (l0 ++ [o]) _ _ H) as [H1 H2].
    { apply Forall2_app; [done|]. constructor; [|constructor]. exists v, v', o1, o2. destruct Hr. by split_and!. }
    rewrite <-app_assoc in H1. split; [exact H1|]. intros t Ht. rewrite H2 by done.
    destruct Hr as [_ Hr]. rewrite Hr by done. unfold rendered_all. cbn. unfold rendered at 2. rewrite Hv. lia.
Qed.

Lemma prepared_pool cx r resource objects done o :
  Forall2 (prepared cx r resource (adjust_calico cx)) objects done → o ∈ done → calico_node o = true →
  pool_set (rc_pod_cidr cx) (dyn_data o).
Proof.
  intros H Ho Hc. apply list_elem_of_lookup in Ho as [i Hi].
  destruct (Forall2_lookup_r _ _ _ _ _ H Hi) as (x & _ & v & v' & o1 & o2 & _ & _ & _ & Ha & ->).
  cbn [dyn_data mark_tenant_object with_meta].
  change (calico_node (mark_tenant_object cx o2 resource)) with (calico_node o2) in Hc.
  unfold adjust_calico in Ha. change (_ && _) with (calico_node o1) in Ha. destruct (calico_node o1) eqn:E.
  - by apply set_calico_pool_set in Ha as [? _].
  - injection Ha as ->. congruence.
Qed.
End Prepared.

(** A codec for the fields the examples use. *)
Module BundleFixture.
Definition string_map (v : option Value) : option (gmap string string) :=
  match v with
  | Some (VObject fs) => Some (collect_map (omap (λ '(k, x), option_map (pair k) (as_str x)) fs))
  | _ => None
  end.

#[local] Instance codec : ManifestCodec := {|
  yaml_documents content :=
    if content == "calico" then [Ok (VObject [("apiVersion", VString "v1"); ("kind", VString "List"); ("items", VArray [
      VObject [("apiVersion", VString "apps/v1"); ("kind", VString "DaemonSet");
        ("metadata", VObject [("name", VString "calico-node"); ("namespace", VString "kube-system")]);
        ("spec", VObject [("template", VObject [("spec", VObject [
          ("initContainers", VArray [VObject [("image", VString "cni:1")]; VObject [("image", VString "cni:1")];
             VObject [("image", VString "node:1")]]);
          ("containers", VArray [VObject [("name", VString "calico-node"); ("image", VString "node:1")]])])])])];
      VObject [("apiVersion", VString "apps/v1"); ("kind", VString "Deployment");
        ("metadata", VObject [("name", VString "calico-kube-controllers"); ("namespace", VString "kube-system")]);
        ("spec", VObject [("image", VString "controllers:1")])]])])]
    else [];
  object_to_value o := Ok (VObject (
    optional "apiVersion" (λ t, VString (tm_api_version t)) (dyn_types o)
    ++ optional "kind" (λ t, VString (tm_kind t)) (dyn_types o)
    ++ [("metadata", VObject (optional "name" VString (name (dyn_meta o))
          ++ optional "namespace" VString (namespace (dyn_meta o))
          ++ optional "labels" json_labels (labels (dyn_meta o))
          ++ optional "annotations" json_labels (annotations (dyn_meta o))))]
    ++ match dyn_data o with VObject fs => fs | _ => [] end));
  object_from_value v :=
    let m := unwrap_or VNull (json_get v "metadata") in
    Ok {| dyn_types := match and_then as_str (json_get v "apiVersion"), and_then as_str (json_get v "kind") with
            | Some a, Some k => Some {| tm_api_version := a; tm_kind := k |}
            | _, _ => None
            end;
          dyn_meta := {| name := and_then as_str (json_get m "name"); namespace := and_then as_str (json_get m "namespace");
            uid := None; resource_version := None; generation := None; labels := string_map (json_get m "labels");
            annotations := string_map (json_get m "annotations"); owner_references := None; finalizers := None;
            deletion_timestamp := None |};
          dyn_data := json_remove (json_remove (json_remove v "apiVersion") "kind") "metadata" |} |}.

Definition inputs : FoundationInputs := {|
  fi_ownership_label := "lab"; fi_lab_prefix := "demo"; fi_api_port := 6443; fi_cluster_domain := "cluster.local";
  fi_node_image := "node"; fi_cache_host_path := "/cache"; fi_cache_container_path := "/cache";
  fi_storage_container_path := "/storage"; fi_konnectivity_server_image := "k/server:1@sha256:a";
  fi_konnectivity_agent_image := "k/agent:1@sha256:b" |}.

Definition context : ResourceContext := {|
  rc_tenant := {| tenant_meta := {| name := Some "alpha"; namespace := None; uid := Some "t1"; resource_version := Some "1";
      generation := Some 1; labels := None; annotations := None; owner_references := None; finalizers := None;
      deletion_timestamp := None |};
    tenant_spec := {| kubernetes_version := "1.34.0"; workers := 1; provider := SpecLocal |}; tenant_status := None |};
  rc_spec := {| kubernetes_version := "1.34.0"; workers := 1; provider := SpecLocal |};
  rc_spec_hash := "s"; rc_foundation_hash := "f"; rc_endpoint := "10.0.0.5:6443"; rc_pod_cidr := "10.1.0.0/16";
  rc_service_cidr := "10.2.0.0/16"; rc_volume_path := "/v"; rc_worker_bootstrap_commands := []; rc_inputs := inputs |}.

Definition images : NetworkImages := {|
  ni_calico_cni := "cni@sha256:1"; ni_calico_cni_tagged := "cni:1"; ni_calico_node := "node@sha256:2";
  ni_calico_node_tagged := "node:1"; ni_calico_controllers := "controllers@sha256:3";
  ni_calico_controllers_tagged := "controllers:1"; ni_kube_proxy := "proxy@sha256:4" |}.

Definition objects : list DynamicObject := match build_network context "calico" images with Ok l => l | Err _ => [] end.
End BundleFixture.

Definition object_of (api_version kind : string) (m : ObjectMeta) (fields : list (string * Value)) : DynamicObject := {|
  dyn_types := Some {| tm_api_version := api_version; tm_kind := kind |}; dyn_meta := m; dyn_data := VObject fields |}.

(** The objects a Tenant's network has besides the manifest: the endpoint of
    its API server, and a proxy with its account, role, configuration and
    image. *)
Record own_network (cx : ResourceContext) (images : NetworkImages) (own : list DynamicObject) : Prop := {
  on_endpoint : ∃ host port, endpoint (rc_endpoint cx) = Ok (host, port) ∧
    own !! 0%nat = Some (object_of "v1" "ConfigMap"
      (rc_metadata cx "kubernetes-services-endpoint" "kube-system" "network-endpoint")
      [("data", json_labels (collect_map [
         ("KUBERNETES_SERVICE_HOST", host);
         ("KUBERNETES_SERVICE_PORT", int_to_string (fi_api_port (rc_inputs cx)));
         ("KUBERNETES_SERVICE_PORT_HTTPS", int_to_string (fi_api_port (rc_inputs cx)))]))]);
  on_account : own !! 1%nat = Some (object_of "v1" "ServiceAccount"
    (rc_metadata cx "capi-kube-proxy" "kube-system" "kube-proxy") []);
  on_role : own !! 2%nat = Some (object_of "rbac.authorization.k8s.io/v1" "ClusterRoleBinding"
    (rc_metadata cx "capi-system:node-proxier" "" "kube-proxy")
    [("roleRef", VObject [("apiGroup", VString "rbac.authorization.k8s.io"); ("kind", VString "ClusterRole");
        ("name", VString "system:node-proxier")]);
     ("subjects", VArray [VObject [("kind", VString "ServiceAccount"); ("name", VString "capi-kube-proxy");
        ("namespace", VString "kube-system")]])]);
  on_config : own !! 3%nat = Some (object_of "v1" "ConfigMap"
    (rc_metadata cx "capi-kube-proxy" "kube-system" "kube-proxy")
    (optional "data" json_labels (cm_data (kube_proxy_config_map cx))));
  on_proxy : ∃ spec container, own !! 4%nat = Some (object_of "apps/v1" "DaemonSet"
      (rc_metadata cx "capi-kube-proxy" "kube-system" "kube-proxy") [("spec", spec)]) ∧
    pointer spec ["template"; "spec"; "serviceAccountName"] = Some (VString "capi-kube-proxy") ∧
    pointer spec ["template"; "spec"; "containers"] = Some (VArray [container]) ∧
    json_get container "image" = Some (VString (ni_kube_proxy images));
  on_complete : length own = 5%nat;
}.

Lemma sort_objects_sorted l :
  StronglySorted (λ a b, String.leb (object_key a) (object_key b) = true) (sort_objects l).
Proof.
  apply (sort_by_sorted (λ a b, String.leb (object_key a) (object_key b))).
  - intros x y H. destruct (leb_cases (object_key x) (object_key y)); congruence.
  - intros x y z. apply leb_trans.
Qed.

Lemma own_network_built cx images em proxy :
  endpoint_config_map cx = Ok em → kube_proxy_objects cx (ni_kube_proxy images) = Ok proxy →
  own_network cx images
    (object_of "v1" "ConfigMap" (cm_meta em) (optional "data" json_labels (cm_data em)) :: proxy).
Proof.
  unfold endpoint_config_map, kube_proxy_objects. destruct (endpoint (rc_endpoint cx)) as [[host port]|] eqn:He; [|done].
  intros [= <-] Hk. cbn in Hk. injection Hk as <-. split; try reflexivity; [by exists host, port|].
  by eexists _, _.
Qed.

(** C8. The network bundle of a Tenant consists of the staged manifest with
    every tagged Calico image replaced by its exact one, at exactly the places
    the source expects (two, two and one), and of five objects of its own: the
    ConfigMap with its endpoint, and the account, role binding, configuration
    and DaemonSet of its proxy, with the exact image.  The objects are ordered
    by version, kind, namespace and name.  Every object carries the marks of
    the Tenant, so the ownership check of its role passes on it, and the node
    agent's address pool is the pod network of the Tenant. *)
Theorem network_bundle_exact `{MC : ManifestCodec} cx calico images objects :
  build_network cx calico images = Ok objects →
  ∃ staged manifest own, decode_manifest calico = Ok manifest ∧ objects ≡ₚ staged ++ own ∧
    StronglySorted (λ a b, String.leb (object_key a) (object_key b) = true) objects ∧ own_network cx images own ∧
    Forall2 (prepared cx (collect_map [
      (ni_calico_cni_tagged images, ni_calico_cni images);
      (ni_calico_node_tagged images, ni_calico_node images);
      (ni_calico_controllers_tagged images, ni_calico_controllers images)]) "network-workload" (adjust_calico cx))
      manifest staged ∧
    rendered_all (ni_calico_cni_tagged images) manifest = 2%nat ∧
    rendered_all (ni_calico_node_tagged images) manifest = 2%nat ∧
    rendered_all (ni_calico_controllers_tagged images) manifest = 1%nat ∧
    (∀ o, o ∈ objects → ∃ resource, resource ∈ ["network-workload"; "network-endpoint"; "kube-proxy"] ∧
       get_annotation (dyn_meta o) RESOURCE_ANNOTATION = Some resource ∧
       validate_tenant_object_ownership (dyn_meta o) (rc_identity cx) resource = Ok tt) ∧
    (∀ o, o ∈ objects → calico_node o = true → pool_set (rc_pod_cidr cx) (dyn_data o)).
Proof.
  intros H. pose proof (build_network_marked _ _ _ _ H) as Hm. revert H.
  unfold build_network. destruct (decode_manifest calico) as [manifest|] eqn:Hd; [|done].
  destruct (prepare_objects _ _ _ _ _) as [[staged counts]|] eqn:Hp; [|done].
  apply prepare_objects_spec in Hp as [Hp Hc].
  destruct (try_for _ _) as [[]|] eqn:Ht; [|done]. rewrite try_for_Ok in Ht.
  destruct (endpoint_config_map cx) as [em|] eqn:He; [|done]. cbn [to_dynamic config_map_dynamic dynamic].
  destruct (kube_proxy_objects cx (ni_kube_proxy images)) as [proxy|] eqn:Hk; [|done]. intros [= <-].
  assert (∀ t n, (t, n) ∈ [(ni_calico_cni_tagged images, 2%nat); (ni_calico_node_tagged images, 2%nat);
     (ni_calico_controllers_tagged images, 1%nat)] → rendered_all t manifest = n) as Hn.
  { intros t n Htn. rewrite <-Hc.
    - specialize (Ht _ Htn). cbn in Ht. case_bool_decide as E; [|done]. unfold count. by rewrite E.
    - apply collect_map_is_some. set_solver. }
  eexists staged, manifest, _. split_and!; [done|apply sort_by_perm|apply sort_objects_sorted|by apply (own_network_built _ _ em)|done|
    apply Hn; set_solver..| |].
  - intros o Ho. rewrite list.Forall_forall in Hm. destruct (Hm o Ho) as (resource & Hr & Hmk).
    exists resource. split_and!; [done| |by apply marked_owned]. apply (mk_annotations _ _ _ Hmk).
    apply identity_annotations_lookup. set_solver.
  - intros o Ho Hcn. unfold sort_objects in Ho. rewrite elem_of_sort_by in Ho.
    apply elem_of_app in Ho as [Ho|Ho]; [by eapply prepared_pool|]. exfalso. revert Hcn.
    unfold kube_proxy_objects in Hk. cbn in Hk. injection Hk as <-.
    repeat (apply elem_of_cons in Ho as [->|Ho]; [done|]). by apply not_elem_of_nil in Ho.
Qed.

Lemma network_bundle_exact_witness :
  let _ := BundleFixture.codec in
  build_network BundleFixture.context "calico" BundleFixture.images = Ok BundleFixture.objects ∧
  length BundleFixture.objects = 7%nat ∧
  StronglySorted (λ a b, String.leb (object_key a) (object_key b) = true) BundleFixture.objects ∧
  ∀ o, o ∈ BundleFixture.objects → calico_node o = true → pool_set "10.1.0.0/16" (dyn_data o).
Proof.
  intros MC. assert (build_network BundleFixture.context "calico" BundleFixture.images = Ok BundleFixture.objects) as H
    by (vm_compute; reflexivity).
  destruct (network_bundle_exact _ _ _ _ H) as (staged & manifest & own & ? & ? & Hsorted & ? & ? & ? & ? & ? & ? & Hpool).
  split_and!; [exact H|vm_compute; reflexivity|exact Hsorted|exact Hpool].
Defined.
