(* ===== verification/Bootstrap.v ===== *)
(** * Preparing workers

    [controller/src/resources/bootstrap.rs]: the shell commands that import the
    cached images on a worker of a local Tenant and, offline, direct its pulls
    to the mirror and reject other traffic.  A tokenizer for the part of the
    POSIX shell language that the commands use shows that no input can change
    their structure. *)

From S2P Require Import Prelude RustStd Externals Kube Errors Api Management Ownership Foundation Docker.
From S2P Require Import Allocation ReconcileErrors Sanitize Readiness Manifests.

Open Scope Z_scope.

Definition REQUIRED_WORKER_IMAGE_KEYS : list string := [
  "CALICO_CNI_IMAGE"; "CALICO_KUBE_CONTROLLERS_IMAGE"; "CALICO_NODE_IMAGE"; "KUBE_PROXY_IMAGE";
  "KONNECTIVITY_AGENT_IMAGE"; "CNPG_CONTROLLER_IMAGE"; "POSTGRES_IMAGE"].

Record BootstrapInputs := {
  bi_archives : list ImageArchive;
  bi_generation : string;
  bi_cache_container_path : string;
  bi_storage_container_path : string;
  bi_offline_enforced : bool;
  bi_registry : option OfflineRegistry;
  bi_allowed_subnets : list string;
}.

Definition bootstrap_inputs (f : Foundation) : BootstrapInputs := {|
  bi_archives := ic_image_archives (f_cache f);
  bi_generation := ic_generation (f_cache f);
  bi_cache_container_path := fi_cache_container_path (f_inputs f);
  bi_storage_container_path := fi_storage_container_path (f_inputs f);
  bi_offline_enforced := f_offline_enforced f;
  bi_registry := f_registry f;
  bi_allowed_subnets := f_allowed_subnets f |}.

Definition DQUOTE : ascii := ascii_of_nat 34.
Definition dquote : string := String DQUOTE "".

Definition shell_quote (value : string) : string :=
  "'" +:+ replace_char value "'"%char ("'" +:+ dquote +:+ "'" +:+ dquote +:+ "'") +:+ "'".

(** The digest of the reference, which is not empty. *)
Definition reference_digest (archive : ImageArchive) : result BuildError string :=
  let! (_, digest) := ok_or (opt_filter (λ parts, non_empty parts.2) (rsplit_once (ia_reference archive) "@"%char))
                        BuildImageReference in
  Ok digest.

Definition canonical_exact_reference (archive : ImageArchive) : result BuildError string :=
  let! digest := reference_digest archive in
  Ok (ia_tagged archive +:+ "@" +:+ digest).

Definition runtime_digest_reference (archive : ImageArchive) : result BuildError string :=
  let! digest := reference_digest archive in
  let tagged := match rsplit_once (ia_tagged archive) ":"%char with
    | Some (repository, tag) => if negb (contains_char tag "/"%char) then repository else ia_tagged archive
    | None => ia_tagged archive
    end in
  Ok (tagged +:+ "@" +:+ digest).

Definition image_registry (reference : string) : string :=
  let value := unwrap_or reference (hd_error (split reference "@"%char)) in
  match split_once value "/"%char with
  | Some (first, _) =>
      if contains_char first "."%char || contains_char first ":"%char || (first == "localhost")
      then first else "docker.io"
  | None => "docker.io"
  end.

Definition inputs_unusable (inputs : BootstrapInputs) : bool :=
  is_empty (bi_generation inputs)
  || contains_char (bi_generation inputs) "/"%char
  || (bi_generation inputs == ".") || (bi_generation inputs == "..")
  || negb (starts_with_char (bi_cache_container_path inputs) "/"%char)
  || negb (starts_with_char (bi_storage_container_path inputs) "/"%char).

Definition archive_unusable (archive : ImageArchive) : bool :=
  is_empty (ia_path archive)
  || starts_with_char (ia_path archive) "/"%char
  || any (λ part, (part == "..") || (part == ".") || is_empty part) (split (ia_path archive) "/"%char)
  || negb (len (ia_sha256 archive) =? 64)
  || negb (all is_ascii_hexdigit (bytes (ia_sha256 archive)))
  || is_empty (ia_tagged archive)
  || contains_char (ia_tagged archive) "@"%char.

(** The one archive of a required image. *)
Definition required_archive (inputs : BootstrapInputs) (key : string) : result BuildError ImageArchive :=
  match filter_list (λ archive, ia_key archive == key) (bi_archives inputs) with
  | [] => Err (BuildWorkerImage key)
  | archive :: others =>
      if negb (ia_worker archive) then Err (BuildWorkerImage key) else
      match others with
      | _ :: _ => Err (BuildWorkerImage key)
      | [] =>
          if archive_unusable archive then Err (BuildBootstrap ("invalid archive " +:+ key)) else Ok archive
      end
  end.

Definition archive_path (inputs : BootstrapInputs) (archive : ImageArchive) : string :=
  trim_end_matches (bi_cache_container_path inputs) "/"%char +:+ "/generations/" +:+ bi_generation inputs
  +:+ "/" +:+ ia_path archive.

Definition tag_command (tagged reference : string) : string :=
  "ctr --namespace k8s.io images tag --force " +:+ shell_quote tagged +:+ " " +:+ shell_quote reference.

Definition archive_commands (inputs : BootstrapInputs) (archive : ImageArchive) : result BuildError (list string) :=
  let path := shell_quote (archive_path inputs archive) in
  let! exact := canonical_exact_reference archive in
  let! digest := runtime_digest_reference archive in
  Ok ["printf '%s  %s\n' " +:+ shell_quote (ia_sha256 archive) +:+ " " +:+ path +:+ " | sha256sum -c -";
      "ctr --namespace k8s.io images import --digests " +:+ path;
      tag_command (ia_tagged archive) (ia_reference archive);
      tag_command (ia_tagged archive) exact;
      tag_command (ia_tagged archive) digest].

(** [BTreeSet]: sorted, without duplicates. *)
Definition string_set (l : list string) : list string := map fst (ordered (gset_to_gmap tt (list_to_set l : gset string))).

Definition registries (inputs : BootstrapInputs) : list string :=
  string_set (map (λ archive, image_registry (ia_tagged archive)) (filter_list ia_worker (bi_archives inputs))).

Section Mirrors.
Context `{SJ : SerdeJson}.

Definition json_string (s : string) : result BuildError string := ok_or (to_string (VString s)) (BuildJson "").

Definition mirror_content (registry : OfflineRegistry) (nm : string) : result BuildError string :=
  let server := if nm == "docker.io" then "https://registry-1.docker.io" else "https://" +:+ nm in
  let mirror := "http://" +:+ or_address registry +:+ ":" +:+ int_to_string (or_port registry) in
  let! server := json_string server in
  let! mirror := json_string mirror in
  let nl := String LF "" in
  Ok ("server = " +:+ server +:+ nl +:+ nl +:+ "[host." +:+ mirror +:+ "]" +:+ nl
      +:+ "  capabilities = [" +:+ dquote +:+ "pull" +:+ dquote +:+ ", " +:+ dquote +:+ "resolve" +:+ dquote +:+ "]" +:+ nl).

Definition mirror_command (registry : OfflineRegistry) (nm : string) : result BuildError string :=
  let! content := mirror_content registry nm in
  let directory := "/etc/containerd/certs.d/" +:+ nm in
  Ok ("umask 077; mkdir -p " +:+ shell_quote directory +:+ "; printf %s " +:+ shell_quote content
      +:+ " > " +:+ shell_quote (directory +:+ "/hosts.toml")).

Definition firewall_start : list string := [
  "iptables -N CAPI_OFFLINE 2>/dev/null || true";
  "iptables -F CAPI_OFFLINE"].
Definition subnet_command (subnet : string) : string :=
  "iptables -A CAPI_OFFLINE -d " +:+ shell_quote subnet +:+ " -j RETURN".
Definition firewall_end : list string := [
  "iptables -A CAPI_OFFLINE -p tcp -m multiport --dports 80,443 -j REJECT";
  "iptables -A CAPI_OFFLINE -j RETURN";
  "iptables -C OUTPUT -j CAPI_OFFLINE 2>/dev/null || iptables -I OUTPUT 1 -j CAPI_OFFLINE"].

Definition worker_bootstrap_commands (inputs : BootstrapInputs) : result BuildError (list string) :=
  if inputs_unusable inputs then Err (BuildBootstrap "invalid generation or container path") else
  let! archives := try_map (required_archive inputs) REQUIRED_WORKER_IMAGE_KEYS in
  let archives := sort_by (λ a b, String.leb (ia_key a) (ia_key b)) archives in
  let! imports := try_map (archive_commands inputs) archives in
  let commands := concat imports in
  if negb (bi_offline_enforced inputs) then Ok commands else
  let! registry := ok_or (opt_filter (λ r, non_empty (or_address r) && (or_port r != 0)) (bi_registry inputs))
                     BuildRegistry in
  let! mirrors := try_map (mirror_command registry) (registries inputs) in
  Ok (commands ++ mirrors ++ firewall_start ++ map subnet_command (bi_allowed_subnets inputs) ++ firewall_end).
End Mirrors.

(** ** A shell *)

(** Words and operators of a command line without expansions. *)
Inductive Token := Word (w : string) | Operator (o : ascii).

Inductive Mode := Plain | Single | Double.

(** Characters with a meaning that the tokenizer does not know. *)
Definition expands (c : ascii) : bool :=
  any (Ascii.eqb c) ["$"; "`"; "\"; "*"; "?"; "["; "#"; "~"; "!"; "{"; "}"]%char.
Definition operator (c : ascii) : bool :=
  any (Ascii.eqb c) ["|"; "&"; ";"; "<"; ">"; "("; ")"; LF]%char.
Definition blank (c : ascii) : bool := any (Ascii.eqb c) [" "%char; ascii_of_nat 9].

(** The word read so far, if any. *)
Definition flush (cur : option string) (rest : list Token) : list Token :=
  match cur with Some w => Word w :: rest | None => rest end.
Definition grow (cur : option string) (c : ascii) : option string := Some (unwrap_or "" cur +:+ String c "").

Fixpoint tokens (m : Mode) (cur : option string) (s : string) : option (list Token) :=
  match s with
  | EmptyString => match m with Plain => Some (flush cur []) | _ => None end
  | String c s' =>
      match m with
      | Single => if Ascii.eqb c "'"%char then tokens Plain cur s' else tokens Single (grow cur c) s'
      | Double =>
          if Ascii.eqb c DQUOTE then tokens Plain cur s'
          else if any (Ascii.eqb c) ["$"; "`"; "\"]%char then None
          else tokens Double (grow cur c) s'
      | Plain =>
          if Ascii.eqb c "'"%char then tokens Single (Some (unwrap_or "" cur)) s'
          else if Ascii.eqb c DQUOTE then tokens Double (Some (unwrap_or "" cur)) s'
          else if blank c then option_map (flush cur) (tokens Plain None s')
          else if operator c then option_map (λ rest, flush cur (Operator c :: rest)) (tokens Plain None s')
          else if expands c then None
          else tokens Plain (grow cur c) s'
      end
  end.
Definition sh_tokens (s : string) : option (list Token) := tokens Plain None s.

(** A quoted value is one word, whatever it is. *)
Lemma app_char a c b : (a +:+ String c "") +:+ b = a +:+ String c b.
Proof. apply append_assoc. Qed.

Lemma tokens_single_quoted cur v rest :
  tokens Single (Some cur) (replace_char v "'"%char ("'" +:+ dquote +:+ "'" +:+ dquote +:+ "'") +:+ "'" +:+ rest)
  = tokens Plain (Some (cur +:+ v)) rest.
Proof.
  revert cur. induction v as [|c v IH]; intros cur; [cbn; by rewrite append_nil_r|].
  rewrite <-(app_char cur c v), <-IH. cbn [replace_char]. destruct (Ascii.eqb "'" c) eqn:E.
  - apply Ascii.eqb_eq in E as <-. rewrite append_assoc. reflexivity.
  - rewrite append_cons. cbn [tokens]. by rewrite Ascii.eqb_sym, E.
Qed.

Lemma tokens_quoted cur v rest :
  tokens Plain cur (shell_quote v +:+ rest) = tokens Plain (Some (unwrap_or "" cur +:+ v)) rest.
Proof.
  unfold shell_quote. rewrite !append_assoc. apply (tokens_single_quoted (unwrap_or "" cur) v rest).
Qed.

Lemma tokens_quoted_end cur v :
  tokens Plain cur (shell_quote v) = Some [Word (unwrap_or "" cur +:+ v)].
Proof. by rewrite <-(append_nil_r (shell_quote v)), tokens_quoted. Qed.

(** ** What the commands say *)
Definition words (s : list string) : list Token := map Word s.

Definition tag_words (tagged reference : string) : list Token :=
  words ["ctr"; "--namespace"; "k8s.io"; "images"; "tag"; "--force"; tagged; reference].

(** The checksum is verified before the import, and the image tagged under
    three names. *)
Definition archive_words (inputs : BootstrapInputs) (archive : ImageArchive) (exact digest : string)
    : list (list Token) := [
  words ["printf"; "%s  %s\n"; ia_sha256 archive; archive_path inputs archive] ++ [Operator "|"%char]
    ++ words ["sha256sum"; "-c"; "-"];
  words ["ctr"; "--namespace"; "k8s.io"; "images"; "import"; "--digests"; archive_path inputs archive];
  tag_words (ia_tagged archive) (ia_reference archive);
  tag_words (ia_tagged archive) exact;
  tag_words (ia_tagged archive) digest].

Definition mirror_words (content nm : string) : list Token :=
  let directory := "/etc/containerd/certs.d/" +:+ nm in
  words ["umask"; "077"] ++ [Operator ";"%char] ++ words ["mkdir"; "-p"; directory] ++ [Operator ";"%char]
  ++ words ["printf"; "%s"; content] ++ [Operator ">"%char] ++ words [directory +:+ "/hosts.toml"].

Definition subnet_words (subnet : string) : list Token :=
  words ["iptables"; "-A"; "CAPI_OFFLINE"; "-d"; subnet; "-j"; "RETURN"].

(** The tokens of a prefix, and how reading goes on after it. *)
Fixpoint scan (m : Mode) (cur : option string) (s : string) : option (list Token * Mode * option string) :=
  match s with
  | EmptyString => Some ([], m, cur)
  | String c s' =>
      match m with
      | Single => if Ascii.eqb c "'"%char then scan Plain cur s' else scan Single (grow cur c) s'
      | Double =>
          if Ascii.eqb c DQUOTE then scan Plain cur s'
          else if any (Ascii.eqb c) ["$"; "`"; "\"]%char then None
          else scan Double (grow cur c) s'
      | Plain =>
          if Ascii.eqb c "'"%char then scan Single (Some (unwrap_or "" cur)) s'
          else if Ascii.eqb c DQUOTE then scan Double (Some (unwrap_or "" cur)) s'
          else if blank c then option_map (λ '(ts, m, w), (flush cur ts, m, w)) (scan Plain None s')
          else if operator c then option_map (λ '(ts, m, w), (flush cur (Operator c :: ts), m, w)) (scan Plain None s')
          else if expands c then None
          else scan Plain (grow cur c) s'
      end
  end.

Lemma tokens_scan m cur l s :
  tokens m cur (l +:+ s) =
  match scan m cur l with Some (ts, m', cur') => option_map (app ts) (tokens m' cur' s) | None => None end.
Proof.
  revert m cur. induction l as [|c l IH]; intros m cur.
  - cbn [scan]. rewrite append_nil_l. by destruct (tokens m cur s).
  - rewrite append_cons. cbn [scan tokens]. destruct m.
    + destruct (Ascii.eqb c "'"); [apply IH|]. destruct (Ascii.eqb c DQUOTE); [apply IH|].
      destruct (blank c); [|destruct (operator c); [|by destruct (expands c)]].
      all: rewrite IH; destruct (scan Plain None l) as [[[ts m'] w]|]; [|done]; cbn [option_map];
        destruct (tokens m' w s); [|done]; by destruct cur.
    + by destruct (Ascii.eqb c "'").
    + destruct (Ascii.eqb c DQUOTE); [apply IH|]. by destruct (any _ _).
Qed.

(** Reads a command: literals by evaluation, quoted values as words. *)
Ltac shell := unfold sh_tokens; repeat first
  [ rewrite tokens_quoted | rewrite tokens_quoted_end
  | rewrite tokens_scan; match goal with |- context [scan ?m ?w ?l] =>
      let r := eval vm_compute in (scan m w l) in change (scan m w l) with r end; cbv beta iota ];
  cbn [option_map app unwrap_or]; reflexivity.

Lemma tag_command_tokens tagged reference :
  sh_tokens (tag_command tagged reference) = Some (tag_words tagged reference).
Proof. unfold tag_command. shell. Qed.

Lemma subnet_command_tokens subnet : sh_tokens (subnet_command subnet) = Some (subnet_words subnet).
Proof. unfold subnet_command. shell. Qed.

Lemma archive_commands_tokens inputs archive commands :
  archive_commands inputs archive = Ok commands →
  ∃ exact digest, canonical_exact_reference archive = Ok exact ∧ runtime_digest_reference archive = Ok digest ∧
    map sh_tokens commands = map Some (archive_words inputs archive exact digest).
Proof.
  unfold archive_commands. destruct (canonical_exact_reference archive) as [exact|]; [|done].
  destruct (runtime_digest_reference archive) as [digest|]; [|done]. intros [= <-]. exists exact, digest.
  split_and!; [done..|]. cbn [map]. rewrite !tag_command_tokens. unfold archive_words. cbn [map]. f_equal; [|f_equal].
  - shell.
  - shell.
Qed.

Lemma mirror_command_tokens `{SJ : SerdeJson} registry nm command :
  mirror_command registry nm = Ok command →
  ∃ content, mirror_content registry nm = Ok content ∧ sh_tokens command = Some (mirror_words content nm).
Proof.
  unfold mirror_command. destruct (mirror_content registry nm) as [content|]; [|done]. intros [= <-].
  exists content. split; [done|]. shell.
Qed.

(** The words of the commands of an archive or of a mirror. *)
Definition archive_tokens (inputs : BootstrapInputs) (archive : ImageArchive) : list (list Token) :=
  match canonical_exact_reference archive, runtime_digest_reference archive with
  | Ok exact, Ok digest => archive_words inputs archive exact digest
  | _, _ => []
  end.
Definition mirror_tokens `{SerdeJson} (registry : OfflineRegistry) (nm : string) : list Token :=
  match mirror_content registry nm with Ok content => mirror_words content nm | Err _ => [] end.

Definition silenced : list Token := [Word "2"; Operator ">"%char; Word "/dev/null"; Operator "|"%char; Operator "|"%char].
Definition firewall_start_words : list (list Token) := [
  words ["iptables"; "-N"; "CAPI_OFFLINE"] ++ silenced ++ words ["true"];
  words ["iptables"; "-F"; "CAPI_OFFLINE"]].
Definition firewall_end_words : list (list Token) := [
  words ["iptables"; "-A"; "CAPI_OFFLINE"; "-p"; "tcp"; "-m"; "multiport"; "--dports"; "80,443"; "-j"; "REJECT"];
  words ["iptables"; "-A"; "CAPI_OFFLINE"; "-j"; "RETURN"];
  words ["iptables"; "-C"; "OUTPUT"; "-j"; "CAPI_OFFLINE"] ++ silenced
    ++ words ["iptables"; "-I"; "OUTPUT"; "1"; "-j"; "CAPI_OFFLINE"]].

Definition SORTED_KEYS : list string := [
  "CALICO_CNI_IMAGE"; "CALICO_KUBE_CONTROLLERS_IMAGE"; "CALICO_NODE_IMAGE"; "CNPG_CONTROLLER_IMAGE";
  "KONNECTIVITY_AGENT_IMAGE"; "KUBE_PROXY_IMAGE"; "POSTGRES_IMAGE"].

Lemma Ok_inj {E A} (a b : A) : @Ok E A a = Ok b → a = b.
Proof. congruence. Qed.

Lemma try_map_tokens {A} (f : A → result BuildError (list string)) (g : A → list (list Token)) l ls :
  (∀ a commands, f a = Ok commands → map sh_tokens commands = map Some (g a)) →
  try_map f l = Ok ls → map sh_tokens (concat ls) = map Some (concat (map g l)).
Proof.
  intros Hf. revert ls. induction l as [|a l IH]; intros ls; cbn [try_map].
  - by intros [= <-].
  - destruct (f a) as [x|] eqn:E; [|done]. destruct (try_map f l) as [xs|]; [|done]. intros [= <-].
    cbn [concat map]. rewrite !map_app. by rewrite (Hf a x E), (IH xs).
Qed.

Lemma sort_insert_keys a l :
  map ia_key (sort_insert (λ a b, String.leb (ia_key a) (ia_key b)) a l)
  = sort_insert String.leb (ia_key a) (map ia_key l).
Proof. induction l as [|b l IH]; [done|]. cbn. destruct (String.leb _ _); [done|]. cbn. by rewrite IH. Qed.

Lemma sort_keys l :
  map ia_key (sort_by (λ a b, String.leb (ia_key a) (ia_key b)) l) = sort_by String.leb (map ia_key l).
Proof. induction l as [|a l IH]; [done|]. cbn [sort_by map]. by rewrite sort_insert_keys, IH. Qed.

Lemma required_archive_Ok inputs key archive :
  required_archive inputs key = Ok archive →
  filter_list (λ a, ia_key a == key) (bi_archives inputs) = [archive] ∧ ia_worker archive = true ∧
  archive_unusable archive = false.
Proof.
  unfold required_archive. destruct (filter_list _ _) as [|a [|b l]] eqn:E; [done| |by destruct (ia_worker a)].
  destruct (ia_worker a) eqn:Hw; [|done]. cbn. destruct (archive_unusable a) eqn:Hu; [done|]. by intros [= <-].
Qed.

Lemma required_archive_key inputs key archive : required_archive inputs key = Ok archive → ia_key archive = key.
Proof.
  intros [H _]%required_archive_Ok.
  assert (archive ∈ filter_list (λ a, ia_key a == key) (bi_archives inputs)) as Hi by (rewrite H; left).
  apply elem_of_filter_list in Hi as [Hk _]. by apply bool_decide_eq_true in Hk.
Qed.

(** C9. The commands that prepare a worker are, as a POSIX shell reads them,
    exactly the intended ones: for each of the seven required images, which
    has one archive of the cache with a well-formed path and digest, the
    checksum test, the import and the three tags; and offline the mirror of
    every registry and the firewall.  No path, tag, reference, subnet or
    registry name can add a word, an operator or an expansion. *)
Theorem bootstrap_commands_exact `{SJ : SerdeJson} inputs commands :
  worker_bootstrap_commands inputs = Ok commands →
  ∃ archives offline,
    map ia_key archives = SORTED_KEYS ∧
    (∀ a, a ∈ archives → filter_list (λ b, ia_key b == ia_key a) (bi_archives inputs) = [a] ∧
       ia_worker a = true ∧ archive_unusable a = false) ∧
    map sh_tokens commands = map Some (concat (map (archive_tokens inputs) archives) ++ offline) ∧
    if bi_offline_enforced inputs
    then ∃ registry, bi_registry inputs = Some registry ∧ non_empty (or_address registry) = true ∧
      or_port registry ≠ 0 ∧
      offline = map (mirror_tokens registry) (registries inputs) ++ firewall_start_words
                ++ map subnet_words (bi_allowed_subnets inputs) ++ firewall_end_words
    else offline = [].
Proof.
  unfold worker_bootstrap_commands. destruct (inputs_unusable inputs); [done|].
  destruct (try_map (required_archive inputs) _) as [archives|] eqn:Ha; [|done].
  set (sorted := sort_by _ archives). destruct (try_map (archive_commands inputs) sorted) as [imports|] eqn:Hi; [|done].
  assert (map ia_key archives = REQUIRED_WORKER_IMAGE_KEYS) as Hkeys.
  { apply try_map_Ok in Ha. clear -Ha. induction Ha as [|k a ks l H HF IH]; [done|]. cbn.
    by rewrite (required_archive_key _ _ _ H), IH. }
  assert (map ia_key sorted = SORTED_KEYS) as Hs by (unfold sorted; rewrite sort_keys, Hkeys; vm_compute; reflexivity).
  assert (∀ a, a ∈ sorted → filter_list (λ b, ia_key b == ia_key a) (bi_archives inputs) = [a] ∧
       ia_worker a = true ∧ archive_unusable a = false) as Hgood.
  { intros a Hin. unfold sorted in Hin. rewrite elem_of_sort_by in Hin. apply try_map_Ok in Ha.
    apply list_elem_of_lookup in Hin as [n Hn]. destruct (Forall2_lookup_r _ _ _ _ _ Ha Hn) as (k & _ & Hk).
    rewrite (required_archive_key _ _ _ Hk). by apply required_archive_Ok. }
  assert (map sh_tokens (concat imports) = map Some (concat (map (archive_tokens inputs) sorted))) as Himp.
  { eapply try_map_tokens; [|done]. intros a l (e & d & He & Hd & Hl)%archive_commands_tokens.
    unfold archive_tokens. by rewrite He, Hd. }
  destruct (bi_offline_enforced inputs); cbn [negb].
  - destruct (bi_registry inputs) as [registry|]; [|done]. cbn [opt_filter].
    destruct (non_empty (or_address registry) && (or_port registry != 0)) eqn:Hr; [|done]. cbn [ok_or].
    destruct (try_map (mirror_command registry) (registries inputs)) as [mirrors|] eqn:Hm; [|done]. intros <-%Ok_inj.
    eexists sorted, _. split_and!; [done|done| |exists registry; apply andb_true_iff in Hr as [Hr1 Hr2%negb_true_iff%bool_decide_eq_false]; by split_and!].
    rewrite !map_app, Himp. apply (f_equal (app _)). apply (f_equal2 app); [|apply (f_equal2 app); [done|apply (f_equal2 app); [|done]]].
    + apply try_map_Ok in Hm. clear -Hm. induction Hm as [|nm c nms l H HF IH]; [done|]. cbn.
      apply mirror_command_tokens in H as (content & Hc & Ht). unfold mirror_tokens at 1. by rewrite Hc, Ht, IH.
    + rewrite !map_map. apply map_ext. intros. apply subnet_command_tokens.
  - intros [= <-]. exists sorted, []. rewrite app_nil_r. by split_and!.
Qed.

Module BootstrapFixture.
#[local] Instance json : SerdeJson := {| from_str _ := None;
  to_string v := match v with VString s => Some (dquote +:+ s +:+ dquote) | _ => None end |}.

(** Names with quotes and operators in them. *)
Definition archive (key : string) : ImageArchive := {|
  ia_key := key; ia_path := "images/it's; reboot.tar"; ia_sha256 := String.string_of_list_ascii (repeat "a"%char 64);
  ia_reference := "r/" +:+ key +:+ "@sha256:$(id)"; ia_tagged := "quay.io/" +:+ key +:+ ":1 && x"; ia_worker := true |}.

Definition inputs : BootstrapInputs := {|
  bi_archives := map archive REQUIRED_WORKER_IMAGE_KEYS; bi_generation := "g1"; bi_cache_container_path := "/cache/";
  bi_storage_container_path := "/storage"; bi_offline_enforced := true;
  bi_registry := Some {| or_address := "10.0.0.9"; or_port := 5000 |}; bi_allowed_subnets := ["10.0.0.0/24' | sh '"] |}.

Definition commands : list string := match worker_bootstrap_commands inputs with Ok l => l | Err _ => [] end.
End BootstrapFixture.

Lemma bootstrap_commands_exact_witness :
  let _ := BootstrapFixture.json in
  worker_bootstrap_commands BootstrapFixture.inputs = Ok BootstrapFixture.commands ∧
  length BootstrapFixture.commands = 42%nat ∧
  ∃ archives, map ia_key archives = SORTED_KEYS.
Proof.
  intros SJ. assert (worker_bootstrap_commands BootstrapFixture.inputs = Ok BootstrapFixture.commands) as H
    by (vm_compute; reflexivity).
  destruct (bootstrap_commands_exact _ _ H) as (archives & offline & Hk & _).
  split_and!; [exact H|vm_compute; reflexivity|by exists archives].
Defined.
