(* ===== verification/TenantClient.v ===== *)
(** * Access to the hosted cluster

    [controller/src/tenant_client.rs]: which kubeconfig the controller accepts
    for the hosted cluster of a Tenant, how it builds a client from it, and the
    bootstrap roles it keeps there.  YAML, URLs and base64 are parameters; the
    client itself is what the hosted operations of [Ops] use. *)

From S2P Require Import Prelude RustStd Externals Kube Errors Api Management Ownership Foundation Docker.
From S2P Require Import Allocation ReconcileErrors Sanitize Readiness Effects Ops Manifests Bundles.

Open Scope Z_scope.

(** ** [std::str::from_utf8] *)
Definition continuation (lo hi : Z) (c : Z) : bool := (lo <=? c) && (c <=? hi).

Fixpoint utf8_valid (l : list Z) : bool :=
  let tail := continuation 128 191 in
  match l with
  | [] => true
  | c :: l1 =>
      if c <=? 127 then utf8_valid l1 else
      match l1 with
      | [] => false
      | c1 :: l2 =>
          if (194 <=? c) && (c <=? 223) then tail c1 && utf8_valid l2 else
          match l2 with
          | [] => false
          | c2 :: l3 =>
              if (224 <=? c) && (c <=? 239)
              then continuation (if c =? 224 then 160 else 128) (if c =? 237 then 159 else 191) c1
                   && tail c2 && utf8_valid l3
              else
              match l3 with
              | [] => false
              | c3 :: l4 =>
                  (240 <=? c) && (c <=? 244)
                  && continuation (if c =? 240 then 144 else 128) (if c =? 244 then 143 else 191) c1
                  && tail c2 && tail c3 && utf8_valid l4
              end
          end
      end
  end.
Definition from_utf8 (s : string) : bool := utf8_valid (map code (bytes s)).

(** ** [url], [http::uri], [base64] and [serde_yaml] *)
Record Url := {
  url_scheme : string;
  url_host : option string;
  url_username : string;
  url_password : option string;
  url_query : option string;
  url_fragment : option string;
  url_path : string;
}.

Class ClientCodec := {
  yaml_kubeconfig : string → option KubeConfig;
  (** The port of an authority that parses. *)
  authority_port : string → option (option Z);
  url_parse : string → option Url;
  base64_decode : string → option string;
}.

Section Client.
Context `{CC : ClientCodec}.

Definition validate_endpoint (server expected : string) : result TenantClientError unit :=
  let invalid := Kubeconfig "endpoint does not match the allocation" in
  let! port := ok_or (authority_port expected) invalid in
  let! url := ok_or (url_parse server) invalid in
  if is_none_or (λ port, port =? 0) port
     || (server != "https://" +:+ expected)
     || (url_scheme url != "https")
     || is_none (url_host url)
     || non_empty (url_username url)
     || is_some (url_password url)
     || is_some (url_query url)
     || is_some (url_fragment url)
     || (url_path url != "/")
  then Err invalid else Ok tt.

Definition required_data (value : option string) (field : string) : result TenantClientError unit :=
  let! value := ok_or value (Kubeconfig field) in
  let! decoded := ok_or (base64_decode value) (Kubeconfig field) in
  if is_empty decoded then Err (Kubeconfig field) else Ok tt.

(** [any] with the set of the names seen. *)
Fixpoint ambiguous (seen : gset string) (names : list string) : bool :=
  match names with
  | [] => false
  | nm :: rest => is_empty nm || bool_decide (nm ∈ seen) || ambiguous ({[nm]} ∪ seen) rest
  end.
Definition unique_names (names : list string) : result TenantClientError unit :=
  if ambiguous ∅ names then Err (Kubeconfig "ambiguous named entries") else Ok tt.

(** What [entries.iter().find(|entry| entry.name == name)] names. *)
Definition named_entry {A} (entries : list (string * option A)) (nm : string) : option A :=
  and_then snd (find_first (λ entry, entry.1 == nm) entries).
Definition retain {A} (entries : list (string * A)) (nm : string) : list (string * A) :=
  filter_list (λ entry, entry.1 == nm) entries.

(** Any way to authenticate or to reach the cluster but embedded certificates. *)
Definition other_mechanism (cluster : ClusterInfo) (auth : AuthInfo) : bool :=
  (cl_insecure_skip_tls_verify cluster == Some true)
  || is_some (cl_certificate_authority cluster) || is_some (cl_proxy_url cluster) || is_some (cl_tls_server_name cluster)
  || is_some (ai_client_certificate auth) || is_some (ai_client_key auth) || is_some (ai_token auth)
  || is_some (ai_token_file auth) || is_some (ai_username auth) || is_some (ai_password auth)
  || is_some (ai_exec auth) || is_some (ai_auth_provider auth) || is_some (ai_impersonate auth)
  || is_some (ai_impersonate_uid auth) || is_some (ai_impersonate_groups auth)
  || is_some (ai_impersonate_user_extra auth) || match ai_other auth with [] => false | _ => true end.

(** The checks of a parsed configuration, and the entries it selects. *)
Definition select_context (configuration : KubeConfig) (endpoint : string) : result TenantClientError KubeConfig :=
  let! _ := unique_names (map fst (kc_contexts configuration)) in
  let! _ := unique_names (map fst (kc_clusters configuration)) in
  let! _ := unique_names (map fst (kc_auth_infos configuration)) in
  let! current := ok_or (filter_non_empty (kc_current_context configuration))
                    (Kubeconfig "current context is missing") in
  let! context := ok_or (named_entry (kc_contexts configuration) current)
                    (Kubeconfig "current context is incomplete") in
  let! user := ok_or (filter_non_empty (cx_user context)) (Kubeconfig "current context has no user") in
  let! cluster := ok_or (named_entry (kc_clusters configuration) (cx_cluster context)) (Kubeconfig "cluster is missing") in
  let! auth := ok_or (named_entry (kc_auth_infos configuration) user) (Kubeconfig "user is missing") in
  let! _ := validate_endpoint (unwrap_or "" (cl_server cluster)) endpoint in
  if other_mechanism cluster auth
  then Err (Kubeconfig "only embedded CA and client certificate authentication is supported") else
  let! _ := required_data (cl_certificate_authority_data cluster) "CA data is incomplete" in
  let! _ := required_data (ai_client_certificate_data auth) "client certificate data is incomplete" in
  let! _ := required_data (ai_client_key_data auth) "client key data is incomplete" in
  Ok {| kc_current_context := kc_current_context configuration;
        kc_contexts := retain (kc_contexts configuration) current;
        kc_clusters := retain (kc_clusters configuration) (cx_cluster context);
        kc_auth_infos := retain (kc_auth_infos configuration) user |}.

Definition control_plane_matches (control_plane : DynamicObject) : bool :=
  any (λ resource, is_some_and (λ types, (tm_kind types == mr_kind resource)
                                         && (tm_api_version types == mr_api_version resource)) (dyn_types control_plane))
    (filter_list (λ resource, mr_kind resource == "KamajiControlPlane")
       (MANAGEMENT_RESOURCES ++ AZURE_MANAGEMENT_RESOURCES)).

Definition secret_value (secret : Secret) : option string :=
  and_then (λ data : gmap string string, data !! "value") (secret_data secret).

Definition parse_owned_kubeconfig_with_owner (secret : Secret) (control_plane : DynamicObject)
    (alternate_owner : option DynamicObject) (ns tenant_name endpoint secret_name : string)
    : result TenantClientError KubeConfig :=
  if is_empty ns || is_empty tenant_name || is_empty secret_name
     || (name (secret_meta secret) != Some secret_name)
     || (namespace (secret_meta secret) != Some ns)
     || is_none_or is_empty (uid (secret_meta secret))
  then Err SecretContractInvalid else
  if (name (dyn_meta control_plane) != Some tenant_name)
     || (namespace (dyn_meta control_plane) != Some ns)
     || negb (control_plane_matches control_plane)
  then Err SecretOwnershipUnproven else
  let! _ := map_err (λ _, SecretOwnershipUnproven)
    (validate_kubeconfig_secret_owners secret (control_plane :: option_list alternate_owner)) in
  if (secret_type secret != Some "cluster.x-k8s.io/secret") || is_none_or is_empty (secret_value secret)
  then Err SecretContractInvalid else
  let! text := ok_or (secret_value secret) SecretContractInvalid in
  if negb (from_utf8 text) then Err (Kubeconfig "invalid UTF-8") else
  let! configuration := ok_or (yaml_kubeconfig text) (Kubeconfig "invalid YAML") in
  select_context configuration endpoint.

Definition secret_resource_name (tenant_name : string) : string := catalogued_name "Secret" tenant_name.

Definition parse_owned_kubeconfig (secret : Secret) (control_plane : DynamicObject) (ns tenant_name endpoint : string)
    : result TenantClientError KubeConfig :=
  parse_owned_kubeconfig_with_owner secret control_plane None ns tenant_name endpoint (secret_resource_name tenant_name).

(** The client of a validated configuration, with its timeouts. *)
Definition open_client (configuration : KubeConfig) : io TenantClientError unit :=
  try! config <- perform_map (λ _, ClientConfiguration) (perform (ConfigLoad configuration)) ;;
  if is_none_or (λ roots, match roots with [] => true | _ => false end) (conf_root_cert config)
  then Ret (Err ClientConfiguration) else
  perform_map (λ _, ClientConfiguration) (perform (ClientBuild {|
    conf_root_cert := conf_root_cert config; conf_proxy_url := None;
    conf_connect_timeout := Some 30; conf_read_timeout := Some 30; conf_write_timeout := Some 30;
    conf_default_retry := false |})).

Definition load_tenant_client_with_owner_named (control_plane : DynamicObject) (alternate_owner : option DynamicObject)
    (ns tenant_name endpoint secret_name : string) : io TenantClientError Secret :=
  if is_empty secret_name then Ret (Err SecretPending) else
  try! found <- perform_map (λ e, tenant_request "read kubeconfig Secret" e false) (perform (GetSecret ns secret_name)) ;;
  pure! secret <- ok_or found SecretPending ;;
  pure! configuration <-
    parse_owned_kubeconfig_with_owner secret control_plane alternate_owner ns tenant_name endpoint secret_name ;;
  try! _ <- open_client configuration ;;
  Ret (Ok secret).

Definition load_tenant_client_with_owner (control_plane : DynamicObject) (alternate_owner : option DynamicObject)
    (ns tenant_name endpoint : string) : io TenantClientError Secret :=
  load_tenant_client_with_owner_named control_plane alternate_owner ns tenant_name endpoint
    (secret_resource_name tenant_name).
End Client.

(** ** Bootstrap roles *)
Definition validate_bootstrap_role (actual expected : Role) : result TenantClientError unit :=
  if (name (role_meta actual) != name (role_meta expected))
     || (namespace (role_meta actual) != namespace (role_meta expected))
     || (role_rules actual != role_rules expected)
  then Err (BootstrapMismatch "Role") else Ok tt.

Definition validate_bootstrap_binding (actual expected : RoleBinding) : result TenantClientError unit :=
  if (name (binding_meta actual) != name (binding_meta expected))
     || (namespace (binding_meta actual) != namespace (binding_meta expected))
     || (binding_role_ref actual != binding_role_ref expected)
     || negb (bootstrap_subjects_match (unwrap_or [] (binding_subjects actual)) (unwrap_or [] (binding_subjects expected)))
  then Err (BootstrapMismatch "RoleBinding") else Ok tt.

(** A request that meets an object created meanwhile. *)
Definition http_conflict (e : KubeError) : bool := match e with KubeApi code _ _ => code =? 409 | KubeOther _ => false end.

Definition ensure_bootstrap_role (desired : Role) (nm : string) : io TenantClientError unit :=
  try! current <- perform_map (λ e, tenant_request "read bootstrap Role" e true) (perform (HostedRoleFind nm)) ;;
  match current with
  | Some current => Ret (validate_bootstrap_role current desired)
  | None =>
      do! created <- perform (HostedRoleCreate desired) ;;
      match created with
      | Ok created => Ret (validate_bootstrap_role created desired)
      | Err error =>
          if http_conflict error then
            try! current <- perform_map (λ e, tenant_request "reread bootstrap Role" e true) (perform (HostedRoleRead nm)) ;;
            Ret (validate_bootstrap_role current desired)
          else Ret (Err (tenant_request "create bootstrap Role" error true))
      end
  end.

Definition ensure_bootstrap_binding (desired : RoleBinding) (nm : string) : io TenantClientError unit :=
  try! current <- perform_map (λ e, tenant_request "read bootstrap RoleBinding" e true) (perform (HostedBindingFind nm)) ;;
  match current with
  | Some current => Ret (validate_bootstrap_binding current desired)
  | None =>
      do! created <- perform (HostedBindingCreate desired) ;;
      match created with
      | Ok created => Ret (validate_bootstrap_binding created desired)
      | Err error =>
          if http_conflict error then
            try! current <- perform_map (λ e, tenant_request "reread bootstrap RoleBinding" e true)
                              (perform (HostedBindingRead nm)) ;;
            Ret (validate_bootstrap_binding current desired)
          else Ret (Err (tenant_request "create bootstrap RoleBinding" error true))
      end
  end.

Fixpoint ensure_bootstrap_roles (l : list BootstrapRole) : io TenantClientError unit :=
  match l with
  | [] => Ret (Ok tt)
  | desired :: rest =>
      let nm := unwrap_or "" (name (role_meta (br_role desired))) in
      try! _ <- ensure_bootstrap_role (br_role desired) nm ;;
      try! _ <- ensure_bootstrap_binding (br_binding desired) nm ;;
      ensure_bootstrap_roles rest
  end.

Definition ensure_bootstrap_rbac : io TenantClientError unit := ensure_bootstrap_roles bootstrap_rbac.

(** ** Named entries *)
Lemma ambiguous_false seen names :
  ambiguous seen names = false → NoDup names ∧ ∀ nm, nm ∈ names → nm ≠ "" ∧ nm ∉ seen.
Proof.
  revert seen. induction names as [|nm names IH]; intros seen; cbn.
  - intros _. split; [constructor|]. intros nm H. by apply not_elem_of_nil in H.
  - rewrite !orb_false_iff. intros [[He Hs] Hr]. apply is_empty_false in He. apply bool_decide_eq_false in Hs.
    apply IH in Hr as [Hnd Hr]. split.
    + constructor; [|done]. intros [_ Hin]%Hr. set_solver.
    + intros nm' [->|[H1 H2]%Hr]%elem_of_cons; [done|]. set_solver.
Qed.

Lemma retain_named {A} (entries : list (string * option A)) nm x :
  NoDup (map fst entries) → named_entry entries nm = Some x → retain entries nm = [(nm, Some x)].
Proof.
  unfold named_entry, retain. induction entries as [|[k v] l IH]; [done|]. cbn [find_first filter_list map fst].
  intros [Hk Hnd]%list.NoDup_cons. case_bool_decide as E; [|by apply IH].
  cbn. intros ->. subst k. f_equal. clear IH Hnd. induction l as [|[k v] l IH]; [done|]. cbn in *.
  apply not_elem_of_cons in Hk as [Hne Hk]. rewrite bool_decide_eq_false_2 by congruence. by apply IH.
Qed.

Section Strict.
Context `{CC : ClientCodec}.

Lemma unique_names_Ok names u : unique_names names = Ok u → NoDup names.
Proof. unfold unique_names. destruct (ambiguous ∅ names) eqn:E; [done|]. by apply ambiguous_false in E as [? _]. Qed.

(** Data that is embedded and decodes to something. *)
Definition embedded (value : option string) : Prop :=
  ∃ text decoded, value = Some text ∧ base64_decode text = Some decoded ∧ decoded ≠ "".

Lemma required_data_Ok value field u : required_data value field = Ok u → embedded value.
Proof.
  unfold required_data. destruct value as [text|]; [|done]. cbn. destruct (base64_decode text) as [decoded|] eqn:E; [|done].
  cbn. destruct (is_empty decoded) eqn:He; [done|]. apply is_empty_false in He. by exists text, decoded.
Qed.

(** The only way a configuration may give to reach a cluster. *)
Record exact_configuration (endpoint : string) (k : KubeConfig) : Prop := {
  ec_entries : ∃ current user context cluster auth,
    kc_current_context k = Some current ∧ kc_contexts k = [(current, Some context)] ∧
    cx_user context = Some user ∧ kc_clusters k = [(cx_cluster context, Some cluster)] ∧
    kc_auth_infos k = [(user, Some auth)] ∧
    cl_server cluster = Some ("https://" +:+ endpoint) ∧ other_mechanism cluster auth = false ∧
    embedded (cl_certificate_authority_data cluster) ∧ embedded (ai_client_certificate_data auth) ∧
    embedded (ai_client_key_data auth);
}.

Lemma validate_endpoint_Ok server endpoint u :
  validate_endpoint (unwrap_or "" server) endpoint = Ok u → server = Some ("https://" +:+ endpoint).
Proof.
  unfold validate_endpoint. destruct (authority_port endpoint) as [port|]; [|done]. cbn [ok_or].
  destruct (url_parse _) as [url|]; [|done]. cbn [ok_or]. destruct (is_none_or _ port); [done|].
  case_bool_decide as E; [|done]. intros _. destruct server as [s|]; cbn in E; [by subst|done].
Qed.

Lemma select_context_Ok configuration endpoint k :
  select_context configuration endpoint = Ok k → exact_configuration endpoint k.
Proof.
  unfold select_context. destruct (unique_names (map fst (kc_contexts _))) as [u1|] eqn:H1; [|done].
  destruct (unique_names (map fst (kc_clusters _))) as [u2|] eqn:H2; [|done].
  destruct (unique_names (map fst (kc_auth_infos _))) as [u3|] eqn:H3; [|done].
  destruct (filter_non_empty (kc_current_context _)) as [current|] eqn:H4; [|done]. cbn [ok_or].
  destruct (named_entry (kc_contexts _) _) as [context|] eqn:H5; [|done]. cbn [ok_or].
  destruct (filter_non_empty (cx_user _)) as [user|] eqn:H6; [|done]. cbn [ok_or].
  destruct (named_entry (kc_clusters _) _) as [cluster|] eqn:H7; [|done]. cbn [ok_or].
  destruct (named_entry (kc_auth_infos _) _) as [auth|] eqn:H8; [|done]. cbn [ok_or].
  destruct (validate_endpoint _ _) as [u4|] eqn:H9; [|done]. destruct (other_mechanism cluster auth) eqn:H10; [done|].
  destruct (required_data (cl_certificate_authority_data _) _) as [u5|] eqn:H11; [|done].
  destruct (required_data (ai_client_certificate_data _) _) as [u6|] eqn:H12; [|done].
  destruct (required_data (ai_client_key_data _) _) as [u7|] eqn:H13; [|done]. intros [= <-]. split.
  apply filter_non_empty_Some in H4 as [H4 _]. apply filter_non_empty_Some in H6 as [H6 _].
  exists current, user, context, cluster, auth. cbn.
  split_and!; [done|by apply retain_named; [by eapply unique_names_Ok|]|done|by apply retain_named; [by eapply unique_names_Ok|]
    |by apply retain_named; [by eapply unique_names_Ok|]|by eapply validate_endpoint_Ok|done|by eapply required_data_Ok..].
Qed.

(** The Secret of a Tenant: its identity, its one owner and its type. *)
Record owned_secret (secret : Secret) (allowed : list DynamicObject) (ns secret_name : string) : Prop := {
  os_name : name (secret_meta secret) = Some secret_name;
  os_namespace : namespace (secret_meta secret) = Some ns;
  os_uid : is_none_or is_empty (uid (secret_meta secret)) = false;
  os_type : secret_type secret = Some "cluster.x-k8s.io/secret";
  os_owner : ∃ owner object, owner_references (secret_meta secret) = Some [owner] ∧ object ∈ allowed ∧
    uid (dyn_meta object) = Some (owner_uid owner) ∧ name (dyn_meta object) = Some (owner_name owner) ∧ owner_uid owner ≠ "";
}.

Lemma secret_owners_Ok secret allowed u :
  validate_kubeconfig_secret_owners secret allowed = Ok u →
  ∃ owner object, owner_references (secret_meta secret) = Some [owner] ∧ object ∈ allowed ∧
    uid (dyn_meta object) = Some (owner_uid owner) ∧ name (dyn_meta object) = Some (owner_name owner) ∧ owner_uid owner ≠ "".
Proof.
  unfold validate_kubeconfig_secret_owners. destruct (owner_references _) as [[|owner [|]]|]; [done| |done..].
  destruct (any _ allowed) eqn:E; [|done]. intros _. apply any_true in E as (object & Ho & Hr).
  unfold reference_matches in Hr. rewrite !andb_true_iff, !bool_decide_eq_true, non_empty_true in Hr.
  exists owner, object. naive_solver.
Qed.

Lemma parse_owned_Ok secret control_plane alternate ns tenant_name endpoint secret_name k :
  parse_owned_kubeconfig_with_owner secret control_plane alternate ns tenant_name endpoint secret_name = Ok k →
  owned_secret secret (control_plane :: option_list alternate) ns secret_name ∧ exact_configuration endpoint k.
Proof.
  unfold parse_owned_kubeconfig_with_owner. intros H.
  destruct (is_empty ns || _ || _ || _ || _ || _) eqn:E1; [done|]. rewrite !orb_false_iff in E1.
  destruct E1 as [[[[[_ _] _] E1] E2] E3]. destruct ((_ || _) || _) in H; [done|].
  destruct (validate_kubeconfig_secret_owners _ _) as [u|] eqn:Ho; [|done]. cbn [map_err] in H.
  destruct ((secret_type secret != _) || _) eqn:E4 in H; [done|]. rewrite orb_false_iff in E4. destruct E4 as [E4 _].
  destruct (secret_value secret); [|done]. cbn [ok_or] in H. destruct (from_utf8 _); [|done].
  destruct (yaml_kubeconfig _); [|done]. cbn [ok_or negb] in H. apply select_context_Ok in H. split; [|done].
  apply negb_false_iff, bool_decide_eq_true in E1, E2, E4. split; [done..|by eapply secret_owners_Ok].
Qed.
End Strict.
