(* ===== verification/TenantObjects.v ===== *)
(** * Creating and repairing objects

    [controller/src/reconcile/objects.rs]: reading or creating an object,
    checking that it is the Tenant's, repairing owned objects by a forced apply
    bound to the version that was checked, and the ordered creation of a bundle
    in the hosted cluster.  A client is the side it is connected to. *)

From S2P Require Import Prelude RustStd Externals Kube Errors Api Management Ownership Foundation Docker.
From S2P Require Import Allocation ReconcileErrors Sanitize Readiness Effects Ops Manifests Bundles.

Open Scope Z_scope.

Definition api_for (side : Side) (types : TypeMeta) (ns : option string) : ObjectApi := {|
  oa_side := side; oa_types := types; oa_namespace := filter_non_empty ns |}.

Definition object_api (side : Side) (object : DynamicObject) : result ReconcileError ObjectApi :=
  let! types := ok_or (dyn_types object) (RInvalidInput "object has no kind") in
  Ok (api_for side types (namespace (dyn_meta object))).

(** [ResourceExt::name_any] on an object with a name. *)
Definition object_name (object : DynamicObject) : string := unwrap_or "" (name (dyn_meta object)).

Definition role (object : DynamicObject) : result ReconcileError string :=
  ok_or (filter_non_empty (get_annotation (dyn_meta object) RESOURCE_ANNOTATION))
    (RInvalidInput "desired resource has no ownership role").

Definition identity_matches (current desired : DynamicObject) : result ReconcileError unit :=
  if (name (dyn_meta current) != name (dyn_meta desired))
     || (filter_non_empty (namespace (dyn_meta current)) != filter_non_empty (namespace (dyn_meta desired)))
     || (dyn_types current != dyn_types desired)
  then Err (ROwnershipInvalid "API returned a different resource identity") else Ok tt.

Definition name_taken (error : KubeError) : bool :=
  match error with
  | KubeApi code reason _ => (code =? 409) && (reason == "AlreadyExists")
  | KubeOther _ => false
  end.

Record Ensured := { en_object : DynamicObject; en_created : bool }.

(** [data.remove("status")] on a copy. *)
Definition without_status (object : DynamicObject) : DynamicObject :=
  with_data object (json_remove (dyn_data object) "status").

Definition types_kind (object : DynamicObject) : option string := option_map tm_kind (dyn_types object).

Definition missing_error (desired : DynamicObject) : ReconcileError :=
  let kind := unwrap_or "resource" (types_kind desired) in
  RDegraded (if kind == "Cluster" then "RootClusterMissing" else "DurableObjectMissing")
    ("recorded " +:+ kind +:+ "/" +:+ object_name desired +:+ " is missing").

(** The tail of [read_or_create]: an object that was there. *)
Definition existing (desired current : DynamicObject) : io ReconcileError Ensured :=
  pure! _ <- identity_matches current desired ;;
  Ret (Ok {| en_object := current; en_created := false |}).

Definition create_object (api : ObjectApi) (desired : DynamicObject) : io ReconcileError Ensured :=
  do! outcome <- perform (ObjectCreate api (without_status desired)) ;;
  match outcome with
  | Ok created =>
      pure! _ <- identity_matches created desired ;;
      Ret (Ok {| en_object := created; en_created := true |})
  | Err error =>
      if name_taken error
      then try! current <- perform_map RKube (perform (ObjectRead api (object_name desired))) ;;
           existing desired current
      else Ret (Err (RKube error))
  end.

Definition read_or_create (side : Side) (desired : DynamicObject) (known : option DynamicObject)
    (refuse_missing : bool) : io ReconcileError Ensured :=
  pure! api <- object_api side desired ;;
  try! current <- match known with
    | Some current => Ret (Ok (Some current))
    | None => perform_map RKube (perform (ObjectFind api (object_name desired)))
    end ;;
  match current with
  | Some current => existing desired current
  | None => if refuse_missing then Ret (Err (missing_error desired)) else create_object api desired
  end.

(** The ownership check with the role of the desired object. *)
Definition check_tenant_object (object desired : DynamicObject) (identity : Identity) : result ReconcileError unit :=
  let! resource := role desired in
  map_err ROwnership (validate_tenant_object_ownership (dyn_meta object) identity resource).

Definition check_root_object (object desired : DynamicObject) (identity : Identity) : result ReconcileError unit :=
  let! resource := role desired in
  map_err ROwnership (validate_root_ownership (dyn_meta object) identity resource).

Definition ensure_static (side : Side) (desired : DynamicObject) (identity : Identity) : io ReconcileError Ensured :=
  try! result <- read_or_create side desired None false ;;
  pure! _ <- check_tenant_object (en_object result) desired identity ;;
  Ret (Ok result).

Definition with_version (m : ObjectMeta) (u rv : option string) : ObjectMeta := {|
  name := name m; namespace := namespace m; uid := u; resource_version := rv; generation := generation m;
  labels := labels m; annotations := annotations m; owner_references := owner_references m;
  finalizers := finalizers m; deletion_timestamp := deletion_timestamp m |}.

(** The desired object, at the identity and version of the current one. *)
Definition applied_object (desired current : DynamicObject) : DynamicObject :=
  without_status (with_meta desired
    (with_version (dyn_meta desired) (uid (dyn_meta current)) (resource_version (dyn_meta current)))).

Definition deleting_error (object : DynamicObject) : ReconcileError :=
  RPending (object_name object +:+ " is deleting").

Definition apply_error (error : KubeError) : ReconcileError :=
  match error with
  | KubeApi 422 _ _ =>
      RDegraded "ImmutableDrift" "owned resource cannot accept its desired immutable fields"
  | error => RKube error
  end.

Definition apply_exact (side : Side) (desired current : DynamicObject) : io ReconcileError DynamicObject :=
  if is_some (deletion_timestamp (dyn_meta current)) then Ret (Err (deleting_error current)) else
  if is_none_or is_empty (uid (dyn_meta current)) || is_none_or is_empty (resource_version (dyn_meta current))
  then Ret (Err (ROwnershipInvalid "dynamic object has no UID/resourceVersion")) else
  pure! api <- object_api side desired ;;
  try! response <- perform_map apply_error (perform (ObjectApply api (object_name desired) (applied_object desired current))) ;;
  pure! _ <- identity_matches response desired ;;
  if uid (dyn_meta response) != uid (dyn_meta current)
  then Ret (Err (ROwnershipInvalid "resource identity changed during apply"))
  else Ret (Ok response).

Definition ensure_dynamic (side : Side) (desired : DynamicObject) (identity : Identity) : io ReconcileError Ensured :=
  try! result <- ensure_static side desired identity ;;
  if en_created result then Ret (Ok result) else
  try! object <- apply_exact side desired (en_object result) ;;
  pure! _ <- check_tenant_object object desired identity ;;
  Ret (Ok {| en_object := object; en_created := false |}).

Definition same_object (desired object : DynamicObject) : bool :=
  (dyn_types object == dyn_types desired) && (name (dyn_meta object) == name (dyn_meta desired)).

Definition has_kind (kind : string) (object : DynamicObject) : bool := types_kind object == Some kind.

Definition provider_owner (object : DynamicObject) (tenant_name : string) (required : bool)
    (inventory : list DynamicObject) : result ReconcileError unit :=
  map_err ROwnership (validate_provider_owner object tenant_name required inventory).

(** The MachineDeployment, when an object says it is owned by it and the
    inventory does not have it. *)
Definition observe_deployment (object : DynamicObject) (identity : Identity) (inventory : list DynamicObject)
    : io ReconcileError (list DynamicObject) :=
  if any (λ owner, owner_kind owner == "MachineDeployment") (owners_of (dyn_meta object))
     && negb (any (has_kind "MachineDeployment") inventory)
  then
    pure! resource <- ok_or (find_first (λ r, mr_kind r == "MachineDeployment") MANAGEMENT_RESOURCES)
                        (RInvalidInput "MachineDeployment is not catalogued") ;;
    pure! nm <- ok_or (expected_name resource (id_tenant_name identity))
                  (RInvalidInput "MachineDeployment has no declared name") ;;
    let api := api_for ManagementSide {| tm_api_version := mr_api_version resource; tm_kind := mr_kind resource |}
                 (Some (id_tenant_name identity)) in
    try! deployment <- perform_map RKube (perform (ObjectRead api nm)) ;;
    pure! _ <- map_err ROwnership (validate_root_ownership (dyn_meta deployment) identity "machine-deployment") ;;
    pure! _ <- provider_owner deployment (id_tenant_name identity) false inventory ;;
    Ret (Ok (inventory ++ [deployment]))
  else Ret (Ok inventory).

Definition cluster_bound (tenant : Tenant) : bool :=
  is_some_and non_empty (and_then cluster_uid (tenant_status tenant)).

(** The repair of an object that was there. *)
Definition repair_management (desired : DynamicObject) (identity : Identity) (inventory : list DynamicObject)
    (result : Ensured) : io ReconcileError Ensured :=
  if en_created result then Ret (Ok result) else
  try! object <- apply_exact ManagementSide desired (en_object result) ;;
  pure! _ <- check_root_object object desired identity ;;
  pure! _ <- provider_owner object (id_tenant_name identity) false inventory ;;
  Ret (Ok {| en_object := object; en_created := false |}).

Definition ensure_management (desired : DynamicObject) (tenant : Tenant) (identity : Identity)
    (inventory : list DynamicObject) : io ReconcileError (Ensured * list DynamicObject) :=
  let is_cluster := has_kind "Cluster" desired in
  let known := find_first (same_object desired) inventory in
  try! result <- read_or_create ManagementSide desired known (is_cluster && cluster_bound tenant) ;;
  pure! _ <- check_root_object (en_object result) desired identity ;;
  pure! _ <- (if is_cluster then map_err ROwnership (validate_cluster_uid tenant (dyn_meta (en_object result))) else Ok tt) ;;
  try! inventory <- observe_deployment (en_object result) identity inventory ;;
  pure! _ <- provider_owner (en_object result) (id_tenant_name identity) false inventory ;;
  if is_some (deletion_timestamp (dyn_meta (en_object result))) then Ret (Err (deleting_error (en_object result))) else
  try! result <- repair_management desired identity inventory result ;;
  Ret (Ok (result, filter_list (λ object, negb (same_object desired object)) inventory ++ [en_object result])).

Definition ensure_namespace (desired : DynamicObject) (identity : Identity) : io ReconcileError Ensured :=
  try! result <- read_or_create ManagementSide desired None false ;;
  pure! _ <- map_err ROwnership (validate_root_ownership (dyn_meta (en_object result)) identity "namespace") ;;
  pure! _ <- provider_owner (en_object result) (id_tenant_name identity) false [] ;;
  if is_some (deletion_timestamp (dyn_meta (en_object result)))
  then Ret (Err (RPending "Namespace is deleting")) else Ret (Ok result).

(** ** Bundles *)
Record BatchResult := { br_created : bool; br_pending : bool; br_objects : list DynamicObject }.

Definition group (object : DynamicObject) : nat :=
  match types_kind object with
  | Some kind =>
      if bool_decide (kind ∈ ["Namespace"; "CustomResourceDefinition"]) then 0%nat
      else if bool_decide (kind ∈ ["ServiceAccount"; "ConfigMap"; "Secret"; "Service"; "PersistentVolume";
        "PersistentVolumeClaim"; "StorageClass"; "Role"; "ClusterRole"; "RoleBinding"; "ClusterRoleBinding"]) then 1%nat
      else 2%nat
  | None => 2%nat
  end.

Definition established (crd : DynamicObject) : bool :=
  is_some_and (any (λ condition, index_is condition "type" "Established" && index_is condition "status" "True"))
    (and_then as_array (pointer (dyn_data crd) ["status"; "conditions"])).

Definition crd_ready (crd : DynamicObject) : bool :=
  negb (is_some (deletion_timestamp (dyn_meta crd))) && established crd.

Definition required_field (crd : DynamicObject) (path : list string) : result ReconcileError string :=
  ok_or (and_then as_str (pointer (dyn_data crd) path)) (RInvalidInput "CRD discovery identity is incomplete").

(** What discovery must list for a CRD. *)
Record CrdIdentity := {
  crd_group : string;
  crd_kind : string;
  crd_plural : string;
  crd_namespaced : bool;
  crd_versions : list Value;
}.

Definition crd_identity (crd : DynamicObject) : result ReconcileError CrdIdentity :=
  let! group := required_field crd ["spec"; "group"] in
  let! kind := required_field crd ["spec"; "names"; "kind"] in
  let! plural := required_field crd ["spec"; "names"; "plural"] in
  let! scope := required_field crd ["spec"; "scope"] in
  let! versions := ok_or (and_then as_array (pointer (dyn_data crd) ["spec"; "versions"]))
                     (RInvalidInput "CRD versions are malformed") in
  Ok {| crd_group := group; crd_kind := kind; crd_plural := plural; crd_namespaced := scope == "Namespaced";
        crd_versions := versions |}.

Definition served (version : Value) : bool :=
  match json_get version "served" with Some (VBool true) => true | _ => false end.

Definition lists_crd (crd : CrdIdentity) (resource : ApiResourceEntry) : bool :=
  (ar_name resource == crd_plural crd) && (ar_kind resource == crd_kind crd)
  && Bool.eqb (ar_namespaced resource) (crd_namespaced crd).

(** The groups discovered so far. *)
Notation Discovered := (gmap string (list ApiResourceEntry)).

Definition not_found_status (error : KubeError) : bool :=
  match error with KubeApi code _ _ => code =? 404 | KubeOther _ => false end.

(** The loop over the served versions; [None] stops it with [Ok(false)]. *)
Fixpoint versions_ready (crd : CrdIdentity) (versions : list Value) (discovered : Discovered)
    : io ReconcileError (option Discovered) :=
  match versions with
  | [] => Ret (Ok (Some discovered))
  | version :: rest =>
      pure! version <- ok_or (and_then as_str (json_get version "name")) (RInvalidInput "CRD version is malformed") ;;
      let api_version := crd_group crd +:+ "/" +:+ version in
      try! found <- match discovered !! api_version with
        | Some resources => Ret (Ok (Some resources))
        | None =>
            do! reply <- perform (GroupDiscover api_version) ;;
            match reply with
            | Ok resources => Ret (Ok (Some resources))
            | Err error => if not_found_status error then Ret (Ok None) else Ret (Err (RKube error))
            end
        end ;;
      match found with
      | None => Ret (Ok None)
      | Some resources =>
          if any (lists_crd crd) resources
          then versions_ready crd rest (<[api_version := resources]> discovered)
          else Ret (Ok None)
      end
  end.

Fixpoint crds_discovered (crds : list DynamicObject) (discovered : Discovered) : io ReconcileError bool :=
  match crds with
  | [] => Ret (Ok true)
  | crd :: rest =>
      pure! identity <- crd_identity crd ;;
      try! found <- versions_ready identity (filter_list served (crd_versions identity)) discovered ;;
      match found with
      | None => Ret (Ok false)
      | Some discovered => crds_discovered rest discovered
      end
  end.

Definition crds_ready (objects : list DynamicObject) : io ReconcileError bool :=
  let crds := filter_list (has_kind "CustomResourceDefinition") objects in
  if negb (all crd_ready crds) then Ret (Ok false) else crds_discovered crds ∅.

(** The loop over the objects of one group. *)
Fixpoint ensure_group (objects : list DynamicObject) (identity : Identity) (result : BatchResult)
    : io ReconcileError BatchResult :=
  match objects with
  | [] => Ret (Ok result)
  | desired :: rest =>
      try! ensured <- ensure_static HostedSide desired identity ;;
      ensure_group rest identity {|
        br_created := br_created result || en_created ensured;
        br_pending := br_pending result || is_some (deletion_timestamp (dyn_meta (en_object ensured)));
        br_objects := br_objects result ++ [en_object ensured] |}
  end.

Definition in_group (index : nat) (objects : list DynamicObject) : list DynamicObject :=
  filter_list (λ object, (group object =? index)%nat) objects.

Definition ensure_batch (objects : list DynamicObject) (identity : Identity) : io ReconcileError BatchResult :=
  try! result <- ensure_group (in_group 0 objects) identity {| br_created := false; br_pending := false; br_objects := [] |} ;;
  try! ready <- (if br_pending result then Ret (Ok false) else crds_ready (br_objects result)) ;;
  if negb ready
  then Ret (Ok {| br_created := br_created result; br_pending := true; br_objects := br_objects result |}) else
  try! result <- ensure_group (in_group 1 objects) identity result ;;
  ensure_group (in_group 2 objects) identity result.
