(* ===== verification/Workers.v ===== *)
(** * Workers of a local Tenant

    [controller/src/reconcile/workers.rs]: the inventory of a Tenant's workers.
    Machines, DevMachines, containers and Nodes must correspond one to one
    before the Tenant's workers count as complete, and foreign objects are
    refused however many there are. *)

From S2P Require Import Prelude RustStd Externals Kube Errors Api Management Ownership Foundation Docker.
From S2P Require Import Allocation ReconcileErrors Sanitize Readiness Effects Ops Manifests Bundles TenantObjects.

Open Scope Z_scope.

Record WorkerObservation := {
  wo_inventory_complete : bool;
  wo_all_ready : bool;
  wo_network_ready : bool;
}.

Record WorkerInputs := {
  win_identity : Identity;
  win_network_id : string;
  win_desired_count : Z;
  win_deployment : DynamicObject;
  win_network_objects : list DynamicObject;
}.

Definition definition_of (kind : string) : result ReconcileError ManagementResource :=
  ok_or (find_first (λ r, mr_kind r == kind) MANAGEMENT_RESOURCES) (RInvalidInput ("unknown management kind " +:+ kind)).

Definition resource_types (r : ManagementResource) : TypeMeta := {|
  tm_api_version := mr_api_version r; tm_kind := mr_kind r |}.

Definition with_types (o : DynamicObject) (t : TypeMeta) : DynamicObject := {|
  dyn_types := Some t; dyn_meta := dyn_meta o; dyn_data := dyn_data o |}.

(** An item whose types, namespace, name or UID are not those of the list. *)
Definition item_invalid (types : TypeMeta) (ns : option string) (item : DynamicObject) : bool :=
  is_some_and (λ t, (tm_api_version t != tm_api_version types) || (tm_kind t != tm_kind types)) (dyn_types item)
  || (filter_non_empty (namespace (dyn_meta item)) != ns)
  || is_none_or is_empty (name (dyn_meta item))
  || is_none_or is_empty (uid (dyn_meta item)).

Definition list_workers (kind : string) (ns : option string) : io ReconcileError (list DynamicObject) :=
  pure! definition <- definition_of kind ;;
  let types := resource_types definition in
  try! items <- perform_map RKube (perform (ObjectList (api_for ManagementSide types ns))) ;;
  if any (item_invalid types ns) items
  then Ret (Err (ROwnershipInvalid (kind +:+ " inventory identity is invalid")))
  else Ret (Ok (map (λ item, with_types item types) items)).

(** Inserting every item into a set, until one is there already. *)
Fixpoint insert_all (seen : gset (option string)) (l : list DynamicObject) : option (gset (option string)) :=
  match l with
  | [] => Some seen
  | o :: rest =>
      if bool_decide (uid (dyn_meta o) ∈ seen) then None else insert_all ({[uid (dyn_meta o)]} ∪ seen) rest
  end.

Definition chain (object : DynamicObject) (root : string) (inventory : list DynamicObject)
    : result ReconcileError unit :=
  map_err ROwnership (validate_owner_chain object root inventory).

(** The loop over Machines: their names, and the Machines by UID. *)
Notation Indexed := (gset string * gmap string DynamicObject)%type.

Definition index_machine (identity : Identity) (deployment_uid : string) (inventory : list DynamicObject)
    (state : Indexed) (machine : DynamicObject) : result ReconcileError Indexed :=
  let! _ := map_err ROwnership (validate_root_ownership (dyn_meta machine) identity "machine") in
  let! _ := chain machine deployment_uid inventory in
  let u := unwrap_or "" (uid (dyn_meta machine)) in
  if bool_decide (object_name machine ∈ state.1) || is_some (state.2 !! u)
  then Err (ROwnershipInvalid "duplicate Machine identity")
  else Ok ({[object_name machine]} ∪ state.1, <[u := machine]> state.2).

(** A DevMachine whose Machine is not in the inventory. *)
Definition owner_mismatch (identity : Identity) (definition : ManagementResource) (machine : DynamicObject)
    (owner : OwnerReference) (current : DynamicObject) : bool :=
  (owner_name owner != object_name machine)
  || (owner_api_version owner != mr_api_version definition)
  || (owner_kind owner != mr_kind definition)
  || (dyn_types current != Some (resource_types definition))
  || (namespace (dyn_meta current) != Some (id_tenant_name identity))
  || (name (dyn_meta current) != Some (owner_name owner))
  || (uid (dyn_meta current) != Some (owner_uid owner)).

Definition unknown_owner (identity : Identity) (definition : ManagementResource) (deployment_uid : string)
    (inventory : list DynamicObject) (machine : DynamicObject) (owner : OwnerReference)
    : io ReconcileError (gset string) :=
  try! current <- perform_map RKube (perform (ObjectFind
    (api_for ManagementSide (resource_types definition) (Some (id_tenant_name identity))) (owner_name owner))) ;;
  match current with
  | None => Ret (Err (RPending "DevMachine owner Machine is not currently observable"))
  | Some current =>
      if owner_mismatch identity definition machine owner current
      then Ret (Err (ROwnershipInvalid "DevMachine owner does not match live Machine")) else
      pure! _ <- map_err ROwnership (validate_root_ownership (dyn_meta current) identity "machine") ;;
      pure! _ <- chain current deployment_uid (inventory ++ [current]) ;;
      Ret (Err (RPending "worker inventory changed while it was observed"))
  end.

(** The loop over DevMachines. *)
Fixpoint check_dev_machines (identity : Identity) (definition : ManagementResource) (deployment_uid : string)
    (inventory : list DynamicObject) (by_uid : gmap string DynamicObject) (machines : list DynamicObject)
    (uids : gset (option string)) (dev_names : gset string) : io ReconcileError (gset string) :=
  match machines with
  | [] => Ret (Ok dev_names)
  | machine :: rest =>
      if bool_decide (uid (dyn_meta machine) ∈ uids)
      then Ret (Err (ROwnershipInvalid "duplicate DevMachine inventory UID")) else
      match owners_of (dyn_meta machine) with
      | [owner] =>
          match by_uid !! owner_uid owner with
          | None => unknown_owner identity definition deployment_uid inventory machine owner
          | Some root =>
              if (object_name machine != object_name root) || bool_decide (object_name machine ∈ dev_names)
              then Ret (Err (ROwnershipInvalid "DevMachine name does not match its exact Machine")) else
              pure! _ <- chain machine (owner_uid owner) inventory ;;
              check_dev_machines identity definition deployment_uid inventory by_uid rest
                ({[uid (dyn_meta machine)]} ∪ uids) ({[object_name machine]} ∪ dev_names)
          end
      | _ => Ret (Err (ROwnershipInvalid "DevMachine must have one exact Machine owner"))
      end
  end.

Definition NODE : TypeMeta := {| tm_api_version := "v1"; tm_kind := "Node" |}.

Definition typed_node (node : DynamicObject) : DynamicObject :=
  with_types node (unwrap_or NODE (dyn_types node)).

(** The loop over Nodes: each has a Machine of its own. *)
Definition check_node (machine_names : gset string) (state : gset string * gset (option string))
    (node : DynamicObject) : result ReconcileError (gset string * gset (option string)) :=
  if negb (bool_decide (object_name node ∈ machine_names)) || bool_decide (object_name node ∈ state.1)
     || bool_decide (uid (dyn_meta node) ∈ state.2)
  then Err (ROwnershipInvalid "Node has no unique exact Machine")
  else Ok ({[object_name node]} ∪ state.1, {[uid (dyn_meta node)]} ∪ state.2).

Definition NETWORK_WORKLOADS : list (string * string) := [
  ("DaemonSet", "calico-node"); ("Deployment", "calico-kube-controllers");
  ("DaemonSet", "capi-kube-proxy"); ("Deployment", "coredns")].

Definition is_workload (kind nm : string) (object : DynamicObject) : bool :=
  (dyn_types object == Some {| tm_api_version := "apps/v1"; tm_kind := kind |})
  && (namespace (dyn_meta object) == Some "kube-system") && (object_name object == nm).

Fixpoint workloads_ready (workloads : list (string * string)) (observed : list DynamicObject)
    : io ReconcileError bool :=
  match workloads with
  | [] => Ret (Ok true)
  | (kind, nm) :: rest =>
      try! current <- match find_first (is_workload kind nm) observed with
        | Some current => Ret (Ok (Some current))
        | None => perform_map RKube (perform (ObjectFind
            (api_for HostedSide {| tm_api_version := "apps/v1"; tm_kind := kind |} (Some "kube-system")) nm))
        end ;;
      match current with
      | None => Ret (Ok false)
      | Some current => if workload_available current then workloads_ready rest observed else Ret (Ok false)
      end
  end.

Definition network_workloads_ready (observed : list DynamicObject) : io ReconcileError bool :=
  workloads_ready NETWORK_WORKLOADS observed.

Definition complete (count : nat) (machines dev_machines nodes : list DynamicObject) (containers : list DockerContainer) : bool :=
  (0 <? count)%nat
  && all (λ value, (value =? count)%nat) [length machines; length dev_machines; length containers; length nodes]
  && all (λ container, dc_state container == "running") containers.

Definition observe_workers (inputs : WorkerInputs) : io ReconcileError WorkerObservation :=
  let identity := win_identity inputs in
  let deployment := win_deployment inputs in
  let tenant := Some (id_tenant_name identity) in
  pure! _ <- map_err ROwnership (validate_root_ownership (dyn_meta deployment) identity "machine-deployment") ;;
  pure! deployment_uid <- ok_or (uid (dyn_meta deployment)) (ROwnershipInvalid "MachineDeployment UID is missing") ;;
  try! sets <- list_workers "MachineSet" tenant ;;
  try! machines <- list_workers "Machine" tenant ;;
  try! dev_machines <- list_workers "DevMachine" tenant ;;
  pure! definition <- definition_of "Machine" ;;
  let inventory := deployment :: sets ++ machines in
  pure! uids <- ok_or (insert_all ∅ inventory) (ROwnershipInvalid "duplicate worker inventory UID") ;;
  pure! _ <- try_for (λ set, chain set deployment_uid inventory) sets ;;
  pure! (machine_names, by_uid) <- try_fold (index_machine identity deployment_uid inventory) (∅, ∅) machines ;;
  try! _ <- check_dev_machines identity definition deployment_uid inventory by_uid dev_machines uids ∅ ;;
  try! listed <- perform_map RDocker (perform ListContainers) ;;
  pure! containers <- map_err RDocker (worker_containers listed {|
    wi_tenant_name := id_tenant_name identity; wi_network_id := win_network_id inputs;
    wi_machine_names := machine_names |}) ;;
  try! nodes <- perform_map RKube (perform (ObjectList (api_for HostedSide NODE None))) ;;
  if any (item_invalid NODE None) nodes
  then Ret (Err (ROwnershipInvalid "Node inventory identity is invalid")) else
  let nodes := map typed_node nodes in
  pure! _ <- try_fold (check_node machine_names) (∅, ∅) nodes ;;
  if win_desired_count inputs <? 0 then Ret (Err (RInvalidInput "negative worker count")) else
  let inventory_complete := complete (Z.to_nat (win_desired_count inputs)) machines dev_machines nodes containers in
  let all_ready := inventory_complete && all object_ready (machines ++ dev_machines) && all node_ready nodes in
  try! network_ready <- (if inventory_complete then network_workloads_ready (win_network_objects inputs)
                         else Ret (Ok false)) ;;
  Ret (Ok {| wo_inventory_complete := inventory_complete; wo_all_ready := all_ready;
             wo_network_ready := network_ready |}).
