(* ===== verification/LocalTenant.v ===== *)
(** * Local Tenants

    [controller/src/reconcile/local.rs]: the creation path of a local Tenant,
    from the finalizer and the foundation binding to the published readiness,
    with the real [ProviderLifecycle] of the controller.  Every early return of
    the source ends a reconciliation here too; the next one starts over. *)

From S2P Require Import Prelude RustStd Externals Kube Errors Api Management Ownership Foundation Docker.
From S2P Require Import Allocation ReconcileErrors Sanitize Readiness Effects Ops Status AllocationRun Finalize Catalog.
From S2P Require Import Reconcile Manifests Bundles Bootstrap TenantClient TenantObjects Workers.

Open Scope Z_scope.

Definition STORAGE_CLASS := "capi-hostpath".

Record Assets := { as_calico : string; as_cnpg : string }.

(** The fields of [LocalProvider]; the clients are the sides of [Ops]. *)
Record LocalProvider := { lp_assets : Assets; lp_foundation : RuntimeFoundation }.

Definition image (foundation : Foundation) (key : string) : result ReconcileError ImageArchive :=
  ok_or (find_first (λ image, ia_key image == key) (ic_image_archives (f_cache foundation)))
    (RInvalidInput ("foundation image " +:+ key +:+ " is missing")).

Definition network_images (foundation : Foundation) : result ReconcileError NetworkImages :=
  let! cni := image foundation "CALICO_CNI_IMAGE" in
  let! node := image foundation "CALICO_NODE_IMAGE" in
  let! controllers := image foundation "CALICO_KUBE_CONTROLLERS_IMAGE" in
  let! kube_proxy := image foundation "KUBE_PROXY_IMAGE" in
  Ok {| ni_calico_cni := ia_reference cni; ni_calico_cni_tagged := ia_tagged cni;
        ni_calico_node := ia_reference node; ni_calico_node_tagged := ia_tagged node;
        ni_calico_controllers := ia_reference controllers; ni_calico_controllers_tagged := ia_tagged controllers;
        ni_kube_proxy := ia_reference kube_proxy |}.

(** Fields of the local status. *)
Definition bind_foundation_hash (hash : string) (l : LocalProviderStatus) : LocalProviderStatus := {|
  local_allocation := local_allocation l; local_foundation_hash := Some hash; local_cluster_uid := local_cluster_uid l |}.
Definition bind_allocation (a : AllocationStatus) (l : LocalProviderStatus) : LocalProviderStatus := {|
  local_allocation := Some a; local_foundation_hash := local_foundation_hash l; local_cluster_uid := local_cluster_uid l |}.
Definition bind_cluster_uid (u : string) (l : LocalProviderStatus) : LocalProviderStatus := {|
  local_allocation := local_allocation l; local_foundation_hash := local_foundation_hash l; local_cluster_uid := Some u |}.

Section Local.
Context `{SO : Sha256Ops, SP : SpecJson, NO : Ipv4NetOps, IP : IpNetOps, MC : ManifestCodec, CC : ClientCodec}.
Context `{SJ : SerdeJson}.
Context (provider : LocalProvider) (clocks : nat → nat → Time) (now : nat → string → Time).

(** The closures that bind the Tenant to its foundation, its allocation and its
    Cluster: a value recorded meanwhile must be the same. *)
Definition bind_mutation (tenant : Tenant) (other : LocalProviderStatus → bool) (message : string)
    (set : LocalProviderStatus → LocalProviderStatus) : Mutation := λ attempt status,
  let! status := local_mut status (λ l, l) in
  if is_some_and other (local status) then Err (OwnershipInvalid message) else
  let! status := local_mut status set in
  Ok (progress_status (now attempt) status tenant).

Definition differs (expected : string) (recorded : option string) : bool :=
  is_some_and (λ value, non_empty value && (value != expected)) recorded.

Definition foundation_mutation (tenant : Tenant) (hash : string) : Mutation :=
  bind_mutation tenant (λ l, differs hash (local_foundation_hash l)) "foundation binding changed"
    (bind_foundation_hash hash).
Definition allocation_mutation (tenant : Tenant) (a : AllocationStatus) : Mutation :=
  bind_mutation tenant (λ l, is_some_and (λ bound, bound != a) (local_allocation l)) "allocation binding changed"
    (bind_allocation a).
Definition cluster_mutation (tenant : Tenant) (u : string) : Mutation :=
  bind_mutation tenant (λ l, differs u (local_cluster_uid l)) "Cluster UID binding changed" (bind_cluster_uid u).

(** Records a binding; the Tenant is reconciled again. *)
Definition bind_tenant (tenant : Tenant) (mutation : Mutation) : io ReconcileError Action :=
  try! _ <- runtime (update_status tenant mutation) ;;
  Ret (Ok (ActionRequeue PROGRESS_INTERVAL)).

Definition build {A} (r : result BuildError A) : result ReconcileError A := map_err RBuild r.

(** ** Services *)
Definition data_string (object : DynamicObject) (key : string) : option string :=
  and_then as_str (json_get (dyn_data object) key).

Definition storage_is_ready (storage : Ensured) : bool :=
  negb (en_created storage)
  && is_none (deletion_timestamp (dyn_meta (en_object storage)))
  && (data_string (en_object storage) "provisioner" == Some "kubernetes.io/no-provisioner")
  && (data_string (en_object storage) "volumeBindingMode" == Some "Immediate")
  && (data_string (en_object storage) "reclaimPolicy" == Some "Retain").

Definition is_operator (object : DynamicObject) : bool :=
  has_kind "Deployment" object && (namespace (dyn_meta object) == Some "cnpg-system")
  && (object_name object == "cnpg-controller-manager").

Definition runtime_is_ready (storage_ready : bool) (operator : BatchResult) : bool :=
  storage_ready && negb (br_created operator) && negb (br_pending operator)
  && is_some_and workload_available (find_first is_operator (br_objects operator)).

Definition with_availability (c : DatabaseCapability) (reason : string) : DatabaseCapability := {|
  cap_available := reason == "Ready"; cap_reason := reason; cap_namespace := cap_namespace c;
  cap_namespace_uid := cap_namespace_uid c; cap_catalog_uid := cap_catalog_uid c;
  cap_storage_namespace_uid := cap_storage_namespace_uid c |}.

Definition recorded_capability (tenant : Tenant) : DatabaseCapability :=
  unwrap_or default_capability (and_then database_capability (tenant_status tenant)).

(** Why databases are available, or not. *)
Definition capability_reason (cx : ResourceContext) (runtime_ready catalog_valid : bool) : io ReconcileError string :=
  if negb runtime_ready then Ret (Ok "RuntimeNotReady") else
  pure! tenant_uid <- ok_or (uid (tenant_meta (rc_tenant cx))) (ROwnershipInvalid "Tenant UID is missing") ;;
  do! credentials <- ensure_credentials (rc_name cx) tenant_uid ;;
  Ret (Ok match credentials with
    | Ok _ => if catalog_valid then "Ready" else "CatalogNotReady"
    | Err _ => "CredentialAccessUnavailable"
    end).

Definition services_mutation (tenant : Tenant) (components : Components) (catalog_valid : bool)
    (capability : DatabaseCapability) : Mutation := λ attempt status,
  let status := publish (now attempt) components status tenant in
  let status := set_condition (now attempt "CatalogReady") status tenant "CatalogReady" catalog_valid
    (if catalog_valid then "Ready" else "CatalogNotReady") "Tenant catalog identity is verified" in
  let status :=
    if catalog_valid then status else
    set_condition (now attempt "Ready again") (with_phase status (Some PhaseDegraded)) tenant "Ready" false
      "CatalogNotReady" "Tenant catalog identity is unavailable" in
  Ok (with_capability status (Some capability)).

Definition publish_services (cx : ResourceContext) (cluster : DynamicObject) (observation : WorkerObservation)
    (runtime_ready catalog_valid : bool) (capability : DatabaseCapability) : io ReconcileError Action :=
  try! reason <- capability_reason cx runtime_ready catalog_valid ;;
  let capability := with_availability capability reason in
  pure! control_plane <- management_conditions_ready cluster ["Available"] ;;
  let components := {|
    control_plane := control_plane;
    workers_ready := wo_inventory_complete observation && wo_all_ready observation;
    network_ready := wo_network_ready observation;
    storage := true |} in
  try! _ <- runtime (update_status (rc_tenant cx) (services_mutation (rc_tenant cx) components catalog_valid capability)) ;;
  Ret (Ok (ActionRequeue (if catalog_valid && cap_available capability && ready components
                          then READY_INTERVAL else DEPENDENCY_INTERVAL))).

Definition services (cx : ResourceContext) (foundation : Foundation) (cluster : DynamicObject)
    (observation : WorkerObservation) : io ReconcileError Action :=
  pure! class <- build (to_dynamic (storage_class cx STORAGE_CLASS)) ;;
  try! storage <- ensure_static HostedSide class (rc_identity cx) ;;
  pure! controller_image <- image foundation "CNPG_CONTROLLER_IMAGE" ;;
  pure! objects <- build (cnpg_operator cx (as_cnpg (lp_assets provider)) (ia_tagged controller_image)
                           (ia_reference controller_image)) ;;
  try! operator <- ensure_batch objects (rc_identity cx) ;;
  let runtime_ready := runtime_is_ready (storage_is_ready storage) operator in
  do! catalog <- ensure_database_catalog clocks (rc_tenant cx) false ;;
  match catalog with
  | Ok capability => publish_services cx cluster observation runtime_ready true capability
  | Err (RPending _) => progress now (rc_tenant cx) PROGRESS_INTERVAL
  | Err _ => publish_services cx cluster observation runtime_ready false (recorded_capability (rc_tenant cx))
  end.

(** ** Workers *)
Definition with_workers (cx : ResourceContext) (volume_path : string) (commands : list string) : ResourceContext := {|
  rc_tenant := rc_tenant cx; rc_spec := rc_spec cx; rc_spec_hash := rc_spec_hash cx;
  rc_foundation_hash := rc_foundation_hash cx; rc_endpoint := rc_endpoint cx; rc_pod_cidr := rc_pod_cidr cx;
  rc_service_cidr := rc_service_cidr cx; rc_volume_path := volume_path; rc_worker_bootstrap_commands := commands;
  rc_inputs := rc_inputs cx |}.

(** The network, the workers and the services of a Tenant whose machines are
    declared. *)
Definition observe_tenant (cx : ResourceContext) (foundation : Foundation) (cluster : DynamicObject)
    (inventory : list DynamicObject) : io ReconcileError Action :=
  pure! images <- network_images foundation ;;
  pure! network <- build (build_network cx (as_calico (lp_assets provider)) images) ;;
  try! network <- ensure_batch network (rc_identity cx) ;;
  if br_created network || br_pending network then progress now (rc_tenant cx) PROGRESS_INTERVAL else
  pure! deployment <- ok_or (find_first (has_kind "MachineDeployment") inventory)
                        (RInvalidInput "MachineDeployment observation is missing") ;;
  try! observation <- observe_workers {|
    win_identity := rc_identity cx; win_network_id := f_network_id foundation;
    win_desired_count := workers (rc_spec cx); win_deployment := deployment;
    win_network_objects := br_objects network |} ;;
  if negb (wo_inventory_complete observation) || negb (wo_all_ready observation) || negb (wo_network_ready observation)
  then progress now (rc_tenant cx) DEPENDENCY_INTERVAL
  else services cx foundation cluster observation.

(** The loop over the objects that declare the machines; [None] when one was
    created. *)
Fixpoint ensure_machines (desired : list DynamicObject) (cx : ResourceContext) (inventory : list DynamicObject)
    : io ReconcileError (option (list DynamicObject)) :=
  match desired with
  | [] => Ret (Ok (Some inventory))
  | object :: rest =>
      try! (ensured, inventory) <- ensure_management object (rc_tenant cx) (rc_identity cx) inventory ;;
      if en_created ensured then Ret (Ok None) else ensure_machines rest cx inventory
  end.

Definition declares_machines (object : DynamicObject) : bool :=
  is_some_and (λ kind, bool_decide (kind ∈ ["KubeadmConfigTemplate"; "DevMachineTemplate"; "MachineDeployment"]))
    (types_kind object).

Definition ensure_volume (cx : ResourceContext) : io ReconcileError DockerVolume :=
  let nm := storage_volume_name cx in
  let lbls := storage_volume_labels cx in
  try! found <- perform_map RDocker (perform (InspectVolume nm)) ;;
  try! volume <- match found with
    | Some volume => Ret (Ok volume)
    | None => perform_map RDocker (perform (VolumeCreate nm lbls))
    end ;;
  pure! _ <- map_err RDocker (validate_volume volume nm lbls) ;;
  Ret (Ok volume).

Definition reconcile_workers (cx : ResourceContext) (foundation : Foundation) (cluster : DynamicObject)
    (inventory : list DynamicObject) : io ReconcileError Action :=
  try! volume <- ensure_volume cx ;;
  pure! commands <- build (worker_bootstrap_commands (bootstrap_inputs foundation)) ;;
  let cx := with_workers cx (dv_mountpoint volume) commands in
  try! machines <- ensure_machines [kubeadm_config_template cx; dev_machine_template cx; machine_deployment cx] cx inventory ;;
  match machines with
  | None => progress now (rc_tenant cx) PROGRESS_INTERVAL
  | Some inventory =>
      pure! _ <- try_for (λ root, provider_owner root (rc_name cx) false inventory)
                   (filter_list declares_machines inventory) ;;
      observe_tenant cx foundation cluster inventory
  end.

(** ** The control plane *)
Definition connect (cx : ResourceContext) (control_plane : DynamicObject) : io ReconcileError Secret :=
  perform_map RTenantClient
    (load_tenant_client_with_owner control_plane None (rc_name cx) (rc_name cx) (rc_endpoint cx)).

Definition reconcile_hosted (cx : ResourceContext) (foundation : Foundation) (cluster control_plane : DynamicObject)
    (inventory : list DynamicObject) : io ReconcileError Action :=
  try! _ <- connect cx control_plane ;;
  try! _ <- perform_map RTenantClient ensure_bootstrap_rbac ;;
  reconcile_workers cx foundation cluster inventory.

Definition reconcile_control_plane (cx : ResourceContext) (foundation : Foundation) (cluster : DynamicObject)
    (inventory : list DynamicObject) : io ReconcileError Action :=
  pure! desired <- build (dev_cluster cx) ;;
  try! (infrastructure, inventory) <- ensure_management desired (rc_tenant cx) (rc_identity cx) inventory ;;
  if en_created infrastructure then progress now (rc_tenant cx) PROGRESS_INTERVAL else
  pure! desired <- build (kamaji_control_plane cx) ;;
  try! (control_plane, inventory) <- ensure_management desired (rc_tenant cx) (rc_identity cx) inventory ;;
  if en_created control_plane then progress now (rc_tenant cx) PROGRESS_INTERVAL else
  pure! _ <- try_for (λ root, provider_owner root (rc_name cx) true inventory)
               [en_object infrastructure; en_object control_plane] ;;
  pure! ready <- management_conditions_ready cluster ["ControlPlaneReady"; "ControlPlaneAvailable"] ;;
  if negb ready then progress now (rc_tenant cx) DEPENDENCY_INTERVAL
  else reconcile_hosted cx foundation cluster (en_object control_plane) inventory.

(** The roots of a Tenant with a claim of its own. *)
Definition reconcile_roots (cx : ResourceContext) (foundation : Foundation) : io ReconcileError Action :=
  let tenant := rc_tenant cx in
  pure! ns <- build (to_dynamic (tenant_namespace cx)) ;;
  try! ns <- ensure_namespace ns (rc_identity cx) ;;
  if en_created ns then progress now tenant PROGRESS_INTERVAL else
  pure! desired <- build (cluster cx) ;;
  try! (cluster, inventory) <- ensure_management desired tenant (rc_identity cx) [] ;;
  if en_created cluster then progress now tenant PROGRESS_INTERVAL else
  if negb (cluster_bound tenant) then
    pure! u <- ok_or (uid (dyn_meta (en_object cluster))) (ROwnershipInvalid "Cluster UID is missing") ;;
    bind_tenant tenant (cluster_mutation tenant u)
  else reconcile_control_plane cx foundation (en_object cluster) inventory.

(** ** [LocalProvider::reconcile] *)
Definition recorded_hash (tenant : Tenant) : option string := and_then foundation_hash (tenant_status tenant).
Definition recorded_allocation (tenant : Tenant) : option AllocationStatus := and_then allocation (tenant_status tenant).

Definition claim_context (tenant : Tenant) (spec : TenantSpec) (foundation : Foundation) : ClaimContext := {|
  cx_namespace := FOUNDATION_NAMESPACE;
  cx_ownership_label := fi_ownership_label (f_inputs foundation);
  cx_lab_prefix := fi_lab_prefix (f_inputs foundation);
  cx_tenant_name := name_any tenant;
  cx_tenant_uid := unwrap_or "" (uid (tenant_meta tenant));
  cx_spec_hash := spec_hash spec;
  cx_foundation_hash := rf_hash (lp_foundation provider);
  cx_slots := f_slots foundation |}.

Definition resource_context (tenant : Tenant) (spec : TenantSpec) (foundation : Foundation) (claim : Claim)
    : ResourceContext := {|
  rc_tenant := tenant; rc_spec := spec; rc_spec_hash := spec_hash spec;
  rc_foundation_hash := rf_hash (lp_foundation provider);
  rc_endpoint := as_endpoint (claim_slot claim) +:+ ":" +:+ int_to_string (fi_api_port (f_inputs foundation));
  rc_pod_cidr := as_pod_cidr (claim_slot claim); rc_service_cidr := as_service_cidr (claim_slot claim);
  rc_volume_path := ""; rc_worker_bootstrap_commands := []; rc_inputs := f_inputs foundation |}.

Definition local_reconcile (tenant : Tenant) (spec : TenantSpec) : io ReconcileError Action :=
  if Api.provider spec != SpecLocal
  then Ret (Err (RInvalidInput "azure provider is not supported by this controller")) else
  pure! foundation <- map_err RFoundation (creation (lp_foundation provider) (recorded_hash tenant)) ;;
  try! added <- runtime (set_finalizer tenant tenant FINALIZER true) ;;
  if (added : bool) then Ret (Ok (ActionRequeue PROGRESS_INTERVAL)) else
  if is_none_or is_empty (recorded_hash tenant)
  then bind_tenant tenant (foundation_mutation tenant (rf_hash (lp_foundation provider))) else
  try! claim <- perform_map RAllocation
    (allocate (claim_context tenant spec foundation) (recorded_allocation tenant)) ;;
  if is_none (recorded_allocation tenant)
  then bind_tenant tenant (allocation_mutation tenant (claim_status claim))
  else reconcile_roots (resource_context tenant spec foundation claim) foundation.

Definition local_finalize (tenant : Tenant) (supported_version : string) : io ReconcileError Action :=
  runtime (Finalize.reconcile supported_version (lp_foundation provider) tenant).

Definition local_provider : ProviderLifecycle := {|
  supports p := p == SpecLocal;
  validate_mutation := Ret (Ok tt);
  provider_reconcile := local_reconcile;
  provider_finalize := local_finalize |}.
End Local.
