(* ===== verification/LocalRequests.v ===== *)
(** * Requests of the creation of a local Tenant

    Which requests [LocalTenant] sends besides the catalog protocol and the
    status updates, whatever the replies: reads and writes of catalogued kinds
    of the management cluster, of the hosted cluster, of Leases and of Docker. *)

From S2P Require Import Prelude RustStd Externals Kube Errors Api Management Ownership Foundation Docker.
From S2P Require Import Allocation ReconcileErrors Sanitize Readiness Effects Ops Status AllocationRun Finalize Catalog.
From S2P Require Import Requests Manifests Bundles Bootstrap TenantClient TenantObjects Workers LocalTenant.

#[local] Arguments within : simpl never.
#[local] Arguments wp : simpl never.
#[local] Arguments bind : simpl never.
#[local] Arguments perform_map : simpl never.

(** The types of the catalogued kinds, of the roots and of what is created. *)
Definition catalogued_types : list TypeMeta :=
  map resource_types (filter_list (λ r, mr_kind r != "Lease") MANAGEMENT_RESOURCES).
Definition root_types : list TypeMeta :=
  map resource_types (filter_list (λ r, mr_class r == Root) MANAGEMENT_RESOURCES).
Definition NAMESPACE : TypeMeta := {| tm_api_version := "v1"; tm_kind := "Namespace" |}.

(** An object of the hosted cluster, or of one of the types. *)
Definition reaches (types : list TypeMeta) (api : ObjectApi) : bool :=
  (oa_side api == HostedSide) || bool_decide (oa_types api ∈ types).

Definition creation_op (o : Op) : bool :=
  match o with
  | ObjectFind api _ | ObjectRead api _ | ObjectList api => reaches catalogued_types api
  | ObjectCreate api _ => reaches (NAMESPACE :: root_types) api
  | ObjectApply api _ _ => reaches root_types api
  | ListLeases ns | GetLease ns _ | CreateLease ns _ | DeleteLease ns _ _ => ns == FOUNDATION_NAMESPACE
  | PatchTenantFinalizers _ _ | GetSecret _ _ | ListContainers | InspectVolume _ | VolumeCreate _ _
  | GroupDiscover _ | HostedRoleFind _ | HostedRoleRead _ | HostedRoleCreate _ | HostedBindingFind _
  | HostedBindingRead _ | HostedBindingCreate _ | ConfigLoad _ | ClientBuild _ => true
  | _ => false
  end.

Notation P := (λ o, creation_op o = true).
#[local] Hint Extern 1 (creation_op _ = true) => reflexivity : permits.

(** ** Access and roles of the hosted cluster *)
Lemma within_connect `{CC : ClientCodec} cx control_plane : within P (connect cx control_plane).
Proof.
  unfold connect, load_tenant_client_with_owner, load_tenant_client_with_owner_named, open_client. walk.
Qed.

Lemma within_bootstrap_rbac : within P ensure_bootstrap_rbac.
Proof.
  unfold ensure_bootstrap_rbac. generalize bootstrap_rbac. intros l. induction l as [|d l IH]; cbn [ensure_bootstrap_roles]; [apply within_ret|].
  unfold ensure_bootstrap_role, ensure_bootstrap_binding. walk; apply IH.
Qed.

(** ** Objects *)
Definition has_types (types : list TypeMeta) (desired : DynamicObject) : Prop :=
  ∃ t, dyn_types desired = Some t ∧ t ∈ types.

Lemma within_hosted_create desired known refuse : within P (read_or_create HostedSide desired known refuse).
Proof.
  unfold read_or_create. apply within_pure. intros api Hapi. unfold object_api in Hapi.
  destruct (dyn_types desired) as [types|]; [|done]. injection Hapi as <-.
  unfold create_object, existing. walk.
Qed.

Lemma root_catalogued t : t ∈ root_types → t ∈ catalogued_types.
Proof.
  assert (all (λ t, bool_decide (t ∈ catalogued_types)) root_types = true) as H by (vm_compute; reflexivity).
  rewrite all_true in H. intros Ht. by apply H, bool_decide_eq_true in Ht.
Qed.

Lemma within_managed_create desired known refuse :
  has_types (NAMESPACE :: root_types) desired → within P (read_or_create ManagementSide desired known refuse).
Proof.
  intros (t & Ht & Hin). unfold read_or_create, object_api. rewrite Ht. cbn [ok_or].
  assert (bool_decide (t ∈ catalogued_types) = true) as Hc.
  { apply bool_decide_eq_true. apply elem_of_cons in Hin as [->|Hin]; [|by apply root_catalogued].
    apply (bool_decide_unpack _). vm_compute. exact I. }
  pose proof (bool_decide_eq_true_2 _ Hin) as Hi. unfold create_object, existing.
  walk; unfold creation_op, reaches; cbn [oa_side oa_types api_for]; by rewrite ?Hc, ?Hi.
Qed.

Lemma within_apply side desired current :
  side = HostedSide ∨ has_types root_types desired → within P (apply_exact side desired current).
Proof.
  intros Hs. unfold apply_exact. destruct (is_some _); [apply within_ret|]. destruct (_ || _); [apply within_ret|].
  apply within_pure. intros api Hapi. unfold object_api in Hapi.
  destruct (dyn_types desired) as [types|] eqn:Ht; [|done]. injection Hapi as <-. walk.
  unfold creation_op, reaches. cbn [oa_side oa_types api_for]. destruct Hs as [->|(t & Ht' & Hin)]; [done|].
  assert (t = types) as -> by congruence. by rewrite (bool_decide_eq_true_2 _ Hin), orb_true_r.
Qed.

Lemma within_ensure_static desired identity : within P (ensure_static HostedSide desired identity).
Proof. unfold ensure_static. walk. apply within_hosted_create. Qed.

Lemma within_ensure_root_namespace desired identity :
  has_types [NAMESPACE] desired → within P (TenantObjects.ensure_namespace desired identity).
Proof.
  intros (t & Ht & ->%list_elem_of_singleton). unfold TenantObjects.ensure_namespace. walk.
  apply within_managed_create. exists NAMESPACE. split; [done|left].
Qed.

Lemma within_observe_deployment object identity inventory : within P (observe_deployment object identity inventory).
Proof.
  unfold observe_deployment. destruct (_ && _); [|apply within_ret]. apply within_pure.
  intros r Hr%ok_or_Ok. vm_compute in Hr. injection Hr as <-. walk.
Qed.

Lemma within_ensure_management desired tenant identity inventory :
  has_types root_types desired → within P (ensure_management desired tenant identity inventory).
Proof.
  intros Hd. unfold ensure_management, repair_management. apply within_bind.
  { apply within_managed_create. destruct Hd as (t & ? & ?). exists t. split; [done|by right]. }
  intros [r|e]; [|apply within_ret]. walk; [apply within_observe_deployment|apply within_apply; by right..].
Qed.

(** ** Bundles *)
Lemma within_crds_discovered crds discovered : within P (crds_discovered crds discovered).
Proof.
  revert discovered. induction crds as [|crd crds IH]; intros discovered; cbn [crds_discovered]; [apply within_ret|].
  apply within_pure. intros id _. apply within_bind.
  - generalize (filter_list served (crd_versions id)). intros l. revert discovered.
    induction l as [|v l IHl]; intros discovered; cbn [versions_ready]; [apply within_ret|]. walk; apply IHl.
  - intros [[d|]|e]; [apply IH|apply within_ret..].
Qed.

Lemma within_ensure_group objects identity result : within P (ensure_group objects identity result).
Proof.
  revert result. induction objects as [|o objects IH]; intros result; cbn [ensure_group]; [apply within_ret|].
  apply within_bind; [apply within_ensure_static|]. intros [e|e]; [apply IH|apply within_ret].
Qed.

Lemma within_ensure_batch objects identity : within P (ensure_batch objects identity).
Proof.
  unfold ensure_batch, crds_ready. walk; first [apply within_ensure_group|apply within_crds_discovered].
Qed.

(** ** Workers *)
Lemma definition_catalogued kind r :
  definition_of kind = Ok r → kind ≠ "Lease" → resource_types r ∈ catalogued_types.
Proof.
  unfold definition_of. intros [Hin Hk%bool_decide_eq_true]%ok_or_Ok%find_first_Some Hne. apply list_elem_of_fmap_2.
  apply elem_of_filter_list. split; [|done]. apply negb_true_iff, bool_decide_eq_false. congruence.
Qed.

Lemma within_list_workers kind ns : kind ≠ "Lease" → within P (list_workers kind ns).
Proof.
  intros Hk. unfold list_workers. apply within_pure. intros r Hr. pose proof (definition_catalogued _ _ Hr Hk) as Hc.
  walk. unfold creation_op, reaches. cbn [oa_side oa_types api_for]. by apply bool_decide_eq_true.
Qed.

Lemma within_dev_machines identity definition root inventory by_uid machines uids names :
  resource_types definition ∈ catalogued_types →
  within P (check_dev_machines identity definition root inventory by_uid machines uids names).
Proof.
  intros Hd. revert uids names. induction machines as [|m l IH]; intros uids names; cbn [check_dev_machines]; [apply within_ret|].
  unfold unknown_owner. walk; try apply IH.
  unfold creation_op, reaches. cbn [oa_side oa_types api_for]. by apply bool_decide_eq_true.
Qed.

Lemma within_workloads l observed : within P (workloads_ready l observed).
Proof. induction l as [|[kind nm] l IH]; cbn [workloads_ready]; [apply within_ret|]. walk; apply IH. Qed.

Lemma within_observe_workers inputs : within P (observe_workers inputs).
Proof.
  unfold observe_workers. apply within_pure. intros _ _. apply within_pure. intros u _.
  apply within_bind; [by apply within_list_workers|]. intros [sets|]; [|apply within_ret].
  apply within_bind; [by apply within_list_workers|]. intros [machines|]; [|apply within_ret].
  apply within_bind; [by apply within_list_workers|]. intros [devs|]; [|apply within_ret].
  apply within_pure. intros definition Hd.
  assert (resource_types definition ∈ catalogued_types) as Hc by by eapply definition_catalogued.
  walk; first [by apply within_dev_machines|apply within_workloads].
Qed.

Lemma within_ensure_volume cx : within P (ensure_volume cx).
Proof. unfold ensure_volume. walk. Qed.

(** ** The objects of a local Tenant *)
Lemma root_kind cx kind spec :
  catalogued kind ∈ MANAGEMENT_RESOURCES → mr_class (catalogued kind) = Root →
  has_types root_types (management_object cx kind spec).
Proof.
  intros Hin Hc. exists (resource_types (catalogued kind)). split; [done|]. apply list_elem_of_fmap_2.
  apply elem_of_filter_list. split; [by rewrite bool_decide_eq_true_2|done].
Qed.
