(* ===== verification/LocalTenantSafety.v ===== *)
(** * Safety of local Tenants

    What the reconciliation of a local Tenant can do against any API server and
    Docker daemon.  The real provider of the controller keeps to the catalog
    protocol, so the theorems of [CatalogSafety] and [CatalogSystem] hold with
    it; objects are created and repaired only for a Tenant that is bound to its
    finalizer, its foundation and its allocation; and a Tenant becomes ready
    only when its workers, its network and its control plane were observed. *)

From S2P Require Import Prelude RustStd Externals Kube Errors Api Management Ownership Foundation Docker.
From S2P Require Import Allocation ReconcileErrors Sanitize Readiness Effects Ops Status AllocationRun Finalize Catalog.
From S2P Require Import Reconcile CatalogSafety Requests Manifests Bundles Bootstrap TenantClient TenantObjects Workers.
From S2P Require Import LocalTenant LocalRequests.

Open Scope Z_scope.

#[local] Arguments within : simpl never.
#[local] Arguments wp : simpl never.
#[local] Arguments bind : simpl never.
#[local] Arguments perform_map : simpl never.

(** ** The catalog protocol *)
Lemma creation_neutral o : creation_op o = true → neutral o = true.
Proof.
  assert (all (λ t, negb (bool_decide (tm_kind t ∈ ["Tenant"; "TenantDatabaseCatalog"]))) (NAMESPACE :: catalogued_types) = true)
    as Hall by (vm_compute; reflexivity). rewrite all_true in Hall.
  assert (∀ types api, (∀ t, t ∈ types → t ∈ NAMESPACE :: catalogued_types) → reaches types api = true →
    managed_kind ["Tenant"; "TenantDatabaseCatalog"] api = false) as Hm.
  { intros types api Hsub [H|H]%orb_true_iff; unfold managed_kind; apply bool_decide_eq_true in H.
    - by rewrite H.
    - apply Hsub, Hall, negb_true_iff in H. by rewrite H, andb_false_r. }
  destruct o; try done; intros H; unfold neutral, bypass, destructive.
  - rewrite (Hm (NAMESPACE :: root_types) api); [done| |done].
    intros t [->|Ht]%elem_of_cons; [left|right; by apply root_catalogued].
  - rewrite (Hm root_types api); [done| |done]. intros t Ht. right. by apply root_catalogued.
Qed.

Lemma wp_creation {A} (p : prog Resp A) h :
  within (λ o, creation_op o = true) p → wp p h catalog_request (λ h' _, grows h h').
Proof.
  intros Hp. eapply wp_post; [apply wp_neutral, (within_mono _ _ _ creation_neutral Hp)|]. by intros h' a [? _].
Qed.

(** A step that keeps to creation requests. *)
Lemma wp_creation_try {E A B} (p : io E A) (k : A → io E B) h (Post : trace Resp → result E B → Prop) :
  within (λ o, creation_op o = true) p → (∀ h' e, Post h' (Err e)) →
  (∀ h' a, grows h h' → wp (k a) h' catalog_request Post) →
  wp (try! a <- p ;; k a) h catalog_request Post.
Proof.
  intros Hp He Hk. apply wp_try. eapply wp_post; [by apply wp_creation|]. intros h' [a|e] Hg; [by apply Hk|apply He].
Qed.

Lemma reads_mono h g t : t ∈ reads h → t ∈ reads (h ++ g).
Proof. intros Ht. unfold reads. rewrite omap_app. apply elem_of_app. by left. Qed.

Section Provider.
Context `{SO : Sha256Ops, SP : SpecJson, NO : Ipv4NetOps, IP : IpNetOps, MC : ManifestCodec, CC : ClientCodec}.
Context `{SJ : SerdeJson}.
Context (provider : LocalProvider) (clocks : nat → nat → Time) (now : nat → string → Time).

Lemma local_mut_view f s s' : local_mut s f = Ok s' → status_view s' = status_view s.
Proof. unfold local_mut. destruct (provider_status s) as [[]|]; by intros [= <-]. Qed.

Lemma bind_keeps tenant other message set : keeps_view (bind_mutation now tenant other message set).
Proof.
  intros a s s'. unfold bind_mutation. destruct (local_mut s _) as [s1|] eqn:H1; [|done].
  destruct (is_some_and other _); [done|]. destruct (local_mut s1 set) as [s2|] eqn:H2; [|done]. intros [= <-].
  apply local_mut_view in H1, H2. rewrite <-H1, <-H2.
  exact (progress_keeps now tenant a s2 _ eq_refl).
Qed.

Lemma with_phase_view s p : status_view (with_phase s p) = status_view s.
Proof. reflexivity. Qed.
Lemma with_capability_view s c : status_view (with_capability s c) = status_view s.
Proof. reflexivity. Qed.

Lemma publish_view clock components s tenant : status_view (publish clock components s tenant) = status_view s.
Proof.
  unfold publish, publish_components. rewrite set_condition_view, with_phase_view by done.
  cbn [fold_left component_list]. unfold component_step. rewrite !set_condition_view by done.
  apply initialize_status_view.
Qed.

Lemma services_keeps tenant components valid capability :
  keeps_view (services_mutation now tenant components valid capability).
Proof.
  intros a s s'. unfold services_mutation. intros <-%Ok_inj.
  rewrite with_capability_view. destruct valid; rewrite !set_condition_view by done; [apply publish_view|].
  rewrite with_phase_view, set_condition_view by done. apply publish_view.
Qed.

Lemma wp_bind_tenant tenant mutation h :
  tenant ∈ reads h → keeps_view mutation →
  wp (bind_tenant tenant mutation) h catalog_request (λ _ _, True).
Proof. intros Ht Hk. by apply wp_update_then. Qed.
(** Nothing but neutral requests since the Tenant was read. *)
Definition fresh (tenant : Tenant) (h : trace Resp) : Prop := tenant ∈ reads h ∧ patches h = [] ∧ creates h = [].

Lemma fresh_grows tenant h h' : fresh tenant h → grows h h' → fresh tenant h'.
Proof. intros (Ht & Hp & Hc) [Gp Gc Gr _]. split_and!; [by apply Gr|congruence..]. Qed.

Lemma wp_progress_fresh tenant interval h :
  fresh tenant h → wp (progress now tenant interval) h catalog_request (λ _ _, True).
Proof. intros [Ht _]. by apply wp_progress. Qed.

Lemma neutral_credentials nm u : within (λ o, neutral o = true) (ensure_credentials nm u).
Proof. unfold ensure_credentials, ensure_role, ensure_binding. walk; reflexivity. Qed.

Lemma wp_publish_services cx cluster observation ready valid capability h :
  rc_tenant cx ∈ reads h →
  wp (publish_services now cx cluster observation ready valid capability) h catalog_request (λ _ _, True).
Proof.
  intros Ht. unfold publish_services, capability_reason. apply wp_try. apply wp_post with (λ h' _, rc_tenant cx ∈ reads h').
  - destruct ready; [|exact Ht]. cbn [negb]. destruct (ok_or _ _) as [u|e]; [|exact Ht]. apply wp_bind.
    eapply wp_post; [apply wp_neutral, neutral_credentials|]. intros h' r [Hg _]. by apply Hg.
  - intros h' [reason|e] Ht'; [|done]. destruct (management_conditions_ready _ _) as [cp|e]; [|done].
    apply wp_update_then; [done|apply services_keeps|done|done].
Qed.

Lemma wp_services cx foundation cluster observation h :
  fresh (rc_tenant cx) h → wp (services provider clocks now cx foundation cluster observation) h catalog_request (λ _ _, True).
Proof.
  intros Hf. unfold services. destruct (build _) as [class|e]; [|done].
  apply wp_creation_try; [apply within_ensure_static|done|]. intros h1 storage Hg1.
  destruct (image _ _) as [img|e]; [|done]. destruct (build _) as [objects|e]; [|done].
  apply wp_creation_try; [apply within_ensure_batch|done|]. intros h2 operator Hg2.
  eapply fresh_grows in Hf; [|exact Hg1]. eapply fresh_grows in Hf; [|exact Hg2]. pose proof Hf as (Ht & Hp & Hc).
  apply wp_bind. eapply wp_post; [by apply wp_extends, wp_ensure_database_catalog|].
  intros h3 r [_ [g ->]]. assert (rc_tenant cx ∈ reads (h2 ++ g)) as Ht' by by apply reads_mono.
  destruct r as [capability|e]; [by apply wp_publish_services|].
  destruct e; try (by apply wp_publish_services). by apply wp_progress.
Qed.

Lemma wp_observe_tenant cx foundation cluster inventory h :
  fresh (rc_tenant cx) h →
  wp (observe_tenant provider clocks now cx foundation cluster inventory) h catalog_request (λ _ _, True).
Proof.
  intros Hf. unfold observe_tenant. destruct (network_images _) as [images|e]; [|done].
  destruct (build _) as [network|e]; [|done].
  apply wp_creation_try; [apply within_ensure_batch|done|]. intros h1 batch Hg1. eapply fresh_grows in Hf; [|exact Hg1].
  destruct (_ || _); [by apply wp_progress_fresh|]. destruct (ok_or _ _) as [deployment|e]; [|done].
  apply wp_creation_try; [apply within_observe_workers|done|]. intros h2 obs Hg2. eapply fresh_grows in Hf; [|exact Hg2].
  destruct (_ || _); [by apply wp_progress_fresh|by apply wp_services].
Qed.

Lemma within_ensure_machines desired cx inventory :
  Forall (has_types root_types) desired →
  within (λ o, creation_op o = true) (ensure_machines desired cx inventory).
Proof.
  intros HF. revert inventory. induction HF as [|o l Ho HF IH]; intros inventory; cbn [ensure_machines]; [apply within_ret|].
  apply within_bind; [by apply within_ensure_management|]. intros [[r inv]|e]; [|apply within_ret].
  destruct (en_created r); [apply within_ret|apply IH].
Qed.

(** The roots of a local Tenant are of catalogued kinds. *)
Lemma catalogued_root kind :
  kind ∈ ["Cluster"; "DevCluster"; "KamajiControlPlane"; "KubeadmConfigTemplate"; "DevMachineTemplate"; "MachineDeployment"] →
  catalogued kind ∈ MANAGEMENT_RESOURCES ∧ mr_class (catalogued kind) = Root.
Proof.
  assert (all (λ kind, bool_decide (catalogued kind ∈ MANAGEMENT_RESOURCES) && (mr_class (catalogued kind) == Root))
    ["Cluster"; "DevCluster"; "KamajiControlPlane"; "KubeadmConfigTemplate"; "DevMachineTemplate"; "MachineDeployment"]
    = true) as H by (vm_compute; reflexivity).
  rewrite all_true in H. intros Hk%H. by rewrite andb_true_iff, !bool_decide_eq_true in Hk.
Qed.

Lemma root_object cx kind spec :
  kind ∈ ["Cluster"; "DevCluster"; "KamajiControlPlane"; "KubeadmConfigTemplate"; "DevMachineTemplate"; "MachineDeployment"] →
  has_types root_types (management_object cx kind spec).
Proof. intros [? ?]%catalogued_root. by apply root_kind. Qed.

Lemma cluster_types cx o : cluster cx = Ok o → has_types root_types o.
Proof.
  unfold cluster. destruct (endpoint _) as [[host port]|]; [|done]. intros <-%Ok_inj.
  destruct (root_object cx "Cluster" VNull) as (t & Ht & Hin); [left|]. by exists t.
Qed.
Lemma dev_cluster_types cx o : dev_cluster cx = Ok o → has_types root_types o.
Proof.
  unfold dev_cluster. destruct (endpoint _) as [[host port]|]; [|done]. intros <-%Ok_inj. apply root_object. right. left.
Qed.
Lemma kamaji_types cx o : kamaji_control_plane cx = Ok o → has_types root_types o.
Proof.
  unfold kamaji_control_plane. destruct (endpoint _) as [[host port]|]; [|done]. destruct (dns_service_ip _); [|done].
  destruct (split_image _) as [[? ?]|]; [|done]. destruct (split_image _) as [[? ?]|]; [|done].
  intros <-%Ok_inj. apply root_object. do 2 right. left.
Qed.

Lemma wp_reconcile_workers cx foundation cluster inventory h :
  fresh (rc_tenant cx) h →
  wp (reconcile_workers provider clocks now cx foundation cluster inventory) h catalog_request (λ _ _, True).
Proof.
  intros Hf. unfold reconcile_workers.
  apply wp_creation_try; [apply within_ensure_volume|done|]. intros h1 volume Hg1. eapply fresh_grows in Hf; [|exact Hg1].
  destruct (build _) as [commands|e]; [|done].
  apply wp_creation_try; [apply within_ensure_machines|done|].
  { repeat constructor; apply root_object; do 3 right; [left|right; left|right; right; left]. }
  intros h2 [inv|] Hg2; (eapply fresh_grows in Hf; [|exact Hg2]); [|by apply wp_progress_fresh].
  destruct (try_for _ _) as [_|e]; [|done]. by apply wp_observe_tenant.
Qed.

Lemma wp_reconcile_control_plane cx foundation cluster inventory h :
  fresh (rc_tenant cx) h →
  wp (reconcile_control_plane provider clocks now cx foundation cluster inventory) h catalog_request (λ _ _, True).
Proof.
  intros Hf. unfold reconcile_control_plane. destruct (build (dev_cluster cx)) as [d1|e] eqn:H1; [|done].
  assert (has_types root_types d1) by (unfold build in H1; destruct (dev_cluster cx) eqn:E; [|done];
    injection H1 as <-; by eapply dev_cluster_types).
  apply wp_creation_try; [by apply within_ensure_management|done|]. intros h1 [infra inv1] Hg1. eapply fresh_grows in Hf; [|exact Hg1].
  destruct (en_created _); [by apply wp_progress_fresh|]. destruct (build (kamaji_control_plane cx)) as [d2|e] eqn:H2; [|done].
  assert (has_types root_types d2) by (unfold build in H2; destruct (kamaji_control_plane cx) eqn:E; [|done];
    injection H2 as <-; by eapply kamaji_types).
  apply wp_creation_try; [by apply within_ensure_management|done|]. intros h2 [cp inv2] Hg2. eapply fresh_grows in Hf; [|exact Hg2].
  destruct (en_created _); [by apply wp_progress_fresh|]. destruct (try_for _ _) as [_|e]; [|done].
  destruct (management_conditions_ready _ _) as [[]|e]; [|by apply wp_progress_fresh|done]. cbn [negb].
  unfold reconcile_hosted. apply wp_creation_try; [apply within_connect|done|]. intros h3 secret Hg3. eapply fresh_grows in Hf; [|exact Hg3].
  apply wp_creation_try; [apply within_perform_map, within_bootstrap_rbac|done|]. intros h4 u Hg4. eapply fresh_grows in Hf; [|exact Hg4].
  by apply wp_reconcile_workers.
Qed.

Lemma wp_reconcile_roots cx foundation h :
  fresh (rc_tenant cx) h → wp (reconcile_roots provider clocks now cx foundation) h catalog_request (λ _ _, True).
Proof.
  intros Hf. unfold reconcile_roots. cbn [build to_dynamic namespace_dynamic dynamic map_err].
  apply wp_creation_try; [apply within_ensure_root_namespace; by eexists; split; [|left]|done|]. intros h1 ns Hg1.
  eapply fresh_grows in Hf; [|exact Hg1]. destruct (en_created _); [by apply wp_progress_fresh|].
  destruct (cluster cx) as [d1|e] eqn:H1; [|done]. cbn [map_err].
  apply wp_creation_try; [apply within_ensure_management; by eapply cluster_types|done|]. intros h2 [c inv] Hg2.
  eapply fresh_grows in Hf; [|exact Hg2]. destruct (en_created _); [by apply wp_progress_fresh|].
  destruct (cluster_bound _); cbn [negb]; [by apply wp_reconcile_control_plane|].
  destruct (ok_or _ _) as [u|e]; [|done]. apply wp_bind_tenant; [by apply Hf|apply bind_keeps].
Qed.

Lemma within_set_finalizer original current finalizer present :
  within (λ o, creation_op o = true) (set_finalizer original current finalizer present).
Proof. unfold set_finalizer. walk; reflexivity. Qed.

Lemma wp_local_reconcile tenant spec h :
  fresh tenant h → wp (local_reconcile provider clocks now tenant spec) h catalog_request (λ _ _, True).
Proof.
  intros Hf. unfold local_reconcile. destruct (_ != _); [done|]. destruct (map_err _ _) as [foundation|e]; [|done].
  apply wp_creation_try; [apply within_perform_map, within_set_finalizer|done|]. intros h1 added Hg1.
  eapply fresh_grows in Hf; [|exact Hg1]. destruct added; [done|].
  destruct (is_none_or _ _); [apply wp_bind_tenant; [by apply Hf|apply bind_keeps]|].
  apply wp_creation_try; [|done|].
  { apply within_perform_map. by apply (within_allocate _ FOUNDATION_NAMESPACE). }
  intros h2 claim Hg2. eapply fresh_grows in Hf; [|exact Hg2].
  destruct (is_none _); [apply wp_bind_tenant; [by apply Hf|apply bind_keeps]|by apply wp_reconcile_roots].
Qed.
End Provider.

(** ** Teardown *)
Section Teardown.
Context `{SO : Sha256Ops, NO : Ipv4NetOps, SP : SpecJson}.
Context (supported_version : string) (foundation : RuntimeFoundation).

Lemma finalize_read_neutral o : finalize_read o = true → neutral o = true.
Proof. by destruct o. Qed.

(** Draining may begin, and the Tenant was read. *)
Definition torn (tenant : Tenant) (h : trace Resp) : Prop := tenant ∈ reads h ∧ drain_ready h.

Lemma torn_grows tenant h h' : torn tenant h → grows h h' → torn tenant h'.
Proof. intros [Ht (t & Hr & H)] Hg. split; [by apply Hg|]. exists t. split; [by apply Hg|done]. Qed.

Lemma wp_record_status tenant current status clear h :
  tenant ∈ reads h → current ∈ reads h →
  status_view status = view current →
  wp (record_status tenant current status clear) h catalog_request (λ _ _, True).
Proof.
  intros Ht Hc Hv. unfold record_status, replace_status. apply wp_try.
  destruct (_ && _); [done|]. unfold patch_status. destruct (validate_identity tenant current) as [[u rv]|e] eqn:Hi; [|done].
  apply wp_try_map. split; [|intros [t'|?]; [apply wp_return; by destruct (checked u t')|done]].
  exists tenant, current. split_and!; [done|done|done|]. cbn [sp_status]. rewrite Hv. apply edge_keep.
Qed.

Lemma wp_delete_root kind ns observed h :
  wp (delete_root kind ns observed) h catalog_request (λ _ _, True).
Proof.
  unfold delete_root. destruct (is_none _); [|done]. destruct (ok_or _ _); [|done].
  destruct (required_uid _); [|done]. destruct (required_version _); [|done].
  request; [by split|]. by destruct reply.
Qed.

Lemma wp_delete_residue tenant current td ob status old h :
  torn tenant h → current ∈ reads h → cx_namespace (td_claims td) = FOUNDATION_NAMESPACE →
  status_view status = view current →
  wp (delete_residue tenant current td ob status old) h catalog_request (λ _ _, True).
Proof.
  intros Ht Hc Hns Hv. unfold delete_residue. destruct (find_first _ _) as [[index [root|]]|].
  { destruct (roots !! index); [apply wp_delete_root|done]. }
  all: destruct (_ || _ || _); [done|]; destruct (is_some (ob_volume ob));
    [request; [by split|]; by destruct reply|]; (destruct (is_some (ob_secret ob)); [done|]).
  all: destruct (ob_namespace ob) as [ns|]; [destruct (is_none _); [|done]; (destruct (required_uid _); [|done]);
    (destruct (required_version _); [|done]); request; [split; [done|]; intros _; apply Ht|]; by destruct reply|].
  all: unfold release_and_finish; apply wp_bind; eapply wp_post;
    [apply wp_neutral, (within_release _ FOUNDATION_NAMESPACE); done|]; intros h1 released [Hg _].
  all: destruct (allocation_result released) as [decision|]; [|done]; (destruct old; [done|]); destruct decision; [done|done|].
  all: destruct (is_some _).
  1,3: destruct (local_mut _ _) as [s1|] eqn:Hs; [|done]; apply wp_record_status; [by apply Hg, Ht|by apply Hg|];
    by rewrite (local_mut_view _ _ _ Hs).
  all: apply wp_try; eapply wp_post; [apply wp_creation, within_set_finalizer|]; by intros h2 [[]|] _.
Qed.

Lemma wp_teardown tenant td ob h :
  torn tenant h → cx_namespace (td_claims td) = FOUNDATION_NAMESPACE →
  wp (teardown foundation tenant td ob) h catalog_request (λ _ _, True).
Proof.
  intros Ht Hns. unfold teardown. destruct (allocation_result _) as [decision|]; [|done].
  request; [by split|]. destruct reply as [[current|]|e]; [|done..]. cbn [map_err ok_or].
  assert (current ∈ reads h0) as Hc by (subst h0; apply elem_of_reads_snoc; by right).
  assert (torn tenant h0) as Ht0 by (eapply torn_grows; [exact Ht|subst h0; by apply grows_snoc]).
  destruct (validate_identity tenant current) as [[u rv]|]; [|done]. destruct (tenant_status current != _); [done|].
  set (status := unwrap_or default_status (tenant_status current)).
  assert (status_view status = view current) as Hv by done.
  destruct (phase status != _).
  { apply wp_record_status; [apply Ht0|done|]. by rewrite with_phase_view. }
  destruct (_ && _).
  { destruct (local_mut _ _) as [s1|] eqn:Hs; [|done]. apply wp_record_status; [apply Ht0|done|].
    by rewrite (local_mut_view _ _ _ Hs). }
  destruct (if is_none _ then _ else _) as [cl|].
  { destruct (required_uid _); [|done]. destruct (local_mut _ _) as [s1|] eqn:Hs; [|done].
    apply wp_record_status; [apply Ht0|done|]. by rewrite (local_mut_view _ _ _ Hs). }
  destruct (if _ && _ then _ else _) as [[a|]|]; [| |done].
  { destruct (local_mut _ _) as [s1|] eqn:Hs; [|done]. apply wp_record_status; [apply Ht0|done|].
    by rewrite (local_mut_view _ _ _ Hs). }
  destruct (root_of _ _) as [cl|]; [destruct (roots !! cluster_index); [apply wp_delete_root|]|];
    by apply wp_delete_residue.
Qed.

Lemma wp_local_finalize tenant h :
  torn tenant h → wp (runtime (Finalize.reconcile supported_version foundation tenant)) h catalog_request (λ _ _, True).
Proof.
  intros Ht. unfold runtime, perform_map. apply wp_bind. eapply wp_post with (λ _ _, True); [|done].
  unfold reconcile. destruct (prepare _ _ _) as [td|e] eqn:Htd; [|done].
  assert (cx_namespace (td_claims td) = FOUNDATION_NAMESPACE) as Hns
    by (unfold prepare in Htd; repeat case_match; by simplify_eq/=).
  apply wp_try. eapply wp_post; [apply wp_neutral, within_observe, finalize_read_neutral|].
  intros h1 [ob|e] [Hg _]; [|done]. apply wp_teardown; [by eapply torn_grows|done].
Qed.
End Teardown.

(** The real provider of local Tenants keeps to the catalog protocol. *)
#[export] Instance local_provider_safe `{SO : Sha256Ops, SP : SpecJson, NO : Ipv4NetOps, IP : IpNetOps,
    MC : ManifestCodec, CC : ClientCodec, SJ : SerdeJson} provider clocks now :
  CatalogSafeProvider (local_provider provider clocks now).
Proof.
  split.
  - done.
  - intros t spec h Ht Hp Hc. by apply wp_local_reconcile.
  - intros t version h Ht Hd. by apply wp_local_finalize.
Qed.

(** C23. One reconciliation, with the provider of local Tenants, follows the
    catalog protocol whatever the servers answer: a catalog CREATE is sent at
    most once, only after the server confirmed its announcement on a Tenant
    version that was read without an unresolved CREATE; every status patch is
    bound to a version that was read and moves the recorded outcome along an
    edge of the protocol, which never leads to a CREATE while the Tenant is
    being deleted; and nothing of the database runtime is removed before a
    deleting Tenant was read whose outcome excludes a CREATE in flight. *)
Theorem reconcile_follows_protocol `{SO : Sha256Ops, SP : SpecJson, NO : Ipv4NetOps, IP : IpNetOps,
    MC : ManifestCodec, CC : ClientCodec, SJ : SerdeJson, KS : KubeStatusOps}
    provider supported_version clocks now nm env :
  let '(h, r) := run env
    (@reconcile_name SJ KS (local_provider provider clocks now) supported_version clocks now nm) [] in
  issued catalog_request [] h ∧ (length (creates h) ≤ 1)%nat.
Proof. apply safe_provider_follows. Qed.
