(* ===== verification/WorkerInventory.v ===== *)
(** * The inventory of workers

    What a complete and ready observation of [Workers] proves: Machines,
    DevMachines, containers and Nodes correspond one to one, each belongs to the
    Tenant, and each was reported ready by the replies of this observation. *)

From S2P Require Import Prelude RustStd Externals Kube Errors Api Management Ownership Foundation Docker.
From S2P Require Import Allocation ReconcileErrors Sanitize Readiness Effects Ops Manifests Bundles TenantObjects Workers.
From S2P Require Import Status Catalog Reconcile CatalogSafety.

Open Scope Z_scope.

#[local] Arguments wp : simpl never.
#[local] Arguments bind : simpl never.
#[local] Arguments perform_map : simpl never.

(** ** Inventories without duplicates *)
Lemma NoDup_covers {A} (l k : list A) :
  NoDup l → (∀ x, x ∈ l → x ∈ k) → length l = length k → l ≡ₚ k.
Proof. intros Hnd Hsub Hlen. apply submseteq_length_Permutation; [by apply list.NoDup_submseteq|lia]. Qed.

Lemma insert_all_Some seen l s :
  insert_all seen l = Some s →
  NoDup (map (uid ∘ dyn_meta) l) ∧ (∀ o, o ∈ l → uid (dyn_meta o) ∉ seen) ∧
  ∀ u, u ∈ s ↔ u ∈ seen ∨ u ∈ map (uid ∘ dyn_meta) l.
Proof.
  revert seen. induction l as [|o l IH]; intros seen; cbn [insert_all map].
  - intros [= <-]. split_and!; [constructor|set_solver|set_solver].
  - case_bool_decide as Hin; [done|]. intros (Hnd & Hd & Hs)%IH. split_and!.
    + constructor; [|done]. intros (o' & Ho & Ho')%list_elem_of_fmap. apply (Hd o' Ho'). cbn in Ho. set_solver.
    + intros o' [->|Ho]%elem_of_cons; [done|]. specialize (Hd _ Ho). set_solver.
    + intros u. rewrite Hs. set_solver.
Qed.

(** ** Machines *)
Record indexed (identity : Identity) (root : string) (inventory machines : list DynamicObject)
    (state : gset string * gmap string DynamicObject) : Prop := {
  ix_owned m : m ∈ machines → validate_root_ownership (dyn_meta m) identity "machine" = Ok tt ∧
    validate_owner_chain m root inventory = Ok tt;
  ix_names : NoDup (map object_name machines) ∧ ∀ nm, nm ∈ state.1 ↔ nm ∈ map object_name machines;
  ix_uids u m : state.2 !! u = Some m → m ∈ machines ∧ unwrap_or "" (uid (dyn_meta m)) = u;
}.

Lemma map_err_Ok {E F A} (f : E → F) (r : result E A) x : map_err f r = Ok x → r = Ok x.
Proof. by destruct r; cbn; [intros [= ->]|]. Qed.

Lemma index_machine_indexed identity root inventory machines state m state' :
  indexed identity root inventory machines state → index_machine identity root inventory state m = Ok state' →
  indexed identity root inventory (machines ++ [m]) state'.
Proof.
  intros [Ho [Hnd Hn] Hu]. unfold index_machine, chain.
  destruct (map_err _ (validate_root_ownership _ _ _)) as [[]|] eqn:H1; [|done]. apply map_err_Ok in H1.
  destruct (map_err _ (validate_owner_chain _ _ _)) as [[]|] eqn:H2; [|done]. apply map_err_Ok in H2.
  destruct (_ || _) eqn:E; [done|]. apply orb_false_iff in E as [E%bool_decide_eq_false _]. intros [= <-].
  split; cbn [fst snd].
  - intros m' [?| ->%list_elem_of_singleton]%elem_of_app; auto.
  - rewrite map_app. split; [|set_solver]. apply list.NoDup_app. split_and!; [done| |apply list.NoDup_singleton].
    intros nm Hnm ->%list_elem_of_singleton. by apply E, Hn.
  - intros u m'. rewrite lookup_insert_Some. intros [[<- <-]|[_ [? ?]%Hu]]; (split; [|done]); apply elem_of_app; [right; left|by left].
Qed.

Lemma index_machines identity root inventory l done state state' :
  indexed identity root inventory done state → try_fold (index_machine identity root inventory) state l = Ok state' →
  indexed identity root inventory (done ++ l) state'.
Proof.
  revert done state. induction l as [|m l IH]; intros dn state Hi H; cbn in H.
  - injection H as <-. by rewrite app_nil_r.
  - destruct (index_machine _ _ _ _ _) as [s|] eqn:E; [|done].
    eapply (IH (dn ++ [m])) in H; [|by eapply index_machine_indexed]. by rewrite <-(assoc_L (++)) in H.
Qed.

(** A DevMachine of one of the Machines, by its only owner. *)
Definition dev_machine_of (by_uid : gmap string DynamicObject) (inventory : list DynamicObject) (d : DynamicObject) : Prop :=
  ∃ m owner, by_uid !! owner_uid owner = Some m ∧ owners_of (dyn_meta d) = [owner] ∧ object_name d = object_name m ∧
    validate_owner_chain d (owner_uid owner) inventory = Ok tt.

Lemma wp_check_dev_machines identity definition root inventory by_uid l uids names h :
  wp (check_dev_machines identity definition root inventory by_uid l uids names) h (λ _ _, True)
    (λ _ r, ∀ s, r = Ok s → Forall (dev_machine_of by_uid inventory) l ∧
       NoDup (map object_name l) ∧ NoDup (map (uid ∘ dyn_meta) l) ∧
       ∀ d, d ∈ l → object_name d ∉ names ∧ uid (dyn_meta d) ∉ uids).
Proof.
  revert uids names h. induction l as [|d l IH]; intros uids names h; cbn [check_dev_machines].
  { intros s _. split_and!; [constructor..|set_solver]. }
  case_bool_decide as Hu; [done|]. destruct (owners_of (dyn_meta d)) as [|owner [|]] eqn:Ho; [done| |done].
  destruct (by_uid !! owner_uid owner) as [m|] eqn:Hm.
  2: { unfold unknown_owner. request; [done|]. destruct reply as [[current|]|]; [|done..]. cbn [map_err].
       destruct (owner_mismatch _ _ _ _ _); [done|]. destruct (map_err _ (validate_root_ownership _ _ _)); [|done].
       by destruct (chain _ _ _). }
  destruct ((_ != _) || _) eqn:Hn; [done|]. apply orb_false_iff in Hn as [Hn Hnn].
  apply negb_false_iff, bool_decide_eq_true in Hn. apply bool_decide_eq_false in Hnn.
  unfold chain. destruct (map_err _ _) as [[]|] eqn:Hc; [|done]. apply map_err_Ok in Hc.
  eapply wp_post; [apply IH|]. intros h' r Hr s ->. destruct (Hr _ eq_refl) as (HF & Hnd & Hndu & Hd).
  split_and!.
  - constructor; [by exists m, owner|done].
  - cbn. constructor; [|done]. intros (d' & E & [Hd' _]%Hd)%list_elem_of_fmap. set_solver.
  - cbn. constructor; [|done]. intros (d' & E & [_ Hd']%Hd)%list_elem_of_fmap. cbn in E. set_solver.
  - intros d' [->|[H1 H2]%Hd]%elem_of_cons; [done|]. set_solver.
Qed.

(** ** Nodes *)
Lemma check_nodes machine_names l state state' :
  try_fold (check_node machine_names) state l = Ok state' →
  NoDup (map object_name l) ∧ ∀ n, n ∈ l → object_name n ∈ machine_names ∧ object_name n ∉ state.1.
Proof.
  revert state. induction l as [|n l IH]; intros state H; cbn in H; [split; [constructor|set_solver]|].
  unfold check_node in H. destruct (_ || _ || _) eqn:E; [done|]. rewrite !orb_false_iff in E.
  destruct E as [[E1%negb_false_iff%bool_decide_eq_true E2%bool_decide_eq_false] _].
  apply IH in H as [Hnd Hl]. cbn [fst] in Hl. split.
  - cbn. constructor; [|done]. intros (n' & E & [_ Hn']%Hl)%list_elem_of_fmap. set_solver.
  - intros n' [->|[? ?]%Hl]%elem_of_cons; [done|]. set_solver.
Qed.

(** ** Network workloads *)
Definition available (observed : list DynamicObject) (h : trace Resp) (workload : string * string) : Prop :=
  ∃ current, workload_available current = true ∧
    (current ∈ observed ∧ is_workload workload.1 workload.2 current = true ∨
     answered h (ObjectFind (api_for HostedSide {| tm_api_version := "apps/v1"; tm_kind := workload.1 |}
       (Some "kube-system")) workload.2) (Ok (Some current))).

Lemma available_app observed h g w : available observed h w → available observed (h ++ g) w.
Proof. intros (c & Ha & [H|H]); exists c; (split; [done|]); [by left|right; by apply answered_app_l]. Qed.

Lemma wp_workloads l observed h :
  wp (workloads_ready l observed) h (λ _ _, True)
    (λ h' r, (∃ g, h' = h ++ g) ∧ (r = Ok true → Forall (available observed h') l)).
Proof.
  revert h. induction l as [|[kind nm] l IH]; intros h; cbn [workloads_ready].
  { split; [exists []; by rewrite app_nil_r|]. constructor. }
  apply wp_bind. apply wp_post with (λ h' r, (∃ g, h' = h ++ g) ∧
    ∀ c, r = Ok (Some c) → workload_available c = true → available observed h' (kind, nm)).
  - destruct (find_first _ _) as [c|] eqn:Hf.
    + split; [exists []; by rewrite app_nil_r|]. intros c' [= <-] Ha. apply find_first_Some in Hf as [Hin Hw].
      exists c. split; [done|by left].
    + apply wp_bind. split; [done|]. intros [c|]; (split; [by eexists|]); [|done]. intros c' [= ->] Ha.
      exists c'. split; [done|]. right. apply answered_last.
  - intros h' [[c|]|] [Hg Hc]; [|by split..]. destruct (workload_available c) eqn:Ha; [|by split].
    eapply wp_post; [apply IH|]. destruct Hg as [g ->]. intros h'' r [[g' ->] Hr].
    split; [exists (g ++ g'); by rewrite (assoc_L (++))|]. intros ->. constructor; [|by apply Hr].
    by apply available_app, (Hc c).
Qed.

(** ** The observation *)
Definition worker_api (kind ns : string) : ObjectApi :=
  api_for ManagementSide (resource_types (catalogued kind)) (Some ns).
Definition worker_identity (inputs : WorkerInputs) (machines : list DynamicObject) : WorkerIdentity := {|
  wi_tenant_name := id_tenant_name (win_identity inputs); wi_network_id := win_network_id inputs;
  wi_machine_names := list_to_set (map object_name machines) |}.

(** The workers of a Tenant, observed in this history. *)
Record workforce (inputs : WorkerInputs) (h : trace Resp) (machines dev_machines nodes : list DynamicObject)
    (containers : list DockerContainer) : Prop := {
  (* from the replies *)
  wf_machines : ∃ l, answered h (ObjectList (worker_api "Machine" (id_tenant_name (win_identity inputs)))) (Ok l) ∧
    machines = map (λ o, with_types o (resource_types (catalogued "Machine"))) l;
  wf_dev_machines : ∃ l, answered h (ObjectList (worker_api "DevMachine" (id_tenant_name (win_identity inputs)))) (Ok l) ∧
    dev_machines = map (λ o, with_types o (resource_types (catalogued "DevMachine"))) l;
  wf_nodes : ∃ l, answered h (ObjectList (api_for HostedSide NODE None)) (Ok l) ∧ nodes = map typed_node l;
  wf_containers : ∃ l, answered h ListContainers (Ok l) ∧ ∀ c, c ∈ containers → c ∈ l;
  (* owned, through the MachineDeployment *)
  wf_owned : ∃ root sets, uid (dyn_meta (win_deployment inputs)) = Some root ∧
    ∀ m, m ∈ machines → validate_root_ownership (dyn_meta m) (win_identity inputs) "machine" = Ok tt ∧
      validate_owner_chain m root (win_deployment inputs :: sets ++ machines) = Ok tt;
  wf_dev_owner d : d ∈ dev_machines → ∃ m owner, m ∈ machines ∧ owners_of (dyn_meta d) = [owner] ∧
    uid (dyn_meta m) = Some (owner_uid owner) ∧ object_name d = object_name m;
  wf_proven c : c ∈ containers → proven_worker (worker_identity inputs machines) c;
  (* of names that occur once *)
  wf_names : NoDup (map object_name machines) ∧ NoDup (map object_name dev_machines) ∧
    NoDup (map object_name nodes) ∧ NoDup (map dc_name containers);
  wf_named : (∀ d, d ∈ dev_machines → object_name d ∈ map object_name machines) ∧
    (∀ n, n ∈ nodes → object_name n ∈ map object_name machines) ∧
    (∀ c, c ∈ containers → dc_name c ∈ map object_name machines);
}.

(** Every desired worker is there, once in each inventory. *)
Record full (inputs : WorkerInputs) (machines dev_machines nodes : list DynamicObject) (containers : list DockerContainer)
    : Prop := {
  fl_count : Z.of_nat (length machines) = win_desired_count inputs ∧ machines ≠ [];
  fl_dev_machines : map object_name dev_machines ≡ₚ map object_name machines;
  fl_nodes : map object_name nodes ≡ₚ map object_name machines;
  fl_containers : map dc_name containers ≡ₚ map object_name machines;
  fl_running c : c ∈ containers → dc_state c = "running";
}.

(** What an observation claims. *)
Definition observed_workers (inputs : WorkerInputs) (h : trace Resp) (r : result ReconcileError WorkerObservation) : Prop :=
  match r with
  | Err _ => True
  | Ok o => ∃ machines dev_machines nodes containers,
      workforce inputs h machines dev_machines nodes containers ∧
      (wo_inventory_complete o = true → full inputs machines dev_machines nodes containers) ∧
      (wo_all_ready o = true → wo_inventory_complete o = true ∧
         Forall (λ m, object_ready m = true) (machines ++ dev_machines) ∧ Forall (λ n, node_ready n = true) nodes) ∧
      (wo_network_ready o = true → wo_inventory_complete o = true ∧
         Forall (available (win_network_objects inputs) h) NETWORK_WORKLOADS)
  end.

(** A list of workers, from its reply. *)
Lemma wp_list_workers kind ns h (Post : trace Resp → result ReconcileError (list DynamicObject) → Prop) :
  definition_of kind = Ok (catalogued kind) →
  (∀ h' e, Post h' (Err e)) →
  (∀ g l, answered (h ++ g) (ObjectList (worker_api kind ns)) (Ok l) →
     Post (h ++ g) (Ok (map (λ o, with_types o (resource_types (catalogued kind))) l))) →
  wp (list_workers kind (Some ns)) h (λ _ _, True) Post.
Proof.
  intros Hd He Hok. unfold list_workers. rewrite Hd. request; [done|]. subst h0.
  destruct reply as [l|e]; cbn [map_err]; [|apply He]. destruct (any _ l); [apply He|].
  apply wp_return, Hok. apply answered_last.
Qed.

Lemma root_uid m identity resource :
  validate_root_ownership m identity resource = Ok tt → uid m = Some (unwrap_or "" (uid m)).
Proof. unfold validate_root_ownership. by destruct (uid m). Qed.

Lemma complete_full inputs h machines dev_machines nodes containers :
  workforce inputs h machines dev_machines nodes containers → (win_desired_count inputs <? 0) = false →
  complete (Z.to_nat (win_desired_count inputs)) machines dev_machines nodes containers = true →
  full inputs machines dev_machines nodes containers.
Proof.
  intros [_ _ _ _ _ _ _ (Hm & Hd & Hn & Hc) (Ed & En & Ec)] Hpos%Z.ltb_ge. unfold complete.
  rewrite !andb_true_iff, Nat.ltb_lt. cbn [all forallb]. intros [[H0 Hlen] Hrun].
  cbn in Hlen. rewrite !andb_true_iff, !Nat.eqb_eq in Hlen. destruct Hlen as (H1 & H2 & H3 & H4 & _).
  split.
  - split; [lia|]. intros ->. cbn in H1. lia.
  - apply NoDup_covers; [done| |by rewrite !length_map; congruence]. intros nm (x & -> & Hx)%list_elem_of_fmap. auto.
  - apply NoDup_covers; [done| |by rewrite !length_map; congruence]. intros nm (x & -> & Hx)%list_elem_of_fmap. auto.
  - apply NoDup_covers; [done| |by rewrite !length_map; congruence]. intros nm (x & -> & Hx)%list_elem_of_fmap. auto.
  - intros c Hc'. rewrite all_true in Hrun. apply Hrun in Hc'. by apply bool_decide_eq_true in Hc'.
Qed.

Lemma workforce_app inputs h g machines dev_machines nodes containers :
  workforce inputs h machines dev_machines nodes containers →
  workforce inputs (h ++ g) machines dev_machines nodes containers.
Proof.
  intros [(l1 & A1 & E1) (l2 & A2 & E2) (l3 & A3 & E3) (l4 & A4 & E4) ? ? ? ? ?].
  split; [exists l1|exists l2|exists l3|exists l4|done..]; (split; [by apply answered_app_l|done]).
Qed.

(** The last steps: the verdict on a workforce. *)
Lemma wp_verdict inputs h machines dev_machines nodes containers :
  workforce inputs h machines dev_machines nodes containers → (win_desired_count inputs <? 0) = false →
  let inventory_complete := complete (Z.to_nat (win_desired_count inputs)) machines dev_machines nodes containers in
  let all_ready := inventory_complete && all object_ready (machines ++ dev_machines) && all node_ready nodes in
  wp (try! network_ready <- (if inventory_complete then network_workloads_ready (win_network_objects inputs)
                             else Ret (Ok false)) ;;
      Ret (Ok {| wo_inventory_complete := inventory_complete; wo_all_ready := all_ready;
                 wo_network_ready := network_ready |})) h (λ _ _, True) (observed_workers inputs).
Proof.
  intros Hw Hpos inventory_complete all_ready.
  assert (inventory_complete = true → full inputs machines dev_machines nodes containers) as Hf
    by by eapply complete_full.
  assert (all_ready = true → inventory_complete = true ∧
    Forall (λ m, object_ready m = true) (machines ++ dev_machines) ∧ Forall (λ n, node_ready n = true) nodes) as Hr.
  { unfold all_ready. rewrite !andb_true_iff, !all_true. intros [[? ?] ?]. by rewrite !list.Forall_forall. }
  clearbody all_ready. apply wp_try.
  apply wp_post with (λ h' r, (∃ g, h' = h ++ g) ∧ (r = Ok true → inventory_complete = true ∧
    Forall (available (win_network_objects inputs) h') NETWORK_WORKLOADS)).
  - destruct inventory_complete; [|split; [exists []; by rewrite app_nil_r|done]].
    eapply wp_post; [apply wp_workloads|]. intros h' r [? ?]. auto.
  - intros h' [b|e] [[g ->] Hn]; [|done]. exists machines, dev_machines, nodes, containers. cbn.
    split_and!; [by apply workforce_app|done|done|by intros ->; apply Hn].
Qed.

Lemma wp_observe_workers inputs h :
  wp (observe_workers inputs) h (λ _ _, True) (observed_workers inputs).
Proof.
  unfold observe_workers. destruct (map_err _ _) as [u|]; [|done]. destruct (ok_or _ _) as [root|] eqn:Hroot; [|done].
  apply ok_or_Ok in Hroot.
  apply wp_try, wp_list_workers; [done|done|]. intros g1 sets _. set (ss := map _ sets).
  apply wp_try, wp_list_workers; [done|done|]. intros g2 lm Hlm. set (machines := map _ lm).
  apply wp_try, wp_list_workers; [done|done|]. intros g3 ld Hld. set (devs := map _ ld).
  destruct (definition_of _) as [definition|]; [|done].
  destruct (ok_or (insert_all _ _) _) as [uids|] eqn:Hu; [|done].
  destruct (try_for _ _); [|done].
  destruct (try_fold (index_machine _ _ _) _ _) as [[names by_uid]|] eqn:Hix; [|done].
  apply (index_machines _ _ _ _ []) in Hix as [Ho [Hnd Hn] Hby]; [|split; [set_solver|split; [constructor|set_solver]|done]].
  cbn [fst snd app] in *.
  apply wp_try. eapply wp_post; [apply wp_extends, wp_check_dev_machines|]. intros h4 [dn|] [Hdev [g4 ->]]; [|done].
  destruct (Hdev _ eq_refl) as (HF & Hdnd & _ & _). rewrite list.Forall_forall in HF.
  request; [done|]. destruct reply as [cs|]; [|done]. cbn [map_err].
  destruct (map_err _ (worker_containers _ _)) as [containers|] eqn:Hc; [|done]. apply map_err_Ok in Hc.
  request; [done|]. destruct reply as [ln|]; [|done]. cbn [map_err]. destruct (any _ ln); [done|].
  destruct (try_fold (check_node _) _ _) as [ns|] eqn:Hns; [|done]. apply check_nodes in Hns as [Hnnd Hnn].
  destruct (_ <? _) eqn:Hpos; [done|].
  assert (names = list_to_set (map object_name machines)) as ->
    by (apply set_eq; intros nm; rewrite elem_of_list_to_set; apply Hn).
  pose proof (worker_containers_exact _ _ _ Hc) as (Hp & Hsub & _ & Hcn & _). rewrite list.Forall_forall in Hp.
  apply wp_verdict; [|done]. split.
  - exists lm. split; [in_history|done].
  - exists ld. split; [in_history|done].
  - exists ln. split; [in_history|done].
  - exists cs. split; [in_history|done].
  - exists root, ss. split; [done|]. exact Ho.
  - intros d (m & owner & Hm & Hown & Hnm & _)%HF. apply Hby in Hm as [Hm Hmu]. exists m, owner.
    split_and!; [done..| |done]. destruct (Ho _ Hm) as [Hr _]. rewrite (root_uid _ _ _ Hr). by f_equal.
  - exact Hp.
  - done.
  - split_and!.
    + intros d (m & owner & Hm & _ & -> & _)%HF. apply Hby in Hm as [Hm _]. by apply list_elem_of_fmap_2.
    + intros n [Hin _]%Hnn. set_solver.
    + intros c Hin%Hp. pose proof (pw_machine _ _ Hin) as Hin'. cbn in Hin'. set_solver.
Qed.

(** C6. Whatever the API servers and Docker report, a Tenant's workers are
    counted only when the inventories agree.  Every Machine carries the
    Tenant's identity and descends from its MachineDeployment; every DevMachine
    has exactly one owner, the Machine of its name; every counted container is
    provably the Tenant's on the foundation's network; every Node has a Machine
    of its name; no name occurs twice.  A complete inventory has exactly the
    desired number of workers, the same names in all four, and every container
    running; ready workers are complete and every Machine, DevMachine and Node
    reported ready; a ready network is complete and has its four workloads
    available. *)
Theorem observe_workers_exact inputs env :
  let '(h, r) := run env (observe_workers inputs) [] in observed_workers inputs h r.
Proof.
  pose proof (wp_run env _ _ _ _ (wp_observe_workers inputs [])) as H. destruct (run _ _ _). apply H.
Qed.

(** ** A worker *)
Module WorkerFixture.
Definition identity : Identity := {|
  id_ownership_label := "lab"; id_lab_prefix := "capi"; id_tenant_name := "t"; id_tenant_uid := "t1";
  id_spec_hash := "s"; id_foundation_hash := "f" |}.
Definition meta (resource nm u : string) (owners : list OwnerReference) : ObjectMeta := {|
  name := Some nm; namespace := Some "t"; uid := Some u; resource_version := Some "1"; generation := Some 1;
  labels := Some {["lab" := "capi"]}; annotations := Some (identity_annotations identity resource);
  owner_references := Some owners; finalizers := None; deletion_timestamp := None |}.
Definition owner (kind nm u : string) : OwnerReference := {|
  owner_api_version := mr_api_version (catalogued kind); owner_kind := kind; owner_name := nm; owner_uid := u;
  owner_controller := None; owner_block_deletion := None |}.
Definition ready : Value := VObject [("status", VObject [("conditions",
  VArray [VObject [("type", VString "Ready"); ("status", VString "True")]])])].
Definition object (kind nm u : string) (owners : list OwnerReference) : DynamicObject := {|
  dyn_types := Some (resource_types (catalogued kind)); dyn_meta := meta "machine" nm u owners; dyn_data := ready |}.
Definition deployment : DynamicObject := {|
  dyn_types := Some (resource_types (catalogued "MachineDeployment"));
  dyn_meta := meta "machine-deployment" "t-workers" "d1" []; dyn_data := VNull |}.
Definition workload (data : string * string) : DynamicObject := {|
  dyn_types := Some {| tm_api_version := "apps/v1"; tm_kind := data.1 |};
  dyn_meta := meta "network-workload" data.2 data.2 [];
  dyn_data := VObject [("spec", VObject [("replicas", VNumber 1)]);
    ("status", VObject [("observedGeneration", VNumber 1); ("availableReplicas", VNumber 1);
      ("desiredNumberScheduled", VNumber 1); ("numberAvailable", VNumber 1)])] |}.
Definition inputs : WorkerInputs := {|
  win_identity := identity; win_network_id := "net"; win_desired_count := 1; win_deployment := deployment;
  win_network_objects := [] |}.
Definition node : DynamicObject := {|
  dyn_types := None; dyn_data := ready;
  dyn_meta := {| name := Some "m1"; namespace := None; uid := Some "n1"; resource_version := Some "1";
    generation := None; labels := None; annotations := None; owner_references := None; finalizers := None;
    deletion_timestamp := None |} |}.
(** A MachineSet with one Machine, its DevMachine, its container and its Node. *)
Definition answer (o : Op) : Resp o :=
  match o with
  | ObjectList api => Ok
      (if oa_types api == resource_types (catalogued "MachineSet")
       then [object "MachineSet" "s1" "s1" [owner "MachineDeployment" "t-workers" "d1"]]
       else if oa_types api == resource_types (catalogued "Machine")
       then [object "Machine" "m1" "m1" [owner "MachineSet" "s1" "s1"]]
       else if oa_types api == resource_types (catalogued "DevMachine")
       then [object "DevMachine" "m1" "v1" [owner "Machine" "m1" "m1"]]
       else [node])
  | ListContainers => Ok [worker_fixture "worker"]
  | ObjectFind api nm => Ok (Some (workload (tm_kind (oa_types api), nm)))
  | o => error_reply o (KubeApi 500 "" "")
  end.
End WorkerFixture.

Example observe_workers_exact_witness :
  let observation := {| wo_inventory_complete := true; wo_all_ready := true; wo_network_ready := true |} in
  (run (λ _, WorkerFixture.answer) (observe_workers WorkerFixture.inputs) []).2 = Ok observation ∧
  ∃ h, observed_workers WorkerFixture.inputs h (Ok observation).
Proof.
  pose proof (observe_workers_exact WorkerFixture.inputs (λ _, WorkerFixture.answer)) as H.
  destruct (run _ _ _) as [h r] eqn:E. split; [by vm_compute in E; injection E as _ <-|].
  exists h. by vm_compute in E; injection E as _ <-.
Defined.
