(* ===== verification/LocalCreation.v ===== *)
(** * Guards on the creation of a local Tenant

    Every object that the reconciliation of a local Tenant creates or repairs,
    in the management cluster, in the hosted cluster and in Docker, against any
    replies: for whom, after which observations, and with which identity. *)

From S2P Require Import Prelude RustStd Externals Kube Errors Api Management Ownership Foundation Docker.
From S2P Require Import Allocation ReconcileErrors Sanitize Readiness Effects Ops Status AllocationRun Finalize Catalog.
From S2P Require Import Reconcile CatalogSafety Requests Manifests Bundles Bootstrap TenantClient TenantObjects Workers.
From S2P Require Import LocalTenant LocalRequests LocalTenantSafety WorkerInventory.

Open Scope Z_scope.

#[local] Arguments within : simpl never.
#[local] Arguments wp : simpl never.
#[local] Arguments bind : simpl never.
#[local] Arguments perform_map : simpl never.

(** ** What a history shows *)
Definition object_reply (e : event Resp) : option DynamicObject :=
  match e with
  | existT o r =>
      match o return Resp o → option DynamicObject with
      | ObjectFind _ _ => λ r, match r with Ok x => x | Err _ => None end
      | ObjectRead _ _ | ObjectCreate _ _ | ObjectApply _ _ _ => λ r, match r with Ok x => Some x | Err _ => None end
      | _ => λ _, None
      end r
  end.

(** A reply showed the object. *)
Definition shown (h : trace Resp) (o : DynamicObject) : Prop := ∃ e, e ∈ h ∧ object_reply e = Some o.
(** The last request and its reply. *)
Definition just (h : trace Resp) (o : Op) (r : Resp o) : Prop := ∃ h0, h = h0 ++ [existT o r].

Lemma shown_app h g o : shown h o → shown (h ++ g) o.
Proof. intros (e & He & Ho). exists e. split; [apply elem_of_app; by left|done]. Qed.
Lemma shown_last h e o : object_reply e = Some o → shown (h ++ [e]) o.
Proof. intros He. exists e. split; [apply elem_of_app; right; left|done]. Qed.

(** Requests to the hosted cluster. *)
Definition hosted (o : Op) : bool :=
  match o with
  | ObjectFind api _ | ObjectRead api _ | ObjectList api | ObjectCreate api _ | ObjectApply api _ _
  | ObjectMerge api _ _ _ | ObjectDelete api _ _ => oa_side api == HostedSide
  | GroupDiscover _ | HostedRoleFind _ | HostedRoleRead _ | HostedRoleCreate _ | HostedBindingFind _
  | HostedBindingRead _ | HostedBindingCreate _ | ClassFind _ | ClassCreate _ => true
  | _ => false
  end.

(** Creations, repairs and deletions of objects and volumes. *)
Definition writes_object (o : Op) : bool :=
  match o with
  | ObjectCreate _ _ | ObjectApply _ _ _ | ObjectMerge _ _ _ _ | ObjectDelete _ _ _ | VolumeCreate _ _ => true
  | _ => false
  end.

(** Requests that the guards are about: they create or repair, or reach the
    hosted cluster. *)
Definition guarded_op (o : Op) : bool := writes_object o || hosted o.
(** Nothing about them is guarded, the published status neither. *)
Definition quiet_op (o : Op) : bool :=
  negb (guarded_op o) && match o with PatchTenantStatus _ _ => false | _ => true end.
(** Creations, repairs, deletions and published statuses. *)
Definition writes (o : Op) : bool :=
  writes_object o || match o with PatchTenantStatus _ _ => true | _ => false end.
Definition is_ready (t : Tenant) : Prop := phase (unwrap_or default_status (tenant_status t)) = Some PhaseReady.

#[local] Hint Extern 1 (writes _ = false) => reflexivity : permits.

Lemma reads_bootstrap_rbac : within (λ o, writes o = false) ensure_bootstrap_rbac.
Proof.
  unfold ensure_bootstrap_rbac. generalize bootstrap_rbac. intros l.
  induction l as [|d l IH]; cbn [ensure_bootstrap_roles]; [apply within_ret|].
  unfold ensure_bootstrap_role, ensure_bootstrap_binding. walk; apply IH.
Qed.

Lemma reads_crds crds discovered : within (λ o, writes o = false) (crds_discovered crds discovered).
Proof.
  revert discovered. induction crds as [|crd crds IH]; intros discovered; cbn [crds_discovered]; [apply within_ret|].
  apply within_pure. intros id _. apply within_bind.
  - generalize (filter_list served (crd_versions id)). intros l. revert discovered.
    induction l as [|v l IHl]; intros discovered; cbn [versions_ready]; [apply within_ret|]. walk; apply IHl.
  - intros [[d|]|e]; [apply IH|apply within_ret..].
Qed.

Lemma reads_workers inputs : within (λ o, writes o = false) (observe_workers inputs).
Proof.
  assert (∀ identity definition root inventory by_uid machines uids names, within (λ o, writes o = false)
    (check_dev_machines identity definition root inventory by_uid machines uids names)) as Hdev.
  { intros ? ? ? ? ? machines. induction machines as [|m l IH]; intros uids names; cbn [check_dev_machines]; [apply within_ret|].
    unfold unknown_owner. walk; apply IH. }
  assert (∀ l observed, within (λ o, writes o = false) (workloads_ready l observed)) as Hw.
  { intros l observed. induction l as [|[kind nm] l IH]; cbn [workloads_ready]; [apply within_ret|]. walk; apply IH. }
  unfold observe_workers, list_workers, network_workloads_ready. walk; first [apply Hdev|apply Hw].
Qed.

(** A status update, where [K] holds of the versions of the Tenant it knows. *)
Lemma wp_update_known (K : trace Resp → Tenant → Prop) (Pre : trace Resp → Op → Prop) t mutate h :
  (∀ h g t, K h t → K (h ++ g) t) → (∀ h nm t, K (h ++ [existT (GetTenant nm) (Ok t)]) t) →
  (∀ h nm, Pre h (GetTenant nm)) →
  (∀ g current a s nm p, K (h ++ g) current → mutated mutate a current = Ok s → sp_status p = s →
     Pre (h ++ g) (PatchTenantStatus nm p)) →
  K h t → wp (update_status t mutate) h Pre (λ _ _, True).
Proof.
  intros Happ Hlast Hget Hp Hk. unfold update_status.
  enough (Hgen : ∀ retries current g, K (h ++ g) current →
    wp (mutate_status retries t current mutate false) (h ++ g) Pre (λ _ _, True)).
  { specialize (Hgen 4%nat t []). rewrite app_nil_r in Hgen. by apply Hgen. }
  induction retries as [|retries IH]; intros current g Hc; cbn [mutate_status];
    (destruct (validate_identity t current) as [[u rv]|] eqn:Hv; [|done]);
    (destruct (mutated mutate _ current) as [s|] eqn:Hs; [|done]); (destruct (unchanged current s); [done|]);
    apply wp_bind; unfold patch_status; rewrite Hv;
    (request; [by eapply Hp|]); subst h0; destruct reply as [t'|e]; cbn [map_err].
  1,3: by apply wp_return; unfold checked; case_bool_decide.
  - apply wp_return. destruct e as [code reason d|]; [|done]. by destruct code as [|c|]; try done; repeat (destruct c as [c|c|]; try done).
  - apply wp_return. destruct e as [code reason d|]; [|done]. destruct code as [|c|]; try done.
    repeat (destruct c as [c|c|]; try done). request; [apply Hget|]. destruct reply as [t'|]; [|done]. cbn [map_err].
    subst h0. rewrite <-!(assoc_L (++)). apply IH. rewrite !(assoc_L (++)). apply Hlast.
Qed.

Section Guards.
Context `{SO : Sha256Ops, SP : SpecJson, NO : Ipv4NetOps, IP : IpNetOps, MC : ManifestCodec, CC : ClientCodec}.
Context `{SJ : SerdeJson}.
Context (provider : LocalProvider) (tenant : Tenant) (spec : TenantSpec) (foundation : Foundation) (claim : Claim).

Notation cx := (resource_context provider tenant spec foundation claim).
Notation identity := (rc_identity cx).

(** The Tenant that was read has the finalizer, the foundation and the
    allocation, and its claim was just verified. *)
Record bound (h : trace Resp) : Prop := {
  bd_finalizer : has_finalizer tenant FINALIZER = true;
  bd_hash : recorded_hash tenant = Some (rf_hash (lp_foundation provider));
  bd_foundation : rf_creation (lp_foundation provider) = Ok foundation;
  bd_allocation : recorded_allocation tenant = Some (claim_status claim);
  bd_claim : backed (claim_context provider tenant spec foundation) (recorded_allocation tenant) h claim;
}.

(** The objects of the management cluster that the Tenant needs. *)
Definition worker_objects (path : string) (commands : list string) : list DynamicObject :=
  let cx := with_workers cx path commands in
  [kubeadm_config_template cx; dev_machine_template cx; machine_deployment cx].
Definition root_desired (o : DynamicObject) : Prop :=
  dev_cluster cx = Ok o ∨ kamaji_control_plane cx = Ok o ∨ ∃ path commands, o ∈ worker_objects path commands.
Definition desired_object (o : DynamicObject) : Prop :=
  to_dynamic (tenant_namespace cx) = Ok o ∨ cluster cx = Ok o ∨ root_desired o.

(** The namespace and the Cluster of the Tenant were observed, owned. *)
Definition namespace_seen (h : trace Resp) : Prop :=
  ∃ o d, shown h o ∧ to_dynamic (tenant_namespace cx) = Ok d ∧ identity_matches o d = Ok tt ∧
    validate_root_ownership (dyn_meta o) identity "namespace" = Ok tt ∧ deletion_timestamp (dyn_meta o) = None.
Definition cluster_object (h : trace Resp) (o : DynamicObject) : Prop :=
  ∃ d, shown h o ∧ cluster cx = Ok d ∧ identity_matches o d = Ok tt ∧ check_root_object o d identity = Ok tt ∧
    uid (dyn_meta o) = and_then cluster_uid (tenant_status tenant).
Definition cluster_seen (h : trace Resp) : Prop := ∃ o, cluster_object h o.

(** A client was built from a kubeconfig that only embeds certificates for the
    endpoint of the claim, out of a Secret owned by the Tenant's control
    plane. *)
Definition connected (h : trace Resp) : Prop :=
  ∃ control_plane secret configuration config client,
    shown h control_plane ∧ answered h (GetSecret (rc_name cx) (secret_resource_name (rc_name cx))) (Ok (Some secret)) ∧
    owned_secret secret [control_plane] (rc_name cx) (secret_resource_name (rc_name cx)) ∧
    exact_configuration (rc_endpoint cx) configuration ∧
    answered h (ConfigLoad configuration) (Ok config) ∧ answered h (ClientBuild client) (Ok tt) ∧
    conf_root_cert client = conf_root_cert config ∧ conf_proxy_url client = None.

(** Marked as an object of the Tenant. *)
Definition marked_object (o : DynamicObject) : Prop :=
  ∃ resource, get_annotation (dyn_meta o) RESOURCE_ANNOTATION = Some resource ∧
    validate_tenant_object_ownership (dyn_meta o) identity resource = Ok tt.

(** An owned object that is repaired at the version that was checked. *)
Definition repaired (h : trace Resp) (obj : DynamicObject) : Prop :=
  ∃ d current, desired_object d ∧ obj = applied_object d current ∧ shown h current ∧
    identity_matches current d = Ok tt ∧ check_root_object current d identity = Ok tt ∧
    deletion_timestamp (dyn_meta current) = None ∧
    is_none_or is_empty (uid (dyn_meta current)) = false ∧ is_none_or is_empty (resource_version (dyn_meta current)) = false.

(** The workers and the network of the Tenant were observed ready. *)
Definition workers_seen (h : trace Resp) : Prop :=
  ∃ inputs machines dev_machines nodes containers,
    win_identity inputs = identity ∧ win_network_id inputs = f_network_id foundation ∧
    win_desired_count inputs = workers spec ∧ shown h (win_deployment inputs) ∧
    workforce inputs h machines dev_machines nodes containers ∧ full inputs machines dev_machines nodes containers ∧
    Forall (λ m, object_ready m = true) (machines ++ dev_machines) ∧ Forall (λ n, node_ready n = true) nodes ∧
    Forall (shown h) (win_network_objects inputs) ∧ Forall (available (win_network_objects inputs) h) NETWORK_WORKLOADS.

(** And so was its control plane. *)
Record grounded (h : trace Resp) : Prop := {
  gr_workers : workers_seen h;
  gr_control_plane : ∃ o, cluster_object h o ∧ management_conditions_ready o ["Available"] = Ok true;
  gr_connected : connected h;
  gr_bound : bound h;
}.

(** A version of the Tenant that was ready already. *)
Definition known (h : trace Resp) (t : Tenant) : Prop := t = tenant ∨ t ∈ reads h.
Definition was_ready (h : trace Resp) : Prop := ∃ t, known h t ∧ is_ready t.

Definition guard (h : trace Resp) (o : Op) : Prop :=
  match o with
  | PatchTenantStatus _ p => phase (sp_status p) = Some PhaseReady → was_ready h ∨ grounded h
  | ObjectCreate api obj =>
      bound h ∧ just h (ObjectFind api (object_name obj)) (Ok None) ∧
      match oa_side api with
      | ManagementSide =>
          ∃ d, obj = without_status d ∧
            (to_dynamic (tenant_namespace cx) = Ok d ∨
             (namespace_seen h ∧ cluster cx = Ok d ∧ cluster_bound tenant = false) ∨
             (namespace_seen h ∧ root_desired d ∧ cluster_bound tenant = true ∧ cluster_seen h))
      | HostedSide => connected h ∧ marked_object obj
      end
  | ObjectApply api nm obj => bound h ∧ oa_side api = ManagementSide ∧ repaired h obj
  | VolumeCreate nm lbls =>
      bound h ∧ connected h ∧ just h (InspectVolume nm) (Ok None) ∧
      nm = storage_volume_name cx ∧ lbls = storage_volume_labels cx
  | ObjectMerge _ _ _ _ | ObjectDelete _ _ _ => False
  | o => hosted o = true → bound h ∧ connected h
  end.

Lemma backed_app c b h g k : backed c b h k → backed c b (h ++ g) k.
Proof.
  intros (H1 & H2 & (live & Hs & He) & inv & l & i & Hl & Hrest). split_and!; [done|done| |].
  - exists live. split; [by apply seen_app_l|done].
  - exists inv, l, i. split; [by apply listed_app_l|done].
Qed.

Lemma bound_app h g : bound h → bound (h ++ g).
Proof. intros []. split; [done..|by apply backed_app]. Qed.
Lemma connected_app h g : connected h → connected (h ++ g).
Proof.
  intros (cp & s & k & c & cl & H1 & H2 & H3 & H4 & H5 & H6 & H7). exists cp, s, k, c, cl.
  split_and!; [by apply shown_app|by apply answered_app_l|done|done|by apply answered_app_l..|apply H7|apply H7].
Qed.
Lemma namespace_seen_app h g : namespace_seen h → namespace_seen (h ++ g).
Proof. intros (o & d & H & ?). exists o, d. split; [by apply shown_app|done]. Qed.
Lemma cluster_object_app h g o : cluster_object h o → cluster_object (h ++ g) o.
Proof. intros (d & H & ?). exists d. split; [by apply shown_app|done]. Qed.
Lemma cluster_seen_app h g : cluster_seen h → cluster_seen (h ++ g).
Proof. intros (o & H). exists o. by apply cluster_object_app. Qed.

Lemma shown_mono h g l : Forall (shown h) l → Forall (shown (h ++ g)) l.
Proof. intros HF. eapply list.Forall_impl; [exact HF|]. intros o. apply shown_app. Qed.
Lemma known_app h g t : known h t → known (h ++ g) t.
Proof. intros [->|H]; [by left|right]. by apply reads_mono. Qed.
Lemma was_ready_app h g : was_ready h → was_ready (h ++ g).
Proof. intros (t & Ht & Hr). exists t. split; [by apply known_app|done]. Qed.
Lemma workers_seen_app h g : workers_seen h → workers_seen (h ++ g).
Proof.
  intros (inputs & ms & ds & ns & cs & H1 & H2 & H3 & H4 & H5 & H6 & H7 & H8 & H9 & H10). exists inputs, ms, ds, ns, cs.
  split_and!; [done..|by apply shown_app|by apply workforce_app|done|done|done|by apply shown_mono|].
  eapply list.Forall_impl; [exact H10|]. intros w. apply available_app.
Qed.
Lemma grounded_grows h g : grounded h → grounded (h ++ g).
Proof.
  intros [Hw (o & Ho & Hr) Hc Hb]. split; [by apply workers_seen_app| |by apply connected_app|by apply bound_app].
  exists o. split; [by apply cluster_object_app|done].
Qed.
#[local] Hint Resolve bound_app connected_app namespace_seen_app cluster_seen_app shown_app known_app : core.
#[local] Hint Resolve was_ready_app grounded_grows shown_mono workers_seen_app cluster_object_app : core.

(** Requests that need no guard. *)
Lemma unguarded h o : quiet_op o = true → guard h o.
Proof. unfold quiet_op, guarded_op. destruct o; cbn [writes_object orb hosted guard negb andb]; try done; destruct (_ == _); done. Qed.
#[local] Hint Resolve unguarded : core.

Lemma wp_unguarded {A} (p : prog Resp A) h :
  within (λ o, quiet_op o = true) p → wp p h guard (λ h' _, ∃ g, h' = h ++ g).
Proof. intros Hp. eapply within_wp; [exact Hp|]. auto. Qed.

(** Once a client is there, only creations and repairs need more. *)
Lemma wp_hosted {A} (p : prog Resp A) h :
  bound h → connected h → within (λ o, writes o = false) p → wp p h guard (λ h' _, ∃ g, h' = h ++ g).
Proof.
  intros Hb Hc Hp. eapply wp_mono; [| |apply wp_within, (Hp h)].
  - intros h' o [Ho [g ->]]. destruct o; cbn [guard]; try done; intros _; auto.
  - by intros h' a [_ ?].
Qed.

Lemma wp_hosted_try {E A B} (p : io E A) (k : A → io E B) h (Post : trace Resp → result E B → Prop) :
  bound h → connected h → within (λ o, writes o = false) p → (∀ h' e, Post h' (Err e)) →
  (∀ g a, wp (k a) (h ++ g) guard Post) → wp (try! a <- p ;; k a) h guard Post.
Proof.
  intros Hb Hc Hp He Hk. apply wp_try. eapply wp_post; [by apply wp_hosted|]. intros h' [a|e] [g ->]; auto.
Qed.

(** ** Objects *)
Definition ensured (d : DynamicObject) (h : trace Resp) (r : result ReconcileError Ensured) : Prop :=
  match r with
  | Ok e => shown h (en_object e) ∧ identity_matches (en_object e) d = Ok tt
  | Err _ => True
  end.

Lemma wp_existing_guard d current h :
  shown h current → wp (existing d current) h guard (ensured d).
Proof. intros Hs. unfold existing. destruct (identity_matches current d) as [[]|] eqn:E; [|done]. by split. Qed.

Lemma wp_create_object api d h :
  guard h (ObjectCreate api (without_status d)) → (oa_side api = HostedSide → bound h ∧ connected h) →
  wp (create_object api d) h guard (ensured d).
Proof.
  intros Hc Hh. unfold create_object. request; [done|]. destruct reply as [created|error].
  - destruct (identity_matches created d) as [[]|] eqn:E; [|done]. split; [|done]. subst h0. by apply shown_last.
  - destruct (name_taken error); [|done]. request.
    { cbn [guard hosted]. intros [Hb Hn]%bool_decide_eq_true%Hh. subst h0. auto. }
    destruct reply as [current|]; [|done]. apply wp_existing_guard. subst h1. by apply shown_last.
Qed.

Lemma wp_read_or_create side d known refuse h :
  (side = HostedSide → bound h ∧ connected h) → (∀ o, known = Some o → shown h o) →
  (∀ api h', oa_side api = side → refuse = false → (∃ g, h' = h ++ g) →
     just h' (ObjectFind api (object_name d)) (Ok None) → guard h' (ObjectCreate api (without_status d))) →
  wp (read_or_create side d known refuse) h guard (ensured d).
Proof.
  intros Hh Hk Hc. unfold read_or_create. destruct (object_api side d) as [api|] eqn:Ha; [|done].
  assert (oa_side api = side) as Hs.
  { unfold object_api in Ha. destruct (dyn_types d); [|done]. by injection Ha as <-. }
  destruct known as [o|].
  { apply wp_existing_guard. by apply Hk. }
  request.
  { cbn [guard hosted]. rewrite bool_decide_eq_true. intros E. apply Hh. congruence. }
  destruct reply as [[o|]|]; [| |done]; cbn [map_err].
  - apply wp_existing_guard. subst h0. by apply shown_last.
  - destruct refuse; [done|]. apply wp_create_object.
    + apply Hc; [done|done|by eexists|by exists h].
    + intros E. subst h0. destruct Hh as [Hb Hn]; [congruence|]. auto.
Qed.

(** Steps of a program: the history only grows. *)
Lemma wp_guard_try {E A B} (p : io E A) (k : A → io E B) h (Q : trace Resp → result E A → Prop)
    (Post : trace Resp → result E B → Prop) :
  wp p h guard Q → (∀ h' e, Post h' (Err e)) →
  (∀ g a, Q (h ++ g) (Ok a) → wp (k a) (h ++ g) guard Post) →
  wp (try! a <- p ;; k a) h guard Post.
Proof.
  intros Hp He Hk. apply wp_try. eapply wp_post; [by apply wp_extends|].
  intros h' [a|e] [HQ [g ->]]; [by apply Hk|apply He].
Qed.

Lemma wp_unguarded_try {E A B} (p : io E A) (k : A → io E B) h (Post : trace Resp → result E B → Prop) :
  within (λ o, quiet_op o = true) p → (∀ h' e, Post h' (Err e)) →
  (∀ g a, wp (k a) (h ++ g) guard Post) → wp (try! a <- p ;; k a) h guard Post.
Proof. intros Hp He Hk. eapply wp_guard_try; [by apply wp_unguarded|done|]. auto. Qed.

Lemma wp_ensure_root_namespace d h :
  bound h → to_dynamic (tenant_namespace cx) = Ok d →
  wp (TenantObjects.ensure_namespace d identity) h guard (λ h' r, ∀ e, r = Ok e → namespace_seen h').
Proof.
  intros Hb Hd. unfold TenantObjects.ensure_namespace. eapply wp_guard_try; [apply wp_read_or_create|done|].
  - done.
  - done.
  - intros api h' Hs _ [g ->] Hj. cbn [guard]. rewrite Hs. split_and!; [auto|done|]. exists d. by split; [|left].
  - intros g e [Hsh Hid]. destruct (map_err _ (validate_root_ownership _ _ _)) as [[]|] eqn:Ho; [|done].
    destruct (provider_owner _ _ _ _); [|done]. destruct (deletion_timestamp _) eqn:Hdel; [done|].
    intros e' _. exists (en_object e), d. split_and!; [done..| |done].
    by destruct (validate_root_ownership _ _ _) as [[]|].
Qed.

Lemma wp_apply_exact d current h :
  bound h → desired_object d → shown h current → identity_matches current d = Ok tt →
  check_root_object current d identity = Ok tt →
  wp (apply_exact ManagementSide d current) h guard
    (λ h' r, ∀ o, r = Ok o → shown h' o ∧ identity_matches o d = Ok tt ∧ uid (dyn_meta o) = uid (dyn_meta current)).
Proof.
  intros Hb Hd Hs Hi Hc. unfold apply_exact. destruct (deletion_timestamp _) eqn:Hdel; [done|]. cbn [is_some].
  destruct (_ || _) eqn:He; [done|]. apply orb_false_iff in He as [Hu Hv].
  destruct (object_api ManagementSide d) as [api|] eqn:Ha; [|done].
  assert (oa_side api = ManagementSide) as Hside.
  { unfold object_api in Ha. destruct (dyn_types d); [|done]. by injection Ha as <-. }
  request; [cbn [guard]; split_and!; [done|done|by exists d, current]|].
  destruct reply as [o|]; [|done]. cbn [map_err]. destruct (identity_matches o d) as [[]|] eqn:Ho; [|done].
  case_bool_decide as E; [|done]. cbn [negb]. intros o' [= <-]. split_and!; [|done|done].
  subst h0. by apply shown_last.
Qed.

(** A managed root that may be created or repaired now. *)
Definition manageable (h : trace Resp) (d : DynamicObject) : Prop :=
  bound h ∧ namespace_seen h ∧
  (cluster cx = Ok d ∧ has_kind "Cluster" d = true ∨ root_desired d ∧ cluster_bound tenant = true ∧ cluster_seen h).

Definition managed (d : DynamicObject) (h : trace Resp)
    (r : result ReconcileError (Ensured * list DynamicObject)) : Prop :=
  ∀ e inventory, r = Ok (e, inventory) →
    shown h (en_object e) ∧ identity_matches (en_object e) d = Ok tt ∧
    check_root_object (en_object e) d identity = Ok tt ∧ Forall (shown h) inventory ∧
    (has_kind "Cluster" d = true → cluster_bound tenant = true →
       uid (dyn_meta (en_object e)) = and_then cluster_uid (tenant_status tenant)).

Lemma cluster_uid_checked m u :
  map_err ROwnership (validate_cluster_uid tenant m) = Ok u → cluster_bound tenant = true →
  uid m = and_then cluster_uid (tenant_status tenant).
Proof.
  unfold validate_cluster_uid, cluster_bound. destruct (and_then _ _) as [expected|]; [|done]. cbn [is_some_and].
  intros H Hne. rewrite Hne in H. cbn [andb] in H. case_bool_decide; [done|]. by cbn in H.
Qed.

Lemma find_shown d h inventory o :
  Forall (shown h) inventory → find_first (same_object d) inventory = Some o → shown h o.
Proof. intros HF [Hin _]%find_first_Some. rewrite list.Forall_forall in HF. by apply HF. Qed.

Lemma wp_observe_deployment o inventory h :
  Forall (shown h) inventory →
  wp (observe_deployment o identity inventory) h guard (λ h' r, ∀ l, r = Ok l → Forall (shown h') l).
Proof.
  intros HF. unfold observe_deployment. destruct (_ && _); [|by intros l [= <-]].
  destruct (ok_or _ _) as [r|]; [|done]. destruct (ok_or _ _) as [nm|]; [|done].
  request; [done|]. destruct reply as [dep|]; [|done]. cbn [map_err].
  destruct (map_err _ (validate_root_ownership _ _ _)); [|done]. destruct (provider_owner _ _ _ _); [|done].
  intros l [= <-]. subst h0. apply list.Forall_app. split; [by apply shown_mono|]. constructor; [|constructor].
  by apply shown_last.
Qed.

Lemma wp_ensure_management d inventory h :
  manageable h d → Forall (shown h) inventory →
  wp (ensure_management d tenant identity inventory) h guard (managed d).
Proof.
  intros (Hb & Hn & Hd) HF. unfold ensure_management.
  eapply wp_guard_try; [apply wp_read_or_create| |].
  - done.
  - intros o Ho. by eapply find_shown.
  - intros api h' Hs Hr [g ->] Hj. cbn [guard]. rewrite Hs. split_and!; [auto|done|]. exists d. split; [done|]. right.
    destruct Hd as [[Hd Hk]|(Hd & Hcb & Hc)]; [left|right; by split_and!; auto].
    rewrite Hk in Hr. by split_and!; auto.
  - done.
  - intros g e [Hsh Hid]. destruct (check_root_object _ _ _) as [[]|] eqn:Hc; [|done].
    destruct (if has_kind "Cluster" d then _ else _) as [u|] eqn:Hu; [|done].
    eapply wp_guard_try; [by apply wp_observe_deployment, shown_mono|done|]. intros g' inv Hinv. specialize (Hinv _ eq_refl).
    destruct (provider_owner _ _ _ _); [|done]. destruct (is_some _); [done|].
    assert (∀ x, uid (dyn_meta x) = uid (dyn_meta (en_object e)) → has_kind "Cluster" d = true →
      cluster_bound tenant = true → uid (dyn_meta x) = and_then cluster_uid (tenant_status tenant)) as Huid.
    { intros x -> Hk. rewrite Hk in Hu. by eapply cluster_uid_checked. }
    assert (∀ h' x, shown h' x → Forall (shown h') inv →
      Forall (shown h') (filter_list (λ object, negb (same_object d object)) inv ++ [x])) as Hall.
    { intros h' x Hx Hi. apply list.Forall_app. split; [|by repeat constructor].
      rewrite list.Forall_forall in Hi. apply list.Forall_forall. intros y [_ Hy]%elem_of_filter_list. by apply Hi. }
    unfold repair_management. destruct (en_created e).
    { intros e' inv' [= <- <-]. split_and!; [auto|done|done|by apply Hall; auto|by apply Huid]. }
    apply wp_bind.
    eapply wp_guard_try; [apply wp_apply_exact; [auto| |auto|done|done]| |].
    + destruct Hd as [[Hd _]|(Hd & _)]; [by right; left|by right; right].
    + done.
    + intros g2 o Ho. destruct (Ho _ eq_refl) as (Ho1 & Ho2 & Ho3).
      destruct (check_root_object o d identity) as [[]|] eqn:Hco; [|done]. destruct (provider_owner _ _ _ _); [|done].
      intros e' inv' [= <- <-]. cbn [en_object]. split_and!; [done|done|done|by apply Hall, shown_mono|by apply Huid].
Qed.

(** ** The hosted cluster *)
Lemma wp_connect control_plane h :
  shown h control_plane →
  wp (connect cx control_plane) h guard (λ h' r, ∀ secret, r = Ok secret → connected h').
Proof.
  intros Hs. unfold connect. apply wp_bind. apply wp_post with (λ h' r, ∀ secret, r = Ok secret → connected h').
  2: { intros h' [secret|e] H; [|done]. intros s' _. by eapply H. }
  unfold load_tenant_client_with_owner, load_tenant_client_with_owner_named. destruct (is_empty _); [done|].
  request; [done|]. destruct reply as [[secret|]|]; [|done..]. cbn [map_err ok_or].
  destruct (parse_owned_kubeconfig_with_owner _ _ _ _ _ _ _) as [k|] eqn:Hp; [|done].
  apply parse_owned_Ok in Hp as [Ho He]. unfold open_client. apply wp_bind. request; [done|].
  destruct reply as [config|]; [|done]. cbn [map_err]. destruct (is_none_or _ _); [done|].
  apply wp_bind. split; [done|]. intros [[]|[]]; [|done]. intros s' _.
  exists control_plane, secret, k, config. eexists.
  split_and!; [subst h1 h0; by repeat apply shown_app|in_history|done|done|in_history|apply answered_last|done|done].
Qed.

(** An object of the Tenant's, to be created in the hosted cluster. *)
Lemma marked_role m resource : marked identity resource m →
  ∃ resource, get_annotation m RESOURCE_ANNOTATION = Some resource ∧
    validate_tenant_object_ownership m identity resource = Ok tt.
Proof.
  intros Hm. exists resource. split; [|by apply marked_owned].
  apply (mk_annotations _ _ _ Hm). apply identity_annotations_lookup. set_solver.
Qed.

Lemma wp_ensure_static d h :
  bound h → connected h → marked_object d →
  wp (ensure_static HostedSide d identity) h guard (λ h' r, ∀ e, r = Ok e → shown h' (en_object e)).
Proof.
  intros Hb Hc Hm. unfold ensure_static. apply wp_try. eapply wp_post; [apply wp_read_or_create|].
  - done.
  - done.
  - intros api h' Hs _ [g ->] Hj. cbn [guard]. rewrite Hs. split_and!; [auto|done|auto|done].
  - intros h' [e|e] He; [|done]. destruct (check_tenant_object _ _ _); [|done]. intros e' [= <-]. apply He.
Qed.

(** The objects of a batch were shown. *)
Definition batch (h : trace Resp) (r : result ReconcileError BatchResult) : Prop :=
  ∀ b, r = Ok b → Forall (shown h) (br_objects b).

Lemma wp_ensure_group l result h :
  bound h → connected h → Forall marked_object l → Forall (shown h) (br_objects result) →
  wp (ensure_group l identity result) h guard batch.
Proof.
  intros Hb Hc HF. revert result h Hb Hc.
  induction HF as [|d l Hd HF IH]; intros result h Hb Hc Hr; cbn [ensure_group]; [by intros b [= <-]|].
  eapply wp_guard_try; [by apply wp_ensure_static|done|]. intros g e He. specialize (He _ eq_refl).
  apply IH; [auto|auto|]. cbn [br_objects]. apply list.Forall_app. split; [auto|by repeat constructor].
Qed.

Lemma in_group_marked i l : Forall marked_object l → Forall marked_object (in_group i l).
Proof.
  rewrite !list.Forall_forall. intros HF o [_ Ho]%elem_of_filter_list. by apply HF.
Qed.

Lemma wp_ensure_batch l h :
  bound h → connected h → Forall marked_object l → wp (ensure_batch l identity) h guard batch.
Proof.
  intros Hb Hc HF. unfold ensure_batch.
  eapply wp_guard_try; [apply wp_ensure_group; [done..|by apply in_group_marked|constructor]|done|].
  intros g r Hr. specialize (Hr _ eq_refl). apply wp_hosted_try; [auto|auto| |done|].
  { destruct (br_pending r); [apply within_ret|]. unfold crds_ready. destruct (negb _); [apply within_ret|apply reads_crds]. }
  intros g' ready. destruct (negb ready); [by intros b [= <-]; apply shown_mono|].
  eapply wp_guard_try; [apply wp_ensure_group; [auto|auto|by apply in_group_marked|auto]|done|]. intros g2 r2 Hr2.
  apply wp_ensure_group; [auto|auto|by apply in_group_marked|by apply Hr2].
Qed.

(** ** Published statuses *)
Context (clocks : nat → nat → Time) (now : nat → string → Time).

(** A mutation that makes a Tenant ready does so with ground. *)
Definition ready_only (h : trace Resp) (mutate : Mutation) : Prop :=
  ∀ a s s', mutate a s = Ok s' → phase s' = Some PhaseReady → phase s = Some PhaseReady ∨ grounded h.

Lemma wp_update_guard t mutate h :
  known h t → ready_only h mutate → wp (update_status t mutate) h guard (λ _ _, True).
Proof.
  intros Hk Hm. apply (wp_update_known known); [auto| |done| |done].
  { intros h' nm t'. right. apply elem_of_reads_snoc. by right. }
  intros g current a s nm p Hc Hs Hp Hr. cbn [guard]. rewrite Hp in Hr. unfold mutated in Hs.
  destruct (mutate _ _) as [s'|] eqn:E; [|done]. apply Ok_inj in Hs as <-.
  destruct (Hm _ _ _ E Hr) as [Hready|Hg]; [left; by exists current|right; auto].
Qed.

(** A step that publishes a status. *)
Lemma wp_publish {A} t mutate (k : io ReconcileError A) h (Post : trace Resp → result ReconcileError A → Prop) :
  known h t → ready_only h mutate → (∀ h' e, Post h' (Err e)) → (∀ g, wp k (h ++ g) guard Post) →
  wp (try! _ <- runtime (update_status t mutate) ;; k) h guard Post.
Proof.
  intros Hk Hm He Hp. apply wp_try, wp_bind. eapply wp_post; [apply wp_extends, wp_update_guard; done|].
  intros h' [[]|e] [_ [g ->]]; apply wp_return; [apply Hp|apply He].
Qed.

Lemma progress_not_ready clock s t : phase (progress_status clock s t) ≠ Some PhaseReady.
Proof. unfold progress_status. rewrite set_condition_phase. cbn. by destruct (Readiness.established t). Qed.

Lemma wp_progress_guard t interval h : known h t → wp (progress now t interval) h guard (λ _ _, True).
Proof.
  intros Hk. apply wp_publish; [done| |done|done]. intros a s s' <-%Ok_inj H. by apply progress_not_ready in H.
Qed.

Lemma wp_bind_guard t t' other message set h :
  known h t → wp (bind_tenant t (bind_mutation now t' other message set)) h guard (λ _ _, True).
Proof.
  intros Hk. apply wp_publish; [done| |done|done]. intros a s s'. unfold bind_mutation.
  destruct (local_mut s _) as [s1|]; [|done]. destruct (is_some_and other _); [done|].
  destruct (local_mut s1 set) as [s2|]; [|done]. intros <-%Ok_inj H. by apply progress_not_ready in H.
Qed.

(** ** The catalog *)
Lemma keep_ready h mutate :
  (∀ a s s', mutate a s = Ok s' → phase s' = phase s) → ready_only h mutate.
Proof. intros Hm a s s' E. rewrite (Hm _ _ _ E). by left. Qed.

Lemma wp_quiet_try {E F A B} (f : E → F) (p : io E A) (k : A → io F B) h :
  within (λ o, quiet_op o = true) p → (∀ g a, wp (k a) (h ++ g) guard (λ _ _, True)) →
  wp (try! a <- perform_map f p ;; k a) h guard (λ _ _, True).
Proof. intros Hp Hk. apply wp_unguarded_try; [by apply within_perform_map|done|done]. Qed.

#[local] Hint Extern 1 (quiet_op _ = true) => reflexivity : permits.
Lemma quiet_ensure_namespace nm u e : within (λ o, quiet_op o = true) (Catalog.ensure_namespace nm u e).
Proof. unfold Catalog.ensure_namespace. walk. Qed.
#[local] Hint Resolve quiet_ensure_namespace : permits.
Lemma quiet_observe_namespace nm u e : within (λ o, quiet_op o = true) (observe_namespace nm u e).
Proof. unfold observe_namespace. walk. Qed.
Lemma quiet_observe_catalog nm u e : within (λ o, quiet_op o = true) (observe_catalog nm u e).
Proof. unfold observe_catalog, observe_storage, storage_expected. walk. Qed.
Lemma quiet_ensure_catalog nm u e1 e2 e3 azure : within (λ o, quiet_op o = true) (ensure_catalog nm u e1 e2 e3 azure).
Proof. unfold ensure_catalog, ensure_storage, find_or_create. walk. Qed.
Lemma quiet_credentials nm u : within (λ o, quiet_op o = true) (ensure_credentials nm u).
Proof. unfold ensure_credentials, ensure_role, ensure_binding. walk. Qed.

Lemma wp_outcome_guard clock t intent from to {A} (k : io ReconcileError A) h :
  known h t → (∀ g, wp k (h ++ g) guard (λ _ _, True)) →
  wp (try! _ <- runtime (set_catalog_create_outcome clock t intent from to) ;; k) h guard (λ _ _, True).
Proof.
  intros Hk Hp. unfold set_catalog_create_outcome. destruct (_ || _); [done|]. apply wp_publish; [done| |done|done].
  apply keep_ready. intros a s s'. unfold outcome_mutation. destruct (_ || _); [done|]. intros <-%Ok_inj.
  apply set_condition_phase.
Qed.

Lemma wp_intent_guard clock t intent {A} (k : io ReconcileError A) h :
  known h t → (∀ g, wp k (h ++ g) guard (λ _ _, True)) →
  wp (try! _ <- runtime (record_catalog_create_intent clock t intent) ;; k) h guard (λ _ _, True).
Proof.
  intros Hk Hp. unfold record_catalog_create_intent. destruct (ok_or _ _) as [u|]; [|done]. destruct (_ || _); [done|].
  apply wp_publish; [done| |done|done]. apply keep_ready. intros a s s'. unfold record_intent_mutation.
  destruct (is_some_and _ _); [done|]. destruct (is_none _); intros <-%Ok_inj; [by rewrite set_condition_phase|done].
Qed.

Lemma wp_namespaces_guard clock t intent u su {A} (k : io ReconcileError A) h :
  known h t → (∀ g, wp k (h ++ g) guard (λ _ _, True)) →
  wp (try! _ <- runtime (record_catalog_namespaces clock t intent u su) ;; k) h guard (λ _ _, True).
Proof.
  intros Hk Hp. apply wp_publish; [done| |done|done]. apply keep_ready. intros a s s'. unfold namespaces_mutation.
  destruct (_ || _); [done|]. destruct (_ || _); [done|]. intros <-%Ok_inj. by rewrite set_condition_phase.
Qed.

Lemma wp_identity_guard clock t intent id {A} (k : io ReconcileError A) h :
  known h t → (∀ g, wp k (h ++ g) guard (λ _ _, True)) →
  wp (try! _ <- record_catalog_identity clock t intent id ;; k) h guard (λ _ _, True).
Proof.
  intros Hk Hp. apply wp_publish; [done| |done|done]. apply keep_ready. intros a s s'. unfold identity_mutation.
  destruct (_ != _); [done|]. destruct (_ || _ || _); [done|]. intros <-%Ok_inj. by rewrite set_condition_phase.
Qed.

Lemma wp_get_tenant_guard {A} nm (k : Tenant → io ReconcileError A) h :
  (∀ g t, known (h ++ g) t → wp (k t) (h ++ g) guard (λ _ _, True)) →
  wp (try! t <- get_tenant nm ;; k t) h guard (λ _ _, True).
Proof.
  intros Hk. apply wp_try_map. split; [done|]. intros [t|]; apply wp_return; [|done]. apply Hk.
  right. apply elem_of_reads_snoc. by right.
Qed.

Lemma wp_prepare_namespace_guard intent ns rejected h :
  wp (prepare_namespace clocks intent ns rejected) h guard (λ _ _, True).
Proof.
  unfold prepare_namespace. apply wp_bind. eapply wp_post; [apply wp_unguarded, quiet_ensure_namespace|].
  intros h' [u|e] _; [done|]. destruct e; try done. apply wp_get_tenant_guard. intros g t Ht. by apply wp_outcome_guard.
Qed.

Lemma wp_issue_create_guard intent u su azure h :
  wp (issue_create clocks intent u su azure) h guard (λ _ _, True).
Proof.
  unfold issue_create. apply wp_bind. eapply wp_post; [apply wp_unguarded, quiet_ensure_catalog|].
  intros h' [id|e] _; [apply wp_get_tenant_guard; intros g t Ht; by apply wp_identity_guard|].
  destruct e; try done. apply wp_get_tenant_guard. intros g t Ht. by apply wp_outcome_guard.
Qed.

Lemma wp_catalog_guard h :
  wp (ensure_database_catalog clocks tenant false) h guard (λ _ _, True).
Proof.
  assert (∀ h, known h tenant) as Ht by by left.
  unfold ensure_database_catalog. destruct (create_intent tenant) as [intent|]; [|done].
  destruct (prior_intent tenant) as [prior|]; [|by apply wp_intent_guard].
  destruct (prior != intent); [done|]. apply wp_quiet_try; [apply quiet_observe_catalog|]. intros g [id|].
  { unfold catalog_observed. destruct (_ || _); [by apply wp_identity_guard|done]. }
  destruct (is_some _); [done|]. destruct (_ == _); [by apply wp_outcome_guard|].
  destruct (negb _); [done|]. destruct (_ == _).
  { unfold prepare_namespaces. apply wp_outcome_guard; [done|]. intros g1.
    eapply wp_guard_try; [apply wp_prepare_namespace_guard|done|]. intros g2 u _. unfold prepare_storage.
    eapply wp_guard_try with (Q := λ _ _, True); [done|done|]. intros g3 su _.
    apply wp_get_tenant_guard. intros g4 t Hk. by apply wp_namespaces_guard. }
  destruct (_ == _).
  { unfold observe_namespaces. apply wp_quiet_try; [apply quiet_observe_namespace|]. intros g1 nu.
    eapply wp_guard_try with (Q := λ _ _, True); [done|done|]. intros g2 su _.
    destruct nu as [u|]; [|done]. destruct (_ || _); [by apply wp_namespaces_guard|done]. }
  unfold announce_create. destruct (ok_or _ _) as [u|]; [|done]. destruct (_ && _); [done|].
  apply wp_quiet_try; [apply quiet_ensure_namespace|]. intros g1 _.
  apply wp_unguarded_try; [destruct (and_then _ _); [apply within_perform_map, quiet_ensure_namespace|apply within_ret]|done|].
  intros g2 _. apply wp_get_tenant_guard. intros g3 t Hk. destruct (_ || _ || _); [done|].
  apply wp_outcome_guard; [done|]. intros g4. apply wp_issue_create_guard.
Qed.

(** ** The steps of a reconciliation *)
Lemma roles_marked roles l : Forall (marked_as cx roles) l → Forall marked_object l.
Proof.
  intros HF. eapply list.Forall_impl; [exact HF|]. intros o (resource & _ & Hm). by eapply marked_role.
Qed.

(** The context of the machines differs in their volume and commands only. *)
Definition like (cx' : ResourceContext) : Prop := ∃ path commands, cx' = with_workers cx path commands.

Lemma services_ready h cl observation control_plane valid capability :
  bound h → workers_seen h → connected h → cluster_object h cl →
  management_conditions_ready cl ["Available"] = Ok control_plane →
  ready_only h (services_mutation now tenant {| control_plane := control_plane;
    workers_ready := wo_inventory_complete observation && wo_all_ready observation;
    network_ready := wo_network_ready observation; storage := true |} valid capability).
Proof.
  intros Hb Hw Hc Ho Hr a s s' <-%Ok_inj Hp. right. split; [done| |done|done]. exists cl. split; [done|]. rewrite Hr. f_equal.
  change (phase (with_capability ?x _)) with (phase x) in Hp. destruct valid; rewrite !set_condition_phase in Hp; [|done].
  unfold publish, publish_components in Hp. rewrite set_condition_phase in Hp. unfold ready in Hp. cbn in Hp.
  by destruct control_plane.
Qed.

Lemma wp_publish_guard cx' cl observation ready valid capability h :
  rc_tenant cx' = tenant → bound h → workers_seen h → connected h → cluster_object h cl →
  wp (publish_services now cx' cl observation ready valid capability) h guard (λ _ _, True).
Proof.
  intros Ht Hb Hw Hc Ho. unfold publish_services. rewrite Ht. apply wp_unguarded_try; [|done|].
  { unfold capability_reason. destruct ready; [|apply within_ret]. cbn [negb]. destruct (ok_or _ _); [|apply within_ret].
    apply within_bind; [apply quiet_credentials|]. intros c. apply within_ret. }
  intros g reason. destruct (management_conditions_ready cl ["Available"]) as [cp|] eqn:Hr; [|done].
  apply wp_publish; [by left|eapply (services_ready _ cl); [auto..|exact Hr]|done|done].
Qed.

Lemma wp_services_guard cx' cl observation h :
  like cx' → bound h → workers_seen h → connected h → cluster_object h cl →
  wp (services provider clocks now cx' foundation cl observation) h guard (λ _ _, True).
Proof.
  intros (path & commands & ->) Hb Hw Hc Ho. unfold services. change (rc_identity (with_workers cx path commands)) with identity.
  destruct (build _) as [class|] eqn:Hcl; [|done]. cbn in Hcl. injection Hcl as <-.
  eapply wp_guard_try; [apply wp_ensure_static; [done..|]| |].
  { eapply marked_role. cbn [dyn_meta]. exact (marked_metadata cx STORAGE_CLASS "" "storage"). }
  { done. }
  intros g storage _. destruct (image _ _) as [img|]; [|done]. destruct (build _) as [objects|] eqn:Hob; [|done].
  unfold build in Hob. destruct (cnpg_operator _ _ _ _) as [objects'|] eqn:Hop; [|done]. injection Hob as ->.
  apply cnpg_operator_marked in Hop.
  eapply wp_guard_try; [apply wp_ensure_batch; [auto|auto|by eapply roles_marked]|done|]. intros g' operator _.
  apply wp_bind. eapply wp_post; [apply wp_extends, wp_catalog_guard|].
  intros h' r [_ [g2 ->]]. destruct r as [c|e]; [apply wp_publish_guard; auto|].
  destruct e; try (apply wp_publish_guard; auto). apply wp_progress_guard. by left.
Qed.

(** What the observation of this Tenant's workers claims, and no write. *)
Lemma wp_observe_guard inputs h :
  bound h → connected h →
  wp (observe_workers inputs) h guard (λ h' r, (∃ g, h' = h ++ g) ∧ observed_workers inputs h' r).
Proof.
  intros Hb Hc. eapply wp_mono; [| |apply (wp_and _ _ _ _ _ _ (wp_hosted _ _ Hb Hc (reads_workers inputs)) (wp_observe_workers inputs h))].
  - by intros h' o [? _].
  - done.
Qed.

Lemma wp_observe_tenant_guard cx' cl inventory h :
  like cx' → bound h → connected h → cluster_object h cl → Forall (shown h) inventory →
  wp (observe_tenant provider clocks now cx' foundation cl inventory) h guard (λ _ _, True).
Proof.
  intros Hl Hb Hc Ho Hinv. unfold observe_tenant. destruct (network_images _) as [images|]; [|done].
  destruct (build _) as [network|] eqn:Hn; [|done].
  unfold build in Hn. destruct (build_network _ _ _) as [l|] eqn:Hbn; [|done]. injection Hn as ->.
  apply build_network_marked in Hbn. pose proof Hl as (path & commands & ->).
  eapply wp_guard_try; [apply wp_ensure_batch; [auto|auto|by eapply roles_marked]|done|]. intros g b Hbatch.
  specialize (Hbatch _ eq_refl).
  destruct (_ || _); [apply wp_progress_guard; by left|]. destruct (ok_or _ _) as [deployment|] eqn:Hd; [|done].
  apply ok_or_Ok, find_first_Some in Hd as [Hd _]. rewrite list.Forall_forall in Hinv. apply Hinv in Hd.
  apply wp_try. eapply wp_post; [apply wp_observe_guard; auto|]. intros h' [observation|] [[g' ->] Hob]; [|done].
  destruct (wo_inventory_complete observation) eqn:H1; cbn [negb orb]; [|apply wp_progress_guard; by left].
  destruct (wo_all_ready observation) eqn:H2; cbn [negb orb]; [|apply wp_progress_guard; by left].
  destruct (wo_network_ready observation) eqn:H3; cbn [negb orb]; [|apply wp_progress_guard; by left].
  destruct Hob as (ms & ds & ns & cs & Hw & Hf & Hr & Hnet).
  apply wp_services_guard; [done|auto| |auto|auto]. eexists _, ms, ds, ns, cs. cbn [win_identity win_network_id win_desired_count
    win_deployment win_network_objects] in *. split_and!; [..|exact Hw|by apply Hf|by apply Hr|by apply Hr|cbn; auto|by apply Hnet];
    [done|done|done|cbn; auto].
Qed.

Lemma wp_ensure_volume h :
  bound h → connected h → wp (ensure_volume cx) h guard (λ _ _, True).
Proof.
  intros Hb Hc. unfold ensure_volume. request; [done|]. destruct reply as [found|]; [|done]. cbn [map_err].
  apply wp_try. destruct found as [v|]; [apply wp_return; by destruct (validate_volume _ _ _)|].
  apply wp_bind. split; [|intros [v|]; [do 2 apply wp_return; cbn [map_err]; by destruct (validate_volume _ _ _)|done]].
  subst h0. cbn [guard]. split_and!; [auto|auto|by exists h|done|done].
Qed.

Lemma wp_ensure_machines cx' desired inventory h :
  like cx' → bound h → namespace_seen h → cluster_bound tenant = true → cluster_seen h →
  Forall root_desired desired → Forall (shown h) inventory →
  wp (ensure_machines desired cx' inventory) h guard (λ h' r, ∀ l, r = Ok (Some l) → Forall (shown h') l).
Proof.
  intros (path & commands & ->) Hb Hn Hcb Hc HF. revert inventory h Hb Hn Hc.
  induction HF as [|d l Hd HF IH]; intros inventory h Hb Hn Hc Hinv; cbn [ensure_machines]; [by intros l [= <-]|].
  change (rc_tenant (with_workers cx path commands)) with tenant.
  change (rc_identity (with_workers cx path commands)) with identity.
  eapply wp_guard_try; [apply wp_ensure_management; [split_and!; [done|done|by right]|done]|done|].
  intros g [e inv] Hm. destruct (Hm _ _ eq_refl) as (_ & _ & _ & Hi & _). destruct (en_created e); [done|]. auto.
Qed.

Lemma wp_reconcile_workers_guard cl inventory h :
  bound h → connected h → namespace_seen h → cluster_bound tenant = true → cluster_object h cl → Forall (shown h) inventory →
  wp (reconcile_workers provider clocks now cx foundation cl inventory) h guard (λ _ _, True).
Proof.
  intros Hb Hc Hn Hcb Hcs Hinv. unfold reconcile_workers.
  eapply wp_guard_try; [by apply wp_ensure_volume|done|]. intros g volume _. destruct (build _) as [commands|]; [|done].
  assert (like (with_workers cx (dv_mountpoint volume) commands)) as Hl by by eexists _, _.
  eapply wp_guard_try; [apply wp_ensure_machines; auto| |].
  - exists cl. auto.
  - apply list.Forall_forall. intros o Ho. do 2 right. by eexists _, _.
  - done.
  - intros g' [inv|] Hm; [|apply wp_progress_guard; by left]. destruct (try_for _ _); [|done].
    apply wp_observe_tenant_guard; auto.
Qed.

Lemma wp_reconcile_control_plane_guard cl inventory h :
  bound h → namespace_seen h → cluster_bound tenant = true → cluster_object h cl → Forall (shown h) inventory →
  wp (reconcile_control_plane provider clocks now cx foundation cl inventory) h guard (λ _ _, True).
Proof.
  intros Hb Hn Hcb Hc Hinv. unfold reconcile_control_plane. change (rc_tenant cx) with tenant.
  assert (∀ h, known h tenant) as Ht by by left. assert (∀ g, cluster_seen (h ++ g)) as Hcs by (intros g; exists cl; auto).
  destruct (build (dev_cluster cx)) as [d1|] eqn:H1; [|done]. unfold build in H1.
  destruct (dev_cluster cx) as [d1'|] eqn:E1; [|done]. injection H1 as ->.
  eapply wp_guard_try; [apply wp_ensure_management; [split_and!; [done|done|right; split_and!; [by left|done|by exists cl]]|done]|done|].
  intros g [infra inv1] Hm1. destruct (Hm1 _ _ eq_refl) as (_ & _ & _ & Hi1 & _).
  destruct (en_created infra); [by apply wp_progress_guard|].
  destruct (build (kamaji_control_plane cx)) as [d2|] eqn:H2; [|done]. unfold build in H2.
  destruct (kamaji_control_plane cx) as [d2'|] eqn:E2; [|done]. injection H2 as ->.
  eapply wp_guard_try; [apply wp_ensure_management; [split_and!; [auto|auto|right; split_and!; [by right; left|done|auto]]|done]|done|].
  intros g' [cp inv2] Hm2. destruct (Hm2 _ _ eq_refl) as (Hs2 & _ & _ & Hi2 & _).
  destruct (en_created cp); [by apply wp_progress_guard|]. destruct (try_for _ _); [|done].
  destruct (management_conditions_ready _ _) as [[]|]; cbn [negb]; [|by apply wp_progress_guard|done].
  unfold reconcile_hosted. eapply wp_guard_try; [by apply wp_connect|done|]. intros g2 secret Hcon.
  specialize (Hcon _ eq_refl).
  apply wp_hosted_try; [auto|auto|apply within_perform_map, reads_bootstrap_rbac|done|]. intros g3 _.
  apply wp_reconcile_workers_guard; auto 6.
Qed.

Lemma wp_reconcile_roots_guard h :
  bound h → wp (reconcile_roots provider clocks now cx foundation) h guard (λ _ _, True).
Proof.
  intros Hb. unfold reconcile_roots. change (rc_tenant cx) with tenant. assert (∀ h, known h tenant) as Ht by by left.
  destruct (build (to_dynamic (tenant_namespace cx))) as [d0|] eqn:H0; [|done]. unfold build in H0.
  destruct (to_dynamic _) as [d0'|] eqn:E0 in H0; [|done]. injection H0 as ->.
  eapply wp_guard_try; [by apply wp_ensure_root_namespace|done|]. intros g ns Hns. specialize (Hns _ eq_refl).
  destruct (en_created ns); [by apply wp_progress_guard|].
  destruct (build (cluster cx)) as [d1|] eqn:H1; [|done]. unfold build in H1.
  destruct (cluster cx) as [d1'|] eqn:E1; [|done]. injection H1 as ->.
  assert (has_kind "Cluster" d1 = true) as Hk.
  { unfold cluster in E1. destruct (endpoint _) as [[]|]; [|done]. by apply Ok_inj in E1 as <-. }
  eapply wp_guard_try; [apply wp_ensure_management; [split_and!; [auto|done|by left]|constructor]|done|].
  intros g' [c inv] Hm. destruct (Hm _ _ eq_refl) as (Hs & Hid & Hro & Hi & Hu).
  destruct (en_created c); [by apply wp_progress_guard|].
  destruct (cluster_bound tenant) eqn:Hcb; cbn [negb]; [|destruct (ok_or _ _); [by apply wp_bind_guard|done]].
  apply wp_reconcile_control_plane_guard; auto. exists d1. by split_and!; auto.
Qed.
End Guards.

(** A request of a reconciliation, guarded for the foundation and the claim of
    the Tenant. *)
Definition unready_patch (o : Op) : Prop :=
  match o with PatchTenantStatus _ p => phase (sp_status p) ≠ Some PhaseReady | _ => False end.
Definition reconcile_guard `{SO : Sha256Ops, SP : SpecJson, NO : Ipv4NetOps, IP : IpNetOps, MC : ManifestCodec,
    CC : ClientCodec} (provider : LocalProvider) (tenant : Tenant) (spec : TenantSpec) (h : trace Resp) (o : Op) : Prop :=
  quiet_op o = true ∨ unready_patch o ∨ ∃ foundation claim, guard provider tenant spec foundation claim h o.

Section Reconciled.
Context `{SO : Sha256Ops, SP : SpecJson, NO : Ipv4NetOps, IP : IpNetOps, MC : ManifestCodec, CC : ClientCodec}.
Context `{SJ : SerdeJson}.
Context (provider : LocalProvider) (clocks : nat → nat → Time) (now : nat → string → Time).

Lemma wp_bind_unready tenant spec t other message set h :
  wp (bind_tenant t (bind_mutation now t other message set)) h (reconcile_guard provider tenant spec) (λ _ _, True).
Proof.
  unfold bind_tenant. apply wp_try, wp_bind. eapply wp_post; [|by intros h' [[]|] _].
  apply (wp_update_known (λ _ _, True)); [done|done|by left| |done].
  intros g current a s nm p _ Hs <-. right. left. cbn. unfold mutated in Hs.
  destruct (bind_mutation _ _ _ _ _ _ _) as [s'|] eqn:E; [|done]. apply Ok_inj in Hs as <-. unfold bind_mutation in E.
  destruct (local_mut _ _) as [s1|]; [|done]. destruct (is_some_and other _); [done|].
  destruct (local_mut s1 set) as [s2|]; [|done]. apply Ok_inj in E as <-. apply progress_not_ready.
Qed.

Lemma quiet_finalizer original current finalizer present :
  within (λ o, quiet_op o = true) (set_finalizer original current finalizer present).
Proof. unfold set_finalizer. walk; reflexivity. Qed.

Lemma finalizer_present tenant h Pre :
  wp (set_finalizer tenant tenant FINALIZER true) h Pre (λ _ _, True) →
  wp (set_finalizer tenant tenant FINALIZER true) h Pre (λ _ r, r = Ok false → has_finalizer tenant FINALIZER = true).
Proof.
  unfold set_finalizer. destruct (validate_identity _ _) as [[u rv]|]; [|done].
  destruct (has_finalizer tenant FINALIZER); cbn [Bool.eqb]; [done|]. intros [Ho Hk]. split; [exact Ho|].
  intros [t|]; [|done]. unfold bind. cbn [map_err]. by destruct (checked u t).
Qed.

Lemma alloc_quiet cx b h o : alloc_request cx b h o → quiet_op o = true.
Proof. by destruct o. Qed.

Lemma recorded_checked tenant foundation :
  creation (lp_foundation provider) (recorded_hash tenant) = Ok foundation →
  is_none_or is_empty (recorded_hash tenant) = false →
  recorded_hash tenant = Some (rf_hash (lp_foundation provider)) ∧ rf_creation (lp_foundation provider) = Ok foundation.
Proof.
  unfold creation, rf_validate_identity. intros H Hne. destruct (recorded_hash tenant) as [hash|]; [|done].
  cbn in H, Hne. unfold non_empty in H. rewrite Hne in H. cbn in H. case_bool_decide as E; cbn in H; [by subst|done].
Qed.

Lemma wp_reconcile_guarded tenant spec h :
  wp (local_reconcile provider clocks now tenant spec) h (reconcile_guard provider tenant spec) (λ _ _, True).
Proof.
  unfold local_reconcile. destruct (_ != _); [done|].
  destruct (map_err _ (creation _ _)) as [foundation|] eqn:Hf; [|done]. apply map_err_Ok in Hf.
  apply wp_try. unfold runtime, perform_map. apply wp_bind.
  eapply wp_post; [apply finalizer_present; eapply wp_post; [eapply within_wp; [apply quiet_finalizer|by left]|done]|].
  intros h1 [[]|] Hfin; [done| |done]. apply wp_return. cbn [map_err]. specialize (Hfin eq_refl).
  destruct (is_none_or _ _) eqn:Hh; [apply wp_bind_unready|].
  destruct (recorded_checked _ _ Hf Hh) as [Hrec Hcr].
  apply wp_try, wp_bind. eapply wp_mono; [| |apply wp_allocate]; [intros h' o Ho%alloc_quiet; by left|].
  intros h2 [claim|] [_ Hb]; [|done]. apply wp_return. cbn [map_err]. specialize (Hb _ eq_refl).
  destruct (recorded_allocation tenant) as [a|] eqn:Ha; cbn [is_none]; [|apply wp_bind_unready].
  assert (claim_status claim = a) as Hs by (by apply Hb).
  eapply wp_mono; [| |apply wp_reconcile_roots_guard].
  - intros h' o Hg. right. right. by exists foundation, claim.
  - done.
  - split; [done..|congruence|congruence].
Qed.

Lemma issued_guarded tenant spec env (P : trace Resp → Op → Prop) :
  (∀ h o, reconcile_guard provider tenant spec h o → P h o) →
  let '(h, _) := run env (local_reconcile provider clocks now tenant spec) [] in issued P [] h.
Proof.
  intros HP. pose proof (wp_run env _ _ _ _ (wp_reconcile_guarded tenant spec [])) as H.
  destruct (run _ _ _). destruct H as [_ H]. intros h1 e h2 E Hl. by eapply HP, H.
Qed.

(** What is created or repaired, and what reaches the hosted cluster. *)
Definition creation_guard (tenant : Tenant) (spec : TenantSpec) (h : trace Resp) (o : Op) : Prop :=
  guarded_op o = true → ∃ foundation claim, guard provider tenant spec foundation claim h o.

(** C4. Against any API server, any Tenant API and any Docker daemon, the
    reconciliation of a local Tenant reaches the hosted cluster, creates an
    object or a volume, or repairs an object only for a Tenant that has the
    finalizer, the foundation's hash and an allocation whose Lease it just
    verified.  An object is created only directly after its name was found
    free; in the management cluster it is exactly one of the Tenant's desired
    objects, the Cluster never once a Cluster UID is recorded, and every other
    root only after the owned namespace and the recorded Cluster were seen.
    Hosted objects carry the Tenant's identity and go through a client that was
    built from a kubeconfig of an owned Secret that only embeds certificates for
    the claimed endpoint.  A repair is bound to the UID and version of an owned,
    undeleted object it saw; no object is merged or deleted; a volume is created
    only under the Tenant's name and labels after it was found absent. *)
Theorem local_creation_guarded tenant spec env :
  let '(h, _) := run env (local_reconcile provider clocks now tenant spec) [] in
  issued (creation_guard tenant spec) [] h.
Proof.
  apply issued_guarded. intros h o [Hq|[Hu|H]] Hg; [|by destruct o|done].
  unfold quiet_op in Hq. by rewrite Hg in Hq.
Qed.

(** A Tenant is published as ready only from a version that was ready, or with
    the ground observed in this reconciliation. *)
Definition ready_guard (tenant : Tenant) (spec : TenantSpec) (h : trace Resp) (o : Op) : Prop :=
  match o with
  | PatchTenantStatus _ p => phase (sp_status p) = Some PhaseReady → was_ready tenant h ∨
      ∃ foundation claim, grounded provider tenant spec foundation claim h
  | _ => True
  end.

(** C5. Whatever is answered, the reconciliation of a local Tenant publishes the
    phase Ready only when the version it updates had it already, or when this
    very reconciliation verified the Tenant's bindings and observed all of it
    ready: the recorded Cluster with its Available condition, the desired
    number of Machines, DevMachines, running containers and Nodes, one to one
    and each ready, the four network workloads, through a client of the
    Tenant's own kubeconfig. *)
Theorem local_ready_grounded tenant spec env :
  let '(h, _) := run env (local_reconcile provider clocks now tenant spec) [] in
  issued (ready_guard tenant spec) [] h.
Proof.
  apply issued_guarded. intros h o [Hq|[Hu|(foundation & claim & H)]]; destruct o; try done; cbn.
  - by intros ?%Hu.
  - intros [?|?]%H; [by left|right]. by exists foundation, claim.
Qed.
End Reconciled.
