(* ===== verification/LocalAgreement.v ===== *)
(** * Creation and finalization of local Tenants agree

    The objects, the volume and the claim that [LocalTenant] creates for a
    Tenant are those that [Finalize] looks for when the Tenant is deleted: under
    the same names, with the identity that the finalizer demands. *)

From S2P Require Import Prelude RustStd Externals Kube Errors Api Management Ownership Foundation Docker.
From S2P Require Import Allocation ReconcileErrors Sanitize Readiness Effects Ops Status AllocationRun Finalize Catalog.
From S2P Require Import Reconcile Manifests Bundles TenantObjects Bootstrap TenantClient Workers LocalTenant LocalRequests LocalTenantSafety.

Open Scope Z_scope.

(** The views of one foundation for creation and for deletion. *)
Record same_foundation (f : Foundation) (d : DeletionFoundation) : Prop := {
  sf_label : fi_ownership_label (f_inputs f) = di_ownership_label (df_inputs d);
  sf_prefix : fi_lab_prefix (f_inputs f) = di_lab_prefix (df_inputs d);
  sf_network : f_network_id f = df_network_id d;
}.

(** Versions of one Tenant. *)
Record same_tenant (t t' : Tenant) : Prop := {
  st_name : name (tenant_meta t) = name (tenant_meta t');
  st_uid : uid (tenant_meta t) = uid (tenant_meta t');
  st_spec : tenant_spec t = tenant_spec t';
}.

(** A created object as the server stores it: with a UID, a version and
    whatever status and data. *)
Definition stored (d o : DynamicObject) : Prop :=
  ∃ u rv data, u ≠ "" ∧ o = {| dyn_types := dyn_types d; dyn_meta := with_version (dyn_meta d) (Some u) (Some rv); dyn_data := data |}.

(** An object that a root of the catalog describes, but for its label. *)
Definition described (tenant : string) (root : ManagementResource) (d : DynamicObject) (i : Identity) : Prop :=
  root ∈ roots ∧ dyn_types d = Some (resource_types root) ∧ name (dyn_meta d) = expected_name root tenant ∧
  is_some (name (dyn_meta d)) = true ∧ namespace (dyn_meta d) = Some tenant ∧
  (∀ k v, identity_annotations i (mr_role root) !! k = Some v → get_annotation (dyn_meta d) k = Some v) ∧
  owner_references (dyn_meta d) = None.

(** The check of a root, of an object that has the annotations and no owner. *)
Lemma annotated_root i resource m u rv :
  (∀ k v, identity_annotations i resource !! k = Some v → get_annotation m k = Some v) →
  owner_references m = None → u ≠ "" →
  validate_root_ownership (with_version m (Some u) rv) i resource
  = (if get_label m (id_ownership_label i) == Some (id_lab_prefix i) then Ok tt else Err (Markers resource)).
Proof.
  intros Ha Ho Hu. unfold validate_root_ownership. cbn [uid with_version is_none_or].
  rewrite (proj2 (is_empty_false u) Hu). change (get_label (with_version m (Some u) rv)) with (get_label m).
  case_bool_decide; cbn [negb]; [|done]. unfold validate_tenant_object_ownership.
  rewrite (proj2 (any_false _ _)).
  2: { intros [k v] Hkv%elem_of_map_to_list. cbn [fst snd]. apply Ha in Hkv.
       change (get_annotation (with_version m (Some u) rv) k) with (get_annotation m k). by rewrite Hkv, bool_decide_eq_true_2. }
  unfold owners_of. cbn [owner_references with_version]. by rewrite Ho.
Qed.

Lemma described_check tenant td root d o :
  described (td_name td) root d (td_identity td) → stored d o →
  check_root tenant td root (unwrap_or "" (name (dyn_meta d))) (Some o)
  = (if get_label (dyn_meta d) (id_ownership_label (td_identity td)) == Some (id_lab_prefix (td_identity td)) then
       if mr_kind root == "Cluster" then ownership (validate_cluster_uid tenant (dyn_meta o)) else Ok tt
     else ownership (Err (Markers (mr_role root)))).
Proof.
  intros (_ & Ht & _ & Hn & Hns & Hm & Ho) (u & rv & data & Hu & ->). unfold check_root.
  cbn [dyn_meta dyn_types name namespace with_version]. rewrite Ht, Hns. cbn [is_none_or resource_types tm_kind tm_api_version].
  destruct (name (dyn_meta d)) as [nm|]; [|done]. cbn [unwrap_or].
  rewrite (bool_decide_eq_true_2 (Some nm = Some nm)), (bool_decide_eq_true_2 (Some (td_name td) = Some (td_name td))),
    (bool_decide_eq_true_2 (mr_kind root = mr_kind root)), (bool_decide_eq_true_2 (mr_api_version root = mr_api_version root)) by done.
  cbn [negb orb]. rewrite (annotated_root _ _ _ _ _ Hm Ho Hu). by destruct (get_label _ _ == _).
Qed.

(** ** The objects of a context *)
Lemma object_described cx kind spec :
  kind ∈ ["Cluster"; "DevCluster"; "KamajiControlPlane"; "KubeadmConfigTemplate"; "DevMachineTemplate"; "MachineDeployment"] →
  rc_name cx ≠ "" → described (rc_name cx) (catalogued kind) (management_object cx kind spec) (rc_identity cx).
Proof.
  intros Hk Hne. pose proof (catalogued_root kind Hk) as [Hin Hc].
  assert (is_some (expected_name (catalogued kind) (rc_name cx)) = true) as Hs.
  { clear Hin Hc. repeat (apply elem_of_cons in Hk as [->|Hk]; [done|]). by apply not_elem_of_nil in Hk. }
  assert (Some (catalogued_name kind (rc_name cx)) = expected_name (catalogued kind) (rc_name cx)) as Hnm.
  { unfold catalogued_name. by destruct (expected_name _ _). }
  split_and!; [|done|exact Hnm|done|cbn; by destruct (rc_name cx)|apply marked_metadata|done].
  apply elem_of_filter_list. split; [by rewrite Hc, bool_decide_eq_true_2|done].
Qed.

Lemma object_label cx kind spec :
  get_label (dyn_meta (management_object cx kind spec)) (fi_ownership_label (rc_inputs cx)) = Some (fi_lab_prefix (rc_inputs cx)).
Proof. apply (marked_metadata cx). Qed.

(** The objects a local Tenant is made of, besides its namespace. *)
Definition local_objects `{IP : IpNetOps} (cx : ResourceContext) : list (result BuildError DynamicObject) :=
  [cluster cx; dev_cluster cx; kamaji_control_plane cx; Ok (kubeadm_config_template cx); Ok (dev_machine_template cx);
   Ok (machine_deployment cx)].

(** The label under which [cluster] marks the addons of a Tenant. *)
Definition ADDONS_LABEL := "cnpg-vcluster.capi/addons".

(** The ownership label of the foundation is that one, and is overwritten. *)
Definition label_clash (cx : ResourceContext) : bool :=
  (fi_ownership_label (rc_inputs cx) == ADDONS_LABEL) && (fi_lab_prefix (rc_inputs cx) != rc_name cx).

Lemma cluster_described cx d :
  cluster cx = Ok d → rc_name cx ≠ "" →
  described (rc_name cx) (catalogued "Cluster") d (rc_identity cx) ∧
  (get_label (dyn_meta d) (fi_ownership_label (rc_inputs cx)) == Some (fi_lab_prefix (rc_inputs cx))) = negb (label_clash cx).
Proof.
  unfold cluster. destruct (endpoint _) as [[host port]|]; [|done]. intros <-%Ok_inj Hne.
  match goal with |- context [management_object cx "Cluster" ?s] => set (spec := s) end.
  pose proof (object_described cx "Cluster" spec ltac:(left) Hne) as H.
  split; [exact H|]. unfold label_clash. pose proof (object_label cx "Cluster" spec) as Hl. unfold get_label in *.
  cbn [dyn_meta with_meta with_labels labels and_then].
  destruct (decide (fi_ownership_label (rc_inputs cx) = ADDONS_LABEL)) as [E|E].
  - rewrite E, (bool_decide_eq_true_2 (ADDONS_LABEL = ADDONS_LABEL)) by done. cbn [andb].
    unfold ADDONS_LABEL. rewrite lookup_insert_eq, negb_involutive.
    apply bool_decide_ext. split; congruence.
  - rewrite (bool_decide_eq_false_2 _ E). cbn [andb negb]. rewrite lookup_insert_ne by (intros E'; by destruct E).
    destruct (labels (dyn_meta (management_object cx "Cluster" spec))) as [l|]; [|done].
    cbn [unwrap_or and_then] in Hl |- *. by rewrite Hl, bool_decide_eq_true_2.
Qed.

Lemma local_described `{IP : IpNetOps} cx d :
  Ok d ∈ local_objects cx → rc_name cx ≠ "" →
  ∃ root, described (rc_name cx) root d (rc_identity cx) ∧
    (get_label (dyn_meta d) (fi_ownership_label (rc_inputs cx)) == Some (fi_lab_prefix (rc_inputs cx)))
    = negb ((mr_kind root == "Cluster") && label_clash cx).
Proof.
  intros Hd Hne. unfold local_objects in Hd.
  apply elem_of_cons in Hd as [Hd|Hd].
  { destruct (cluster_described cx d (eq_sym Hd) Hne). by exists (catalogued "Cluster"). }
  apply elem_of_cons in Hd as [Hd|Hd].
  { unfold dev_cluster in Hd. destruct (endpoint _) as [[host port]|]; [|done]. apply Ok_inj in Hd as ->.
    eexists. split; [apply object_described; [right; left|done]|]. by rewrite object_label, bool_decide_eq_true_2. }
  apply elem_of_cons in Hd as [Hd|Hd].
  { unfold kamaji_control_plane in Hd. destruct (endpoint _) as [[host port]|]; [|done].
    destruct (dns_service_ip _); [|done]. do 2 (destruct (split_image _) as [[? ?]|]; [|done]). apply Ok_inj in Hd as ->.
    eexists. split; [apply object_described; [do 2 right; left|done]|]. by rewrite object_label, bool_decide_eq_true_2. }
  repeat (apply elem_of_cons in Hd as [Hd|Hd]; [apply Ok_inj in Hd as ->; eexists; split;
    [apply object_described; [|done]|exact (bool_decide_eq_true_2 _ (object_label cx _ _))]|]).
  - do 3 right. left.
  - do 4 right. left.
  - do 5 right. left.
  - by apply not_elem_of_nil in Hd.
Qed.

(** ** The agreement *)
Definition with_slots (c : ClaimContext) (slots : list AllocationSlot) : ClaimContext := {|
  cx_namespace := cx_namespace c; cx_ownership_label := cx_ownership_label c; cx_lab_prefix := cx_lab_prefix c;
  cx_tenant_name := cx_tenant_name c; cx_tenant_uid := cx_tenant_uid c; cx_spec_hash := cx_spec_hash c;
  cx_foundation_hash := cx_foundation_hash c; cx_slots := slots |}.

Section Agreement.
Context `{SO : Sha256Ops, SP : SpecJson, NO : Ipv4NetOps, IP : IpNetOps}.
Context (supported_version : string) (provider : LocalProvider).

(** What the finalizer and the creation path share. *)
Record agreed (tenant : Tenant) (td : Teardown) (cx : ResourceContext) (claims : ClaimContext) : Prop := {
  ag_identity : rc_identity cx = td_identity td;
  ag_claims : td_claims td = with_slots claims [];
  ag_volume : storage_volume_name cx = volume_name td ∧ storage_volume_labels cx = storage_labels (td_identity td);
  ag_namespace u rv : u ≠ "" →
    check_namespace td (Some {| ns_meta := with_version (ns_meta (tenant_namespace cx)) (Some u) (Some rv) |}) = Ok tt;
  ag_roots d o : Ok d ∈ local_objects cx → stored d o →
    ∃ root, root ∈ roots ∧ name (dyn_meta d) = expected_name root (td_name td) ∧
      check_root tenant td root (object_name d) (Some o)
      = (if mr_kind root == "Cluster" then
           if label_clash cx then ownership (Err (Markers (mr_role root)))
           else ownership (validate_cluster_uid tenant (dyn_meta o))
         else Ok tt);
}.

Lemma storage_labels_agree cx i :
  rc_identity cx = i → storage_volume_labels cx = storage_labels i.
Proof.
  intros <-. unfold storage_volume_labels, storage_labels, identity_labels. cbn [fold_left id_ownership_label id_lab_prefix].
  by rewrite collect_map_fold.
Qed.

Lemma described_agrees tenant td cx d o :
  rc_name cx = td_name td → rc_identity cx = td_identity td → td_name td ≠ "" →
  Ok d ∈ local_objects cx → stored d o →
  ∃ root, root ∈ roots ∧ name (dyn_meta d) = expected_name root (td_name td) ∧
    check_root tenant td root (object_name d) (Some o)
    = (if mr_kind root == "Cluster" then
         if label_clash cx then ownership (Err (Markers (mr_role root)))
         else ownership (validate_cluster_uid tenant (dyn_meta o))
       else Ok tt).
Proof.
  intros Hn Hid Hne Hd Hs. rewrite <-Hn in Hne. destruct (local_described cx d Hd Hne) as (root & Hr & Hl).
  rewrite Hn, Hid in Hr. exists root. split_and!; [apply Hr|apply Hr|].
  unfold object_name. rewrite (described_check _ _ _ _ _ Hr Hs).
  rewrite <-Hid. cbn [rc_identity id_ownership_label id_lab_prefix]. rewrite Hl.
  destruct (mr_kind root == "Cluster"); cbn [andb negb]; [|done]. by destruct (label_clash cx).
Qed.

(** The ownership label of a foundation may be the label of the addons: the
    creation of the Cluster then overwrites its own mark, and the deletion
    refuses the Cluster it created. *)
Lemma clashing_label_refused tenant td cx d o :
  rc_name cx = td_name td → rc_identity cx = td_identity td → td_name td ≠ "" →
  label_clash cx = true → cluster cx = Ok d → stored d o →
  check_root tenant td (catalogued "Cluster") (object_name d) (Some o)
  = ownership (Err (Markers (mr_role (catalogued "Cluster")))).
Proof.
  intros Hn Hid Hne Hc Hd Hs. rewrite <-Hn in Hne. destruct (cluster_described cx d Hd Hne) as [Hr Hl].
  rewrite Hn, Hid in Hr. unfold object_name. rewrite (described_check _ _ _ _ _ Hr Hs).
  rewrite <-Hid. cbn [rc_identity id_ownership_label id_lab_prefix]. by rewrite Hl, Hc.
Qed.

(** C7. What the reconciliation of a local Tenant creates is what its deletion
    looks for: for two versions of one Tenant, one foundation and one
    specification, the finalizer computes the identity, the claim (but for the
    slots), the volume and its labels that creation used; the namespace as
    stored passes its check; and every object of the Tenant as stored is found
    under the name of a root of its kind and passes the root's check, the
    Cluster by its recorded UID.  The one exception is the Cluster under a
    foundation whose ownership label is the label of the addons: its mark is
    then overwritten with the Tenant's name, and unless this is the lab's
    prefix the finalizer refuses it. *)
Theorem finalizer_recognises_creation tenant deleting spec foundation claim path commands nm td :
  rf_creation (lp_foundation provider) = Ok foundation →
  same_foundation foundation (rf_deletion (lp_foundation provider)) → same_tenant tenant deleting →
  name (tenant_meta tenant) = Some nm → canonical_spec nm (tenant_spec tenant) supported_version = Ok spec →
  prepare supported_version (lp_foundation provider) deleting = Ok td →
  agreed deleting td (with_workers (resource_context provider tenant spec foundation claim) path commands)
    (claim_context provider tenant spec foundation).
Proof.
  intros Hf [Hlab Hpre _] [Hn Hu Hsp] Hnm Hspec. unfold prepare.
  rewrite <-Hn, Hnm. cbn [ok_or]. rewrite <-Hsp, Hspec. cbn [map_err]. unfold required_uid. rewrite <-Hu.
  destruct (filter_non_empty _) as [u|] eqn:Huid; [|done]. cbn [ok_or]. apply filter_non_empty_Some in Huid as [Huid _].
  destruct (is_none _); [done|]. destruct (map_err _ (validate_provider_status _ _)); [|done]. destruct (_ != _); [done|].
  unfold deletion. destruct (rf_validate_identity _ _); [|done]. cbn [map_err]. intros <-%Ok_inj.
  set (cx := with_workers _ _ _).
  assert (rc_name cx = nm) as Hcn by (unfold rc_name, cx; cbn; by rewrite Hnm).
  assert (nm ≠ "") as Hne by (intros ->; by apply canonical_spec_Ok in Hspec as [? _]).
  match goal with |- agreed _ ?td _ _ => assert (rc_identity cx = td_identity td) as Hid end.
  { unfold rc_identity. rewrite Hcn. unfold cx. cbn. by rewrite Huid, Hlab, Hpre. }
  split.
  - done.
  - unfold claim_context, with_slots. cbn. unfold name_any. by rewrite Hnm, Huid, Hlab, Hpre.
  - split; [|by apply storage_labels_agree]. unfold storage_volume_name, volume_name. rewrite Hcn. unfold cx. cbn. by rewrite Hpre.
  - intros u' rv Hu'. unfold check_namespace. cbn [ns_meta]. rewrite <-Hid.
    unfold tenant_namespace. cbn [ns_meta].
    destruct (marked_metadata cx (rc_name cx) "" "namespace") as [Hl Ha].
    by rewrite (annotated_root _ _ _ u' (Some rv) Ha eq_refl Hu'), Hl, bool_decide_eq_true_2.
  - intros d o. by apply described_agrees.
Qed.
End Agreement.

(** ** A Tenant that is deleted *)
Module DeletedTenant.
Definition tenant (deleted : option Time) : Tenant := {|
  tenant_meta := {|
    name := Some "alpha"; namespace := None; uid := Some "uid-a"; resource_version := Some "7";
    generation := Some 1; labels := None; annotations := None; owner_references := None;
    finalizers := Some [FINALIZER]; deletion_timestamp := deleted |};
  tenant_spec := {| kubernetes_version := "v1.36.4"; workers := 1; provider := SpecLocal |};
  tenant_status := None |}.
Definition spec : TenantSpec := {| kubernetes_version := "1.36.4"; workers := 1; provider := SpecLocal |}.
Definition provider : LocalProvider := {|
  lp_assets := {| as_calico := ""; as_cnpg := "" |}; lp_foundation := Fixture.runtime |}.
Definition claim : Claim := {|
  claim_slot := Fixture.slot "slot-1" 1 "172.18.0.10" "10.72.0.0/16" "10.142.0.0/16"; claim_lease_uid := "l1";
  claim_resource_version := "1" |}.
#[export] Instance nets : IpNetOps := {|
  parse_ip_net cidr := Ok cidr; ip_network _ := IpV4 177209344; ip_contains _ _ := true; ip_to_string _ := "10.142.0.10" |}.
Definition teardown : Teardown := {|
  td_name := "alpha"; td_foundation := Fixture.deletion_view;
  td_identity := {| id_tenant_name := "alpha"; id_tenant_uid := "uid-a";
    id_spec_hash := @spec_hash Concrete.hex_ops witness_spec_json spec; id_foundation_hash := Fixture.hash;
    id_ownership_label := "example.io/owned"; id_lab_prefix := "example" |};
  td_claims := {| cx_namespace := FOUNDATION_NAMESPACE; cx_ownership_label := "example.io/owned";
    cx_lab_prefix := "example"; cx_tenant_name := "alpha"; cx_tenant_uid := "uid-a";
    cx_spec_hash := @spec_hash Concrete.hex_ops witness_spec_json spec; cx_foundation_hash := Fixture.hash;
    cx_slots := [] |} |}.
End DeletedTenant.

Lemma finalizer_recognises_creation_witness :
  let cx := with_workers (@resource_context Concrete.hex_ops witness_spec_json DeletedTenant.provider
    (DeletedTenant.tenant None) DeletedTenant.spec Fixture.foundation DeletedTenant.claim) "/volume" [] in
  is_ok (@cluster cx) = true ∧
  @agreed DeletedTenant.nets (DeletedTenant.tenant (Some 9)) DeletedTenant.teardown cx
    (@claim_context Concrete.hex_ops witness_spec_json DeletedTenant.provider (DeletedTenant.tenant None)
       DeletedTenant.spec Fixture.foundation).
Proof.
  split; [vm_compute; reflexivity|].
  refine (@finalizer_recognises_creation Concrete.hex_ops witness_spec_json _ "1.36.4" DeletedTenant.provider
    (DeletedTenant.tenant None) (DeletedTenant.tenant (Some 9)) DeletedTenant.spec Fixture.foundation DeletedTenant.claim
    "/volume" [] "alpha" DeletedTenant.teardown eq_refl _ _ eq_refl _ _).
  - by split.
  - by split.
  - vm_compute. reflexivity.
  - vm_compute. reflexivity.
Defined.
