(* ===== verification/Permissions.v ===== *)
(** * Permissions of the controller

    [controller/src/permissions.rs] generates the ClusterRoles of the
    controller from the catalogue of management resources, and
    [controller/src/bin/generate.rs] the Role for its Leases.  The theorem
    relates them to the programs of this development: every request they send
    is granted, so none of them can be stopped by a missing permission, and
    the Role the controller creates for Tenants grants nothing it lacks, which
    the API server requires of whoever creates a Role. *)

From S2P Require Import Prelude RustStd Externals Kube Errors Api Management Ownership Foundation Docker.
From S2P Require Import Effects Ops Allocation ReconcileErrors Readiness Status AllocationRun Finalize Catalog.
From S2P Require Import Activation Requests Manifests Bundles Bootstrap TenantClient TenantObjects Workers.
From S2P Require Import LocalTenant LocalRequests LocalTenantSafety.

Definition ROLE_NAME := "tenant-controller-role".

(** ** Generated roles *)
Definition BASE_PERMISSIONS : list (string * list string * list string) := [
  ("", ["configmaps"], ["create"; "delete"; "get"; "list"; "patch"; "update"; "watch"]);
  ("", ["events"], ["create"; "patch"; "update"]);
  ("rbac.authorization.k8s.io", ["roles"; "rolebindings"], ["create"; "delete"; "get"]);
  ("tenancy.cnpg-vcluster.io", ["tenantdatabasecatalogs"],
     ["create"; "delete"; "get"; "list"; "patch"; "update"; "watch"]);
  ("tenancy.cnpg-vcluster.io", ["tenants"], ["get"; "list"; "patch"; "update"; "watch"]);
  ("tenancy.cnpg-vcluster.io", ["tenants/finalizers"], ["update"]);
  ("tenancy.cnpg-vcluster.io", ["tenants/status"], ["get"; "patch"; "update"])].

Definition AZURE_EXTRA_PERMISSIONS : list (string * list string * list string) := [
  ("cluster.x-k8s.io", ["clusters/status"], ["get"; "patch"]);
  ("compute.azure.com", ["disks"], ["get"; "list"])].

Definition rule (group : string) (resources verbs : list string) : PolicyRule := {|
  rule_api_groups := Some [group]; rule_resources := Some resources;
  rule_resource_names := None; rule_non_resource_urls := None; rule_verbs := verbs |}.

(** [api_version.split_once('/').map_or("", |(group, _)| group)] *)
Definition api_group (resource : ManagementResource) : string :=
  match split_once (mr_api_version resource) "/"%char with Some (group, _) => group | None => "" end.

Definition base_verbs (resource : ManagementResource) : list string :=
  let root := mr_class resource == Root in
  if mr_kind resource == "Namespace" then ["create"; "delete"; "get"; "list"]
  else if mr_kind resource == "Secret" then ["delete"; "get"; "list"]
  else if mr_kind resource == "Lease" then ["get"; "list"; "watch"]
  else if ((mr_kind resource == "KubeadmConfig") || (mr_kind resource == "TenantControlPlane")) && negb root
  then ["get"; "list"]
  else if root then ["create"; "delete"; "get"; "list"; "patch"]
  else ["create"; "delete"; "get"; "list"].

Definition management_rule (resource : ManagementResource) : PolicyRule :=
  let verbs := base_verbs resource in
  let verbs := if mr_watched resource && negb (bool_decide ("watch" ∈ verbs))
               then verbs ++ ["watch"] else verbs in
  rule (api_group resource) [mr_plural resource] verbs.

Definition azure_management_rule (resource : ManagementResource) : PolicyRule :=
  if mr_class resource != Descendant then management_rule resource else
  let verbs := ["get"; "list"] in
  let verbs := if mr_kind resource == "Machine" then verbs ++ ["patch"] else verbs in
  let verbs := if mr_watched resource then verbs ++ ["watch"] else verbs in
  rule (api_group resource) [mr_plural resource] verbs.

Record ClusterRole := { cr_name : string; cr_rules : list PolicyRule }.

Definition role (rules : list PolicyRule) : ClusterRole := {| cr_name := ROLE_NAME; cr_rules := rules |}.

Definition controller_role : ClusterRole :=
  role (map (λ '(group, resources, verbs), rule group resources verbs) BASE_PERMISSIONS
        ++ map management_rule (filter_list (λ r, mr_kind r != "Lease") MANAGEMENT_RESOURCES)).

Definition azure_controller_role : ClusterRole :=
  role (map (λ '(group, resources, verbs), rule group resources verbs)
            (BASE_PERMISSIONS ++ AZURE_EXTRA_PERMISSIONS)
        ++ map azure_management_rule (filter_list (λ r, mr_kind r != "Lease") AZURE_MANAGEMENT_RESOURCES)).

(** The Role of [rbac/allocation-role.yaml], in its namespace. *)
Definition allocation_namespace := "tenant-system".
Definition allocation_rule : PolicyRule :=
  rule "coordination.k8s.io" ["leases"] ["create"; "delete"; "get"; "list"; "patch"; "update"; "watch"].

(** ** What a request needs *)

(** RBAC: a rule grants a verb on a resource of a group to any object, unless
    it is limited to names. *)
Definition grants (group resource verb : string) (r : PolicyRule) : bool :=
  is_some_and (λ gs, bool_decide (group ∈ gs)) (rule_api_groups r)
  && is_some_and (λ rs, bool_decide (resource ∈ rs)) (rule_resources r)
  && is_none (rule_resource_names r) && bool_decide (verb ∈ rule_verbs r).

Record Access := { ac_group : string; ac_resource : string; ac_verb : string; ac_namespace : option string }.

Definition access (group resource verb : string) (ns : option string) : option Access :=
  Some {| ac_group := group; ac_resource := resource; ac_verb := verb; ac_namespace := ns |}.

Definition leases := access "coordination.k8s.io" "leases".
Definition tenancy := access "tenancy.cnpg-vcluster.io".
Definition rbac := access "rbac.authorization.k8s.io".

(** Objects of the management cluster are of a catalogued kind; the hosted
    cluster has its own administrator. *)
Definition object_access (api : ObjectApi) (subresource verb : string) : option (option Access) :=
  match oa_side api with
  | HostedSide => None
  | ManagementSide => Some
      (and_then (λ r, access (api_resource r).1.1.1 (mr_plural r +:+ subresource) verb (oa_namespace api))
        (find_first (λ r, (mr_api_version r == tm_api_version (oa_types api)) && (mr_kind r == tm_kind (oa_types api)))
          (MANAGEMENT_RESOURCES ++ AZURE_MANAGEMENT_RESOURCES)))
  end.

(** The request attributes of an operation; none for the Docker daemon.  A
    raw inventory is the list of the resource with that path. *)
Definition access_of (o : Op) : option (option Access) :=
  match o with
  | ListLeases ns => Some (leases "list" (Some ns))
  | GetLease ns _ => Some (leases "get" (Some ns))
  | CreateLease ns _ => Some (leases "create" (Some ns))
  | DeleteLease ns _ _ => Some (leases "delete" (Some ns))
  | GetTenant _ | GetTenantOpt _ => Some (tenancy "tenants" "get" None)
  | ListTenants => Some (tenancy "tenants" "list" None)
  | PatchTenantStatus _ _ => Some (tenancy "tenants/status" "patch" None)
  | PatchTenantFinalizers _ _ => Some (tenancy "tenants" "patch" None)
  | GetNamespace _ | ReadNamespace _ => Some (access "" "namespaces" "get" None)
  | CreateNamespace _ => Some (access "" "namespaces" "create" None)
  | DeleteNamespace _ _ => Some (access "" "namespaces" "delete" None)
  | GetSecret ns _ => Some (access "" "secrets" "get" (Some ns))
  | GetDynamic r ns _ => Some (access (api_resource r).1.1.1 (mr_plural r) "get" (Some ns))
  | ListDynamic r ns => Some (access (api_resource r).1.1.1 (mr_plural r) "list" (Some ns))
  | DeleteDynamic r ns _ _ => Some (access (api_resource r).1.1.1 (mr_plural r) "delete" (Some ns))
  | GetConfigMap ns _ => Some (access "" "configmaps" "get" (Some ns))
  | ReplaceConfigMap ns _ _ => Some (access "" "configmaps" "update" (Some ns))
  | CreateConfigMap ns _ => Some (access "" "configmaps" "create" (Some ns))
  | DeleteConfigMap ns _ _ => Some (access "" "configmaps" "delete" (Some ns))
  | GetCatalog ns _ | ReadCatalog ns _ => Some (tenancy "tenantdatabasecatalogs" "get" (Some ns))
  | CreateCatalog ns _ => Some (tenancy "tenantdatabasecatalogs" "create" (Some ns))
  | PatchCatalog ns _ _ => Some (tenancy "tenantdatabasecatalogs" "patch" (Some ns))
  | DeleteCatalog ns _ _ => Some (tenancy "tenantdatabasecatalogs" "delete" (Some ns))
  | GetRole ns _ | ReadRole ns _ => Some (rbac "roles" "get" (Some ns))
  | CreateRole ns _ => Some (rbac "roles" "create" (Some ns))
  | DeleteRole ns _ _ => Some (rbac "roles" "delete" (Some ns))
  | GetRoleBinding ns _ | ReadRoleBinding ns _ => Some (rbac "rolebindings" "get" (Some ns))
  | CreateRoleBinding ns _ => Some (rbac "rolebindings" "create" (Some ns))
  | DeleteRoleBinding ns _ _ => Some (rbac "rolebindings" "delete" (Some ns))
  | ListDisks ns => Some (access "compute.azure.com" "disks" "list" (Some ns))
  | RawInventory path =>
      Some (and_then (λ r, access (api_resource r).1.1.1 (mr_plural r) "list" (mr_inventory_namespace r))
              (find_first (λ r, inventory_path r == path) MANAGEMENT_RESOURCES))
  | ObjectFind api _ | ObjectRead api _ => object_access api "" "get"
  | ObjectList api => object_access api "" "list"
  | ObjectCreate api _ => object_access api "" "create"
  | ObjectApply api _ _ | ObjectMerge api _ _ false => object_access api "" "patch"
  | ObjectMerge api _ _ true => object_access api "/status" "patch"
  | ObjectDelete api _ _ => object_access api "" "delete"
  | ConfigMapRead ns _ => Some (access "" "configmaps" "get" (Some ns))
  | GroupDiscover _ | HostedRoleFind _ | HostedRoleRead _ | HostedRoleCreate _ | HostedBindingFind _
  | HostedBindingRead _ | HostedBindingCreate _ | ClassFind _ | ClassCreate _ => None
  | ListContainers | InspectVolume _ | RemoveVolume _ | ListVolumes | VolumeCreate _ _ | ConfigLoad _
  | ClientBuild _ => None
  end.

Definition granted (cr : ClusterRole) (a : Access) : bool :=
  any (grants (ac_group a) (ac_resource a) (ac_verb a)) (cr_rules cr)
  || ((ac_namespace a == Some allocation_namespace)
      && grants (ac_group a) (ac_resource a) (ac_verb a) allocation_rule).

Definition permitted (cr : ClusterRole) (o : Op) : bool :=
  match access_of o with None => true | Some a => is_some_and (granted cr) a end.

(** Whoever creates a Role must hold everything it grants. *)
Definition no_escalation (cr : ClusterRole) (r : PolicyRule) : bool :=
  all (λ group, all (λ resource, all (λ verb, any (grants group resource verb) (cr_rules cr)) (rule_verbs r))
                  (unwrap_or [] (rule_resources r))) (unwrap_or [] (rule_api_groups r)).

#[local] Arguments within : simpl never.
#[local] Arguments wp : simpl never.
#[local] Arguments bind : simpl never.
#[local] Arguments perform_map : simpl never.

(** ** Finalization of local Tenants *)
Lemma permitted_catalog o : catalog_op o = true →
  permitted controller_role o = true ∧ permitted azure_controller_role o = true.
Proof. by destruct o. Qed.

Lemma permitted_leases cr ns :
  ns = allocation_namespace → cr = controller_role ∨ cr = azure_controller_role →
  permitted cr (ListLeases ns) = true ∧ (∀ nm, permitted cr (GetLease ns nm) = true) ∧
  (∀ l, permitted cr (CreateLease ns l) = true) ∧ (∀ nm params, permitted cr (DeleteLease ns nm params) = true).
Proof. intros -> [-> | ->]; split_and!; done. Qed.

(** A verb on every object of a management resource. *)
Definition resource_granted (cr : ClusterRole) (verb : string) (k : ManagementResource) : bool :=
  any (grants (api_resource k).1.1.1 (mr_plural k) verb) (cr_rules cr).

Lemma granted_access cr verb k ns :
  resource_granted cr verb k = true →
  is_some_and (granted cr) (access (api_resource k).1.1.1 (mr_plural k) verb ns) = true.
Proof. unfold resource_granted, granted, access. cbn [is_some_and ac_group ac_resource ac_verb]. by intros ->. Qed.

Lemma permitted_roots k : k ∈ roots →
  (∀ ns nm, permitted controller_role (GetDynamic k ns nm) = true) ∧
  (∀ ns nm params, permitted controller_role (DeleteDynamic k ns nm params) = true).
Proof.
  assert (all (λ k, resource_granted controller_role "get" k && resource_granted controller_role "delete" k) roots
          = true) as H by (vm_compute; reflexivity).
  intros Hk. rewrite all_true in H. apply H in Hk. bool_hyp. split; intros; by apply granted_access.
Qed.

Lemma permitted_descendants k : k ∈ descendant_kinds →
  ∀ ns, permitted controller_role (ListDynamic k ns) = true.
Proof.
  assert (all (resource_granted controller_role "list") descendant_kinds = true) as H by (vm_compute; reflexivity).
  intros Hk ns. rewrite all_true in H. by apply granted_access, H.
Qed.

Section FinalizeRequests.
Context `{SO : Sha256Ops, NO : Ipv4NetOps, SP : SpecJson}.
Context (supported_version : string) (runtime : RuntimeFoundation).

Notation P := (λ o, permitted controller_role o = true).

(** Requests whose permission does not depend on a table. *)
Definition finalize_op (o : Op) : bool :=
  catalog_op o || match o with
  | GetSecret _ _ | ListContainers | InspectVolume _ | RemoveVolume _ => true
  | ListLeases ns => ns == allocation_namespace
  | _ => false
  end.

Lemma permitted_finalize o : finalize_op o = true → permitted controller_role o = true.
Proof.
  unfold finalize_op. intros [H|H]%orb_true_iff; [exact (proj1 (permitted_catalog o H))|].
  destruct o; try done. by apply bool_decide_eq_true in H as ->.
Qed.

#[local] Hint Extern 1 (permitted controller_role _ = true) => (apply permitted_finalize; reflexivity) : permits.

Lemma permitted_reads o : finalize_read o = true → permitted controller_role o = true.
Proof.
  destruct o; try done; intros H%bool_decide_eq_true; [by subst|by apply permitted_roots|by apply permitted_descendants].
Qed.

Lemma permitted_observe tenant td : within P (observe tenant td).
Proof. apply within_observe, permitted_reads. Qed.

Lemma within_delete_root k ns observed : k ∈ roots → within P (delete_root k ns observed).
Proof. intros Hk. unfold delete_root. walk. exact (proj2 (permitted_roots k Hk) _ _ _). Qed.

Lemma within_record_status tenant current status clear : within P (record_status tenant current status clear).
Proof. unfold record_status, replace_status, patch_status. walk. Qed.
#[local] Hint Resolve permitted_observe within_record_status : permits.

Lemma within_release_and_finish tenant current td status old :
  cx_namespace (td_claims td) = FOUNDATION_NAMESPACE →
  within P (release_and_finish tenant current td status old).
Proof.
  intros Hns. unfold release_and_finish, set_finalizer. walk.
  destruct (permitted_leases controller_role FOUNDATION_NAMESPACE) as (? & ? & ? & ?); [done|by left|].
  by apply (within_release _ FOUNDATION_NAMESPACE).
Qed.

Lemma within_delete_residue tenant current td ob status old :
  cx_namespace (td_claims td) = FOUNDATION_NAMESPACE →
  within P (delete_residue tenant current td ob status old).
Proof.
  intros Hns. unfold delete_residue. destruct (find_first _ _) as [[index [root|]]|].
  { destruct (roots !! index) as [k|] eqn:Hk; [|apply within_ret].
    apply within_delete_root. by eapply list_elem_of_lookup_2. }
  all: walk; by apply within_release_and_finish.
Qed.

Lemma within_teardown tenant td ob :
  cx_namespace (td_claims td) = FOUNDATION_NAMESPACE → within P (teardown runtime tenant td ob).
Proof.
  intros Hns. pose proof (within_delete_residue tenant) as Hres. unfold teardown.
  destruct (roots !! cluster_index) as [k|] eqn:Hk; walk; try (by apply Hres).
  all: apply within_delete_root; by eapply list_elem_of_lookup_2.
Qed.

Lemma within_finalize tenant : within P (reconcile supported_version runtime tenant).
Proof.
  unfold reconcile. apply within_pure. intros td Htd. walk. apply within_teardown.
  unfold prepare in Htd. repeat case_match; by simplify_eq/=.
Qed.
End FinalizeRequests.

(** ** Activation *)
Section ActivationRequests.
Context `{AC : ActivationCodec}.

Notation P := (λ o, permitted controller_role o = true).

Lemma permitted_inventory k : k ∈ MANAGEMENT_RESOURCES → P (RawInventory (inventory_path k)).
Proof.
  assert (all (λ k, permitted controller_role (RawInventory (inventory_path k))) MANAGEMENT_RESOURCES = true) as H
    by (vm_compute; reflexivity).
  rewrite all_true in H. exact (H k).
Qed.

Definition activation_op (o : Op) : bool :=
  match o with
  | ListTenants | GetConfigMap _ _ | ReplaceConfigMap _ _ _ | CreateConfigMap _ _ | DeleteConfigMap _ _ _
  | ListContainers | ListVolumes => true
  | _ => false
  end.

Lemma permitted_activation o : activation_op o = true → permitted controller_role o = true.
Proof. by destruct o. Qed.

#[local] Hint Extern 1 (permitted controller_role _ = true) => (apply permitted_activation; reflexivity) : permits.

Lemma within_require_resources resources :
  (∀ k, k ∈ resources → k ∈ MANAGEMENT_RESOURCES) → within P (require_resources resources).
Proof.
  induction resources as [|k resources IH]; intros Hk; cbn [require_resources]; [apply within_ret|].
  assert (within P (require_resources resources)) by (apply IH; intros; apply Hk, elem_of_cons; by right).
  unfold inventory. walk. apply permitted_inventory, Hk, elem_of_cons. by left.
Qed.

Lemma within_admit now hash token valid : within P (admit_activation now hash token valid).
Proof.
  unfold admit_activation, require_clean_inventory, record_configuration. walk. by apply within_require_resources.
Qed.
End ActivationRequests.

(** ** Creation of local Tenants *)
Section CreationRequests.
Notation P := (λ o, permitted controller_role o = true).

(** A verb that the role grants on objects of the types. *)
Definition types_granted (verb : string) (t : TypeMeta) : bool :=
  is_some_and (is_some_and (granted controller_role))
    (object_access {| oa_side := ManagementSide; oa_types := t; oa_namespace := None |} "" verb).

Lemma granted_types verb types api :
  all (types_granted verb) types = true → reaches types api = true →
  match object_access api "" verb with None => true | Some a => is_some_and (granted controller_role) a end = true.
Proof.
  intros Hall. unfold reaches. destruct api as [side t ns]. cbn [oa_side oa_types]. destruct side; [|done].
  rewrite bool_decide_eq_false_2 by done. intros Hin%bool_decide_eq_true. rewrite all_true in Hall. apply Hall in Hin.
  unfold types_granted, object_access in *. cbn [oa_side oa_types oa_namespace is_some_and] in *.
  destruct (find_first _ _) as [r|]; [|done]. cbn [and_then access is_some_and] in *. unfold granted in *. cbn [ac_group ac_resource ac_verb ac_namespace] in *.
  rewrite orb_true_iff, andb_true_iff in Hin. destruct Hin as [->|[Hin _]]; [done|]. by apply bool_decide_eq_true in Hin.
Qed.

Lemma permitted_creation o : creation_op o = true → permitted controller_role o = true.
Proof.
  assert (all (types_granted "get") catalogued_types && all (types_granted "list") catalogued_types
    && all (types_granted "create") (NAMESPACE :: root_types) && all (types_granted "patch") root_types = true) as H
    by (vm_compute; reflexivity).
  rewrite !andb_true_iff in H. destruct H as [[[H1 H2] H3] H4].
  destruct o; try done; unfold creation_op, permitted; cbn [access_of]; intros Ho;
    first [by eapply granted_types|apply bool_decide_eq_true in Ho; subst; vm_compute; reflexivity].
Qed.

Context `{SO : Sha256Ops, SP : SpecJson, NO : Ipv4NetOps, IP : IpNetOps, MC : ManifestCodec, CC : ClientCodec}.
Context `{SJ : Sanitize.SerdeJson}.
Context (provider : LocalProvider) (clocks : nat → nat → Time) (now : nat → string → Time).

Lemma created {A} (p : prog Resp A) : within (λ o, creation_op o = true) p → within P p.
Proof. apply within_mono, permitted_creation. Qed.
Lemma catalogs o : catalog_op o = true → permitted controller_role o = true.
Proof. by intros [? _]%permitted_catalog. Qed.

Lemma within_publishing tenant mutate : within P (runtime (update_status tenant mutate)).
Proof. apply within_perform_map, within_update_status, catalogs. Qed.
Lemma within_progress tenant interval : within P (Reconcile.progress now tenant interval).
Proof. unfold Reconcile.progress. walk. apply within_publishing. Qed.
#[local] Hint Resolve within_publishing within_progress : permits.

Lemma within_publish_services cx cl observation ready valid capability :
  within P (publish_services now cx cl observation ready valid capability).
Proof. unfold publish_services, capability_reason. walk. apply within_ensure_credentials, catalogs. Qed.
#[local] Hint Resolve within_publish_services : permits.

Lemma within_hosted cx foundation cl control_plane inventory :
  within P (reconcile_hosted provider clocks now cx foundation cl control_plane inventory).
Proof.
  unfold reconcile_hosted, reconcile_workers, observe_tenant, services.
  apply within_bind; [apply created, within_connect|]. intros [s|]; [|apply within_ret].
  apply within_bind; [apply created, within_perform_map, within_bootstrap_rbac|]. intros [u|]; [|apply within_ret].
  apply within_bind; [apply created, within_ensure_volume|]. intros [v|]; [|apply within_ret].
  apply within_pure. intros commands _. apply within_bind; [apply created, within_ensure_machines|].
  { repeat constructor; apply root_object; do 3 right; [left|right; left|right; right; left]. }
  intros machines. walk; first [apply created, within_ensure_batch|apply created, within_observe_workers|apply created, within_ensure_static
    |apply within_ensure_database_catalog, catalogs].
Qed.

Lemma within_local_reconcile tenant spec : within P (local_reconcile provider clocks now tenant spec).
Proof.
  unfold local_reconcile, reconcile_roots, reconcile_control_plane, bind_tenant, build.
  destruct (_ != _); [apply within_ret|]. apply within_pure. intros foundation _.
  apply within_bind; [apply created, within_perform_map, within_set_finalizer|]. intros [[]|]; [apply within_ret| |apply within_ret].
  destruct (is_none_or _ _); [walk|]. apply within_bind.
  { apply within_perform_map. destruct (permitted_leases controller_role allocation_namespace) as (? & ? & ? & ?); [done|by left|].
    by apply (within_allocate _ allocation_namespace). }
  intros [claim|]; [|apply within_ret]. destruct (is_none _); [walk|]. set (cx := resource_context _ _ _ _ _).
  cbn [to_dynamic namespace_dynamic dynamic map_err].
  apply within_bind; [apply created, within_ensure_root_namespace; by eexists; split; [|left]|]. intros [ns|]; [|apply within_ret].
  destruct (en_created ns); [apply within_progress|]. destruct (cluster cx) as [d1|] eqn:H1; [|apply within_ret]. cbn [map_err].
  apply within_bind; [by apply created, within_ensure_management; eapply cluster_types|]. intros [[c inv]|]; [|apply within_ret].
  destruct (en_created c); [apply within_progress|]. destruct (negb _); [walk|].
  destruct (dev_cluster cx) as [d2|] eqn:H2; [|apply within_ret]. cbn [map_err].
  apply within_bind; [by apply created, within_ensure_management; eapply dev_cluster_types|]. intros [[i inv2]|]; [|apply within_ret].
  destruct (en_created i); [apply within_progress|]. destruct (kamaji_control_plane cx) as [d3|] eqn:H3; [|apply within_ret].
  cbn [map_err].
  apply within_bind; [by apply created, within_ensure_management; eapply kamaji_types|]. intros [[k inv3]|]; [|apply within_ret].
  walk. apply within_hosted.
Qed.
End CreationRequests.

(** ** Sufficiency *)

(** Every request of a run is one of [P], whatever the replies. *)
Definition sends_only (P : Op → Prop) {A} (p : prog Resp A) : Prop :=
  ∀ env, let '(h, _) := run env p [] in ∀ e, e ∈ h → P (projT1 e).

Lemma within_sends P {A} (p : prog Resp A) : within P p → sends_only P p.
Proof.
  intros Hp env. pose proof (wp_run env p [] _ _ (Hp [])) as H. destruct (run env p []) as [h a].
  destruct H as [_ Hi]. intros e (h1 & h2 & ->)%list_elem_of_split.
  apply (Hi h1 e h2); [done|simpl; lia].
Qed.

(** C36. The generated roles grant every request.  Whatever the server and
    Docker answer, the creation and the finalization of a local Tenant and the
    activation of a configuration send only requests that the local ClusterRole grants, or for
    Leases of the foundation namespace the allocation Role; the Lease protocol
    and the catalog protocol send only requests granted under either
    ClusterRole, except that only the Azure one grants the list of disks of a
    drain.  The Role that is created for a Tenant's credentials grants nothing
    the controller lacks. *)
Theorem requests_granted `{SO : Sha256Ops, NO : Ipv4NetOps, SP : SpecJson, SJ : Sanitize.SerdeJson,
    AC : ActivationCodec, IP : IpNetOps, MC : ManifestCodec, CC : ClientCodec} :
  (∀ provider clocks now tenant spec,
     sends_only (λ o, permitted controller_role o = true) (local_reconcile provider clocks now tenant spec)) ∧
  (∀ version runtime tenant,
     sends_only (λ o, permitted controller_role o = true) (reconcile version runtime tenant)) ∧
  (∀ now hash token valid,
     sends_only (λ o, permitted controller_role o = true) (admit_activation now hash token valid)) ∧
  (∀ cr, cr = controller_role ∨ cr = azure_controller_role →
     (∀ cx bound residue_absent, cx_namespace cx = allocation_namespace →
        sends_only (λ o, permitted cr o = true) (allocate cx bound) ∧
        sends_only (λ o, permitted cr o = true) (release cx bound residue_absent)) ∧
     (∀ clocks tenant azure,
        sends_only (λ o, permitted cr o = true) (ensure_database_catalog clocks tenant azure)) ∧
     (∀ nm u, sends_only (λ o, permitted cr o = true) (ensure_credentials nm u)) ∧
     (∀ clocks tenant, sends_only (λ o, permitted cr o = true ∨ (cr = controller_role ∧ is_disk_list o = true))
        (drain_databases clocks tenant)) ∧
     (∀ nm u, all (no_escalation cr) (unwrap_or [] (role_rules (desired_role nm u))) = true)).
Proof.
  split_and!; [intros; apply within_sends, within_local_reconcile|intros; apply within_sends, within_finalize
    |intros; apply within_sends, within_admit|].
  intros cr Hcr.
  assert (HP : ∀ o, catalog_op o = true → permitted cr o = true)
    by (intros o [Hl Ha]%permitted_catalog; by destruct Hcr as [->| ->]).
  split_and!.
  - intros cx bound residue Hns.
    destruct (permitted_leases cr allocation_namespace) as (? & ? & ? & ?); [done..|].
    split; apply within_sends; [by apply (within_allocate _ allocation_namespace)|].
    by apply (within_release _ allocation_namespace).
  - intros. by apply within_sends, within_ensure_database_catalog.
  - intros. by apply within_sends, within_ensure_credentials.
  - intros. apply within_sends, within_drain_databases; [by auto|].
    intros ns. destruct Hcr as [->| ->]; [by right|left; reflexivity].
  - intros. destruct Hcr as [->| ->]; reflexivity.
Qed.
