(* ===== verification/DatabaseApi.v ===== *)
(** * The database catalog of a Tenant

    [database-controller/src/api.rs]: the catalog object with the databases a
    Tenant has, the validation of its specification and of its transitions, and
    the rules of the generated CRD, which the API server enforces.  The
    theorem shows that the two agree: whoever checks a write with
    [validate_transition], and keeps the name of the object, never has it
    refused by the server's rules, and the server admits nothing the function
    would reject. *)

From stdpp Require Import sorting.
From S2P Require Import Prelude RustStd Kube Api.

Definition FINALIZER := "tenancy.cnpg-vcluster.io/database-catalog-finalizer".
Definition DATABASE_LIMIT : nat := 3.

(** ** Data *)
Record CatalogEntry := { en_name : string; en_instances : Z; en_deleting : bool }.

Record TenantDatabaseCatalogSpec := {
  tds_tenant_name : string;
  tds_tenant_uid : string;
  tds_closed : bool;
  tds_entries : gmap string CatalogEntry;
}.

Record ResourceIdentity := { ri_name : string; ri_uid : string }.
Record ProviderIdentity := { pi_kind : string; pi_storage_namespace : option ResourceIdentity }.
Record StorageIdentity := {
  si_ordinal : Z;
  si_requested_bytes : Z;
  si_path : option string;
  si_pv : option ResourceIdentity;
  si_pvc : option ResourceIdentity;
  si_disk : option ResourceIdentity;
  si_arm_id : option string;
  si_healthy : bool;
}.
Record InstanceObservation := { io_name : string; io_uid : string; io_role : string; io_ready : bool }.
Record QueryIdentity := { qi_cluster_uid : string; qi_credential_uid : string }.
Record FinalizationStatus := {
  fs_terminal_verified : bool;
  fs_verified_absent : list string;
  fs_pending : list string;
}.

Inductive CreateState := Planned | Issued | Rejected | Observed.
Inductive DatabasePhase :=
| DbPending | DbProgressing | DbReady | DbDeleting | DbDegraded | DbOwnershipInvalid.

Record CreateIntent := { ic_kind : string; ic_name : string; ic_ordinal : Z; ic_state : CreateState }.

Record EntryStatus := {
  es_logical_uid : string;
  es_observed_generation : Z;
  es_phase : DatabasePhase;
  es_conditions : list Condition;
  es_provider : option ProviderIdentity;
  es_namespace : option ResourceIdentity;
  es_cnpg_cluster : option ResourceIdentity;
  es_credentials : option ResourceIdentity;
  es_storage : list StorageIdentity;
  es_instances : list InstanceObservation;
  es_query : option QueryIdentity;
  es_finalization : option FinalizationStatus;
  es_create_intents : list CreateIntent;
}.

Record CatalogObservation := {
  ob_catalog_uid : string;
  ob_observed_generation : Z;
  ob_observed_resource_version : string;
  ob_pod_uid : string;
  ob_instance_id : string;
}.

Record CatalogStatus := {
  cs_entries : gmap string EntryStatus;
  cs_observer : option CatalogObservation;
}.

Definition default_catalog_status : CatalogStatus := {| cs_entries := ∅; cs_observer := None |}.

Record TenantDatabaseCatalog := {
  tdc_meta : ObjectMeta;
  tdc_spec : TenantDatabaseCatalogSpec;
  tdc_status : option CatalogStatus;
}.

#[export] Instance CatalogEntry_eq_dec : EqDecision CatalogEntry.
Proof. solve_decision. Defined.
#[export] Instance TenantDatabaseCatalogSpec_eq_dec : EqDecision TenantDatabaseCatalogSpec.
Proof. solve_decision. Defined.
#[export] Instance ResourceIdentity_eq_dec : EqDecision ResourceIdentity.
Proof. solve_decision. Defined.
#[export] Instance ProviderIdentity_eq_dec : EqDecision ProviderIdentity.
Proof. solve_decision. Defined.
#[export] Instance StorageIdentity_eq_dec : EqDecision StorageIdentity.
Proof. solve_decision. Defined.
#[export] Instance InstanceObservation_eq_dec : EqDecision InstanceObservation.
Proof. solve_decision. Defined.
#[export] Instance QueryIdentity_eq_dec : EqDecision QueryIdentity.
Proof. solve_decision. Defined.
#[export] Instance FinalizationStatus_eq_dec : EqDecision FinalizationStatus.
Proof. solve_decision. Defined.
#[export] Instance CreateState_eq_dec : EqDecision CreateState.
Proof. solve_decision. Defined.
#[export] Instance DatabasePhase_eq_dec : EqDecision DatabasePhase.
Proof. solve_decision. Defined.
#[export] Instance CreateIntent_eq_dec : EqDecision CreateIntent.
Proof. solve_decision. Defined.
#[export] Instance EntryStatus_eq_dec : EqDecision EntryStatus.
Proof. solve_decision. Defined.
#[export] Instance CatalogObservation_eq_dec : EqDecision CatalogObservation.
Proof. solve_decision. Defined.
#[export] Instance CatalogStatus_eq_dec : EqDecision CatalogStatus.
Proof. solve_decision. Defined.

Inductive CatalogError :=
| BadTenantName | BadTenantUid | Capacity | BadLogicalUid | BadName | BadInstances
| IdentityOrClosure | EntryMutation | Removal | CatalogConflict.

(** ** Validation *)
Definition valid_name (value : string) : bool :=
  ((1 <=? len value) && (len value <=? 30))
  && is_some_and (λ c, is_ascii_lowercase c || is_ascii_digit c) (first_byte value)
  && is_some_and (λ c, is_ascii_lowercase c || is_ascii_digit c) (last_byte value)
  && all (λ c, is_ascii_lowercase c || is_ascii_digit c || Ascii.eqb c "-"%char) (bytes value).

Definition lower_hex (c : ascii) : bool := is_ascii_digit c || ((97 <=? code c) && (code c <=? 102)).

Definition valid_logical_uid (value : string) : bool :=
  (len value =? 36)
  && all (λ '(index, c), if bool_decide (index ∈ [8; 13; 18; 23]%nat) then Ascii.eqb c "-"%char else lower_hex c)
       (zip (seq 0 (length (bytes value))) (bytes value)).

Definition check_entry (names : gset string) (item : string * CatalogEntry)
    : result CatalogError (gset string) :=
  let '(uid, entry) := item in
  if negb (valid_logical_uid uid) then Err BadLogicalUid else
  if negb (valid_name (en_name entry)) || bool_decide (en_name entry ∈ names) then Err BadName else
  if negb ((1 <=? en_instances entry) && (en_instances entry <=? 3)) then Err BadInstances else
  Ok ({[en_name entry]} ∪ names).

Definition validate_spec (spec : TenantDatabaseCatalogSpec) : result CatalogError unit :=
  if negb (valid_name (tds_tenant_name spec)) then Err BadTenantName else
  if is_empty (tds_tenant_uid spec) then Err BadTenantUid else
  if bool_decide (DATABASE_LIMIT < size (tds_entries spec))%nat then Err Capacity else
  let! _ := try_fold check_entry ∅ (ordered (tds_entries spec)) in Ok tt.

(** The controller proved that nothing of an entry is left. *)
Definition terminal_proof (uid : string) (status : EntryStatus) : bool :=
  (es_logical_uid status == uid)
  && is_some_and (λ state, fs_terminal_verified state && match fs_pending state with [] => true | _ => false end)
       (es_finalization status).

Definition check_kept (old new : TenantDatabaseCatalog) (item : string * CatalogEntry)
    : result CatalogError unit :=
  let '(uid, entry) := item in
  match tds_entries (tdc_spec new) !! uid with
  | Some next =>
      if (en_name entry != en_name next) || (en_instances entry != en_instances next)
         || (en_deleting entry && negb (en_deleting next))
      then Err EntryMutation else Ok tt
  | None =>
      if negb (en_deleting entry)
         || negb (is_some_and (terminal_proof uid) (and_then (λ s, cs_entries s !! uid) (tdc_status old)))
      then Err Removal else Ok tt
  end.

Definition validate_transition (old new : TenantDatabaseCatalog) : result CatalogError unit :=
  let! _ := validate_spec (tdc_spec new) in
  if (tds_tenant_name (tdc_spec old) != tds_tenant_name (tdc_spec new))
     || (tds_tenant_uid (tdc_spec old) != tds_tenant_uid (tdc_spec new))
     || (tds_closed (tdc_spec old) && negb (tds_closed (tdc_spec new)))
  then Err IdentityOrClosure else
  let! _ := try_for (check_kept old new) (ordered (tds_entries (tdc_spec old))) in
  if tds_closed (tdc_spec new)
     && (any (λ item, negb (en_deleting item.2)) (ordered (tds_entries (tdc_spec new)))
         || any (λ item, is_none (tds_entries (tdc_spec old) !! item.1)) (ordered (tds_entries (tdc_spec new))))
  then Err IdentityOrClosure else Ok tt.

Definition validate_conditional_update (current next : TenantDatabaseCatalog)
    (observed_uid observed_resource_version : string) : result CatalogError unit :=
  if is_empty observed_uid || is_empty observed_resource_version
     || (uid (tdc_meta current) != Some observed_uid)
     || (uid (tdc_meta next) != Some observed_uid)
     || (resource_version (tdc_meta current) != Some observed_resource_version)
     || (resource_version (tdc_meta next) != Some observed_resource_version)
     || (name (tdc_meta current) != name (tdc_meta next))
     || (namespace (tdc_meta current) != namespace (tdc_meta next))
  then Err CatalogConflict else validate_transition current next.

(** ** The rules of the generated CRD

    [catalog_crd] bounds the entries and attaches these CEL rules; the patterns
    are [^[a-z0-9]([-a-z0-9]{0,28}[a-z0-9])?$] for names and
    [^[a-f0-9]{8}-[a-f0-9]{4}-[a-f0-9]{4}-[a-f0-9]{4}-[a-f0-9]{12}$] for logical
    UIDs. *)
Definition hex_group (n : nat) (l : list ascii) : Prop := length l = n ∧ all lower_hex l = true.

Definition crd_uid_rule (uid : string) : Prop :=
  ∃ a b c d e, bytes uid = a ++ "-"%char :: b ++ "-"%char :: c ++ "-"%char :: d ++ "-"%char :: e ∧
    hex_group 8 a ∧ hex_group 4 b ∧ hex_group 4 c ∧ hex_group 4 d ∧ hex_group 12 e.

Definition crd_entry_rule (uid : string) (entry : CatalogEntry) : Prop :=
  crd_uid_rule uid ∧ crd_name_rule (en_name entry) ∧ 1 ≤ en_instances entry ∧ en_instances entry ≤ 3.

Definition crd_unique_names (entries : gmap string CatalogEntry) : Prop :=
  ∀ uid uid' e e', entries !! uid = Some e → entries !! uid' = Some e' → en_name e = en_name e' → uid = uid'.

(** [self.metadata.name == self.spec.tenantName] *)
Definition crd_object_name (catalog : TenantDatabaseCatalog) : Prop :=
  name (tdc_meta catalog) = Some (tds_tenant_name (tdc_spec catalog)).

Record crd_spec_rules (spec : TenantDatabaseCatalogSpec) : Prop := {
  crd_tenant_name : crd_name_rule (tds_tenant_name spec);
  crd_tenant_uid : tds_tenant_uid spec ≠ "";
  crd_max_entries : (size (tds_entries spec) ≤ 3)%nat;
  crd_entries : map_Forall crd_entry_rule (tds_entries spec);
  crd_names : crd_unique_names (tds_entries spec);
}.

(** The rule on the status, and on the removal of an entry: the terminal proof
    of the old status. *)
Definition crd_status_rule (status : option CatalogStatus) : Prop :=
  ∀ s, status = Some s → map_Forall (λ uid e, es_logical_uid e = uid ∧
    ∀ f, es_finalization e = Some f → fs_terminal_verified f = true → fs_pending f = []) (cs_entries s).

Definition crd_removal_proof (uid : string) (status : option CatalogStatus) : Prop :=
  ∃ s e f, status = Some s ∧ cs_entries s !! uid = Some e ∧ es_logical_uid e = uid ∧
    es_finalization e = Some f ∧ fs_terminal_verified f = true.

Record crd_transition_rules (old new : TenantDatabaseCatalog) : Prop := {
  crd_identity : tds_tenant_name (tdc_spec new) = tds_tenant_name (tdc_spec old) ∧
    tds_tenant_uid (tdc_spec new) = tds_tenant_uid (tdc_spec old);
  crd_closed : tds_closed (tdc_spec old) = true → tds_closed (tdc_spec new) = true;
  crd_closing : tds_closed (tdc_spec new) = true →
    map_Forall (λ uid e, en_deleting e = true ∧ is_Some (tds_entries (tdc_spec old) !! uid))
      (tds_entries (tdc_spec new));
  crd_immutable : ∀ uid e e', tds_entries (tdc_spec old) !! uid = Some e →
    tds_entries (tdc_spec new) !! uid = Some e' →
    en_name e' = en_name e ∧ en_instances e' = en_instances e ∧ (en_deleting e = true → en_deleting e' = true);
  crd_removal : ∀ uid e, tds_entries (tdc_spec old) !! uid = Some e →
    tds_entries (tdc_spec new) !! uid = None → en_deleting e = true ∧ crd_removal_proof uid (tdc_status old);
}.

(** The server admits an update of the specification. *)
Definition crd_admits (old new : TenantDatabaseCatalog) : Prop :=
  crd_object_name new ∧ crd_spec_rules (tdc_spec new) ∧ crd_transition_rules old new.

(** ** Agreement *)
Lemma valid_name_crd value : valid_name value = true ↔ crd_name_rule value.
Proof. exact (name_ok_crd value). Qed.

(** The check of a logical UID on the bytes from an index on. *)
Definition uid_bytes (start : nat) (l : list ascii) : bool :=
  all (λ '(index, c), if bool_decide (index ∈ [8; 13; 18; 23]%nat) then Ascii.eqb c "-"%char else lower_hex c)
    (zip (seq start (length l)) l).

Lemma uid_bytes_app start l1 l2 :
  uid_bytes start (l1 ++ l2) = uid_bytes start l1 && uid_bytes (start + length l1) l2.
Proof.
  revert start. induction l1 as [|c l1 IH]; intros start; cbn; [by rewrite Nat.add_0_r|].
  fold (uid_bytes (S start) (l1 ++ l2)) (uid_bytes (S start) l1).
  rewrite IH, andb_assoc. do 2 f_equal. lia.
Qed.

Lemma uid_bytes_group start l :
  (∀ i, (start ≤ i < start + length l)%nat → i ∉ [8; 13; 18; 23]%nat) → uid_bytes start l = all lower_hex l.
Proof.
  revert start. induction l as [|c l IH]; intros start H; cbn; [done|].
  rewrite bool_decide_eq_false_2 by (apply H; simpl; lia). fold (uid_bytes (S start) l).
  f_equal. apply IH. intros i Hi. apply H. simpl. lia.
Qed.

Lemma uid_bytes_separator start c l :
  start ∈ [8; 13; 18; 23]%nat → uid_bytes start (c :: l) = Ascii.eqb c "-"%char && uid_bytes (S start) l.
Proof. intros H. cbn. by rewrite bool_decide_eq_true_2. Qed.

Lemma cut_list {A} n m (l : list A) :
  length l = (n + S m)%nat → ∃ a x r, l = a ++ x :: r ∧ length a = n ∧ length r = m.
Proof.
  intros Hl. destruct (drop n l) as [|x r] eqn:Hd.
  { apply (f_equal length) in Hd. rewrite length_drop in Hd. simpl in Hd. lia. }
  exists (take n l), x, r. rewrite <-Hd, take_drop. split_and!; [done|rewrite length_take; lia|].
  apply (f_equal length) in Hd. rewrite length_drop in Hd. simpl in Hd. lia.
Qed.

(** One group of hexadecimal digits and the separator after it. *)
Lemma uid_bytes_cut start n a c r :
  length a = n → (∀ i, (start ≤ i < start + n)%nat → i ∉ [8; 13; 18; 23]%nat) →
  (start + n)%nat ∈ [8; 13; 18; 23]%nat →
  uid_bytes start (a ++ c :: r) = true ↔
  hex_group n a ∧ c = "-"%char ∧ uid_bytes (S (start + n)) r = true.
Proof.
  intros Ha Hg Hs. rewrite uid_bytes_app, uid_bytes_group, Ha, uid_bytes_separator by (by rewrite ?Ha).
  unfold hex_group. rewrite !andb_true_iff, Ascii.eqb_eq. naive_solver.
Qed.

Lemma uid_bytes_crd l :
  (length l = 36)%nat ∧ uid_bytes 0 l = true ↔
  ∃ a b c d e, l = a ++ "-"%char :: b ++ "-"%char :: c ++ "-"%char :: d ++ "-"%char :: e ∧
    hex_group 8 a ∧ hex_group 4 b ∧ hex_group 4 c ∧ hex_group 4 d ∧ hex_group 12 e.
Proof.
  assert (Hin : ∀ i, i ∈ [8; 13; 18; 23]%nat ↔ i = 8%nat ∨ i = 13%nat ∨ i = 18%nat ∨ i = 23%nat) by set_solver.
  assert (Hcut : ∀ a x1 b x2 c x3 d x4 e, length a = 8%nat → length b = 4%nat → length c = 4%nat →
    length d = 4%nat → length e = 12%nat →
    uid_bytes 0 (a ++ x1 :: b ++ x2 :: c ++ x3 :: d ++ x4 :: e) = true ↔
    (hex_group 8 a ∧ x1 = "-"%char ∧ hex_group 4 b ∧ x2 = "-"%char ∧ hex_group 4 c ∧ x3 = "-"%char ∧
     hex_group 4 d ∧ x4 = "-"%char ∧ hex_group 12 e)).
  { intros a x1 b x2 c x3 d x4 e Ha Hb Hc Hd He.
    rewrite (uid_bytes_cut 0 8) by (intros; rewrite ?Hin; lia).
    rewrite (uid_bytes_cut 9 4) by (intros; rewrite ?Hin; lia).
    rewrite (uid_bytes_cut 14 4) by (intros; rewrite ?Hin; lia).
    rewrite (uid_bytes_cut 19 4) by (intros; rewrite ?Hin; lia).
    rewrite (uid_bytes_group (S (19 + 4))) by (intros i Hi; rewrite Hin; lia).
    unfold hex_group. naive_solver. }
  split.
  - intros [Hlen Hok].
    destruct (cut_list 8 27 l Hlen) as (a & x1 & r1 & -> & Ha & H1).
    destruct (cut_list 4 22 r1 H1) as (b & x2 & r2 & -> & Hb & H2).
    destruct (cut_list 4 17 r2 H2) as (c & x3 & r3 & -> & Hc & H3).
    destruct (cut_list 4 12 r3 H3) as (d & x4 & e & -> & Hd & He).
    apply Hcut in Hok; [|done..]. destruct Hok as (Ga & -> & Gb & -> & Gc & -> & Gd & -> & Ge).
    exists a, b, c, d, e. by split_and!.
  - intros (a & b & c & d & e & -> & Ha & Hb & Hc & Hd & He). split.
    + rewrite !length_app. cbn. rewrite !length_app. cbn. rewrite !length_app. cbn. rewrite !length_app. cbn.
      destruct Ha, Hb, Hc, Hd, He. lia.
    + apply Hcut; [apply Ha|apply Hb|apply Hc|apply Hd|apply He|by split_and!].
Qed.

Lemma valid_logical_uid_crd value : valid_logical_uid value = true ↔ crd_uid_rule value.
Proof.
  unfold valid_logical_uid, crd_uid_rule. rewrite len_bytes, andb_true_iff, <-uid_bytes_crd, Z.eqb_eq.
  unfold uid_bytes. split; intros [H1 H2]; (split; [lia|done]).
Qed.

(** Acceptance of the entries in order. *)
Definition entry_ok (item : string * CatalogEntry) : bool :=
  valid_logical_uid item.1 && valid_name (en_name item.2)
  && ((1 <=? en_instances item.2) && (en_instances item.2 <=? 3)).

Lemma check_entry_Ok names item names' :
  check_entry names item = Ok names' ↔
  entry_ok item = true ∧ en_name item.2 ∉ names ∧ names' = {[en_name item.2]} ∪ names.
Proof.
  destruct item as [u e]. unfold check_entry, entry_ok. cbn [fst snd].
  destruct (valid_logical_uid u), (valid_name (en_name e)); cbn; try naive_solver.
  case_bool_decide; [naive_solver|]. destruct (_ && _); cbn; naive_solver.
Qed.

Lemma check_entries_Ok l names :
  is_ok (try_fold check_entry names l) = true ↔
  Forall (λ item, entry_ok item = true) l ∧ NoDup (map (λ item, en_name item.2) l) ∧
  ∀ item, item ∈ l → en_name item.2 ∉ names.
Proof.
  revert names. induction l as [|item l IH]; intros names; cbn [try_fold map].
  { split; [|done]. intros _. split_and!; [constructor|constructor|set_solver]. }
  rewrite list.Forall_cons, list.NoDup_cons.
  destruct (check_entry names item) as [names'|e] eqn:Hc.
  - apply check_entry_Ok in Hc as (Hok & Hnew & ->). rewrite IH.
    setoid_rewrite not_elem_of_union. setoid_rewrite not_elem_of_singleton.
    setoid_rewrite elem_of_cons. rewrite list_elem_of_fmap. split.
    + intros (HF & HN & Hd). split_and!; [done..| |done|].
      * intros (x & Hx & Hin). destruct (Hd x Hin) as [Hne _]. by apply Hne.
      * intros x [->|Hx]; [done|]. exact (proj2 (Hd x Hx)).
    + intros ([_ HF] & [Hn HN] & Hd). split_and!; [done..|]. intros x Hx. split; [|by apply Hd; right].
      intros E. apply Hn. by exists x.
  - split; [done|]. intros ([Hok _] & _ & Hd).
    assert (check_entry names item = Ok ({[en_name item.2]} ∪ names)) as E; [|congruence].
    apply check_entry_Ok. split_and!; [done|apply Hd, elem_of_cons; by left|done].
Qed.

Lemma entry_ok_crd u e : entry_ok (u, e) = true ↔ crd_entry_rule u e.
Proof.
  unfold entry_ok, crd_entry_rule. cbn [fst snd].
  rewrite <-valid_logical_uid_crd, <-valid_name_crd, !andb_true_iff, !Z.leb_le. naive_solver.
Qed.

(** Distinct names of a list of entries with distinct keys. *)
Lemma unique_names_list (l : list (string * CatalogEntry)) :
  NoDup l.*1 →
  NoDup (map (λ item, en_name item.2) l) ↔
  (∀ x y, x ∈ l → y ∈ l → en_name x.2 = en_name y.2 → x.1 = y.1).
Proof.
  intros Hk. induction l as [|item l IH]; [split; [set_solver|constructor]|].
  cbn [fmap list_fmap map] in *. apply list.NoDup_cons in Hk as [Hi Hk]. specialize (IH Hk).
  rewrite list.NoDup_cons, IH, list_elem_of_fmap. split.
  - intros [Hn H] x y [->|Hx]%elem_of_cons [->|Hy]%elem_of_cons E; [done| | |by apply H].
    + destruct Hn. by exists y.
    + destruct Hn. by exists x.
  - intros H. split; [|intros x y Hx Hy; apply H; apply elem_of_cons; by right].
    intros (y & Hy & Hin). apply Hi. apply list_elem_of_fmap. exists y. split; [|done].
    apply H; [apply elem_of_cons; by left|apply elem_of_cons; by right|done].
Qed.

Lemma ordered_keys {A} (m : gmap string A) : NoDup (ordered m).*1.
Proof. unfold ordered. rewrite merge_sort_Permutation. apply NoDup_fst_map_to_list. Qed.

Lemma validate_spec_crd spec : validate_spec spec = Ok tt ↔ crd_spec_rules spec.
Proof.
  assert (Hfold : is_ok (try_fold check_entry ∅ (ordered (tds_entries spec))) = true ↔
    map_Forall crd_entry_rule (tds_entries spec) ∧ crd_unique_names (tds_entries spec)).
  { rewrite check_entries_Ok, unique_names_list by apply ordered_keys. rewrite list.Forall_forall. split.
    - intros (HF & HN & _). split.
      + intros u e He. apply entry_ok_crd, (HF (u, e)). by apply elem_of_ordered.
      + intros u u' e e' He He' E. apply (HN (u, e) (u', e')); [by apply elem_of_ordered..|done].
    - intros [HF HN]. split_and!; [| |set_solver].
      + intros [u e] He%elem_of_ordered. by apply entry_ok_crd, HF.
      + intros [u e] [u' e'] He%elem_of_ordered He'%elem_of_ordered. by apply HN. }
  unfold validate_spec. split.
  - destruct (valid_name _) eqn:Hn; [|done]. destruct (is_empty _) eqn:Hu; [done|]. cbn [negb].
    case_bool_decide as Hs; [done|]. destruct (try_fold _ _ _) as [s|e] eqn:Hf; [|done]. intros _.
    destruct Hfold as [[HF HN] _]; [done|]. split; [by apply valid_name_crd| |unfold DATABASE_LIMIT in Hs; lia|done..].
    by apply is_empty_false.
  - intros [Hn Hu Hs HF HN]. apply valid_name_crd in Hn as ->. apply is_empty_false in Hu as ->. cbn [negb].
    rewrite bool_decide_eq_false_2 by (unfold DATABASE_LIMIT; lia).
    destruct Hfold as [_ Hf]. specialize (Hf (conj HF HN)). by destruct (try_fold _ _ _).
Qed.

Lemma terminal_proof_crd old uid :
  crd_status_rule (tdc_status old) →
  is_some_and (terminal_proof uid) (and_then (λ s, cs_entries s !! uid) (tdc_status old)) = true ↔
  crd_removal_proof uid (tdc_status old).
Proof.
  intros Hst. rewrite is_some_and_true. unfold terminal_proof, crd_removal_proof. split.
  - intros (e & He & [Hu Hf]%andb_true_iff). destruct (tdc_status old) as [s|]; [|done]. simpl in He.
    apply bool_decide_eq_true in Hu. apply is_some_and_true in Hf as (f & Hf & Ht).
    exists s, e, f. rewrite andb_true_iff in Ht. naive_solver.
  - intros (s & e & f & Es & He & Hu & Hf & Ht). rewrite Es. exists e. split; [done|].
    destruct (Hst s Es uid e He) as [_ Hp]. rewrite Hf. cbn. rewrite Ht, (Hp f Hf Ht).
    by rewrite bool_decide_eq_true_2.
Qed.

Lemma check_kept_Ok old new uid e :
  crd_status_rule (tdc_status old) →
  check_kept old new (uid, e) = Ok tt ↔
  (∀ e', tds_entries (tdc_spec new) !! uid = Some e' →
     en_name e' = en_name e ∧ en_instances e' = en_instances e ∧ (en_deleting e = true → en_deleting e' = true)) ∧
  (tds_entries (tdc_spec new) !! uid = None → en_deleting e = true ∧ crd_removal_proof uid (tdc_status old)).
Proof.
  intros Hst. unfold check_kept. rewrite <-(terminal_proof_crd old uid Hst).
  destruct (tds_entries (tdc_spec new) !! uid) as [e'|].
  - destruct (_ || _ || _) eqn:Hc.
    + split; [done|]. intros [H _]. destruct (H e' eq_refl) as (Hn & Hi & Hd). rewrite Hn, Hi in Hc.
      rewrite !bool_decide_eq_true_2 in Hc by done. destruct (en_deleting e); [by rewrite Hd in Hc|done].
    + rewrite !orb_false_iff in Hc. destruct Hc as [[Hn Hi] Hd]. apply negb_false_iff, bool_decide_eq_true in Hn, Hi.
      split; [|done]. intros _. split; [|done]. intros e'' [= <-]. split_and!; [done..|].
      intros E. rewrite E in Hd. by destruct (en_deleting e').
  - destruct (en_deleting e), (is_some_and _ _); cbn; (split; [|by intros [_ H]; destruct (H eq_refl)]); done.
Qed.

(** The function checks every rule but the one on the object's name. *)
Lemma validate_transition_rules old new :
  crd_status_rule (tdc_status old) →
  validate_transition old new = Ok tt ↔
  crd_spec_rules (tdc_spec new) ∧ crd_transition_rules old new.
Proof.
  intros Hst. unfold validate_transition.
  pose proof (validate_spec_crd (tdc_spec new)) as Hspec.
  destruct (validate_spec (tdc_spec new)) as [[]|e]; [|naive_solver].
  assert (Hclose : any (λ item, negb (en_deleting item.2)) (ordered (tds_entries (tdc_spec new)))
     || any (λ item, is_none (tds_entries (tdc_spec old) !! item.1)) (ordered (tds_entries (tdc_spec new))) = false ↔
     map_Forall (λ uid e, en_deleting e = true ∧ is_Some (tds_entries (tdc_spec old) !! uid))
       (tds_entries (tdc_spec new))).
  { rewrite orb_false_iff, !any_false. split.
    - intros [H1 H2] u e He. apply elem_of_ordered in He. specialize (H1 _ He). specialize (H2 _ He). cbn in *.
      destruct (en_deleting e), (tds_entries (tdc_spec old) !! u); naive_solver.
    - intros H. split; intros [u e] He%elem_of_ordered; destruct (H u e He) as [H1 [x H2]]; cbn;
        [by rewrite H1|by rewrite H2]. }
  assert (Hkept : try_for (check_kept old new) (ordered (tds_entries (tdc_spec old))) = Ok tt ↔
     ∀ uid e, tds_entries (tdc_spec old) !! uid = Some e → check_kept old new (uid, e) = Ok tt).
  { rewrite try_for_Ok. split; [intros H u e He; apply H; by apply elem_of_ordered|].
    intros H [u e] He%elem_of_ordered. by apply H. }
  setoid_rewrite (check_kept_Ok old new) in Hkept; [|done].
  destruct (_ || _ || _) eqn:Hid.
  - split; [done|]. intros [_ [[Hn Hu] Hc _ _ _]]. rewrite Hn, Hu in Hid.
    rewrite !bool_decide_eq_true_2 in Hid by done. cbn in Hid.
    destruct (tds_closed (tdc_spec old)); [by rewrite Hc in Hid|done].
  - rewrite !orb_false_iff in Hid. destruct Hid as [[Hn Hu] Hc].
    apply negb_false_iff, bool_decide_eq_true in Hn, Hu.
    destruct (try_for _ _) as [[]|e].
    + destruct Hkept as [Hkept _]. specialize (Hkept eq_refl). split.
      * intros H. split; [by apply Hspec|]. split.
        -- by rewrite Hn, Hu.
        -- intros E. rewrite E in Hc. by destruct (tds_closed (tdc_spec new)).
        -- intros E. rewrite E in H. apply Hclose. by destruct (any _ _ || any _ _).
        -- intros uid e e' He He'. by apply (Hkept uid e He).
        -- intros uid e He. by apply (Hkept uid e He).
      * intros [_ [_ _ Hcl _ _]]. destruct (tds_closed (tdc_spec new)); [|done].
        by rewrite (proj2 Hclose (Hcl eq_refl)).
    + split; [done|]. intros [_ [_ _ _ Hi Hr]]. destruct Hkept as [_ Hk]. exfalso.
      assert (Err e = Ok tt); [|done]. apply Hk. intros uid e0 He. split; [by intros; eapply Hi|by apply Hr].
Qed.

(** C14. The transition check of the controller and the rules of the generated
    CRD agree.  For a stored catalog, whose status obeys the CRD's rule for
    statuses and whose name is its Tenant's, the server admits an update (the
    name is the Tenant's; the specification satisfies the bounds, patterns and
    uniqueness rules; identity, closure and entries only change monotonically;
    entries are removed only after their deletion with the terminal proof of
    their own logical UID) exactly when [validate_transition] accepts it and the
    object keeps its name, so every conditional update that the controller
    accepts is admitted.  [validate_transition] itself is equivalent to the
    rules without the one on the name. *)
Theorem validate_transition_matches_crd old new :
  crd_status_rule (tdc_status old) → crd_object_name old →
  (crd_admits old new ↔ validate_transition old new = Ok tt ∧ name (tdc_meta new) = name (tdc_meta old)) ∧
  (∀ u rv, validate_conditional_update old new u rv = Ok tt → crd_admits old new) ∧
  (validate_transition old new = Ok tt ↔ crd_spec_rules (tdc_spec new) ∧ crd_transition_rules old new).
Proof.
  intros Hst Hname. pose proof (validate_transition_rules old new Hst) as Hrules.
  assert (Hadmits : crd_admits old new ↔ validate_transition old new = Ok tt ∧ name (tdc_meta new) = name (tdc_meta old)).
  { unfold crd_admits, crd_object_name in *. rewrite Hrules, Hname. split.
    - intros (Hn & Hs & Ht). destruct (crd_identity _ _ Ht) as [E _]. by rewrite Hn, E.
    - intros ((Hs & Ht) & Hn). destruct (crd_identity _ _ Ht) as [E _]. by rewrite Hn, E. }
  split_and!; [exact Hadmits| |exact Hrules]. intros u rv H. apply Hadmits.
  unfold validate_conditional_update in H. destruct (_ || _) eqn:Hc; [done|]. split; [done|].
  rewrite !orb_false_iff in Hc. destruct Hc as [[_ Hn] _]. symmetry. by apply negb_false_iff, bool_decide_eq_true in Hn.
Qed.

(** A catalog with one entry; its deletion is requested, then it is removed
    with the terminal proof. *)
Module CatalogFixture.
Definition uid0 := "12345678-1234-1234-1234-123456789abc".
Definition entry (deleting : bool) : CatalogEntry := {| en_name := "orders"; en_instances := 2; en_deleting := deleting |}.
Definition status (verified : bool) : EntryStatus := {|
  es_logical_uid := uid0; es_observed_generation := 1; es_phase := DbDeleting; es_conditions := [];
  es_provider := None; es_namespace := None; es_cnpg_cluster := None; es_credentials := None;
  es_storage := []; es_instances := []; es_query := None;
  es_finalization := Some {| fs_terminal_verified := verified; fs_verified_absent := []; fs_pending := [] |};
  es_create_intents := [] |}.
Definition catalog (entries : gmap string CatalogEntry) (verified : bool) : TenantDatabaseCatalog := {|
  tdc_meta := {|
    name := Some "tenant-a"; namespace := None; uid := None; resource_version := None; generation := None;
    labels := None; annotations := None; owner_references := None; finalizers := None; deletion_timestamp := None |};
  tdc_spec := {| tds_tenant_name := "tenant-a"; tds_tenant_uid := "tenant-uid"; tds_closed := false;
                 tds_entries := entries |};
  tdc_status := Some {| cs_entries := {[uid0 := status verified]}; cs_observer := None |} |}.
Definition deleting := catalog {[uid0 := entry true]} true.
Definition removed := catalog ∅ true.
End CatalogFixture.

Lemma validate_transition_matches_crd_witness :
  crd_status_rule (tdc_status CatalogFixture.deleting) ∧ crd_object_name CatalogFixture.deleting ∧
  crd_admits CatalogFixture.deleting CatalogFixture.removed.
Proof.
  assert (Hst : crd_status_rule (tdc_status CatalogFixture.deleting)).
  { intros s [= <-] u e He. cbn in He. apply lookup_singleton_Some in He as [<- <-].
    split; [done|]. by intros f [= <-]. }
  split_and!; [exact Hst|reflexivity|].
  apply (validate_transition_matches_crd CatalogFixture.deleting CatalogFixture.removed Hst eq_refl).
  split; vm_compute; reflexivity.
Defined.
