(* ===== verification/AdminTypes.v ===== *)
(** * Data shared by the administration server and its web client

    [admin/shared/src/query.rs], [lifecycle.rs] and [catalog.rs]: the views and
    requests of the administration API that the modelled handlers use. *)

From S2P Require Import Prelude.

(** ** [query.rs] *)
Inductive ProviderMode := ModeLocal | ModeAzure.
Inductive TenantProvider := ProviderLocal | ProviderAzure | ProviderUnknown.
Inductive TenantClassification :=
| ClassReady | ClassProgressing | ClassDegraded | ClassFailed | ClassDeleting | ClassOwnershipInvalid.
Inductive DatabaseInstanceRole := RolePrimary | RoleStandby | RoleUnknown.
Inductive TopologyHealth :=
| HealthReady | HealthProgressing | HealthDegraded | HealthFailed | HealthDeleting | HealthUnknown.
Inductive TopologyNodeKind :=
| NodeTenant | NodeControlPlane | NodeWorkerPool | NodeMachine | NodeNode | NodeProviderResource
| NodeAddOn | NodeDatabase.
Inductive TopologySemanticKind :=
| SemTenant | SemControlPlane | SemWorkerPool | SemComputeMachine | SemWorkerNode | SemDatabaseCluster
| SemDatabaseInstance | SemAddOn | SemProviderInfrastructure | SemOther.
Inductive TopologyOwnership := TenantOwned | ProviderOwned | OwnershipUnknown.
Inductive TopologyNodeProvenance :=
| ExactKubernetesResource | DatabaseLogicalRepresentation | ExternalProviderRepresentation
| RecordedResourceRepresentation | SyntheticSummary.
Inductive TopologyEdgeKind := EdgeOwns | EdgeContains | EdgeManages | EdgeProvides | EdgeRepresents | EdgeDependsOn.

#[export] Instance ProviderMode_eq_dec : EqDecision ProviderMode.
Proof. solve_decision. Defined.
#[export] Instance TenantProvider_eq_dec : EqDecision TenantProvider.
Proof. solve_decision. Defined.
#[export] Instance TenantClassification_eq_dec : EqDecision TenantClassification.
Proof. solve_decision. Defined.
#[export] Instance DatabaseInstanceRole_eq_dec : EqDecision DatabaseInstanceRole.
Proof. solve_decision. Defined.
#[export] Instance TopologyHealth_eq_dec : EqDecision TopologyHealth.
Proof. solve_decision. Defined.

Record ResourceIdentityView := {
  rv_api_version : string;
  rv_kind : string;
  rv_namespace : option string;
  rv_name : string;
  rv_uid : option string;
}.
Record DisplayAttribute := { da_label : string; da_value : string }.
Record TopologyPlacement := {
  tp_worker_pool : option string;
  tp_worker_node : option string;
  tp_zone : option string;
}.
Record TopologyNode := {
  tn_id : string;
  tn_kind : TopologyNodeKind;
  tn_semantic_kind : TopologySemanticKind;
  tn_ownership : TopologyOwnership;
  tn_provenance : TopologyNodeProvenance;
  tn_database_role : option DatabaseInstanceRole;
  tn_placement : option TopologyPlacement;
  tn_label : string;
  tn_health : TopologyHealth;
  tn_resource : option ResourceIdentityView;
  tn_attributes : list DisplayAttribute;
}.
Record TopologyEdge := {
  te_id : string;
  te_source : string;
  te_target : string;
  te_kind : TopologyEdgeKind;
  te_label : option string;
}.
Record TopologyGraph := {
  tg_tenant_name : string;
  tg_provider : TenantProvider;
  tg_nodes : list TopologyNode;
  tg_edges : list TopologyEdge;
}.

Record DatabaseQueryResult := {
  qr_columns : list string;
  qr_rows : list (list (option string));
  qr_affected_rows : Z;
  qr_truncated : bool;
}.

(** ** [lifecycle.rs] *)
Record CreationCapability := {
  cc_available : bool;
  cc_supported_kubernetes_version : option string;
  cc_reason : option string;
}.
Definition capability_unavailable (reason : string) : CreationCapability :=
  {| cc_available := false; cc_supported_kubernetes_version := None; cc_reason := Some reason |}.
Definition capability_available (version : string) : CreationCapability :=
  {| cc_available := true; cc_supported_kubernetes_version := Some version; cc_reason := None |}.

Inductive TenantField := FieldName | FieldWorkers.
Record TenantFieldError := { fe_field : TenantField; fe_code : string; fe_message : string }.
Record TenantCreateRequest := { tcr_name : string; tcr_workers : Z }.
Record TenantMutationIdentity := { tmi_name : string; tmi_uid : string; tmi_generation : option Z }.
Inductive TenantDeleteState := DeleteAccepted | DeleteCompleted.
Record TenantDeleteResponse := { tdr_identity : TenantMutationIdentity; tdr_state : TenantDeleteState }.

(** ** [catalog.rs] *)
Record DatabaseAddRequest := { dar_catalog_uid : string; dar_name : string; dar_instances : Z }.
Record DatabaseDeleteRequest := { ddr_catalog_uid : string; ddr_logical_uid : string; ddr_confirmation : string }.
Record CatalogQueryRequest := {
  cqr_catalog_uid : string;
  cqr_logical_uid : string;
  cqr_instance : string;
  cqr_instance_uid : string;
  cqr_database : string;
  cqr_sql : string;
}.
Record CatalogQueryResponse := {
  cqp_catalog_uid : string;
  cqp_logical_uid : string;
  cqp_instance : string;
  cqp_instance_uid : string;
  cqp_executed_at : string;
  cqp_duration_ms : Z;
  cqp_truncated : bool;
  cqp_results : list DatabaseQueryResult;
}.
Record QueryIdentityView := { qv_cluster_uid : string; qv_credential_uid : string }.
Record StorageView := {
  sv_ordinal : Z;
  sv_requested_bytes : Z;
  sv_healthy : bool;
  sv_pv_uid : option string;
  sv_pvc_uid : option string;
  sv_disk_uid : option string;
}.
Record DatabaseConditionView := {
  dcv_condition_type : string;
  dcv_status : string;
  dcv_reason : string;
  dcv_message : string;
  dcv_observed_generation : option Z;
}.
Record FinalizationView := {
  fv_terminal_verified : bool;
  fv_verified_absent_count : Z;
  fv_pending_count : Z;
}.
Record InstanceView := { iv_name : string; iv_uid : string; iv_role : string; iv_ready : bool }.
Record DatabaseBlocker := { db_code : string; db_message : string }.
Record DatabaseView := {
  dv_logical_uid : string;
  dv_name : string;
  dv_instances : Z;
  dv_deleting : bool;
  dv_phase : string;
  dv_observed_generation : option Z;
  dv_provider : option string;
  dv_namespace : option string;
  dv_namespace_uid : option string;
  dv_cluster : option string;
  dv_cluster_uid : option string;
  dv_credential_uid : option string;
  dv_query_identity : option QueryIdentityView;
  dv_ready_instances : Z;
  dv_storage_requested_bytes : Z;
  dv_storage_healthy : Z;
  dv_storage : list StorageView;
  dv_conditions : list DatabaseConditionView;
  dv_finalization : option FinalizationView;
  dv_instance_topology : list InstanceView;
  dv_blockers : list DatabaseBlocker;
  dv_topology : TopologyGraph;
}.
Record CatalogView := {
  cv_tenant : string;
  cv_tenant_uid : string;
  cv_catalog_uid : string;
  cv_resource_version : string;
  cv_closed : bool;
  cv_capability_available : bool;
  cv_databases : list DatabaseView;
}.
