(* ===== verification/Paths.v ===== *)
(** * Paths

    [std::path] on Unix: the components of a path, [join], [strip_prefix] and
    the comparison of paths by components. *)

From S2P Require Import Prelude RustStd.

Inductive Component := RootDir | CurDir | ParentDir | Normal (s : string).

#[export] Instance Component_eq_dec : EqDecision Component.
Proof. solve_decision. Defined.

(** Repeated separators and inner [.] are not components. *)
Definition piece (s : string) : option Component :=
  if is_empty s || (s == ".") then None
  else if s == ".." then Some ParentDir
  else Some (Normal s).

Definition is_absolute (p : string) : bool := starts_with_char p "/"%char.

Definition leading (p : string) : list Component :=
  if is_absolute p then [RootDir]
  else match split p "/"%char with first :: _ => if first == "." then [CurDir] else [] | [] => [] end.

Definition components (p : string) : list Component := leading p ++ omap piece (split p "/"%char).

(** Comparison of [Path]s. *)
Definition path_eq (a b : string) : bool := bool_decide (components a = components b).

(** [a.join(b)] *)
Definition path_join (a b : string) : string :=
  if is_absolute b then b
  else if is_empty a || ends_with a "/" then a +:+ b
  else a +:+ "/" +:+ b.

(** [p.strip_prefix(base)] on a base that is not empty: the rest of the
    spelling of [p], without empty pieces at its ends. *)
Fixpoint drop_pieces (pieces : list string) (prefix : list Component) : option (list string) :=
  match prefix with
  | [] => Some pieces
  | c :: prefix' =>
      (fix skip (pieces : list string) :=
         match pieces with
         | [] => None
         | s :: rest =>
             match piece s with
             | None => skip rest
             | Some c' => if c' == c then drop_pieces rest prefix' else None
             end
         end) pieces
  end.

Fixpoint trim_pieces (pieces : list string) : list string :=
  match pieces with
  | s :: rest => if is_none (piece s) then trim_pieces rest else pieces
  | [] => []
  end.

Definition path_strip_prefix (p base : string) : option string :=
  if bool_decide (leading p = leading base)
  then option_map (λ rest, join "/" (reverse (trim_pieces (reverse (trim_pieces rest)))))
         (drop_pieces (split p "/"%char) (omap piece (split base "/"%char)))
  else None.

(** Whether a path has [.] or [..] components. *)
Definition has_dots (p : string) : bool :=
  any (λ c, (c == ParentDir) || (c == CurDir)) (components p).
