(* ===== verification/AdminView.v ===== *)
(** * The view of a database catalog

    [project] of [admin/server/src/source/catalog.rs]: what the administration
    server shows of a catalog.  The theorems say which entry a view is of, when
    it is shown as ready, and that nothing private of the status reaches it. *)

From S2P Require Import Prelude RustStd Kube Api Docker Allocation DatabaseApi AdminTypes.

(** ** Errors of a data source ([admin/server/src/error.rs]) *)
Inductive SourceError :=
| KubernetesUnavailable
| CreationUnavailable
| SourceConflict
| StaleIdentity
| Forbidden
| SourceRejected
| ResponseTooLarge
| DatabaseUnavailable (message : string) (retryable : bool)
| QueryFailed (sqlstate : option string) (message : string)
| QueryResponseTooLarge
| QueryTimedOut
| QueryOutcomeUnknown
| MutationOutcomeUnknown.

Definition unavailable : SourceError :=
  DatabaseUnavailable "Catalog identity or readiness is unavailable" true.
Definition not_ready : SourceError :=
  DatabaseUnavailable "Database platform or Tenant readiness is unavailable" true.

Definition provider_mode (tenant : Tenant) : ProviderMode :=
  match provider (tenant_spec tenant) with SpecLocal => ModeLocal | SpecAzure => ModeAzure end.

Definition source_uid (value : option string) : result SourceError string :=
  ok_or (filter_non_empty value) unavailable.

(** ** Projection *)

(** [v as u32] on an [i32], and [u32::try_from(n).unwrap_or(u32::MAX)]. *)
Definition as_u32 (v : Z) : Z := v mod 2 ^ 32.
Definition u32_saturate (n : nat) : Z := Z.min (Z.of_nat n) (2 ^ 32 - 1).
(** [u64::try_from(v).unwrap_or(0)] *)
Definition u64_or_zero (v : Z) : Z := if 0 <=? v then v else 0.

Definition is_dns_label (value : string) (maximum : Z) : bool :=
  ((1 <=? len value) && (len value <=? maximum))
  && is_some_and (λ c, is_ascii_lowercase c || is_ascii_digit c) (first_byte value)
  && is_some_and (λ c, is_ascii_lowercase c || is_ascii_digit c) (last_byte value)
  && all (λ c, is_ascii_lowercase c || is_ascii_digit c || Ascii.eqb c "-"%char) (bytes value).

Definition safe_uid (value : string) : option string :=
  if ((1 <=? len value) && (len value <=? 128))
     && all (λ c, is_ascii_alphanumeric c || Ascii.eqb c "-"%char) (bytes value)
  then Some value else None.

Definition REASONS := [
  "AllInstancesReady"; "CredentialsPending"; "StoragePending"; "InstancesPending"; "OwnershipInvalid";
  "UnknownCreateOutcome"; "ClaimPending"; "RuntimeNotReady"; "DiskPending"; "DiskIdentityUnavailable";
  "CapabilityNotReady"; "Deleting"].

Definition condition_reason (reason : string) : string :=
  if bool_decide (reason ∈ REASONS) then reason else "ConditionUnavailable".

Definition entry_ready (state : EntryStatus) (generation : option Z) : bool :=
  (es_phase state == DbReady)
  && (Some (es_observed_generation state) == generation)
  && any (λ condition, (cond_type condition == "Ready") && (cond_status condition == "True")
                       && (cond_observed_generation condition == generation)) (es_conditions state).

Definition catalog_database_role (role : string) : DatabaseInstanceRole :=
  if role == "primary" then RolePrimary else if role == "standby" then RoleStandby else RoleUnknown.

Definition expected_provider (provider : ProviderMode) : string :=
  match provider with ModeLocal => "local" | ModeAzure => "azure" end.

(** The status of an entry, by its own logical UID, then of this provider. *)
Definition raw_state (catalog : TenantDatabaseCatalog) (logical_uid : string) : option EntryStatus :=
  opt_filter (λ state, es_logical_uid state == logical_uid)
    (and_then (λ status, cs_entries status !! logical_uid) (tdc_status catalog)).
Definition entry_state (catalog : TenantDatabaseCatalog) (provider : ProviderMode) (logical_uid : string)
    : option EntryStatus :=
  opt_filter (λ state, is_some_and (λ identity, pi_kind identity == expected_provider provider) (es_provider state))
    (raw_state catalog logical_uid).

Definition blocker (code message : string) : DatabaseBlocker := {| db_code := code; db_message := message |}.

Definition entry_blockers (raw state : option EntryStatus) : list DatabaseBlocker :=
  (if is_some raw && is_none state
   then [blocker "ProviderMismatch" "Database provider identity does not match the Tenant"] else [])
  ++ match state with
     | Some state =>
         map (λ c, blocker (condition_reason (cond_reason c)) "Database condition is not ready")
           (filter_list (λ c, cond_status c != "True") (take 16 (es_conditions state)))
     | None => []
     end
  ++ (if is_none raw then [blocker "ObservationPending" "Database observation is pending"] else []).

Definition instance_view (i : InstanceObservation) : InstanceView := {|
  iv_name := io_name i; iv_uid := io_uid i;
  iv_role := if bool_decide (io_role i ∈ ["primary"; "standby"]) then io_role i else "unknown";
  iv_ready := io_ready i |}.

Definition safe_instance (i : InstanceObservation) : bool :=
  is_dns_label (io_name i) 63 && negb (is_empty (io_uid i)) && (len (io_uid i) <=? 128)
  && all (λ c, is_ascii_alphanumeric c || Ascii.eqb c "-"%char) (bytes (io_uid i)).

Definition instance_views (state : option EntryStatus) : list InstanceView :=
  map instance_view (filter_list safe_instance
    (take 3 (match state with Some state => es_instances state | None => [] end))).

Definition per_instance_bytes (provider : ProviderMode) : Z :=
  match provider with ModeLocal => 1024 * 1024 * 1024 | ModeAzure => 4 * 1024 * 1024 * 1024 end.

Definition storage_view (provider : ProviderMode) (s : StorageIdentity) : StorageView := {|
  sv_ordinal := as_u32 (si_ordinal s);
  sv_requested_bytes := per_instance_bytes provider;
  sv_healthy := si_healthy s && ((0 <=? si_requested_bytes s) && (si_requested_bytes s =? per_instance_bytes provider));
  sv_pv_uid := and_then (λ id, safe_uid (ri_uid id)) (si_pv s);
  sv_pvc_uid := and_then (λ id, safe_uid (ri_uid id)) (si_pvc s);
  sv_disk_uid := and_then (λ id, safe_uid (ri_uid id)) (si_disk s) |}.

Definition storage_views (provider : ProviderMode) (entry : CatalogEntry) (state : option EntryStatus)
    : list StorageView :=
  map (storage_view provider)
    (filter_list (λ s, (1 <=? si_ordinal s) && (si_ordinal s <=? en_instances entry))
       (take 3 (match state with Some state => es_storage state | None => [] end))).

Definition condition_view (c : Condition) : DatabaseConditionView :=
  let reason := condition_reason (cond_reason c) in {|
  dcv_condition_type := if cond_type c == "Ready" then "Ready" else "Unknown";
  dcv_status := if cond_status c == "True" then "True" else if cond_status c == "False" then "False" else "Unknown";
  dcv_reason := reason;
  dcv_message := "Database condition: " +:+ reason;
  dcv_observed_generation := cond_observed_generation c |}.

Definition query_identity_view (id : QueryIdentity) : option QueryIdentityView :=
  and_then (λ cluster, option_map (λ credential, {| qv_cluster_uid := cluster; qv_credential_uid := credential |})
              (safe_uid (qi_credential_uid id))) (safe_uid (qi_cluster_uid id)).

Definition finalization_view (f : FinalizationStatus) : FinalizationView := {|
  fv_terminal_verified := fs_terminal_verified f;
  fv_verified_absent_count := u32_saturate (length (fs_verified_absent f));
  fv_pending_count := u32_saturate (length (fs_pending f)) |}.

Definition entry_phase (entry : CatalogEntry) (raw state : option EntryStatus) (generation : option Z) : string :=
  if is_some raw && is_none state then "ownership-invalid"
  else if en_deleting entry then "deleting"
  else match state with
       | Some state =>
           if (es_phase state == DbReady) && entry_ready state generation then "ready"
           else if es_phase state == DbDegraded then "degraded"
           else if es_phase state == DbOwnershipInvalid then "ownership-invalid"
           else "progressing"
       | None => "progressing"
       end.

Definition phase_health (phase : string) : TopologyHealth :=
  if phase == "ready" then HealthReady
  else if phase == "deleting" then HealthDeleting
  else if (phase == "degraded") || (phase == "ownership-invalid") then HealthDegraded
  else HealthProgressing.

Definition database_node (id : string) (semantic : TopologySemanticKind) (role : option DatabaseInstanceRole)
    (label : string) (health : TopologyHealth) (attributes : list DisplayAttribute) : TopologyNode := {|
  tn_id := id; tn_kind := NodeDatabase; tn_semantic_kind := semantic; tn_ownership := TenantOwned;
  tn_provenance := DatabaseLogicalRepresentation; tn_database_role := role; tn_placement := None;
  tn_label := label; tn_health := health; tn_resource := None; tn_attributes := attributes |}.

Definition root_node (root_id : string) (entry : CatalogEntry) (health : TopologyHealth) (requested_bytes : Z)
    : TopologyNode :=
  database_node root_id SemDatabaseCluster None (en_name entry) health [
    {| da_label := "Requested instances"; da_value := int_to_string (en_instances entry) |};
    {| da_label := "Storage bytes"; da_value := int_to_string requested_bytes |}].

Definition instance_id (root_id : string) (i : InstanceView) : string := root_id +:+ ":" +:+ iv_uid i.

Definition instance_node (root_id : string) (i : InstanceView) : TopologyNode :=
  database_node (instance_id root_id i) SemDatabaseInstance (Some (catalog_database_role (iv_role i)))
    (iv_name i) (if iv_ready i then HealthReady else HealthProgressing)
    [{| da_label := "Role"; da_value := iv_role i |}].

Definition instance_edge (root_id : string) (i : InstanceView) : TopologyEdge := {|
  te_id := root_id +:+ "->" +:+ instance_id root_id i; te_source := root_id;
  te_target := instance_id root_id i; te_kind := EdgeRepresents; te_label := None |}.

Definition count {A} (f : A → bool) (l : list A) : Z := Z.of_nat (length (filter_list f l)).

Definition entry_view (catalog : TenantDatabaseCatalog) (provider : ProviderMode)
    (item : string * CatalogEntry) : DatabaseView :=
  let '(logical_uid, entry) := item in
  let raw := raw_state catalog logical_uid in
  let state := entry_state catalog provider logical_uid in
  let instances := instance_views state in
  let requested_bytes := per_instance_bytes provider * u64_or_zero (en_instances entry) in
  let storage := storage_views provider entry state in
  let phase := entry_phase entry raw state (generation (tdc_meta catalog)) in
  let root_id := "database:" +:+ logical_uid in {|
  dv_logical_uid := logical_uid; dv_name := en_name entry; dv_instances := as_u32 (en_instances entry);
  dv_deleting := en_deleting entry; dv_phase := phase;
  dv_observed_generation := option_map es_observed_generation state;
  dv_provider := Some (expected_provider provider);
  dv_namespace := opt_filter (λ n, len n <=? 63) (option_map ri_name (and_then es_namespace state));
  dv_namespace_uid := and_then (λ n, safe_uid (ri_uid n)) (and_then es_namespace state);
  dv_cluster := opt_filter (λ n, len n <=? 63) (option_map ri_name (and_then es_cnpg_cluster state));
  dv_cluster_uid := and_then (λ n, safe_uid (ri_uid n)) (and_then es_cnpg_cluster state);
  dv_credential_uid := and_then (λ n, safe_uid (ri_uid n)) (and_then es_credentials state);
  dv_query_identity := and_then query_identity_view (and_then es_query state);
  dv_ready_instances := count iv_ready instances;
  dv_storage_requested_bytes := requested_bytes;
  dv_storage_healthy := count sv_healthy storage;
  dv_storage := storage;
  dv_conditions := map condition_view (take 16 (match state with Some s => es_conditions s | None => [] end));
  dv_finalization := option_map finalization_view (and_then es_finalization state);
  dv_instance_topology := instances;
  dv_blockers := entry_blockers raw state;
  dv_topology := {|
    tg_tenant_name := tds_tenant_name (tdc_spec catalog);
    tg_provider := match provider with ModeLocal => ProviderLocal | ModeAzure => ProviderAzure end;
    tg_nodes := root_node root_id entry (phase_health phase) requested_bytes :: map (instance_node root_id) instances;
    tg_edges := map (instance_edge root_id) instances |} |}.

Definition project (catalog : TenantDatabaseCatalog) (provider : ProviderMode) (available : bool)
    : result SourceError CatalogView :=
  let! catalog_uid := source_uid (uid (tdc_meta catalog)) in
  let! rv := source_uid (resource_version (tdc_meta catalog)) in
  Ok {| cv_tenant := tds_tenant_name (tdc_spec catalog); cv_tenant_uid := tds_tenant_uid (tdc_spec catalog);
        cv_catalog_uid := catalog_uid; cv_resource_version := rv; cv_closed := tds_closed (tdc_spec catalog);
        cv_capability_available := available;
        cv_databases := map (entry_view catalog provider) (ordered (tds_entries (tdc_spec catalog))) |}.

(** ** What a view shows *)

(** The private parts of a status: messages and times of conditions, unknown
    reasons, storage paths, cloud identifiers, names of volumes, disks and
    credentials, the names of what a finalization still waits for, and create
    intents. *)
Definition scrub_condition (c : Condition) : Condition := {|
  cond_type := cond_type c; cond_status := cond_status c; cond_reason := condition_reason (cond_reason c);
  cond_message := ""; cond_observed_generation := cond_observed_generation c; cond_last_transition_time := 0 |}.
Definition scrub_identity (id : ResourceIdentity) : ResourceIdentity := {| ri_name := ""; ri_uid := ri_uid id |}.
Definition scrub_storage (s : StorageIdentity) : StorageIdentity := {|
  si_ordinal := si_ordinal s; si_requested_bytes := si_requested_bytes s; si_path := None;
  si_pv := option_map scrub_identity (si_pv s); si_pvc := option_map scrub_identity (si_pvc s);
  si_disk := option_map scrub_identity (si_disk s); si_arm_id := None; si_healthy := si_healthy s |}.
Definition scrub_finalization (f : FinalizationStatus) : FinalizationStatus := {|
  fs_terminal_verified := fs_terminal_verified f; fs_verified_absent := map (λ _, "") (fs_verified_absent f);
  fs_pending := map (λ _, "") (fs_pending f) |}.
Definition scrub (s : EntryStatus) : EntryStatus := {|
  es_logical_uid := es_logical_uid s; es_observed_generation := es_observed_generation s;
  es_phase := es_phase s; es_conditions := map scrub_condition (es_conditions s);
  es_provider := option_map (λ p, {| pi_kind := pi_kind p; pi_storage_namespace := None |}) (es_provider s);
  es_namespace := es_namespace s; es_cnpg_cluster := es_cnpg_cluster s;
  es_credentials := option_map scrub_identity (es_credentials s);
  es_storage := map scrub_storage (es_storage s); es_instances := es_instances s; es_query := es_query s;
  es_finalization := option_map scrub_finalization (es_finalization s); es_create_intents := [] |}.
Definition scrub_catalog (c : TenantDatabaseCatalog) : TenantDatabaseCatalog := {|
  tdc_meta := tdc_meta c; tdc_spec := tdc_spec c;
  tdc_status := option_map (λ s, {| cs_entries := scrub <$> cs_entries s; cs_observer := None |}) (tdc_status c) |}.

Lemma condition_reason_idem r : condition_reason (condition_reason r) = condition_reason r.
Proof.
  unfold condition_reason at 2 3. case_bool_decide as H; [|done].
  unfold condition_reason. by rewrite bool_decide_eq_true_2.
Qed.

Lemma opt_filter_map {A} (f : A → A) (p : A → bool) (o : option A) :
  (∀ x, p (f x) = p x) → opt_filter p (option_map f o) = option_map f (opt_filter p o).
Proof. intros H. destruct o as [x|]; simpl; [|done]. rewrite H. by destruct (p x). Qed.

Lemma raw_state_scrub c u : raw_state (scrub_catalog c) u = option_map scrub (raw_state c u).
Proof.
  unfold raw_state, scrub_catalog. cbn [tdc_status]. destruct (tdc_status c) as [s|]; [|done].
  cbn [option_map and_then cs_entries]. rewrite lookup_fmap. by rewrite <-opt_filter_map.
Qed.

Lemma entry_state_scrub c p u : entry_state (scrub_catalog c) p u = option_map scrub (entry_state c p u).
Proof.
  unfold entry_state. rewrite raw_state_scrub. apply opt_filter_map. intros s. simpl. by destruct (es_provider s).
Qed.

Lemma any_map {A B} (f : A → B) (p : B → bool) l : any p (map f l) = any (λ x, p (f x)) l.
Proof. induction l as [|x l IH]; [done|]. simpl. by rewrite IH. Qed.
Lemma filter_list_map {A} (f : A → A) (p : A → bool) l :
  (∀ x, p (f x) = p x) → filter_list p (map f l) = map f (filter_list p l).
Proof. intros H. induction l as [|x l IH]; [done|]. simpl. rewrite H. destruct (p x); simpl; by rewrite IH. Qed.

Lemma entry_ready_scrub s g : entry_ready (scrub s) g = entry_ready s g.
Proof. unfold entry_ready. cbn. by rewrite any_map. Qed.

Lemma storage_view_scrub p s : storage_view p (scrub_storage s) = storage_view p s.
Proof. destruct s as [? ? ? pv pvc disk ? ?]. by destruct pv, pvc, disk. Qed.

Lemma condition_blockers_scrub l :
  map (λ c, blocker (condition_reason (cond_reason c)) "Database condition is not ready")
    (filter_list (λ c, cond_status c != "True") (take 16 (map scrub_condition l))) =
  map (λ c, blocker (condition_reason (cond_reason c)) "Database condition is not ready")
    (filter_list (λ c, cond_status c != "True") (take 16 l)).
Proof.
  rewrite firstn_map, filter_list_map, map_map by done. apply map_ext. intros c. cbn. by rewrite condition_reason_idem.
Qed.

Lemma entry_blockers_scrub raw state :
  entry_blockers (option_map scrub raw) (option_map scrub state) = entry_blockers raw state.
Proof.
  unfold entry_blockers. destruct raw as [r|], state as [s|];
    cbn [option_map is_some is_none andb negb es_conditions scrub]; by rewrite ?condition_blockers_scrub.
Qed.

Lemma entry_phase_scrub e raw state g :
  entry_phase e (option_map scrub raw) (option_map scrub state) g = entry_phase e raw state g.
Proof. unfold entry_phase. destruct raw, state; cbn; try done; by rewrite entry_ready_scrub. Qed.

Lemma instance_views_scrub state : instance_views (option_map scrub state) = instance_views state.
Proof. by destruct state. Qed.

Lemma storage_views_scrub p e state : storage_views p e (option_map scrub state) = storage_views p e state.
Proof.
  unfold storage_views. destruct state as [s|]; [|done]. cbn [option_map es_storage scrub].
  rewrite firstn_map, filter_list_map, map_map by done. apply map_ext. intros x. apply storage_view_scrub.
Qed.

Lemma conditions_scrub (state : option EntryStatus) :
  map condition_view (take 16 (match option_map scrub state with Some s => es_conditions s | None => [] end)) =
  map condition_view (take 16 (match state with Some s => es_conditions s | None => [] end)).
Proof.
  destruct state as [s|]; [|done]. cbn [option_map es_conditions scrub]. rewrite firstn_map, map_map.
  apply map_ext. intros c. unfold condition_view. cbn. by rewrite condition_reason_idem.
Qed.

Lemma finalization_scrub (state : option EntryStatus) :
  option_map finalization_view (and_then es_finalization (option_map scrub state)) =
  option_map finalization_view (and_then es_finalization state).
Proof.
  destruct state as [s|]; [|done]. cbn [option_map and_then es_finalization scrub].
  destruct (es_finalization s) as [f|]; [|done]. cbn. unfold finalization_view. cbn. by rewrite !length_map.
Qed.

Lemma entry_view_scrub c p item : entry_view (scrub_catalog c) p item = entry_view c p item.
Proof.
  destruct item as [u e]. unfold entry_view.
  rewrite raw_state_scrub, entry_state_scrub, entry_blockers_scrub, entry_phase_scrub, instance_views_scrub,
    storage_views_scrub, conditions_scrub, finalization_scrub.
  destruct (entry_state c p u) as [s|]; [|done]. cbn. by destruct (es_credentials s).
Qed.

Lemma entry_phase_ready e raw state g :
  entry_phase e raw state g = "ready" ↔
  en_deleting e = false ∧ ∃ s, state = Some s ∧ entry_ready s g = true.
Proof.
  assert (Hp : ∀ s, entry_ready s g = true → bool_decide (es_phase s = DbReady) = true).
  { intros s. unfold entry_ready. rewrite !andb_true_iff. naive_solver. }
  unfold entry_phase. destruct state as [s|];
    [|destruct raw, (en_deleting e); cbn; (split; [done|by intros (_ & s & ? & _)])].
  replace (is_some raw && is_none (Some s)) with false by (by destruct raw).
  destruct (en_deleting e); [by split; [|intros []]|].
  destruct (entry_ready s g) eqn:Hr; [rewrite (Hp s Hr); split; [by eauto|done]|].
  rewrite andb_false_r. split; [by repeat case_bool_decide|]. intros (_ & s' & [= <-] & ?). congruence.
Qed.

(** The status that a view shows is the entry's own, of the Tenant's provider. *)
Lemma entry_state_Some c p u s :
  entry_state c p u = Some s ↔
  ∃ st id, tdc_status c = Some st ∧ cs_entries st !! u = Some s ∧ es_logical_uid s = u ∧
    es_provider s = Some id ∧ pi_kind id = expected_provider p.
Proof.
  unfold entry_state, raw_state. destruct (tdc_status c) as [st|]; [|naive_solver]. cbn [and_then].
  destruct (cs_entries st !! u) as [s'|] eqn:Hs; [|cbn; naive_solver]. cbn.
  case_bool_decide as Hu; cbn; [|naive_solver].
  destruct (es_provider s') as [id|] eqn:Hp; cbn; [case_bool_decide; cbn|]; naive_solver.
Qed.

(** ** What is shown is plain *)

(** The UIDs a database is shown with. *)
Definition shown_uids (d : DatabaseView) : list string :=
  option_list (dv_namespace_uid d) ++ option_list (dv_cluster_uid d) ++ option_list (dv_credential_uid d)
  ++ match dv_query_identity d with Some q => [qv_cluster_uid q; qv_credential_uid q] | None => [] end
  ++ concat (map (λ s, option_list (sv_pv_uid s) ++ option_list (sv_pvc_uid s) ++ option_list (sv_disk_uid s)) (dv_storage d))
  ++ map iv_uid (dv_instance_topology d).

Definition plain_uid (value : string) : Prop :=
  1 ≤ len value ∧ len value ≤ 128 ∧
  ∀ c, c ∈ bytes value → is_ascii_alphanumeric c = true ∨ c = "-"%char.

Definition plain_label (value : string) : Prop :=
  1 ≤ len value ∧ len value ≤ 63 ∧
  (∀ c, c ∈ bytes value → is_ascii_lowercase c = true ∨ is_ascii_digit c = true ∨ c = "-"%char) ∧
  (∀ c, first_byte value = Some c ∨ last_byte value = Some c → is_ascii_lowercase c = true ∨ is_ascii_digit c = true).

Definition BLOCKERS := REASONS ++ ["ConditionUnavailable"; "ProviderMismatch"; "ObservationPending"].

(** Only values of fixed lists, bounded names and plain UIDs are shown. *)
Record sanitized (d : DatabaseView) : Prop := {
  sz_uids u : u ∈ shown_uids d → plain_uid u;
  sz_names n : n ∈ option_list (dv_namespace d) ++ option_list (dv_cluster d) → len n ≤ 63;
  sz_instances i : i ∈ dv_instance_topology d → plain_label (iv_name i) ∧ iv_role i ∈ ["primary"; "standby"; "unknown"];
  sz_conditions c : c ∈ dv_conditions d →
    dcv_condition_type c ∈ ["Ready"; "Unknown"] ∧ dcv_status c ∈ ["True"; "False"; "Unknown"] ∧
    dcv_reason c ∈ REASONS ++ ["ConditionUnavailable"] ∧ dcv_message c = "Database condition: " +:+ dcv_reason c;
  sz_blockers b : b ∈ dv_blockers d → db_code b ∈ BLOCKERS ∧
    db_message b ∈ ["Database provider identity does not match the Tenant"; "Database condition is not ready";
                    "Database observation is pending"];
  sz_bounds : (length (dv_instance_topology d) ≤ 3)%nat ∧ (length (dv_storage d) ≤ 3)%nat ∧ (length (dv_conditions d) ≤ 16)%nat;
}.

Lemma safe_uid_plain value u : safe_uid value = Some u → plain_uid u.
Proof.
  unfold safe_uid, plain_uid. destruct (_ && _) eqn:H; [|done]. intros [= <-].
  rewrite !andb_true_iff, all_true in H. destruct H as [[H1 H2] Hc]. split_and!; [lia..|].
  intros c Hin. specialize (Hc c Hin). apply orb_true_iff in Hc as [?|E%Ascii.eqb_eq]; auto.
Qed.

Lemma uid_of_plain (o : option ResourceIdentity) u :
  u ∈ option_list (and_then (λ id, safe_uid (ri_uid id)) o) → plain_uid u.
Proof.
  destruct o as [id|]; [|by intros ?%not_elem_of_nil]. cbn [and_then].
  destruct (safe_uid (ri_uid id)) as [x|] eqn:E; [|by intros ?%not_elem_of_nil].
  intros ->%list_elem_of_singleton. by eapply safe_uid_plain.
Qed.

Lemma dns_label_plain value : is_dns_label value 63 = true → plain_label value.
Proof.
  unfold is_dns_label, plain_label. rewrite !andb_true_iff, all_true, !is_some_and_true.
  intros [[[[H1 H2] (a & Ha & Hfa)] (b & Hb & Hlb)] Hc].
  split_and!; [lia|lia| |].
  - intros c Hin. specialize (Hc c Hin). rewrite !orb_true_iff in Hc. destruct Hc as [[?|?]|E%Ascii.eqb_eq]; auto.
  - intros c [E|E]; [assert (c = a) as -> by congruence; by apply orb_true_iff|].
    assert (c = b) as -> by congruence. by apply orb_true_iff.
Qed.

Lemma safe_instance_plain i : safe_instance i = true → plain_label (io_name i) ∧ plain_uid (io_uid i).
Proof.
  unfold safe_instance. rewrite !andb_true_iff. intros [[[Hn He] Hl] Hc]. split; [by apply dns_label_plain|].
  apply (safe_uid_plain (io_uid i)). unfold safe_uid. rewrite Hl, Hc.
  apply negb_true_iff, is_empty_false in He. assert (1 <=? len (io_uid i) = true) as ->; [|done].
  destruct (io_uid i); [done|]. unfold len. simpl. lia.
Qed.

Lemma instance_views_plain state i :
  i ∈ instance_views state →
  plain_label (iv_name i) ∧ plain_uid (iv_uid i) ∧ iv_role i ∈ ["primary"; "standby"; "unknown"].
Proof.
  intros (o & -> & [Hs _]%elem_of_filter_list)%list_elem_of_fmap. apply safe_instance_plain in Hs as [? ?].
  split_and!; [done..|]. cbn. case_bool_decide; set_solver.
Qed.

Lemma storage_views_plain p e state s u :
  s ∈ storage_views p e state → u ∈ option_list (sv_pv_uid s) ++ option_list (sv_pvc_uid s) ++ option_list (sv_disk_uid s) →
  plain_uid u.
Proof.
  intros (o & -> & _)%list_elem_of_fmap. cbn [storage_view sv_pv_uid sv_pvc_uid sv_disk_uid]. rewrite !elem_of_app.
  intros [H|[H|H]]; revert H; apply uid_of_plain.
Qed.

Lemma query_identity_plain q v : query_identity_view q = Some v → plain_uid (qv_cluster_uid v) ∧ plain_uid (qv_credential_uid v).
Proof.
  unfold query_identity_view. destruct (safe_uid (qi_cluster_uid q)) as [a|] eqn:Ha; [|done]. cbn.
  destruct (safe_uid (qi_credential_uid q)) as [b|] eqn:Hb; [|done]. intros [= <-].
  split; by eapply safe_uid_plain.
Qed.

Lemma filter_list_length {A} (f : A → bool) l : (length (filter_list f l) ≤ length l)%nat.
Proof. induction l as [|x l IH]; [done|]. cbn. destruct (f x); cbn; lia. Qed.

Lemma condition_reason_known r : condition_reason r ∈ REASONS ++ ["ConditionUnavailable"].
Proof. unfold condition_reason. apply elem_of_app. case_bool_decide; [by left|right; by left]. Qed.

Lemma entry_blockers_plain raw state b :
  b ∈ entry_blockers raw state → db_code b ∈ BLOCKERS ∧
  db_message b ∈ ["Database provider identity does not match the Tenant"; "Database condition is not ready";
                  "Database observation is pending"].
Proof.
  unfold entry_blockers, BLOCKERS. rewrite !elem_of_app. intros [H|[H|H]].
  - destruct (_ && _); [|by apply not_elem_of_nil in H]. apply list_elem_of_singleton in H as ->. cbn.
    split; [right; right; by left|by left].
  - destruct state as [s|]; [|by apply not_elem_of_nil in H].
    apply list_elem_of_fmap in H as (c & -> & _). cbn. split; [|right; by left].
    pose proof (condition_reason_known (cond_reason c)) as [?|?%list_elem_of_singleton]%elem_of_app; [by left|].
    right. apply elem_of_cons. by left.
  - destruct (is_none raw); [|by apply not_elem_of_nil in H]. apply list_elem_of_singleton in H as ->. cbn.
    split; [right; right; right; by left|right; right; by left].
Qed.

Lemma entry_view_uids c p item u : u ∈ shown_uids (entry_view c p item) → plain_uid u.
Proof.
  destruct item as [l e]. unfold shown_uids. cbn [entry_view dv_namespace_uid dv_cluster_uid dv_credential_uid
    dv_query_identity dv_storage dv_instance_topology]. rewrite !elem_of_app. intros [H|[H|[H|[H|[H|H]]]]].
  1-3: revert H; apply uid_of_plain.
  - destruct (and_then es_query _) as [q|]; [|by apply not_elem_of_nil in H]. cbn [and_then] in H.
    destruct (query_identity_view q) as [v|] eqn:Hq; [|by apply not_elem_of_nil in H].
    apply query_identity_plain in Hq as [? ?]. apply elem_of_cons in H as [->|H]; [done|].
    by apply list_elem_of_singleton in H as ->.
  - apply list_elem_of_In, in_concat in H as (us & Hus & Hu). apply list_elem_of_In, list_elem_of_fmap in Hus as (s & -> & Hs).
    apply list_elem_of_In in Hu. by eapply storage_views_plain.
  - apply list_elem_of_fmap in H as (i & -> & Hi). by apply instance_views_plain in Hi as (_ & ? & _).
Qed.

Lemma entry_view_sanitized c p item : sanitized (entry_view c p item).
Proof.
  split.
  - intros u. apply entry_view_uids.
  - destruct item as [l e]. cbn [entry_view dv_namespace dv_cluster]. intros n.
    assert (∀ o : option string, n ∈ option_list (opt_filter (λ n, len n <=? 63) o) → len n ≤ 63) as Ho.
    { intros [x|]; cbn; [|by intros ?%not_elem_of_nil]. destruct (len x <=? 63) eqn:E; [|by intros ?%not_elem_of_nil].
      intros ->%list_elem_of_singleton. lia. }
    intros [H|H]%elem_of_app; by eapply Ho.
  - destruct item as [l e]. intros i Hi. by apply instance_views_plain in Hi as (? & _ & ?).
  - destruct item as [l e]. intros x (k & -> & _)%list_elem_of_fmap. cbn. split_and!; [| |apply condition_reason_known|done].
    + case_bool_decide; set_solver.
    + repeat case_bool_decide; set_solver.
  - destruct item as [l e]. intros b. apply entry_blockers_plain.
  - destruct item as [l e]. cbn [entry_view dv_instance_topology dv_storage dv_conditions].
    unfold instance_views, storage_views. rewrite !length_map.
    split_and!; [etrans; [apply filter_list_length|]..|]; rewrite length_take; lia.
Qed.


(** A catalog with an entry that is ready. *)
Module ViewFixture.
Definition meta : ObjectMeta := {|
  name := Some "tenant-a"; namespace := Some "tenant-db-tenant-a"; uid := Some CatalogFixture.uid0;
  resource_version := Some "7"; generation := Some 2; labels := None; annotations := None;
  owner_references := None; finalizers := Some [DatabaseApi.FINALIZER]; deletion_timestamp := None |}.
Definition status : EntryStatus := {|
  es_logical_uid := CatalogFixture.uid0; es_observed_generation := 2; es_phase := DbReady;
  es_conditions := [{| cond_type := "Ready"; cond_status := "True"; cond_reason := "AllInstancesReady";
    cond_message := "private"; cond_observed_generation := Some 2; cond_last_transition_time := 0 |}];
  es_provider := Some {| pi_kind := "local"; pi_storage_namespace := None |};
  es_namespace := Some {| ri_name := "tenant-db-tenant-a"; ri_uid := "ns-uid" |}; es_cnpg_cluster := None;
  es_credentials := Some {| ri_name := "private"; ri_uid := "not/plain" |};
  es_storage := []; es_query := None; es_finalization := None; es_create_intents := [];
  es_instances := [{| io_name := "orders-1"; io_uid := "i-1"; io_role := "primary"; io_ready := true |};
                   {| io_name := "Orders_2"; io_uid := "i-2"; io_role := "standby"; io_ready := true |}] |}.
Definition catalog : TenantDatabaseCatalog := {|
  tdc_meta := meta;
  tdc_spec := {| tds_tenant_name := "tenant-a"; tds_tenant_uid := "tenant-uid"; tds_closed := false;
                 tds_entries := {[CatalogFixture.uid0 := CatalogFixture.entry false]} |};
  tdc_status := Some {| cs_entries := {[CatalogFixture.uid0 := status]}; cs_observer := None |} |}.
End ViewFixture.

