(* ===== verification/CatalogOps.v ===== *)
(** * Operations on database catalogs

    The requests that the administration server and the database controller
    send about a catalog, with the types of the replies.  The reply is whatever
    the environment says.  The file operations of
    [database-controller/src/local_path.rs] are requests too: their
    implementation is in [LocalPath]. *)

From S2P Require Import Prelude RustStd Kube Errors Api Docker Effects DatabaseApi AdminTypes.

(** The parts of a Deployment that are read. *)
Record Container := { ct_name : string; ct_args : option (list string) }.
Record DeploymentSpec := { dsp_replicas : option Z; dsp_pod : option (list Container) }.
Record DeploymentStatus := {
  dst_observed_generation : option Z;
  dst_updated_replicas : option Z;
  dst_ready_replicas : option Z;
  dst_available_replicas : option Z;
}.
Record Deployment := {
  dep_meta : ObjectMeta;
  dep_spec : option DeploymentSpec;
  dep_status : option DeploymentStatus;
}.

(** An [Api<DynamicObject>]: a kind, in a namespace or cluster-wide. *)
Record ApiHandle := {
  ah_namespace : option string;
  ah_group : string;
  ah_version : string;
  ah_kind : string;
  ah_plural : string;
}.

#[export] Instance ApiHandle_eq_dec : EqDecision ApiHandle.
Proof. solve_decision. Defined.

(** Errors of the file operations; the system's errors that are told apart. *)
Inductive Errno := ENOENT | EEXIST | ENOTDIR | ELOOP | ENOTEMPTY | ENODATA | ERANGE | OtherErrno (code : Z).

#[export] Instance Errno_eq_dec : EqDecision Errno.
Proof. solve_decision. Defined.

Inductive PathError :=
| InvalidInput (reason : string)
| MissingRoot
| MissingPath
| UnsafeEntry
| Changed
| PathIo (error : Errno).

#[export] Instance PathError_eq_dec : EqDecision PathError.
Proof. solve_decision. Defined.

(** An HTTP response: the status and the body, if it is JSON. *)
Record HttpResponse := { hr_status : Z; hr_json : option Value }.

Inductive Op :=
| GetTenantOpt (nm : string)
| DeleteTenant (nm : string) (params : DeleteParams)
| GetNamespace (nm : string)
| GetCatalog (ns nm : string)
| ReplaceCatalog (ns nm : string) (obj : TenantDatabaseCatalog)
| GetDeployment (ns nm : string)
| GetAdmission (kind nm : string)
| ReviewAccess (ns nm verb : string)
(** Requests of the database controller; [get] fails on a missing object. *)
| ReadCatalog (ns nm : string)
| ReadTenant (nm : string)
| ReadNamespace (nm : string)
| ReplaceCatalogStatus (ns nm : string) (obj : TenantDatabaseCatalog)
| PatchObserver (ns nm rv : string) (receipt : CatalogObservation)
(** Objects of the management cluster. *)
| GetTenant (nm : string)
| ReadConfigMap (ns nm : string)
| ReadManaged (api : ApiHandle) (nm : string)
(** The Docker daemon, and the client of the Tenant cluster. *)
| ConnectDocker (socket : string)
| InspectVolume (nm : string)
| LoadTenantClient (plane : DynamicObject) (ns nm server : string)
(** Objects of the Tenant cluster; disks are of the management cluster. *)
| FindObject (api : ApiHandle) (nm : string)
| ReadObject (api : ApiHandle) (nm : string)
| CreateObject (api : ApiHandle) (obj : DynamicObject)
| DeleteObject (api : ApiHandle) (nm : string) (params : DeleteParams)
| ListObjects (api : ApiHandle) (selector : string) (limit : Z)
(** File operations on the Tenant's volume. *)
| PathInspect (root catalog_uid logical_uid : string) (ordinal : Z)
| PathPrepare (root catalog_uid logical_uid : string) (ordinal : Z)
| PathRemove (root catalog_uid logical_uid : string) (ordinal : Z)
| PathEntryAbsent (root catalog_uid logical_uid : string)
(** Azure: the workload identity, and the resource manager. *)
| EnvVar (nm : string)
| BuildHttpClient
| ReadTokenFile (path : string)
| PostToken (endpoint client_id assertion : string)
| ArmSend (delete : bool) (url token : string)
| LoadOwnedClient (plane cluster : DynamicObject) (ns nm server : string)
| GetStorageClass (nm : string)
| CreateStorageClass (class : StorageClass)
| Now.

Definition Resp (o : Op) : Type :=
  match o with
  | GetTenantOpt _ => result KubeError (option Tenant)
  | DeleteTenant _ _ => result KubeError unit
  | GetNamespace _ => result KubeError (option Namespace)
  | GetCatalog _ _ => result KubeError (option TenantDatabaseCatalog)
  | ReplaceCatalog _ _ _ | ReplaceCatalogStatus _ _ _ | PatchObserver _ _ _ _ | ReadCatalog _ _ =>
      result KubeError TenantDatabaseCatalog
  | GetDeployment _ _ => result KubeError (option Deployment)
  | GetAdmission _ _ => result KubeError (option DynamicObject)
  | ReviewAccess _ _ _ => result KubeError Value
  | ReadTenant _ => result KubeError DynamicObject
  | ReadNamespace _ => result KubeError Namespace
  | GetTenant _ => result KubeError Tenant
  | ReadConfigMap _ _ => result KubeError ConfigMap
  | ReadManaged _ _ => result KubeError DynamicObject
  | ConnectDocker _ => result DockerError unit
  | InspectVolume _ => result DockerError (option DockerVolume)
  | LoadTenantClient _ _ _ _ => result string unit
  | FindObject _ _ => result KubeError (option DynamicObject)
  | ReadObject _ _ | CreateObject _ _ => result KubeError DynamicObject
  | DeleteObject _ _ _ => result KubeError unit
  | ListObjects _ _ _ => result KubeError (list DynamicObject * option string)
  | PathInspect _ _ _ _ | PathEntryAbsent _ _ _ => result PathError bool
  | PathPrepare _ _ _ _ | PathRemove _ _ _ _ => result PathError unit
  | EnvVar _ | ReadTokenFile _ => option string
  | BuildHttpClient => bool
  | PostToken _ _ _ | ArmSend _ _ _ => option HttpResponse
  | LoadOwnedClient _ _ _ _ _ => result string Secret
  | GetStorageClass _ => result KubeError (option StorageClass)
  | CreateStorageClass _ => result KubeError StorageClass
  | Now => Time
  end.

Notation io E A := (prog Resp (result E A)).

(** The reply of an environment that refuses the request. *)
Definition refusal (o : Op) (e : KubeError) : Resp o :=
  match o return Resp o with
  | GetTenantOpt _ | DeleteTenant _ _ | GetNamespace _ | GetCatalog _ _ | ReplaceCatalog _ _ _ | GetDeployment _ _
  | GetAdmission _ _ | ReviewAccess _ _ _ | ReadCatalog _ _ | ReadTenant _ | ReadNamespace _
  | ReplaceCatalogStatus _ _ _ | PatchObserver _ _ _ _ | GetTenant _ | ReadConfigMap _ _ | ReadManaged _ _
  | FindObject _ _ | ReadObject _ _ | CreateObject _ _ | DeleteObject _ _ _ | ListObjects _ _ _
  | GetStorageClass _ | CreateStorageClass _ => Err e
  | EnvVar _ | ReadTokenFile _ | PostToken _ _ _ | ArmSend _ _ _ => None
  | BuildHttpClient => false
  | LoadOwnedClient _ _ _ _ _ => Err (kube_display e)
  | ConnectDocker _ | InspectVolume _ => Err (DockerIdentity (kube_display e))
  | LoadTenantClient _ _ _ _ => Err (kube_display e)
  | PathInspect _ _ _ _ | PathEntryAbsent _ _ _ | PathPrepare _ _ _ _ | PathRemove _ _ _ _ => Err MissingRoot
  | Now => 0
  end.

(** A history contains the request with the reply. *)
Definition replied (h : trace Resp) (o : Op) (r : Resp o) : Prop := existT o r ∈ h.

Lemma replied_app_l h h' o r : replied h o r → replied (h ++ h') o r.
Proof. intros H. apply elem_of_app. by left. Qed.
Lemma replied_last h o (r : Resp o) : replied (h ++ [existT o r]) o r.
Proof. apply elem_of_app. right. by left. Qed.

(** Requests that write the catalog, with what they carry. *)
Definition writes (o : Op) : bool :=
  match o with
  | ReplaceCatalog _ _ _ | ReplaceCatalogStatus _ _ _ | PatchObserver _ _ _ _ | DeleteTenant _ _ => true
  | _ => false
  end.

(** Requests that change anything. *)
Definition changes (o : Op) : bool :=
  match o with
  | CreateObject _ _ | DeleteObject _ _ _ | PathPrepare _ _ _ _ | PathRemove _ _ _ _ | ArmSend true _ _
  | CreateStorageClass _ => true
  | o => writes o
  end.
