(* ===== verification/AdminCatalog.v ===== *)
(** * Databases through the administration server

    [admin/server/src/source/catalog.rs]: reading a Tenant's catalog, adding a
    database and requesting the deletion of one, with the guards on the Tenant,
    the rollout of the controllers and the permissions, the optimistic retries
    and the recovery after an uncertain outcome; and the creation capability
    and the deletion of Tenants of [admin/server/src/source.rs]. *)

From S2P Require Import Prelude RustStd Kube Errors Api Effects Readiness Status DatabaseApi AdminTypes AdminView.
From S2P Require Import CatalogOps.

Definition CONTROLLER_NAMESPACE := "tenant-system".
Definition CONTROLLER_DEPLOYMENT := "tenant-controller".
Definition TENANT_UID_LABEL := "tenancy.cnpg-vcluster.io/tenant-uid".
Definition CUTOVER_LOCK := "tenant-database-catalog-cutover-create-lock".

(** [get_opt(..).await.map_err(read_error)]; the error is only logged. *)
Definition read_error (e : KubeError) : SourceError := KubernetesUnavailable.
Definition read_opt {A} (p : io KubeError (option A)) (missing : SourceError) : io SourceError A :=
  try! found <- perform_map read_error p ;;
  Ret (ok_or found missing).

Definition database_error_status (e : KubeError) : Z :=
  match e with KubeApi code _ _ => code | KubeOther _ => 0 end.

Definition mutation_error (e : KubeError) : SourceError :=
  match e with
  | KubeApi code _ _ =>
      if code =? 409 then SourceConflict
      else if code =? 403 then Forbidden
      else if (code =? 400) || (code =? 422) then SourceRejected
      else KubernetesUnavailable
  | KubeOther _ => KubernetesUnavailable
  end.

(** ** Reading *)
Definition has_entry (values : option (list string)) (value : string) : bool :=
  is_some_and (any (λ v, v == value)) values.

Definition catalog_owner (nm tenant_uid : string) : OwnerReference := {|
  owner_api_version := "tenancy.cnpg-vcluster.io/v1alpha4"; owner_kind := "Tenant";
  owner_name := nm; owner_uid := tenant_uid; owner_controller := None; owner_block_deletion := None |}.

Definition check_namespace (tenant : Tenant) (tenant_uid : string) (capability : DatabaseCapability)
    (expected : string) (ns : Namespace) : result SourceError unit :=
  if (uid (ns_meta ns) != Some (cap_namespace_uid capability))
     || is_some (deletion_timestamp (ns_meta ns))
     || is_some_and (λ owners, match owners with [] => false | _ => true end) (owner_references (ns_meta ns))
     || negb (has_finalizer tenant Api.FINALIZER)
     || (get_label (ns_meta ns) TENANT_UID_LABEL != Some tenant_uid)
     || (cap_namespace capability != expected)
     || negb (valid_logical_uid (cap_catalog_uid capability))
  then Err StaleIdentity else Ok tt.

Definition check_catalog (nm tenant_uid : string) (capability : DatabaseCapability) (expected : string)
    (catalog : TenantDatabaseCatalog) : result SourceError unit :=
  let meta := tdc_meta catalog in
  if (uid meta != Some (cap_catalog_uid capability))
     || (namespace meta != Some expected)
     || is_some (deletion_timestamp meta)
     || negb (has_entry (finalizers meta) FINALIZER)
     || (tds_tenant_name (tdc_spec catalog) != nm)
     || (tds_tenant_uid (tdc_spec catalog) != tenant_uid)
     || (owner_references meta != Some [catalog_owner nm tenant_uid])
     || is_none_or is_empty (resource_version meta)
     || is_err (validate_spec (tdc_spec catalog))
  then Err StaleIdentity else Ok tt.

Definition read (tenant : Tenant) : io SourceError TenantDatabaseCatalog :=
  pure! nm <- ok_or (opt_filter valid_name (name (tenant_meta tenant))) unavailable ;;
  pure! tenant_uid <- source_uid (uid (tenant_meta tenant)) ;;
  pure! capability <- ok_or (and_then database_capability (tenant_status tenant)) unavailable ;;
  let expected := database_namespace nm in
  try! ns <- read_opt (perform (GetNamespace expected)) unavailable ;;
  pure! _ <- check_namespace tenant tenant_uid capability expected ns ;;
  try! catalog <- read_opt (perform (GetCatalog expected nm)) unavailable ;;
  pure! _ <- check_catalog nm tenant_uid capability expected catalog ;;
  Ret (Ok catalog).

(** ** Guards *)
Definition ready (tenant : Tenant) : result SourceError unit :=
  let! status := ok_or (tenant_status tenant) not_ready in
  if is_some (deletion_timestamp (tenant_meta tenant))
     || negb (has_finalizer tenant Api.FINALIZER)
     || (observed_generation status != generation (tenant_meta tenant))
     || (phase status != Some PhaseReady)
     || negb (is_some_and cap_available (database_capability status))
     || negb (any (λ c, (cond_type c == "Ready") && (cond_status c == "True")
                        && (cond_observed_generation c == generation (tenant_meta tenant))) (conditions status))
  then Err not_ready else Ok tt.

Definition capability_available (tenant : Tenant) : bool :=
  is_some_and cap_available (and_then database_capability (tenant_status tenant)).

Definition live_tenant (expected : Tenant) : io SourceError Tenant :=
  pure! nm <- ok_or (name (tenant_meta expected)) unavailable ;;
  try! tenant <- read_opt (perform (GetTenantOpt nm)) StaleIdentity ;;
  if uid (tenant_meta tenant) != uid (tenant_meta expected) then Ret (Err StaleIdentity)
  else Ret (Ok tenant).

Definition exact_catalog (catalog : TenantDatabaseCatalog) (expected : string) : result SourceError unit :=
  if negb (valid_logical_uid expected) || (uid (tdc_meta catalog) != Some expected) then Err StaleIdentity
  else if tds_closed (tdc_spec catalog) then Err SourceConflict else Ok tt.

(** *** Creation capability *)
Definition rolled_out (meta : ObjectMeta) (replicas : Z) (status : option DeploymentStatus) : bool :=
  negb ((replicas <? 1)
        || is_none (generation meta)
        || is_some (deletion_timestamp meta)
        || (generation meta != and_then dst_observed_generation status)
        || (and_then dst_updated_replicas status != Some replicas)
        || (and_then dst_ready_replicas status != Some replicas)
        || (and_then dst_available_replicas status != Some replicas)).

Definition IGNORED_FLAGS := [
  "--leader-elect"; "--health-probe-bind-address"; "--leader-election-id"; "--leader-election-namespace";
  "--leader-election-identity"; "--leader-lease-duration-seconds"; "--leader-renew-grace-seconds";
  "--controller-image"; "--activation-token"; "--metrics-bind-address"].

(** The loop of [controller_arguments] on the arguments that remain. *)
Fixpoint arguments_loop (arguments : list string) (provider version : option string)
    : option (string * string) :=
  match arguments with
  | [] => and_then (λ p, option_map (pair p) version) provider
  | argument :: rest =>
      if argument == "--probe-in-cluster" then arguments_loop rest provider version else
      let continue flag value rest' :=
        if flag == "--provider" then arguments_loop rest' (Some value) version
        else if flag == "--supported-kubernetes-version" then arguments_loop rest' provider (Some value)
        else if bool_decide (flag ∈ IGNORED_FLAGS) then arguments_loop rest' provider version
        else None in
      match split_once argument "="%char with
      | Some (flag, value) => continue flag value rest
      | None =>
          match rest with
          | [] => None
          | value :: rest' => continue argument value rest'
          end
      end
  end.
Definition controller_arguments (arguments : list string) : option (string * string) :=
  arguments_loop arguments None None.

Definition valid_version (value : string) : bool :=
  (length (split value "."%char) =? 3)%nat
  && all (λ part, negb (is_empty part) && all is_ascii_digit (bytes part)) (split value "."%char).

Definition deployment_capability (provider : ProviderMode) (deployment : Deployment) : CreationCapability :=
  match dep_spec deployment with
  | None => capability_unavailable "Tenant controller capability is malformed"
  | Some spec =>
      if negb (rolled_out (dep_meta deployment) (unwrap_or 1 (dsp_replicas spec)) (dep_status deployment))
      then capability_unavailable "Tenant controller rollout is not complete"
      else match filter_list (λ c, ct_name c == "manager") (unwrap_or [] (dsp_pod spec)) with
      | [manager] =>
          match controller_arguments (unwrap_or [] (ct_args manager)) with
          | None => capability_unavailable "Tenant controller arguments are malformed"
          | Some (configured_provider, configured_version) =>
              if configured_provider != expected_provider provider
              then capability_unavailable "Tenant controller provider does not match Tenant Admin"
              else let version := trim_start_matches configured_version "v"%char in
                   if valid_version version then AdminTypes.capability_available version
                   else capability_unavailable "Tenant controller supported version is unavailable"
          end
      | _ => capability_unavailable "Tenant controller capability is malformed"
      end
  end.

Definition load_creation_capability (provider : ProviderMode) : prog Resp CreationCapability :=
  do! reply <- perform (GetDeployment CONTROLLER_NAMESPACE CONTROLLER_DEPLOYMENT) ;;
  match reply with
  | Ok (Some deployment) => Ret (deployment_capability provider deployment)
  | Ok None => Ret (capability_unavailable "Tenant controller Deployment is unavailable")
  | Err _ => Ret (capability_unavailable "Tenant controller capability is unavailable")
  end.

(** *** Rollout and permissions *)
Definition deployment_rolled_out (deployment : Deployment) : bool :=
  rolled_out (dep_meta deployment) (unwrap_or 1 (and_then dsp_replicas (dep_spec deployment)))
    (dep_status deployment).

Definition is_true (v : option Value) : bool := match v with Some (VBool b) => b | _ => false end.

Definition review_allows (data : Value) : bool :=
  negb (negb (is_true (pointer data ["status"; "allowed"]))
        || is_true (pointer data ["status"; "denied"])
        || is_some_and (λ v, negb (is_empty v)) (and_then as_str (pointer data ["status"; "evaluationError"]))).

Fixpoint no_cutover (kinds : list string) : io SourceError unit :=
  match kinds with
  | [] => Ret (Ok tt)
  | kind :: rest =>
      try! cutover <- perform_map read_error (perform (GetAdmission kind CUTOVER_LOCK)) ;;
      if is_some cutover then Ret (Err not_ready) else no_cutover rest
  end.

Fixpoint may_access (nm : string) (verbs : list string) : io SourceError unit :=
  match verbs with
  | [] => Ret (Ok tt)
  | verb :: rest =>
      try! data <- perform_map read_error (perform (ReviewAccess (database_namespace nm) nm verb)) ;;
      if negb (review_allows data) then Ret (Err not_ready) else may_access nm rest
  end.

Definition rollout (tenant : Tenant) : io SourceError unit :=
  do! capability <- load_creation_capability (provider_mode tenant) ;;
  if negb (cc_available capability) then Ret (Err not_ready) else
  try! deployment <- read_opt (perform (GetDeployment CONTROLLER_NAMESPACE "database-controller")) not_ready ;;
  if negb (deployment_rolled_out deployment) then Ret (Err not_ready) else
  try! _ <- no_cutover ["ValidatingAdmissionPolicy"; "ValidatingAdmissionPolicyBinding"] ;;
  pure! nm <- ok_or (name (tenant_meta tenant)) unavailable ;;
  may_access nm ["get"; "update"].

(** ** Mutations *)
Definition with_entries (catalog : TenantDatabaseCatalog) (entries : gmap string CatalogEntry)
    : TenantDatabaseCatalog := {|
  tdc_meta := tdc_meta catalog;
  tdc_spec := {| tds_tenant_name := tds_tenant_name (tdc_spec catalog);
                 tds_tenant_uid := tds_tenant_uid (tdc_spec catalog);
                 tds_closed := tds_closed (tdc_spec catalog); tds_entries := entries |};
  tdc_status := tdc_status catalog |}.

Definition without_status (catalog : TenantDatabaseCatalog) : TenantDatabaseCatalog := {|
  tdc_meta := tdc_meta catalog; tdc_spec := tdc_spec catalog; tdc_status := None |}.

(** [v as i32] on a [u32]. *)
Definition as_i32 (v : Z) : Z := (v + 2 ^ 31) mod 2 ^ 32 - 2 ^ 31.

Definition insert (catalog : TenantDatabaseCatalog) (request : DatabaseAddRequest) (logical_uid : string)
    : result SourceError TenantDatabaseCatalog :=
  let! _ := exact_catalog catalog (dar_catalog_uid request) in
  if negb (valid_name (dar_name request)) || negb ((1 <=? dar_instances request) && (dar_instances request <=? 3))
  then Err SourceRejected else
  let entries := tds_entries (tdc_spec catalog) in
  if any (λ item, en_name item.2 == dar_name request) (ordered entries)
     || is_some (entries !! logical_uid)
     || bool_decide (DATABASE_LIMIT ≤ size entries)%nat
  then Err SourceConflict else
  Ok (with_entries catalog (<[logical_uid := {|
    en_name := dar_name request; en_instances := as_i32 (dar_instances request); en_deleting := false |}]> entries)).

Definition mark_delete (catalog : TenantDatabaseCatalog) (request : DatabaseDeleteRequest)
    : result SourceError TenantDatabaseCatalog :=
  let! _ := exact_catalog catalog (ddr_catalog_uid request) in
  if negb (valid_logical_uid (ddr_logical_uid request)) || negb (valid_name (ddr_confirmation request))
  then Err SourceRejected else
  let entries := tds_entries (tdc_spec catalog) in
  let! entry := ok_or (entries !! ddr_logical_uid request) StaleIdentity in
  if en_name entry != ddr_confirmation request then Err StaleIdentity else
  Ok (with_entries catalog (<[ddr_logical_uid request := {|
    en_name := en_name entry; en_instances := en_instances entry; en_deleting := true |}]> entries)).

(** What the catalog shows after a write whose outcome is unknown. *)
Definition recovered (current : TenantDatabaseCatalog) (logical_uid nm : string) (deleting : bool) : bool :=
  let entry := tds_entries (tdc_spec current) !! logical_uid in
  is_some_and (λ e, (en_name e == nm) && Bool.eqb (en_deleting e) deleting) entry
  || (deleting && is_none entry
      && negb (any (λ item, en_name item.2 == nm) (ordered (tds_entries (tdc_spec current))))).

Definition recover (tenant : Tenant) (catalog_uid logical_uid nm : string) (deleting : bool)
    : io SourceError CatalogView :=
  do! reply <- read tenant ;;
  match reply with
  | Err _ => Ret (Err MutationOutcomeUnknown)
  | Ok current =>
      if uid (tdc_meta current) != Some catalog_uid then Ret (Err StaleIdentity)
      else if recovered current logical_uid nm deleting
      then Ret (project current (provider_mode tenant) (capability_available tenant))
      else Ret (Err MutationOutcomeUnknown)
  end.

(** The object's name, from the server ([name_any]). *)
Definition catalog_name (catalog : TenantDatabaseCatalog) : string := unwrap_or "" (name (tdc_meta catalog)).

Definition replace_catalog (catalog : TenantDatabaseCatalog) : io KubeError TenantDatabaseCatalog :=
  let nm := catalog_name catalog in
  perform (ReplaceCatalog (database_namespace nm) nm (without_status catalog)).

Definition definite (e : KubeError) : bool :=
  match e with KubeApi code _ _ => any (Z.eqb code) [400; 403; 404; 422] | KubeOther _ => false end.

Definition is_conflict (e : KubeError) : bool := match e with KubeApi code _ _ => code =? 409 | KubeOther _ => false end.

(** One attempt of the loop, with the rest of the loop after a conflict. *)
Definition add_attempt (retry : io SourceError CatalogView) (tenant : Tenant) (request : DatabaseAddRequest)
    (logical_uid : string) : io SourceError CatalogView :=
  try! live <- live_tenant tenant ;;
  pure! _ <- ready live ;;
  try! _ <- rollout live ;;
  try! catalog <- read live ;;
  pure! updated <- insert catalog request logical_uid ;;
  do! reply <- replace_catalog updated ;;
  match reply with
  | Ok stored => Ret (project stored (provider_mode live) (capability_available live))
  | Err error =>
      if is_conflict error then retry
      else if definite error then Ret (Err (mutation_error error))
      else recover live (dar_catalog_uid request) logical_uid (dar_name request) false
  end.

(** [retries] counts the attempts that remain after this one. *)
Fixpoint add_loop (retries : nat) (tenant : Tenant) (request : DatabaseAddRequest) (logical_uid : string)
    : io SourceError CatalogView :=
  add_attempt
    match retries with
    | O => Ret (Err SourceConflict)
    | S retries' => add_loop retries' tenant request logical_uid
    end tenant request logical_uid.
Definition add (tenant : Tenant) (request : DatabaseAddRequest) (logical_uid : string) : io SourceError CatalogView :=
  add_loop 2 tenant request logical_uid.

Definition delete_attempt (retry : io SourceError CatalogView) (tenant : Tenant)
    (request : DatabaseDeleteRequest) : io SourceError CatalogView :=
  try! live <- live_tenant tenant ;;
  try! catalog <- read live ;;
  pure! updated <- mark_delete catalog request ;;
  do! reply <- replace_catalog updated ;;
  match reply with
  | Ok stored => Ret (project stored (provider_mode live) (capability_available live))
  | Err error =>
      if is_conflict error then retry
      else if definite error then Ret (Err (mutation_error error))
      else recover live (ddr_catalog_uid request) (ddr_logical_uid request) (ddr_confirmation request) true
  end.

Fixpoint delete_loop (retries : nat) (tenant : Tenant) (request : DatabaseDeleteRequest)
    : io SourceError CatalogView :=
  delete_attempt
    match retries with
    | O => Ret (Err SourceConflict)
    | S retries' => delete_loop retries' tenant request
    end tenant request.
Definition delete (tenant : Tenant) (request : DatabaseDeleteRequest) : io SourceError CatalogView :=
  delete_loop 2 tenant request.

(** ** Deletion of Tenants *)
Definition delete_response (nm u : string) (generation : option Z) (state : TenantDeleteState)
    : TenantDeleteResponse :=
  {| tdr_identity := {| tmi_name := nm; tmi_uid := u; tmi_generation := generation |}; tdr_state := state |}.

Fixpoint delete_tenant_loop (retries : nat) (nm expected_uid : string) : io SourceError TenantDeleteResponse :=
  try! found <- perform_map mutation_error (perform (GetTenantOpt nm)) ;;
  match found with
  | None => Ret (Ok (delete_response nm expected_uid None DeleteCompleted))
  | Some tenant =>
      pure! u <- ok_or (filter_non_empty (uid (tenant_meta tenant))) StaleIdentity ;;
      if u != expected_uid then Ret (Err StaleIdentity) else
      let generation := generation (tenant_meta tenant) in
      if is_some (deletion_timestamp (tenant_meta tenant))
      then Ret (Ok (delete_response nm u generation DeleteAccepted)) else
      do! reply <- perform (DeleteTenant nm {|
        precondition_uid := Some u; precondition_resource_version := resource_version (tenant_meta tenant);
        background := true |}) ;;
      match reply with
      | Ok _ => Ret (Ok (delete_response nm u generation DeleteAccepted))
      | Err error =>
          if database_error_status error =? 404 then Ret (Ok (delete_response nm u generation DeleteCompleted))
          else if is_conflict error then
            match retries with
            | S retries' => delete_tenant_loop retries' nm expected_uid
            | O => Ret (Err (mutation_error error))
            end
          else Ret (Err (mutation_error error))
      end
  end.
Definition delete_exact_tenant (nm expected_uid : string) : io SourceError TenantDeleteResponse :=
  delete_tenant_loop 2 nm expected_uid.
