(* ===== verification/DatabaseStatus.v ===== *)
(** * Identity and status writes of the database controller

    [database-controller/src/reconcile.rs]: the identity of a catalog with its
    Tenant and namespace, checked again before every write, and the receipt of
    the observing controller instance; and [status.rs]: the status of one
    entry, and the removal of an entry whose deletion is proved complete. *)

From S2P Require Import Prelude RustStd Kube Errors Effects Readiness DatabaseApi CatalogOps.

Definition TENANT_UID_LABEL := "tenancy.cnpg-vcluster.io/tenant-uid".
Definition TENANT_API_VERSION := "tenancy.cnpg-vcluster.io/v1alpha4".
Definition TENANT_FINALIZER := "tenancy.cnpg-vcluster.io/finalizer".
Definition RETRY : Z := 15.
Definition RESYNC : Z := 60.

Inductive Progress := ProgressChanged | ProgressWaiting | ProgressStable.

Definition next_action (waiting : bool) (retry resync : Z) : Action :=
  ActionRequeue (if waiting then retry else resync).
Definition creation_order (deleting closed : bool) : bool := deleting || closed.

(** Whether to stop, and the updated [waiting] flag. *)
Definition stop_after_progress (progress : Progress) (creating waiting : bool) : bool * bool :=
  match progress with
  | ProgressChanged => if creating then (false, true) else (true, waiting)
  | ProgressWaiting => (false, true)
  | ProgressStable => (false, waiting)
  end.

Inductive ObserveError :=
| Identity
| UnsupportedEntries
| Foreign
| PathFailed (e : PathError)
| AzureFailed (message : string)
| InvalidSpec (e : CatalogError)
| Api (e : KubeError).

(** ** Identity *)
Definition required_uid (meta : ObjectMeta) : result ObserveError string :=
  ok_or (filter_non_empty (uid meta)) Identity.

Definition field (value : Value) (path : list string) : result ObserveError string :=
  ok_or (filter_non_empty (and_then as_str (pointer value path))) Identity.

Definition name_any (meta : ObjectMeta) : string := unwrap_or "" (name meta).

Definition lists (values : option (list string)) (value : string) : bool :=
  is_some_and (any (λ v, v == value)) values.

(** The single owner of a catalog. *)
Definition owned_by_tenant (owners : option (list OwnerReference)) (tenant_name tenant_uid : string) : bool :=
  match owners with
  | Some [o] => (owner_api_version o == TENANT_API_VERSION) && (owner_kind o == "Tenant")
                && (owner_name o == tenant_name) && (owner_uid o == tenant_uid)
  | _ => false
  end.

Definition types_match (t : option TypeMeta) : bool :=
  is_some_and (λ types, (tm_api_version types == TENANT_API_VERSION) && (tm_kind types == "Tenant")) t.

Definition catalog_namespace (tenant_name : string) : string := "tenant-db-" +:+ tenant_name.

(** The conditions before the first read of a field of the Tenant. *)
Definition metadata_mismatch (catalog : TenantDatabaseCatalog) (tenant : DynamicObject) (ns : Namespace)
    (tenant_uid : string) : bool :=
  let tenant_name := tds_tenant_name (tdc_spec catalog) in
  (name_any (tdc_meta catalog) != tenant_name)
  || (namespace (tdc_meta catalog) != Some (catalog_namespace tenant_name))
  || (name_any (dyn_meta tenant) != tenant_name)
  || is_some (namespace (dyn_meta tenant))
  || negb (lists (finalizers (dyn_meta tenant)) TENANT_FINALIZER)
  || negb (types_match (dyn_types tenant))
  || (tds_tenant_uid (tdc_spec catalog) != tenant_uid)
  || (is_some (deletion_timestamp (dyn_meta tenant)) && negb (tds_closed (tdc_spec catalog)))
  || is_some (deletion_timestamp (tdc_meta catalog))
  || is_some (deletion_timestamp (ns_meta ns))
  || (name_any (ns_meta ns) != catalog_namespace tenant_name)
  || (get_label (ns_meta ns) TENANT_UID_LABEL != Some tenant_uid)
  || is_some_and (λ owners, match owners with [] => false | _ => true end) (owner_references (ns_meta ns))
  || negb (lists (finalizers (tdc_meta catalog)) FINALIZER)
  || negb (owned_by_tenant (owner_references (tdc_meta catalog)) tenant_name tenant_uid).

(** [a || f()? || g()?]: fields are read from left to right while the
    disjunction is undecided. *)
Definition field_differs (value : Value) (path : list string) (expected : list string)
    (rest : result ObserveError bool) : result ObserveError bool :=
  let! found := field value path in
  if bool_decide (found ∈ expected) then rest else Ok true.

Definition capability_mismatch (capability : Value) (ns_name ns_uid catalog_uid : string)
    : result ObserveError bool :=
  let stale key current := is_some_and (λ v, negb (is_empty v) && (v != current))
                             (and_then as_str (pointer capability [key])) in
  field_differs capability ["namespace"] [ns_name]
    (Ok (stale "namespaceUID" ns_uid || stale "catalogUID" catalog_uid)).

Definition verify_identity (catalog : TenantDatabaseCatalog) (tenant : DynamicObject) (ns : Namespace)
    : result ObserveError unit :=
  let! _ := map_err InvalidSpec (validate_spec (tdc_spec catalog)) in
  let tenant_name := tds_tenant_name (tdc_spec catalog) in
  let! tenant_uid := required_uid (dyn_meta tenant) in
  let! catalog_uid := required_uid (tdc_meta catalog) in
  let! namespace_uid := required_uid (ns_meta ns) in
  let! mismatch :=
    if metadata_mismatch catalog tenant ns tenant_uid then Ok true else
    field_differs (dyn_data tenant) ["spec"; "provider"; "type"] ["local"; "azure"]
      (field_differs (dyn_data tenant) ["status"; "catalogCreateIntent"; "namespace"] [name_any (ns_meta ns)]
        (field_differs (dyn_data tenant) ["status"; "catalogCreateIntent"; "name"] [tenant_name]
          (field_differs (dyn_data tenant) ["status"; "catalogCreateIntent"; "tenantUID"] [tenant_uid]
            (Ok false)))) in
  if (mismatch : bool) then Err Identity else
  match pointer (dyn_data tenant) ["status"; "databaseCapability"] with
  | Some capability =>
      let! stale := capability_mismatch capability (name_any (ns_meta ns)) namespace_uid catalog_uid in
      if (stale : bool) then Err Identity else Ok tt
  | None => Ok tt
  end.

Definition empty_catalog (catalog : TenantDatabaseCatalog) : bool :=
  bool_decide (tds_entries (tdc_spec catalog) = ∅)
  && is_none_or (λ s, bool_decide (cs_entries s = ∅)) (tdc_status catalog).

Definition verify_empty (catalog : TenantDatabaseCatalog) (tenant : DynamicObject) (ns : Namespace)
    : result ObserveError unit :=
  let! _ := verify_identity catalog tenant ns in
  if negb (empty_catalog catalog) then Err UnsupportedEntries else Ok tt.

Definition api {A} (p : io KubeError A) : io ObserveError A := perform_map Api p.

Definition verify_current (observed : TenantDatabaseCatalog) : io ObserveError TenantDatabaseCatalog :=
  let nm := name_any (tdc_meta observed) in
  pure! ns <- ok_or (namespace (tdc_meta observed)) Identity ;;
  try! current <- api (perform (ReadCatalog ns nm)) ;;
  pure! current_uid <- required_uid (tdc_meta current) ;;
  pure! observed_uid <- required_uid (tdc_meta observed) ;;
  if current_uid != observed_uid then Ret (Err Identity) else
  try! tenant <- api (perform (ReadTenant (tds_tenant_name (tdc_spec current)))) ;;
  try! database_ns <- api (perform (ReadNamespace ns)) ;;
  pure! _ <- verify_identity current tenant database_ns ;;
  try! latest <- api (perform (ReadCatalog ns nm)) ;;
  pure! latest_uid <- required_uid (tdc_meta latest) ;;
  if (latest_uid != current_uid)
     || (resource_version (tdc_meta latest) != resource_version (tdc_meta current))
     || (generation (tdc_meta latest) != generation (tdc_meta current))
  then Ret (Err Identity) else Ret (Ok latest).

(** ** The observer *)
Definition observer_of (catalog : TenantDatabaseCatalog) : option CatalogObservation :=
  and_then cs_observer (tdc_status catalog).

Definition observer_epoch_changed (catalog : TenantDatabaseCatalog) (pod_uid instance_id : string)
    : result ObserveError bool :=
  match observer_of catalog with
  | None => Ok false
  | Some observer =>
      let! u := required_uid (tdc_meta catalog) in
      if ob_catalog_uid observer != u then Err Identity
      else Ok ((ob_pod_uid observer != pod_uid) || (ob_instance_id observer != instance_id))
  end.

Definition observer_needs_refresh (catalog : TenantDatabaseCatalog) (pod_uid instance_id : string)
    : result ObserveError bool :=
  let! catalog_uid := required_uid (tdc_meta catalog) in
  let! generation := ok_or (generation (tdc_meta catalog)) Identity in
  Ok (is_none_or (λ observer,
        (ob_catalog_uid observer != catalog_uid) || (ob_observed_generation observer != generation)
        || is_empty (ob_observed_resource_version observer)
        || (ob_pod_uid observer != pod_uid) || (ob_instance_id observer != instance_id)) (observer_of catalog)).

Definition has_issued_intents (catalog : TenantDatabaseCatalog) : bool :=
  is_some_and (λ status, any (λ item, any (λ i, ic_state i == Issued) (es_create_intents item.2))
                           (ordered (cs_entries status))) (tdc_status catalog).

Definition record_observer (observed : TenantDatabaseCatalog) (pod_uid instance_id : string)
    : io ObserveError TenantDatabaseCatalog :=
  try! current <- verify_current observed ;;
  pure! catalog_uid <- required_uid (tdc_meta current) ;;
  pure! rv <- ok_or (filter_non_empty (resource_version (tdc_meta current))) Identity ;;
  pure! gen <- ok_or (generation (tdc_meta current)) Identity ;;
  if is_empty pod_uid || is_empty instance_id then Ret (Err Identity) else
  let receipt := {| ob_catalog_uid := catalog_uid; ob_observed_generation := gen;
                    ob_observed_resource_version := rv; ob_pod_uid := pod_uid; ob_instance_id := instance_id |} in
  pure! ns <- ok_or (namespace (tdc_meta current)) Identity ;;
  try! patched <- api (perform (PatchObserver ns (name_any (tdc_meta current)) rv receipt)) ;;
  pure! patched_uid <- required_uid (tdc_meta patched) ;;
  if (patched_uid != catalog_uid) || (generation (tdc_meta patched) != Some gen) then Ret (Err Identity) else
  try! latest <- verify_current patched ;;
  if (observer_of latest != Some receipt) || (generation (tdc_meta latest) != Some gen)
  then Ret (Err Identity) else Ret (Ok latest).

Definition observe (observed : TenantDatabaseCatalog) (pod_uid instance_id : string)
    : io ObserveError (Action * TenantDatabaseCatalog) :=
  try! current <- verify_current observed ;;
  if negb (empty_catalog current) then Ret (Err UnsupportedEntries) else
  pure! refresh <- observer_needs_refresh current pod_uid instance_id ;;
  if negb refresh then Ret (Ok (ActionRequeue RESYNC, current)) else
  try! latest <- record_observer current pod_uid instance_id ;;
  Ret (Ok (ActionRequeue RESYNC, latest)).

Definition error_policy : Action := ActionRequeue RETRY.

(** The entry point, for what the providers do with the entries. *)
Definition reconcile
    (local azure : TenantDatabaseCatalog → bool → io ObserveError (Action * TenantDatabaseCatalog))
    (observed : TenantDatabaseCatalog) (pod_uid instance_id : string)
    : io ObserveError (Action * TenantDatabaseCatalog) :=
  try! current <- verify_current observed ;;
  if empty_catalog current then observe current pod_uid instance_id else
  pure! replay_issued <- observer_epoch_changed current pod_uid instance_id ;;
  try! tenant <- api (perform (ReadTenant (tds_tenant_name (tdc_spec current)))) ;;
  pure! provider <- field (dyn_data tenant) ["spec"; "provider"; "type"] ;;
  try! outcome <- (if provider == "local" then local current replay_issued
                   else if provider == "azure" then azure current replay_issued
                   else Ret (Err UnsupportedEntries)) ;;
  let '(action, verified) := outcome in
  if has_issued_intents verified then Ret (Ok (action, verified)) else
  pure! refresh <- observer_needs_refresh verified pod_uid instance_id ;;
  if (refresh : bool) then
    try! latest <- record_observer verified pod_uid instance_id ;;
    Ret (Ok (ActionRequeue RETRY, latest))
  else Ret (Ok (action, verified)).

(** ** Status of one entry *)
Definition guard (current observed : TenantDatabaseCatalog) : result ObserveError unit :=
  if (uid (tdc_meta current) != uid (tdc_meta observed))
     || (resource_version (tdc_meta current) != resource_version (tdc_meta observed))
     || is_none_or is_empty (resource_version (tdc_meta current))
  then Err Identity else Ok tt.

Definition new_status (current : TenantDatabaseCatalog) (entry_uid : string) (next : option EntryStatus)
    : result ObserveError CatalogStatus :=
  let status := unwrap_or default_catalog_status (tdc_status current) in
  let entries := tds_entries (tdc_spec current) in
  match next with
  | Some next =>
      if (es_logical_uid next != entry_uid) || is_none (entries !! entry_uid) then Err Identity
      else Ok {| cs_entries := <[entry_uid := next]> (cs_entries status); cs_observer := cs_observer status |}
  | None =>
      if is_some (entries !! entry_uid) then Err Identity
      else Ok {| cs_entries := base.delete entry_uid (cs_entries status); cs_observer := cs_observer status |}
  end.

Definition with_status (catalog : TenantDatabaseCatalog) (status : CatalogStatus) : TenantDatabaseCatalog :=
  {| tdc_meta := tdc_meta catalog; tdc_spec := tdc_spec catalog; tdc_status := Some status |}.

Definition update (observed : TenantDatabaseCatalog) (entry_uid : string) (next : option EntryStatus)
    : io ObserveError TenantDatabaseCatalog :=
  try! current <- verify_current observed ;;
  pure! _ <- guard current observed ;;
  pure! status <- new_status current entry_uid next ;;
  pure! ns <- ok_or (namespace (tdc_meta current)) Identity ;;
  try! updated <- api (perform (ReplaceCatalogStatus ns (name_any (tdc_meta current)) (with_status current status))) ;;
  if (uid (tdc_meta updated) != uid (tdc_meta current))
     || (generation (tdc_meta updated) != generation (tdc_meta current))
     || (resource_version (tdc_meta updated) == resource_version (tdc_meta current))
     || (tdc_status updated != Some status)
  then Ret (Err Identity) else
  try! latest <- verify_current updated ;;
  if (resource_version (tdc_meta latest) != resource_version (tdc_meta updated))
     || (tdc_status latest != Some status)
  then Ret (Err Identity) else Ret (Ok latest).

Definition removable (current : TenantDatabaseCatalog) (entry_uid : string) : bool :=
  is_some_and en_deleting (tds_entries (tdc_spec current) !! entry_uid)
  && is_some_and (terminal_proof entry_uid) (and_then (λ s, cs_entries s !! entry_uid) (tdc_status current)).

Definition without_entry (catalog : TenantDatabaseCatalog) (entry_uid : string) : TenantDatabaseCatalog := {|
  tdc_meta := tdc_meta catalog;
  tdc_spec := {| tds_tenant_name := tds_tenant_name (tdc_spec catalog);
                 tds_tenant_uid := tds_tenant_uid (tdc_spec catalog);
                 tds_closed := tds_closed (tdc_spec catalog);
                 tds_entries := base.delete entry_uid (tds_entries (tdc_spec catalog)) |};
  tdc_status := tdc_status catalog |}.

Definition remove_spec (observed : TenantDatabaseCatalog) (entry_uid : string)
    : io ObserveError TenantDatabaseCatalog :=
  try! current <- verify_current observed ;;
  pure! _ <- guard current observed ;;
  if negb (removable current entry_uid) then Ret (Err Identity) else
  pure! ns <- ok_or (namespace (tdc_meta current)) Identity ;;
  try! removed <- api (perform (ReplaceCatalog ns (name_any (tdc_meta current)) (without_entry current entry_uid))) ;;
  if (uid (tdc_meta removed) != uid (tdc_meta current)) || is_some (tds_entries (tdc_spec removed) !! entry_uid)
  then Ret (Err Identity) else Ret (Ok removed).
