(* ===== verification/DatabaseResources.v ===== *)
(** * Resources of one database

    [database-controller/src/ownership.rs], [resources/cnpg.rs] and
    [finalize/local.rs]: the names and labels that tie objects of the Tenant
    cluster to an entry of the catalog, the objects of a local database, and
    when every creation of an entry has a known outcome; with the comparisons
    of [reconcile/local.rs]. *)

From S2P Require Import Prelude RustStd Externals Paths Kube Errors Readiness DatabaseApi CatalogOps DatabaseStatus.

(** ** Ownership *)
Definition CATALOG_LABEL := "tenancy.cnpg-vcluster.io/catalog-uid".
Definition ENTRY_LABEL := "tenancy.cnpg-vcluster.io/database-uid".
Definition TENANT_LABEL := "tenancy.cnpg-vcluster.io/tenant-uid".

(** The error carries nothing; callers report [Foreign]. *)
Definition ownership_names `{Sha256Ops} (catalog_uid entry_uid : string) : result ObserveError (string * string) :=
  if negb (valid_logical_uid catalog_uid) || negb (valid_logical_uid entry_uid) then Err Foreign else
  let hex := sha256_hex (catalog_uid +:+ "/" +:+ entry_uid) in
  Ok ("db-" +:+ slice hex 0 48, "pg-" +:+ slice hex 0 47).

Definition ownership_labels (catalog : TenantDatabaseCatalog) (entry_uid : string)
    : result ObserveError (gmap string string) :=
  let! catalog_uid := ok_or (opt_filter valid_logical_uid (uid (tdc_meta catalog))) Foreign in
  Ok (<[CATALOG_LABEL := catalog_uid]> (<[ENTRY_LABEL := entry_uid]>
       {[TENANT_LABEL := tds_tenant_uid (tdc_spec catalog)]})).

Definition has_labels (meta : ObjectMeta) (wanted : gmap string string) : bool :=
  all (λ '(key, value), get_label meta key == Some value) (ordered wanted).

Definition ownership_check (meta : ObjectMeta) (catalog : TenantDatabaseCatalog) (entry_uid : string)
    (expected : option ResourceIdentity) : result ObserveError ResourceIdentity :=
  let! u := ok_or (filter_non_empty (uid meta)) Foreign in
  let! nm := ok_or (name meta) Foreign in
  let! wanted := ownership_labels catalog entry_uid in
  if negb (has_labels meta wanted)
     || is_some_and (λ id, (ri_name id != nm) || (ri_uid id != u)) expected
  then Err Foreign else Ok {| ri_name := nm; ri_uid := u |}.

(** ** Comparison with what is desired *)
Definition CNPG_CLUSTER_VERSION := "postgresql.cnpg.io/v1".

Definition owned_by_cluster (owners : option (list OwnerReference)) (cluster : ResourceIdentity) : bool :=
  match owners with
  | Some [o] => (owner_api_version o == CNPG_CLUSTER_VERSION) && (owner_kind o == "Cluster")
                && (owner_name o == ri_name cluster) && (owner_uid o == ri_uid cluster)
  | _ => false
  end.

Definition is_kind (object : DynamicObject) (kind : string) : bool :=
  is_some_and (λ types, tm_kind types == kind) (dyn_types object).

Definition entry_status (catalog : TenantDatabaseCatalog) (u : string) : option EntryStatus :=
  and_then (λ status, cs_entries status !! u) (tdc_status catalog).

Definition check_object (object : DynamicObject) (catalog : TenantDatabaseCatalog) (u nm : string)
    (expected : option ResourceIdentity) : result ObserveError ResourceIdentity :=
  if name_any (dyn_meta object) != nm then Err Foreign else
  let owners := owners_of (dyn_meta object) in
  if match owners with
     | [] => false
     | _ => negb (is_kind object "PersistentVolumeClaim"
                  && is_some_and (owned_by_cluster (Some owners))
                       (and_then es_cnpg_cluster (entry_status catalog u)))
     end
  then Err Foreign else ownership_check (dyn_meta object) catalog u expected.

Fixpoint contains_value (actual desired : Value) {struct desired} : bool :=
  match actual, desired with
  | VObject _, VObject wanted =>
      (fix go (wanted : list (string * Value)) : bool :=
         match wanted with
         | [] => true
         | (key, value) :: rest =>
             is_some_and (λ found, contains_value found value) (json_get actual key) && go rest
         end) wanted
  | _, _ => value_eqb actual desired
  end.

Definition volume_name_of (object : DynamicObject) : option string :=
  and_then as_str (pointer (dyn_data object) ["spec"; "volumeName"]).

Definition matches_desired (live desired : DynamicObject) : bool :=
  let claim := is_kind desired "PersistentVolumeClaim" in
  if claim && is_some (volume_name_of live) && (volume_name_of live != volume_name_of desired) then false else
  let data := if claim then json_update (dyn_data desired) "spec" (λ spec, json_remove spec "volumeName")
              else dyn_data desired in
  (name_any (dyn_meta live) == name_any (dyn_meta desired))
  && (namespace (dyn_meta live) == namespace (dyn_meta desired))
  && is_some_and (has_labels (dyn_meta live)) (labels (dyn_meta desired))
  && contains_value (dyn_data live) data.

(** ** API handles and objects *)
Definition handle (ns : option string) (group version kind plural : string) : ApiHandle :=
  {| ah_namespace := ns; ah_group := group; ah_version := version; ah_kind := kind; ah_plural := plural |}.
Definition core_handle (ns : option string) (kind plural : string) : ApiHandle := handle ns "" "v1" kind plural.

Definition new_object (api_version kind nm : string) (ns : option string) (lbls : gmap string string)
    (data : list (string * Value)) : DynamicObject := {|
  dyn_types := Some {| tm_api_version := api_version; tm_kind := kind |};
  dyn_meta := {| name := Some nm; namespace := ns; uid := None; resource_version := None; generation := None;
                 labels := Some lbls; annotations := None; owner_references := None; finalizers := None;
                 deletion_timestamp := None |};
  dyn_data := VObject data |}.

Definition namespace_object (catalog : TenantDatabaseCatalog) (u nm : string) : result ObserveError DynamicObject :=
  let! lbls := ownership_labels catalog u in
  Ok (new_object "v1" "Namespace" nm None lbls []).

(** ** The objects of a local database *)
Record LocalAccess := { la_root : string; la_worker_root : string; la_image : string }.

Definition STORAGE_CLASS := "capi-hostpath".

Definition claim_name (cluster : string) (ordinal : Z) : string := cluster +:+ "-" +:+ int_to_string ordinal.
Definition volume_name (cluster : string) (ordinal : Z) : string := "pv-" +:+ cluster +:+ "-" +:+ int_to_string ordinal.

Definition volume (catalog : TenantDatabaseCatalog) (u ns cluster : string) (ordinal : Z) (access : LocalAccess)
    (path : string) : result ObserveError DynamicObject :=
  let! relative := ok_or (path_strip_prefix path (la_root access)) Foreign in
  let host_path := path_join (la_worker_root access) relative in
  let! lbls := ownership_labels catalog u in
  Ok (new_object "v1" "PersistentVolume" (volume_name cluster ordinal) None lbls [
    ("spec", VObject [
      ("capacity", VObject [("storage", VString "1Gi")]);
      ("accessModes", VArray [VString "ReadWriteOnce"]);
      ("persistentVolumeReclaimPolicy", VString "Retain");
      ("storageClassName", VString STORAGE_CLASS);
      ("volumeMode", VString "Filesystem");
      ("hostPath", VObject [("path", VString host_path); ("type", VString "Directory")]);
      ("claimRef", VObject [("namespace", VString ns); ("name", VString (claim_name cluster ordinal))])])]).

Definition claim (catalog : TenantDatabaseCatalog) (u ns cluster : string) (ordinal : Z)
    : result ObserveError DynamicObject :=
  let! lbls := ownership_labels catalog u in
  let lbls := <["cnpg.io/cluster" := cluster]> (<["cnpg.io/instanceName" := claim_name cluster ordinal]>
    (<["cnpg.io/pvcRole" := "PG_DATA"]> (<["app.kubernetes.io/managed-by" := "cloudnative-pg"]>
    (<["app.kubernetes.io/name" := "postgresql"]> (<["app.kubernetes.io/component" := "database"]> lbls))))) in
  Ok (new_object "v1" "PersistentVolumeClaim" (claim_name cluster ordinal) (Some ns) lbls [
    ("spec", VObject [
      ("accessModes", VArray [VString "ReadWriteOnce"]);
      ("storageClassName", VString STORAGE_CLASS);
      ("volumeMode", VString "Filesystem");
      ("volumeName", VString (volume_name cluster ordinal));
      ("resources", VObject [("requests", VObject [("storage", VString "1Gi")])])])]).

Definition cluster_object (catalog : TenantDatabaseCatalog) (u ns nm : string) (instances : Z) (image : string)
    : result ObserveError DynamicObject :=
  let! lbls := ownership_labels catalog u in
  Ok (new_object CNPG_CLUSTER_VERSION "Cluster" nm (Some ns) lbls [
    ("spec", VObject [
      ("instances", VNumber instances); ("imageName", VString image); ("enableSuperuserAccess", VBool true);
      ("postgresUID", VNumber 26); ("postgresGID", VNumber 26);
      ("inheritedMetadata", VObject [("labels", json_labels lbls)]);
      ("storage", VObject [
        ("size", VString "1Gi"); ("storageClass", VString STORAGE_CLASS);
        ("pvcTemplate", VObject [
          ("storageClassName", VString STORAGE_CLASS);
          ("accessModes", VArray [VString "ReadWriteOnce"]);
          ("volumeMode", VString "Filesystem")])])])]).

(** ** Outcomes of creations *)
Definition find_storage (state : EntryStatus) (ordinal : Z) : option StorageIdentity :=
  find_first (λ s, si_ordinal s =? ordinal) (es_storage state).

Definition named (id : option ResourceIdentity) (nm : string) : bool := is_some_and (λ id, ri_name id == nm) id.

Definition intent_observed (state : EntryStatus) (intent : CreateIntent) : bool :=
  let stored (has : StorageIdentity → bool) :=
    any (λ s, (si_ordinal s =? ic_ordinal intent) && has s) (es_storage state) in
  let kind := ic_kind intent in
  if kind == "Namespace" then named (es_namespace state) (ic_name intent)
  else if kind == "Cluster" then named (es_cnpg_cluster state) (ic_name intent)
  else if kind == "Path" then stored (λ s, is_some_and (λ p, ends_with p ("/" +:+ ic_name intent)) (si_path s))
  else if kind == "PersistentVolume" then stored (λ s, named (si_pv s) (ic_name intent))
  else if kind == "PersistentVolumeClaim" then stored (λ s, named (si_pvc s) (ic_name intent))
  else if kind == "Disk" then stored (λ s, named (si_disk s) (ic_name intent) && is_some (si_arm_id s))
  else false.

Definition all_creates_resolved (state : EntryStatus) : bool :=
  all (λ intent, match ic_state intent with
                 | Planned | Issued => false
                 | Rejected => true
                 | Observed => intent_observed state intent
                 end) (es_create_intents state).
