(* ===== verification/TenantAccess.v ===== *)
(** * Access to a local Tenant

    [database-controller/src/tenant_access.rs]: before a local database is
    touched, the Tenant, its namespace, the foundation, the roots of the hosted
    cluster and the storage volume are read and must all belong to this
    Tenant; only then are the root of the volume and the image known.
    [canonical_exact_reference] is of [controller/src/resources/bootstrap.rs]. *)

From S2P Require Import Prelude RustStd Externals Paths Kube Errors Api Ownership Foundation Docker Effects Readiness.
From S2P Require Import DatabaseApi CatalogOps DatabaseStatus DatabaseResources.

Section Access.
Context `{SO : Sha256Ops, NO : Ipv4NetOps, SJ : SpecJson, FJ : FoundationJson}.

Definition required (value : option string) : result ObserveError string :=
  ok_or (filter_non_empty value) Identity.

Definition canonical_exact_reference (archive : ImageArchive) : result ObserveError string :=
  let! (_, digest) := ok_or (opt_filter (λ parts, negb (is_empty parts.2)) (rsplit_once (ia_reference archive) "@"%char))
                        Identity in
  Ok (ia_tagged archive +:+ "@" +:+ digest).

Definition check_tenant (catalog : TenantDatabaseCatalog) (tenant : Tenant) (status : TenantStatus)
    (capability : DatabaseCapability) (tenant_uid catalog_ns : string) (live_ns : Namespace)
    : result ObserveError unit :=
  if (tenant_uid != tds_tenant_uid (tdc_spec catalog))
     || (provider (tenant_spec tenant) != SpecLocal)
     || negb (lists (finalizers (tenant_meta tenant)) TENANT_FINALIZER)
     || (observed_generation status != generation (tenant_meta tenant))
     || (negb (tds_closed (tdc_spec catalog))
         && (is_some (deletion_timestamp (tenant_meta tenant)) || (phase status != Some PhaseReady)
             || negb (cap_available capability)))
     || (cap_namespace capability != catalog_ns)
  then Err Identity else
  let! ns_uid := required (uid (ns_meta live_ns)) in
  if cap_namespace_uid capability != ns_uid then Err Identity else
  let! catalog_uid := required (uid (tdc_meta catalog)) in
  if cap_catalog_uid capability != catalog_uid then Err Identity else Ok tt.

(** The foundation the Tenant is bound to, and the slot it holds. *)
Definition load_foundation (data : option (gmap string string)) (status : TenantStatus)
    : result ObserveError (Foundation * string * AllocationSlot) :=
  let! data := ok_or data Identity in
  let! raw := required (data !! "foundation.json") in
  let! hash := required (data !! "foundation.sha256") in
  let! value := map_err (λ _, Identity) (json_from_str raw) in
  let! image := ok_or (and_then as_str (pointer value ["controllerImage"])) Identity in
  let! runtime := map_err (λ _, Identity) (parse_runtime raw hash SUPPORTED_KUBERNETES_VERSION image) in
  if foundation_hash status != Some hash then Err Identity else
  let! foundation := map_err (λ _, Identity) (creation runtime (foundation_hash status)) in
  let! a := ok_or (allocation status) Identity in
  let! slot := ok_or (find_first (λ slot, (as_slot_id slot == slot_id a) && (as_endpoint slot == endpoint a)
                                          && (as_pod_cidr slot == pod_cidr a)
                                          && (as_service_cidr slot == service_cidr a)) (f_slots foundation))
               Identity in
  Ok (foundation, hash, slot).

Definition identity_of (catalog : TenantDatabaseCatalog) (tenant : Tenant) (tenant_uid hash : string)
    (foundation : Foundation) : Ownership.Identity := {|
  id_tenant_name := tds_tenant_name (tdc_spec catalog); id_tenant_uid := tenant_uid;
  id_spec_hash := spec_hash (tenant_spec tenant); id_foundation_hash := hash;
  id_ownership_label := fi_ownership_label (f_inputs foundation);
  id_lab_prefix := fi_lab_prefix (f_inputs foundation) |}.

(** The control plane belongs to the cluster. *)
Definition owned_by_root (owners : option (list OwnerReference)) (cluster : ObjectMeta) (ns : string) : bool :=
  match owners with
  | Some [o] => (owner_uid o == unwrap_or "" (uid cluster)) && (owner_name o == ns) && (owner_kind o == "Cluster")
                && (owner_api_version o == "cluster.x-k8s.io/v1beta2")
  | _ => false
  end.

Definition storage_labels (i : Ownership.Identity) (ns : string) : gmap string string :=
  <[FOUNDATION_ANNOTATION := id_foundation_hash i]> (<[SPEC_HASH_ANNOTATION := id_spec_hash i]>
    (<[TENANT_UID_ANNOTATION := id_tenant_uid i]> (<["cnpg-vcluster.capi/tenant" := ns]>
      (<["cnpg-vcluster.capi/role" := "tenant-storage"]> (identity_labels i))))).

(** The mount point of the volume, the root on the workers and the image. *)
Definition locate (foundation : Foundation) (volume_name : string) (volume : DockerVolume)
    : result ObserveError LocalAccess :=
  let root := dv_mountpoint volume in
  if negb (path_eq root ("/var/lib/docker/volumes/" +:+ volume_name +:+ "/_data")) || has_dots root
  then Err Identity else
  let worker_root := fi_storage_container_path (f_inputs foundation) in
  if negb (is_absolute worker_root) || path_eq worker_root "/" || has_dots worker_root then Err Identity else
  let! archive := ok_or (find_first (λ a, (ia_key a == "POSTGRES_IMAGE") && ia_worker a)
                           (ic_image_archives (f_cache foundation))) Identity in
  let! image := canonical_exact_reference archive in
  Ok {| la_root := root; la_worker_root := worker_root; la_image := image |}.

Definition load (catalog : TenantDatabaseCatalog) : io ObserveError LocalAccess :=
  let ns := tds_tenant_name (tdc_spec catalog) in
  try! tenant <- api (perform (GetTenant ns)) ;;
  pure! tenant_uid <- required (uid (tenant_meta tenant)) ;;
  pure! status <- ok_or (tenant_status tenant) Identity ;;
  pure! capability <- ok_or (database_capability status) Identity ;;
  pure! catalog_ns <- ok_or (namespace (tdc_meta catalog)) Identity ;;
  try! live_ns <- api (perform (ReadNamespace catalog_ns)) ;;
  pure! _ <- check_tenant catalog tenant status capability tenant_uid catalog_ns live_ns ;;
  try! foundation_map <- api (perform (ReadConfigMap "tenant-system" "tenant-foundation")) ;;
  pure! loaded <- load_foundation (cm_data foundation_map) status ;;
  let '(foundation, hash, slot) := loaded in
  let identity := identity_of catalog tenant tenant_uid hash foundation in
  try! cluster <- api (perform (ReadManaged (handle (Some ns) "cluster.x-k8s.io" "v1beta2" "Cluster" "clusters") ns)) ;;
  pure! _ <- map_err (λ _, Identity) (validate_root_ownership (dyn_meta cluster) identity "cluster") ;;
  if cluster_uid status != uid (dyn_meta cluster) then Ret (Err Identity) else
  try! plane <- api (perform (ReadManaged (handle (Some ns) "controlplane.cluster.x-k8s.io" "v1alpha2"
                                "KamajiControlPlane" "kamajicontrolplanes") ns)) ;;
  pure! _ <- map_err (λ _, Identity) (validate_root_ownership (dyn_meta plane) identity "kamaji-control-plane") ;;
  if negb (owned_by_root (owner_references (dyn_meta plane)) (dyn_meta cluster) ns) then Ret (Err Identity) else
  try! _ <- perform_map (λ _, Identity) (perform (LoadTenantClient plane ns ns
              (as_endpoint slot +:+ ":" +:+ decimal (fi_api_port (f_inputs foundation))))) ;;
  let volume_name := fi_lab_prefix (f_inputs foundation) +:+ "-" +:+ ns +:+ "-storage" in
  try! _ <- perform_map (λ _, Identity) (perform (ConnectDocker "/var/run/docker.sock")) ;;
  try! found <- perform_map (λ _, Identity) (perform (InspectVolume volume_name)) ;;
  pure! volume <- ok_or found Identity ;;
  pure! _ <- map_err (λ _, Identity) (validate_volume volume volume_name (storage_labels identity ns)) ;;
  Ret (locate foundation volume_name volume).
End Access.
