(* ===== verification/AzureConfig.v ===== *)
(** * Configuration of the Azure provider

    [controller/src/azure.rs]: the configuration in the provider's ConfigMap,
    which carries a hash of the rest of itself, and the binding of a Tenant to
    it. *)

From S2P Require Import Prelude RustStd Externals Kube Errors Api Foundation.

Definition CONFIG_NAME := "tenant-azure-provider".
Definition CONFIG_KEY := "provider.json".

Record AzureProviderConfiguration := {
  ac_schema : Z;
  ac_subscription_id : string;
  ac_tenant_id : string;
  ac_location : string;
  ac_resource_group_name : string;
  ac_resource_group_id : string;
  ac_vnet_name : string;
  ac_vnet_id : string;
  ac_tenant_subnet_name : string;
  ac_tenant_subnet_id : string;
  ac_identity_name : string;
  ac_identity_id : string;
  ac_identity_client_id : string;
  ac_supported_kubernetes_version : string;
  ac_worker_sku : string;
  ac_capi_version : string;
  ac_capz_version : string;
  ac_kamaji_capi_version : string;
  ac_kamaji_chart_version : string;
  ac_aso_version : string;
  ac_cloud_provider_version : string;
  ac_calico_version : string;
  ac_calico_crds_chart_sha256 : string;
  ac_calico_operator_chart_sha256 : string;
  ac_controller_image : string;
  ac_foundation_defaults_sha256 : string;
  ac_foundation_sha256 : string;
}.

Record AzureConfiguration := {
  azc_values : AzureProviderConfiguration;
  azc_config_map_uid : string;
  azc_sha256 : string;
}.

Inductive AzureConfigurationError :=
| AzMissing
| AzJson (message : string)
| AzUid
| AzSchema
| AzField (name : string)
| AzFoundationHash.

(** [serde_json::from_str] at this type. *)
Class AzureConfigJson := {
  azure_config_from_str : string → result string AzureProviderConfiguration;
}.

(** [serde_json::to_value]: fields in camel case, ordered by key. *)
Definition azure_config_value (c : AzureProviderConfiguration) : list (string * Value) := [
  ("asoVersion", VString (ac_aso_version c));
  ("calicoCrdsChartSha256", VString (ac_calico_crds_chart_sha256 c));
  ("calicoOperatorChartSha256", VString (ac_calico_operator_chart_sha256 c));
  ("calicoVersion", VString (ac_calico_version c));
  ("capiVersion", VString (ac_capi_version c));
  ("capzVersion", VString (ac_capz_version c));
  ("cloudProviderVersion", VString (ac_cloud_provider_version c));
  ("controllerImage", VString (ac_controller_image c));
  ("foundationDefaultsSha256", VString (ac_foundation_defaults_sha256 c));
  ("foundationSha256", VString (ac_foundation_sha256 c));
  ("identityClientId", VString (ac_identity_client_id c));
  ("identityId", VString (ac_identity_id c));
  ("identityName", VString (ac_identity_name c));
  ("kamajiCapiVersion", VString (ac_kamaji_capi_version c));
  ("kamajiChartVersion", VString (ac_kamaji_chart_version c));
  ("location", VString (ac_location c));
  ("resourceGroupId", VString (ac_resource_group_id c));
  ("resourceGroupName", VString (ac_resource_group_name c));
  ("schema", VNumber (ac_schema c));
  ("subscriptionId", VString (ac_subscription_id c));
  ("supportedKubernetesVersion", VString (ac_supported_kubernetes_version c));
  ("tenantId", VString (ac_tenant_id c));
  ("tenantSubnetId", VString (ac_tenant_subnet_id c));
  ("tenantSubnetName", VString (ac_tenant_subnet_name c));
  ("vnetId", VString (ac_vnet_id c));
  ("vnetName", VString (ac_vnet_name c));
  ("workerSku", VString (ac_worker_sku c))].

Definition three_part_version (value : string) : bool :=
  let value := strip_prefix_or value "v" in
  (length (split value "."%char) =? 3)%nat
  && all (λ part, negb (is_empty part) && all is_ascii_digit (bytes part)) (split value "."%char).

Definition is_hex_lower (c : ascii) : bool := is_ascii_digit c || ((97 <=? code c) && (code c <=? 102)).
Definition sha256_valid (value : string) : bool := (len value =? 64) && all is_hex_lower (bytes value).

(** The fields that have to be set, in the order they are checked. *)
Definition config_fields (c : AzureProviderConfiguration) : list (string * string) := [
  ("subscriptionId", ac_subscription_id c); ("tenantId", ac_tenant_id c);
  ("location", ac_location c); ("resourceGroupName", ac_resource_group_name c);
  ("resourceGroupId", ac_resource_group_id c); ("vnetName", ac_vnet_name c);
  ("vnetId", ac_vnet_id c); ("tenantSubnetName", ac_tenant_subnet_name c);
  ("tenantSubnetId", ac_tenant_subnet_id c); ("identityName", ac_identity_name c);
  ("identityId", ac_identity_id c); ("identityClientId", ac_identity_client_id c);
  ("supportedKubernetesVersion", ac_supported_kubernetes_version c); ("workerSku", ac_worker_sku c);
  ("capiVersion", ac_capi_version c); ("capzVersion", ac_capz_version c);
  ("kamajiCapiVersion", ac_kamaji_capi_version c); ("kamajiChartVersion", ac_kamaji_chart_version c);
  ("asoVersion", ac_aso_version c); ("cloudProviderVersion", ac_cloud_provider_version c);
  ("calicoVersion", ac_calico_version c);
  ("calicoCrdsChartSha256", ac_calico_crds_chart_sha256 c);
  ("calicoOperatorChartSha256", ac_calico_operator_chart_sha256 c);
  ("controllerImage", ac_controller_image c);
  ("foundationDefaultsSha256", ac_foundation_defaults_sha256 c);
  ("foundationSha256", ac_foundation_sha256 c);
  ("calicoCrdsChartSha256", ac_calico_crds_chart_sha256 c);
  ("calicoOperatorChartSha256", ac_calico_operator_chart_sha256 c)].

Definition check_field (field : string * string) : result AzureConfigurationError unit :=
  if is_empty field.2 || (trim field.2 != field.2) then Err (AzField field.1) else Ok tt.
Definition check_sha (field : string * string) : result AzureConfigurationError unit :=
  if negb (sha256_valid field.2) then Err (AzField field.1) else Ok tt.

Section Config.
Context `{SO : Sha256Ops, FJ : FoundationJson, AJ : AzureConfigJson}.

Definition azure_config_validate (c : AzureProviderConfiguration) : result AzureConfigurationError unit :=
  if negb (ac_schema c =? 1) then Err AzSchema else
  let! _ := try_for check_field (config_fields c) in
  if negb (three_part_version (ac_supported_kubernetes_version c)) then Err (AzField "supportedKubernetesVersion") else
  let! _ := try_for check_sha [("foundationDefaultsSha256", ac_foundation_defaults_sha256 c);
                               ("foundationSha256", ac_foundation_sha256 c)] in
  if negb (contains_str (ac_controller_image c) "@sha256:")
     || negb (starts_with (ac_resource_group_id c) "/subscriptions/")
     || negb (starts_with (ac_vnet_id c) "/subscriptions/")
     || negb (starts_with (ac_tenant_subnet_id c) "/subscriptions/")
     || negb (starts_with (ac_identity_id c) "/subscriptions/")
  then Err (AzField "Azure resource identity") else
  let value := VObject (filter_list (λ item, item.1 != "foundationSha256") (azure_config_value c)) in
  let! json := map_err AzJson (json_to_vec value) in
  if sha256_hex json != ac_foundation_sha256 c then Err AzFoundationHash else Ok tt.

Definition azure_from_config_map (config : ConfigMap) : result AzureConfigurationError AzureConfiguration :=
  let! raw := ok_or (and_then (lookup CONFIG_KEY) (cm_data config)) AzMissing in
  let! values := map_err AzJson (azure_config_from_str raw) in
  let! config_map_uid := ok_or (filter_non_empty (uid (cm_meta config))) AzUid in
  let! _ := azure_config_validate values in
  let! canonical := map_err AzJson (json_to_vec (VObject (azure_config_value values))) in
  Ok {| azc_values := values; azc_config_map_uid := config_map_uid; azc_sha256 := sha256_hex canonical |}.
End Config.

(** The binding of a Tenant to the configuration. *)
Definition azure_config_binding (c : AzureConfiguration) (tenant_uid specification_sha256 operation_id : string)
    : AzureBindingStatus :=
  let v := azc_values c in {|
  binding_tenant_uid := tenant_uid; binding_specification_sha256 := specification_sha256;
  binding_provider_config_uid := azc_config_map_uid c; binding_provider_config_sha256 := azc_sha256 c;
  binding_foundation_sha256 := ac_foundation_sha256 v;
  binding_foundation_defaults_sha256 := ac_foundation_defaults_sha256 v;
  binding_controller_image := ac_controller_image v; binding_resource_group_id := ac_resource_group_id v;
  binding_virtual_network_id := ac_vnet_id v; binding_tenant_subnet_id := ac_tenant_subnet_id v;
  binding_identity_id := ac_identity_id v; binding_operation_id := operation_id |}.

(** A deserialiser that knows one document. *)
Module AzureFixture.
Definition digest : string := "0000000000000000000000000000000000000000000000000000000000000000".
Definition id (kind nm : string) : string := "/subscriptions/sub/resourceGroups/group/" +:+ kind +:+ "/" +:+ nm.

Definition config : AzureProviderConfiguration := {|
  ac_schema := 1; ac_subscription_id := "sub"; ac_tenant_id := "11111111-1111-4111-8111-111111111111";
  ac_location := "westeurope"; ac_resource_group_name := "group";
  ac_resource_group_id := "/subscriptions/sub/resourceGroups/group"; ac_vnet_name := "vnet"; ac_vnet_id := id "vnets" "vnet";
  ac_tenant_subnet_name := "subnet"; ac_tenant_subnet_id := id "subnets" "subnet"; ac_identity_name := "identity";
  ac_identity_id := id "identities" "identity"; ac_identity_client_id := "client";
  ac_supported_kubernetes_version := "v1.34.0"; ac_worker_sku := "sku"; ac_capi_version := "v1"; ac_capz_version := "v1";
  ac_kamaji_capi_version := "v1"; ac_kamaji_chart_version := "v1"; ac_aso_version := "v2"; ac_cloud_provider_version := "v1";
  ac_calico_version := "v3"; ac_calico_crds_chart_sha256 := digest; ac_calico_operator_chart_sha256 := digest;
  ac_controller_image := "controller@sha256:0"; ac_foundation_defaults_sha256 := digest; ac_foundation_sha256 := digest |}.

#[export] Instance json : AzureConfigJson := {
  azure_config_from_str s := if s == "document" then Ok config else Err "unexpected document";
}.
End AzureFixture.
