(* ===== verification/AzureRuntime.v ===== *)
(** * The database runtime of an Azure Tenant

    [database-runtime/src/azure_runtime.rs]: the database operator and the disk
    driver of a Tenant cluster count as ready with their pinned images rolled
    out, the driver registered, and the storage class as expected; a missing
    storage class is created. *)

From S2P Require Import Prelude RustStd Kube Errors Effects Readiness DatabaseApi CatalogOps DatabaseResources.

Definition CNPG_IMAGE := "ghcr.io/cloudnative-pg/cloudnative-pg:1.30.0@sha256:a2701eb97cdd2a34b1fdb2cb51987f544b706e40bec72ae7146cd8580efefebb".
Definition AZURE_DISK_IMAGE := "mcr.microsoft.com/oss/v2/kubernetes-csi/azuredisk-csi:v1.32.12@sha256:96ed94bea5da1fc6bc1e9a75f8a666c467e95a4fe06079a7bbacf469cf6a4cbd".
Definition AZURE_STORAGE_CLASS := "cnpg-azure-disk".
Definition DEFAULT_CLASS := "storageclass.kubernetes.io/is-default-class".

Definition expected_class : StorageClass := {|
  sc_meta := {| name := Some AZURE_STORAGE_CLASS; namespace := None; uid := None; resource_version := None;
    generation := None; labels := None; annotations := Some {[DEFAULT_CLASS := "false"]}; owner_references := None;
    finalizers := None; deletion_timestamp := None |};
  sc_provisioner := "disk.csi.azure.com"; sc_reclaim_policy := Some "Retain";
  sc_volume_binding_mode := Some "WaitForFirstConsumer"; sc_allow_volume_expansion := None;
  sc_parameters := None; sc_mount_options := None; sc_allowed_topologies := None |}.

Definition no_items {A} (l : list A) : bool := match l with [] => true | _ => false end.

Definition valid_class (class : StorageClass) : bool :=
  is_none (deletion_timestamp (sc_meta class))
  && is_some_and (λ u, negb (is_empty u)) (uid (sc_meta class))
  && (name (sc_meta class) == name (sc_meta expected_class))
  && (annotations (sc_meta class) == annotations (sc_meta expected_class))
  && (sc_provisioner class == sc_provisioner expected_class)
  && (sc_reclaim_policy class == sc_reclaim_policy expected_class)
  && (sc_volume_binding_mode class == sc_volume_binding_mode expected_class)
  && is_none_or negb (sc_allow_volume_expansion class)
  && is_none_or (λ m, bool_decide (m = ∅)) (sc_parameters class)
  && is_none_or no_items (sc_mount_options class)
  && is_none_or no_items (sc_allowed_topologies class).

Definition ensure_class : io KubeError bool :=
  try! found <- perform (GetStorageClass AZURE_STORAGE_CLASS) ;;
  match found with
  | Some class => Ret (Ok (valid_class class))
  | None =>
      try! _ <- perform (CreateStorageClass expected_class) ;;
      Ret (Ok false)
  end.

Definition has_image (container_name image : string) (container : Value) : bool :=
  (and_then as_str (pointer container ["name"]) == Some container_name)
  && (and_then as_str (pointer container ["image"]) == Some image).

Definition workload_ready (object : DynamicObject) (container_name image : string) : bool :=
  if is_some (deletion_timestamp (dyn_meta object)) then false else
  let data := dyn_data object in
  let generation := unwrap_or 0 (generation (dyn_meta object)) in
  let desired := unwrap_or 1 (and_then as_i64 (pointer data ["spec"; "replicas"])) in
  let daemon := and_then as_i64 (pointer data ["status"; "desiredNumberScheduled"]) in
  let count := unwrap_or desired daemon in
  (0 <? count)
  && is_some_and (λ value, generation <=? value) (and_then as_i64 (pointer data ["status"; "observedGeneration"]))
  && (and_then as_i64 (pointer data (if is_some daemon then ["status"; "numberReady"] else ["status"; "availableReplicas"]))
        == Some count)
  && (and_then as_i64 (pointer data (if is_some daemon then ["status"; "updatedNumberScheduled"]
                                     else ["status"; "updatedReplicas"])) == Some count)
  && is_some_and (any (has_image container_name image))
       (and_then as_array (pointer data ["spec"; "template"; "spec"; "containers"])).

Definition workload (ns nm kind container_name image : string) : io KubeError bool :=
  let plural := if kind == "DaemonSet" then "daemonsets" else "deployments" in
  try! found <- perform (FindObject (handle (Some ns) "apps" "v1" kind plural) nm) ;;
  Ret (Ok (is_some_and (λ object, workload_ready object container_name image) found)).

Definition observe_disk : io KubeError string :=
  try! found <- perform (FindObject (handle None "storage.k8s.io" "v1" "CSIDriver" "csidrivers") "disk.csi.azure.com") ;;
  if is_none_or (λ driver, is_none (uid (dyn_meta driver)) || is_some (deletion_timestamp (dyn_meta driver))) found
  then Ret (Ok "DiskCSINotReady") else
  try! valid <- ensure_class ;;
  if negb valid then Ret (Ok "StoragePolicyNotReady") else Ret (Ok "Ready").

(** All three workloads are read before anything is decided. *)
Definition observe_runtime : io KubeError string :=
  do! operator <- workload "cnpg-system" "cnpg-cloudnative-pg" "Deployment" "manager" CNPG_IMAGE ;;
  do! controller <- workload "kube-system" "csi-azuredisk-controller" "Deployment" "azuredisk" AZURE_DISK_IMAGE ;;
  do! node <- workload "kube-system" "csi-azuredisk-node" "DaemonSet" "azuredisk" AZURE_DISK_IMAGE ;;
  do! disk_reason <- match controller, node with
                     | Ok true, Ok true => observe_disk
                     | Err error, _ | Ok _, Err error => Ret (Err error)
                     | _, _ => Ret (Ok "DiskCSINotReady")
                     end ;;
  pure! ready <- operator ;;
  if negb ready then Ret (Ok "OperatorNotReady") else Ret disk_reason.
