(* ===== verification/DatabaseRun.v ===== *)
(** * Steps on one database

    The operations of [database-controller/src/reconcile/local.rs] that both
    providers use: the recorded status of an entry is changed in memory and
    saved in the catalog, creations go through durable intents (planned, issued,
    and then rejected or observed), and objects are adopted and deleted only
    with proof of ownership.

    The code works on a catalog and a status behind mutable references, and
    its caller uses the status also after an error, so a step returns both in
    every case. *)

From S2P Require Import Prelude RustStd Externals Paths Kube Errors Effects Readiness DatabaseApi CatalogOps.
From S2P Require Import DatabaseStatus DatabaseResources.

(** ** The state *)
Record Run := { run_catalog : TenantDatabaseCatalog; run_state : EntryStatus }.

Definition db (A : Type) : Type := Run → prog Resp (result ObserveError A * Run).

Definition db_ret {A} (a : A) : db A := λ s, Ret (Ok a, s).
Definition db_err {A} (e : ObserveError) : db A := λ s, Ret (Err e, s).
Definition db_bind {A B} (m : db A) (f : A → db B) : db B := λ s,
  do! out <- m s ;;
  match out with
  | (Ok a, s') => f a s'
  | (Err e, s') => Ret (Err e, s')
  end.
Definition db_lift {A} (p : io ObserveError A) : db A := λ s, do! r <- p ;; Ret (r, s).
Definition db_pure {A} (r : result ObserveError A) : db A := λ s, Ret (r, s).
Definition db_get {A} (f : Run → A) : db A := λ s, Ret (Ok (f s), s).
Definition db_set (f : EntryStatus → EntryStatus) : db unit := λ s,
  Ret (Ok tt, {| run_catalog := run_catalog s; run_state := f (run_state s) |}).

Notation "'db!' x <- m ;; k" := (db_bind m (λ x, k))
  (at level 10, x pattern, m at level 99, k at level 200, format "'db!'  x  <-  m  ;; '//' k") : rust_scope.

Definition catalog_of : db TenantDatabaseCatalog := db_get run_catalog.
Definition state_of : db EntryStatus := db_get run_state.

(** ** Fields of a status *)
Definition set_conditions (c : list Condition) (p : DatabasePhase) (s : EntryStatus) : EntryStatus := {|
  es_logical_uid := es_logical_uid s; es_observed_generation := es_observed_generation s; es_phase := p;
  es_conditions := c; es_provider := es_provider s; es_namespace := es_namespace s;
  es_cnpg_cluster := es_cnpg_cluster s; es_credentials := es_credentials s; es_storage := es_storage s;
  es_instances := es_instances s; es_query := es_query s; es_finalization := es_finalization s;
  es_create_intents := es_create_intents s |}.
Definition set_phase (p : DatabasePhase) (s : EntryStatus) : EntryStatus := set_conditions (es_conditions s) p s.
Definition set_generation (g : Z) (s : EntryStatus) : EntryStatus := {|
  es_logical_uid := es_logical_uid s; es_observed_generation := g; es_phase := es_phase s;
  es_conditions := es_conditions s; es_provider := es_provider s; es_namespace := es_namespace s;
  es_cnpg_cluster := es_cnpg_cluster s; es_credentials := es_credentials s; es_storage := es_storage s;
  es_instances := es_instances s; es_query := es_query s; es_finalization := es_finalization s;
  es_create_intents := es_create_intents s |}.
Definition set_query (q : option QueryIdentity) (s : EntryStatus) : EntryStatus := {|
  es_logical_uid := es_logical_uid s; es_observed_generation := es_observed_generation s; es_phase := es_phase s;
  es_conditions := es_conditions s; es_provider := es_provider s; es_namespace := es_namespace s;
  es_cnpg_cluster := es_cnpg_cluster s; es_credentials := es_credentials s; es_storage := es_storage s;
  es_instances := es_instances s; es_query := q; es_finalization := es_finalization s;
  es_create_intents := es_create_intents s |}.
Definition set_namespace (id : option ResourceIdentity) (s : EntryStatus) : EntryStatus := {|
  es_logical_uid := es_logical_uid s; es_observed_generation := es_observed_generation s; es_phase := es_phase s;
  es_conditions := es_conditions s; es_provider := es_provider s; es_namespace := id;
  es_cnpg_cluster := es_cnpg_cluster s; es_credentials := es_credentials s; es_storage := es_storage s;
  es_instances := es_instances s; es_query := es_query s; es_finalization := es_finalization s;
  es_create_intents := es_create_intents s |}.
Definition set_cluster (id : option ResourceIdentity) (s : EntryStatus) : EntryStatus := {|
  es_logical_uid := es_logical_uid s; es_observed_generation := es_observed_generation s; es_phase := es_phase s;
  es_conditions := es_conditions s; es_provider := es_provider s; es_namespace := es_namespace s;
  es_cnpg_cluster := id; es_credentials := es_credentials s; es_storage := es_storage s;
  es_instances := es_instances s; es_query := es_query s; es_finalization := es_finalization s;
  es_create_intents := es_create_intents s |}.
Definition set_credentials (id : option ResourceIdentity) (s : EntryStatus) : EntryStatus := {|
  es_logical_uid := es_logical_uid s; es_observed_generation := es_observed_generation s; es_phase := es_phase s;
  es_conditions := es_conditions s; es_provider := es_provider s; es_namespace := es_namespace s;
  es_cnpg_cluster := es_cnpg_cluster s; es_credentials := id; es_storage := es_storage s;
  es_instances := es_instances s; es_query := es_query s; es_finalization := es_finalization s;
  es_create_intents := es_create_intents s |}.
Definition set_storage (l : list StorageIdentity) (s : EntryStatus) : EntryStatus := {|
  es_logical_uid := es_logical_uid s; es_observed_generation := es_observed_generation s; es_phase := es_phase s;
  es_conditions := es_conditions s; es_provider := es_provider s; es_namespace := es_namespace s;
  es_cnpg_cluster := es_cnpg_cluster s; es_credentials := es_credentials s; es_storage := l;
  es_instances := es_instances s; es_query := es_query s; es_finalization := es_finalization s;
  es_create_intents := es_create_intents s |}.
Definition set_instances (l : list InstanceObservation) (s : EntryStatus) : EntryStatus := {|
  es_logical_uid := es_logical_uid s; es_observed_generation := es_observed_generation s; es_phase := es_phase s;
  es_conditions := es_conditions s; es_provider := es_provider s; es_namespace := es_namespace s;
  es_cnpg_cluster := es_cnpg_cluster s; es_credentials := es_credentials s; es_storage := es_storage s;
  es_instances := l; es_query := es_query s; es_finalization := es_finalization s;
  es_create_intents := es_create_intents s |}.
Definition set_finalization (f : option FinalizationStatus) (s : EntryStatus) : EntryStatus := {|
  es_logical_uid := es_logical_uid s; es_observed_generation := es_observed_generation s; es_phase := es_phase s;
  es_conditions := es_conditions s; es_provider := es_provider s; es_namespace := es_namespace s;
  es_cnpg_cluster := es_cnpg_cluster s; es_credentials := es_credentials s; es_storage := es_storage s;
  es_instances := es_instances s; es_query := es_query s; es_finalization := f;
  es_create_intents := es_create_intents s |}.
Definition set_intents (l : list CreateIntent) (s : EntryStatus) : EntryStatus := {|
  es_logical_uid := es_logical_uid s; es_observed_generation := es_observed_generation s; es_phase := es_phase s;
  es_conditions := es_conditions s; es_provider := es_provider s; es_namespace := es_namespace s;
  es_cnpg_cluster := es_cnpg_cluster s; es_credentials := es_credentials s; es_storage := es_storage s;
  es_instances := es_instances s; es_query := es_query s; es_finalization := es_finalization s;
  es_create_intents := l |}.

(** ** Health *)
Definition health_reason (s : EntryStatus) (ready : bool) (blocked : option string) : string :=
  match blocked with
  | Some reason => reason
  | None =>
      if ready then "AllInstancesReady"
      else if is_none (es_credentials s) then "CredentialsPending"
      else if any (λ x, negb (si_healthy x)) (es_storage s) then "StoragePending"
      else "InstancesPending"
  end.

Definition health_phase (ready : bool) (p : DatabasePhase) : DatabasePhase :=
  if ready then DbReady
  else match p with DbReady | DbDegraded => DbDegraded | _ => DbProgressing end.

(** The clock, in whole seconds, is read only when the condition changes. *)
Definition set_health (ready : bool) (generation : Z) (blocked : option string) : db unit := λ s,
  let state := run_state s in
  let reason := health_reason state ready blocked in
  let status := if ready then "True" else "False" in
  let previous := opt_filter (λ c, (cond_status c == status) && (cond_reason c == reason))
                    (find_first (λ c, cond_type c == "Ready") (es_conditions state)) in
  do! transition <- match previous with
                    | Some c => Ret (cond_last_transition_time c)
                    | None => perform Now
                    end ;;
  db_set (set_conditions
    [{| cond_type := "Ready"; cond_status := status; cond_reason := reason; cond_message := reason;
        cond_observed_generation := Some generation; cond_last_transition_time := transition |}]
    (health_phase ready (es_phase state))) s.

Definition generation_of : db Z :=
  db! catalog <- catalog_of ;;
  db_pure (ok_or (generation (tdc_meta catalog)) Identity).

(** ** Saving *)
Definition save (u : string) : db unit := λ s,
  do! updated <- update (run_catalog s) u (Some (run_state s)) ;;
  match updated with
  | Ok catalog => Ret (Ok tt, {| run_catalog := catalog; run_state := run_state s |})
  | Err e => Ret (Err e, s)
  end.

(** Whether the catalog records another status than the one in memory. *)
Definition unsaved (u : string) : db bool := db_get (λ s, entry_status (run_catalog s) u != Some (run_state s)).

Definition blocked (u reason : string) : db bool :=
  db! _ <- db_set (set_query None) ;;
  db! generation <- generation_of ;;
  db! _ <- db_set (set_generation generation) ;;
  db! _ <- set_health false generation (Some reason) ;;
  db! changed <- unsaved u ;;
  if (changed : bool) then db! _ <- save u ;; db_ret true else db_ret false.

Definition blocked_progress (u reason : string) : db Progress :=
  db! changed <- blocked u reason ;;
  db_ret (if (changed : bool) then ProgressChanged else ProgressWaiting).

(** ** Intents *)
Definition for_intent (kind : string) (ordinal : Z) (i : CreateIntent) : bool :=
  (ic_kind i == kind) && (ic_ordinal i =? ordinal).

Definition intent (state : EntryStatus) (kind nm : string) (ordinal : Z) : result ObserveError (option CreateState) :=
  match filter_list (for_intent kind ordinal) (es_create_intents state) with
  | [] => Ok None
  | [i] => if ic_name i != nm then Err Foreign else Ok (Some (ic_state i))
  | _ => Err Foreign
  end.

Fixpoint put_intent (l : list CreateIntent) (kind nm : string) (ordinal : Z) (next : CreateState)
    : result ObserveError (list CreateIntent) :=
  match l with
  | [] => Ok [{| ic_kind := kind; ic_name := nm; ic_ordinal := ordinal; ic_state := next |}]
  | i :: l' =>
      if for_intent kind ordinal i then
        if ic_name i != nm then Err Foreign
        else Ok ({| ic_kind := ic_kind i; ic_name := ic_name i; ic_ordinal := ic_ordinal i; ic_state := next |} :: l')
      else let! rest := put_intent l' kind nm ordinal next in Ok (i :: rest)
  end.

Definition record (u kind nm : string) (ordinal : Z) (next : CreateState) : db unit :=
  db! state <- state_of ;;
  db! intents <- db_pure (put_intent (es_create_intents state) kind nm ordinal next) ;;
  db! _ <- db_set (set_intents intents) ;;
  save u.

Definition definite_rejection (e : KubeError) : bool :=
  match e with
  | KubeApi code _ _ => (400 <=? code) && (code <? 500) && negb (any (Z.eqb code) [408; 409; 429])
  | KubeOther _ => false
  end.

Definition issued_or_observed (previous : option CreateState) : bool :=
  (previous == Some Issued) || (previous == Some Observed).
Definition may_issue (previous : option CreateState) : bool := negb (issued_or_observed previous).

(** The identity an entry has recorded for an object. *)
Definition bound (state : EntryStatus) (kind : string) (ordinal : Z) : option ResourceIdentity :=
  if kind == "Namespace" then es_namespace state
  else if kind == "Cluster" then es_cnpg_cluster state
  else if kind == "PersistentVolume" then and_then si_pv (find_storage state ordinal)
  else if kind == "PersistentVolumeClaim" then and_then si_pvc (find_storage state ordinal)
  else None.

(** ** Creation *)
Definition announce (u kind nm : string) (ordinal : Z) (previous : option CreateState) (replay : bool) : db unit :=
  if replay then db_ret tt else
  db! _ <- (if previous != Some Planned then record u kind nm ordinal Planned else db_ret tt) ;;
  record u kind nm ordinal Issued.

Definition verify_run : db unit :=
  db! catalog <- catalog_of ;;
  db! _ <- db_lift (verify_current catalog) ;;
  db_ret tt.

(** An object that is already there counts only with an intent that was issued. *)
Definition observe_existing (u : string) (existing desired : DynamicObject) (kind : string) (ordinal : Z)
    (previous : option CreateState) : db (option ResourceIdentity) :=
  let nm := name_any (dyn_meta desired) in
  db! catalog <- catalog_of ;;
  db! state <- state_of ;;
  db! id <- db_pure (check_object existing catalog u nm (bound state kind ordinal)) ;;
  if negb (matches_desired existing desired) then db_err Foreign else
  if negb (issued_or_observed previous) then db_err Foreign else
  db! _ <- (if previous != Some Observed then record u kind nm ordinal Observed else db_ret tt) ;;
  db_ret (Some id).

Definition issue (u : string) (api_ : ApiHandle) (desired : DynamicObject) (kind : string) (ordinal : Z)
    : db (option ResourceIdentity) :=
  let nm := name_any (dyn_meta desired) in
  db! created <- (λ s, do! r <- perform (CreateObject api_ desired) ;; Ret (Ok r, s)) ;;
  match created with
  | Ok created =>
      db! catalog <- catalog_of ;;
      db! state <- state_of ;;
      db! id <- db_pure (check_object created catalog u nm (bound state kind ordinal)) ;;
      db! _ <- record u kind nm ordinal Observed ;;
      db_ret (Some id)
  | Err error =>
      if definite_rejection error
      then db! _ <- record u kind nm ordinal Rejected ;; db_err (Api error)
      else db_err (Api error)
  end.

Definition create_with_replay (u : string) (api_ : ApiHandle) (desired : DynamicObject) (kind : string) (ordinal : Z)
    (replay_issued : bool) : db (option ResourceIdentity) :=
  let nm := name_any (dyn_meta desired) in
  db! state <- state_of ;;
  db! previous <- db_pure (intent state kind nm ordinal) ;;
  db! found <- db_lift (api (perform (FindObject api_ nm))) ;;
  match found with
  | Some existing => observe_existing u existing desired kind ordinal previous
  | None =>
      let replay := replay_issued && (previous == Some Issued) in
      if negb (may_issue previous) && negb replay then db_ret None else
      db! _ <- announce u kind nm ordinal previous replay ;;
      db! _ <- verify_run ;;
      issue u api_ desired kind ordinal
  end.

(** ** Storage records *)

(** The storage record of an ordinal, added when it is missing. *)
Definition new_storage (size ordinal : Z) : StorageIdentity := {|
  si_ordinal := ordinal; si_requested_bytes := size; si_path := None; si_pv := None; si_pvc := None;
  si_disk := None; si_arm_id := None; si_healthy := false |}.

Definition storage (size ordinal : Z) (s : EntryStatus) : EntryStatus :=
  if any (λ x, si_ordinal x =? ordinal) (es_storage s) then s
  else set_storage (es_storage s ++ [new_storage size ordinal]) s.

Fixpoint update_first {A} (f : A → bool) (g : A → A) (l : list A) : list A :=
  match l with
  | [] => []
  | x :: l' => if f x then g x :: l' else x :: update_first f g l'
  end.

(** [storage(state, ordinal).field = value] *)
Definition edit_storage (size ordinal : Z) (g : StorageIdentity → StorageIdentity) (s : EntryStatus) : EntryStatus :=
  let s := storage size ordinal s in
  set_storage (update_first (λ x, si_ordinal x =? ordinal) g (es_storage s)) s.

Definition set_path (v : option string) (x : StorageIdentity) : StorageIdentity := {|
  si_ordinal := si_ordinal x; si_requested_bytes := si_requested_bytes x; si_path := v; si_pv := si_pv x;
  si_pvc := si_pvc x; si_disk := si_disk x; si_arm_id := si_arm_id x; si_healthy := si_healthy x |}.
Definition set_pv (v : option ResourceIdentity) (x : StorageIdentity) : StorageIdentity := {|
  si_ordinal := si_ordinal x; si_requested_bytes := si_requested_bytes x; si_path := si_path x; si_pv := v;
  si_pvc := si_pvc x; si_disk := si_disk x; si_arm_id := si_arm_id x; si_healthy := si_healthy x |}.
Definition set_pvc (v : option ResourceIdentity) (x : StorageIdentity) : StorageIdentity := {|
  si_ordinal := si_ordinal x; si_requested_bytes := si_requested_bytes x; si_path := si_path x; si_pv := si_pv x;
  si_pvc := v; si_disk := si_disk x; si_arm_id := si_arm_id x; si_healthy := si_healthy x |}.
Definition set_healthy (v : bool) (x : StorageIdentity) : StorageIdentity := {|
  si_ordinal := si_ordinal x; si_requested_bytes := si_requested_bytes x; si_path := si_path x; si_pv := si_pv x;
  si_pvc := si_pvc x; si_disk := si_disk x; si_arm_id := si_arm_id x; si_healthy := v |}.

(** ** Adoption and deletion *)
Definition SIZE : Z := 1024 * 1024 * 1024.

Definition assign (kind : string) (ordinal : Z) (id : ResourceIdentity)
    : result ObserveError (EntryStatus → EntryStatus) :=
  if kind == "Namespace" then Ok (set_namespace (Some id))
  else if kind == "Cluster" then Ok (set_cluster (Some id))
  else if kind == "PersistentVolume" then Ok (edit_storage SIZE ordinal (set_pv (Some id)))
  else if kind == "PersistentVolumeClaim" then Ok (edit_storage SIZE ordinal (set_pvc (Some id)))
  else Err Foreign.

(** What was created without its identity being recorded is recorded before it
    is deleted: a claim, which the database operator creates, by its owner, and
    anything else by its intent. *)
Definition adopt_found (u : string) (live desired : DynamicObject) (kind : string) (ordinal : Z) : db bool :=
  let nm := name_any (dyn_meta desired) in
  let is_claim := kind == "PersistentVolumeClaim" in
  db! state <- state_of ;;
  db! _ <- (if is_claim then db_ret tt else
            db! previous <- db_pure (intent state kind nm ordinal) ;;
            if issued_or_observed previous then db_ret tt else db_err Foreign) ;;
  db! catalog <- catalog_of ;;
  db! id <- db_pure (check_object live catalog u nm None) ;;
  if negb (matches_desired live desired) then db_err Foreign else
  if is_claim && negb (is_some_and (owned_by_cluster (owner_references (dyn_meta live))) (es_cnpg_cluster state))
  then db_err Foreign else
  db! put <- db_pure (assign kind ordinal id) ;;
  db! _ <- db_set put ;;
  db! _ <- (if is_claim then save u else record u kind nm ordinal Observed) ;;
  db_ret true.

Definition adopt (u : string) (api_ : ApiHandle) (desired : DynamicObject) (kind : string) (ordinal : Z) : db bool :=
  db! found <- db_lift (api (perform (FindObject api_ (name_any (dyn_meta desired))))) ;;
  db! state <- state_of ;;
  match found with
  | Some live =>
      if is_none (bound state kind ordinal) then adopt_found u live desired kind ordinal else db_ret false
  | None => db_ret false
  end.

Definition delete_by_uid (u : option string) : DeleteParams :=
  {| precondition_uid := u; precondition_resource_version := None; background := false |}.

Definition delete_exact (u : string) (api_ : ApiHandle) (desired : DynamicObject) (recorded : option ResourceIdentity)
    : db Progress :=
  let nm := name_any (dyn_meta desired) in
  db! found <- db_lift (api (perform (FindObject api_ nm))) ;;
  match found, recorded with
  | None, _ => db_ret ProgressStable
  | Some _, None => db_err Foreign
  | Some live, Some recorded =>
      db! catalog <- catalog_of ;;
      db! _ <- db_pure (check_object live catalog u nm (Some recorded)) ;;
      if negb (matches_desired live desired) then db_err Foreign else
      db! _ <- verify_run ;;
      db! _ <- db_lift (api (perform (DeleteObject api_ nm (delete_by_uid (Some (ri_uid recorded)))))) ;;
      db_ret ProgressWaiting
  end.
