(* ===== verification/DatabaseSteps.v ===== *)
(** * The life of one database, step by step

    What [ensure] and [finalize] of [reconcile/local.rs] and
    [reconcile/azure.rs] have in common: the namespace, the volumes, the
    PostgreSQL cluster and its claims are created in this order and deleted in
    the reverse order, one durable change at a time.  Where the providers
    differ, the steps take the difference as an argument. *)

From S2P Require Import Prelude RustStd Externals Kube Errors Effects Readiness DatabaseApi CatalogOps.
From S2P Require Import DatabaseStatus DatabaseResources DatabaseRun.

(** ** Steps that may end the reconciliation of a database *)
Definition step (A : Type) : Type := db (Progress + A).

Definition step_ret {A} (a : A) : step A := db_ret (inr a).
Definition finish {A} (p : Progress) : step A := db_ret (inl p).
Definition step_bind {A B} (m : step A) (f : A → step B) : step B :=
  db! out <- m ;;
  match out with
  | inl p => db_ret (inl p)
  | inr a => f a
  end.
Definition step_end (m : step Progress) : db Progress :=
  db! out <- m ;;
  db_ret match out with inl p => p | inr p => p end.

Notation "'step!' x <- m ;; k" := (step_bind m (λ x, k))
  (at level 10, x pattern, m at level 99, k at level 200, format "'step!'  x  <-  m  ;; '//' k") : rust_scope.

(** The catalog, the names and the size of a database. *)
Record Target := {
  tg_catalog : string;
  tg_uid : string;
  tg_namespace : string;
  tg_cluster : string;
  tg_instances : Z;
}.

(** [for ordinal in 1..=instances] *)
Definition ordinals (instances : Z) : list Z := map Z.of_nat (seq 1 (Z.to_nat instances)).

Fixpoint each {I S} (l : list I) (acc : S) (body : I → S → step S) : step S :=
  match l with
  | [] => step_ret acc
  | i :: l' => step! acc' <- body i acc ;; each l' acc' body
  end.

Definition as_usize (v : Z) : Z := v mod 2 ^ 64.

(** ** Shared pieces *)
Definition NAMESPACES : ApiHandle := core_handle None "Namespace" "namespaces".
Definition VOLUMES : ApiHandle := core_handle None "PersistentVolume" "persistentvolumes".
Definition CLAIMS (ns : string) : ApiHandle := core_handle (Some ns) "PersistentVolumeClaim" "persistentvolumeclaims".
Definition SECRETS (ns : string) : ApiHandle := core_handle (Some ns) "Secret" "secrets".
Definition PODS (ns : string) : ApiHandle := core_handle (Some ns) "Pod" "pods".
Definition CLUSTERS (ns : string) : ApiHandle := handle (Some ns) "postgresql.cnpg.io" "v1" "Cluster" "clusters".

Definition secret_name (cluster : string) : string := cluster +:+ "-superuser".

(** A status and the reason why the database waits. *)
Definition wait (u reason : string) {A} : step A :=
  db! p <- blocked_progress u reason ;;
  finish p.

Definition save_changed (u : string) (changed : bool) : step unit :=
  if changed then db! _ <- save u ;; finish ProgressChanged else step_ret tt.

(** An identity is recorded once and never replaced. *)
Definition bind_once {A} `{EqDecision A} (get : EntryStatus → option A) (put : A → EntryStatus → EntryStatus) (a : A)
    : db bool :=
  db! state <- state_of ;;
  if get state == Some a then db_ret false
  else if is_some (get state) then db_err Foreign
  else db! _ <- db_set (put a) ;; db_ret true.

Definition stored {A} (get : StorageIdentity → option A) (ordinal : Z) (s : EntryStatus) : option A :=
  and_then get (find_storage s ordinal).

Definition created_or_wait (u : string) (api_ : ApiHandle) (desired : DynamicObject) (kind : string) (ordinal : Z)
    (replay_issued : bool) : step ResourceIdentity :=
  db! outcome <- create_with_replay u api_ desired kind ordinal replay_issued ;;
  match outcome with
  | Some id => step_ret id
  | None => wait u "UnknownCreateOutcome"
  end.

(** ** Creation *)
Section Ensure.
Context (u ns cluster : string) (instances size : Z) (replay_issued : bool).

Definition ensure_namespace : step unit :=
  db! catalog <- catalog_of ;;
  db! desired <- db_pure (namespace_object catalog u ns) ;;
  step! id <- created_or_wait u NAMESPACES desired "Namespace" 0 replay_issued ;;
  db! changed <- bind_once es_namespace (λ id, set_namespace (Some id)) id ;;
  save_changed u changed.

Definition ensure_volume (desired_for : Z → db DynamicObject) (ordinal : Z) (changed : bool) : step bool :=
  db! desired <- desired_for ordinal ;;
  step! id <- created_or_wait u VOLUMES desired "PersistentVolume" ordinal replay_issued ;;
  db! _ <- db_set (storage size ordinal) ;;
  db! now <- bind_once (stored si_pv ordinal) (λ id, edit_storage size ordinal (set_pv (Some id))) id ;;
  step_ret (changed || now).

Definition ensure_volumes (desired_for : Z → db DynamicObject) : step unit :=
  step! changed <- each (ordinals instances) false (ensure_volume desired_for) ;;
  save_changed u changed.

Definition ensure_cluster (desired_for : TenantDatabaseCatalog → result ObserveError DynamicObject)
    : step ResourceIdentity :=
  db! catalog <- catalog_of ;;
  db! desired <- db_pure (desired_for catalog) ;;
  step! id <- created_or_wait u (CLUSTERS ns) desired "Cluster" 0 replay_issued ;;
  db! changed <- bind_once es_cnpg_cluster (λ id, set_cluster (Some id)) id ;;
  step! _ <- save_changed u changed ;;
  step_ret id.

(** The operator creates the claims; they are taken over when they are the
    cluster's and match. *)
Definition ensure_claim (desired_for : TenantDatabaseCatalog → Z → result ObserveError DynamicObject)
    (id : ResourceIdentity) (ordinal : Z) (acc : bool * bool) : step (bool * bool) :=
  let '(waiting, changed) := acc in
  db! catalog <- catalog_of ;;
  db! desired <- db_pure (desired_for catalog ordinal) ;;
  let nm := name_any (dyn_meta desired) in
  db! found <- db_lift (api (perform (FindObject (CLAIMS ns) nm))) ;;
  match found with
  | None => step_ret (true, changed)
  | Some actual =>
      db! state <- state_of ;;
      db! claimed <- db_pure (check_object actual catalog u nm (stored si_pvc ordinal state)) ;;
      if negb (owned_by_cluster (owner_references (dyn_meta actual)) id) || negb (matches_desired actual desired)
      then db_err Foreign else
      db! _ <- db_set (storage size ordinal) ;;
      if stored si_pvc ordinal state == Some claimed then step_ret (waiting, changed) else
      db! _ <- db_set (edit_storage size ordinal (set_pvc (Some claimed))) ;;
      step_ret (waiting, true)
  end.

Definition ensure_claims (desired_for : TenantDatabaseCatalog → Z → result ObserveError DynamicObject)
    (id : ResourceIdentity) : step unit :=
  step! outcome <- each (ordinals instances) (false, false) (ensure_claim desired_for id) ;;
  let '(waiting, changed) := outcome in
  if (waiting : bool) then wait u "ClaimPending" else save_changed u changed.

(** ** Observation *)
Definition observe_cluster : db DynamicObject :=
  db! live <- db_lift (api (perform (ReadObject (CLUSTERS ns) cluster))) ;;
  db! catalog <- catalog_of ;;
  db! state <- state_of ;;
  db! _ <- db_pure (check_object live catalog u cluster (es_cnpg_cluster state)) ;;
  db_ret live.

Definition observe_credentials (identify : DynamicObject → result ObserveError ResourceIdentity) : db unit :=
  db! found <- db_lift (api (perform (FindObject (SECRETS ns) (secret_name cluster)))) ;;
  db! state <- state_of ;;
  match found with
  | Some secret =>
      db! secret_id <- db_pure (identify secret) ;;
      if is_some_and (λ bound, bound != secret_id) (es_credentials state) then db_err Foreign
      else db_set (set_credentials (Some secret_id))
  | None => if is_some (es_credentials state) then db_err Foreign else db_ret tt
  end.

Definition ready_condition (v : Value) : bool :=
  (and_then as_str (pointer v ["type"]) == Some "Ready") && (and_then as_str (pointer v ["status"]) == Some "True").

Definition instance_of (id : ResourceIdentity) (pod : DynamicObject) : result ObserveError InstanceObservation :=
  if negb (owned_by_cluster (owner_references (dyn_meta pod)) id) then Err Foreign else
  let! pod_uid := ok_or (uid (dyn_meta pod)) Foreign in
  Ok {| io_name := name_any (dyn_meta pod); io_uid := pod_uid;
        io_role := unwrap_or "unknown" (and_then (lookup "cnpg.io/instanceRole") (labels (dyn_meta pod)));
        io_ready := is_some_and (any ready_condition) (and_then as_array (pointer (dyn_data pod) ["status"; "conditions"])) |}.

Definition observe_instances (id : ResourceIdentity) : db unit :=
  db! listed <- db_lift (api (perform (ListObjects (PODS ns) ("cnpg.io/cluster=" +:+ cluster) 4))) ;;
  let '(items, continue) := listed in
  if (as_usize instances <? Z.of_nat (length items)) || is_some continue then db_err Foreign else
  db! seen <- db_pure (try_map (instance_of id) items) ;;
  db_set (set_instances seen).

Definition is_bound (o : DynamicObject) : bool := and_then as_str (pointer (dyn_data o) ["status"; "phase"]) == Some "Bound".

(** The storage records are updated in place, one after the other. *)
Definition observe_storage_at (healthy : TenantDatabaseCatalog → StorageIdentity → DynamicObject → DynamicObject →
    result ObserveError bool) (i : nat) : db unit :=
  db! state <- state_of ;;
  match es_storage state !! i with
  | None => db_ret tt
  | Some item =>
      db! pv <- db_lift (api (perform (ReadObject VOLUMES (volume_name cluster (si_ordinal item))))) ;;
      db! pvc <- db_lift (api (perform (ReadObject (CLAIMS ns) (claim_name cluster (si_ordinal item))))) ;;
      db! catalog <- catalog_of ;;
      db! _ <- db_pure (check_object pv catalog u (name_any (dyn_meta pv)) (si_pv item)) ;;
      db! _ <- db_pure (check_object pvc catalog u (name_any (dyn_meta pvc)) (si_pvc item)) ;;
      db! v <- db_pure (healthy catalog item pv pvc) ;;
      db_set (λ s, set_storage (<[i := set_healthy v item]> (es_storage s)) s)
  end.

Fixpoint observe_storage (healthy : TenantDatabaseCatalog → StorageIdentity → DynamicObject → DynamicObject →
    result ObserveError bool) (l : list nat) : db unit :=
  match l with
  | [] => db_ret tt
  | i :: l' => db! _ <- observe_storage_at healthy i ;; observe_storage healthy l'
  end.

(** What was observed is published; a query target only for a ready database. *)
Definition publish (id : ResourceIdentity) (is_ready : EntryStatus → bool) : db Progress :=
  db! state <- state_of ;;
  let ready := is_ready state in
  db! generation <- generation_of ;;
  db! _ <- set_health ready generation None ;;
  db! _ <- db_set (λ s, set_query (option_map (λ secret, {| qi_cluster_uid := ri_uid id; qi_credential_uid := ri_uid secret |})
                                     (opt_filter (λ _, ready) (es_credentials s))) s) ;;
  db! _ <- db_set (set_generation generation) ;;
  db! changed <- unsaved u ;;
  if (changed : bool) then db! _ <- save u ;; db_ret ProgressChanged
  else db_ret (if ready then ProgressStable else ProgressWaiting).
End Ensure.

(** ** Deletion *)
Section Finalize.
Context (u ns cluster : string) (instances : Z).

(** The status says that the database is being deleted before anything is. *)
Definition announce_deletion (extra : EntryStatus → EntryStatus) : step unit :=
  db! generation <- generation_of ;;
  db! _ <- set_health false generation (Some "Deleting") ;;
  db! _ <- db_set (λ s, extra (set_generation generation (set_query None (set_phase DbDeleting s)))) ;;
  db! changed <- unsaved u ;;
  save_changed u changed.

(** Records the identity if it is not yet recorded, and otherwise deletes the
    object. *)
Definition retire (api_ : ApiHandle) (desired : DynamicObject) (kind : string) (ordinal : Z) : step Progress :=
  db! adopted <- adopt u api_ desired kind ordinal ;;
  if (adopted : bool) then finish ProgressChanged else
  db! state <- state_of ;;
  db! p <- delete_exact u api_ desired (bound state kind ordinal) ;;
  step_ret p.

Definition is_waiting (p : Progress) : bool := match p with ProgressWaiting => true | _ => false end.

Definition retire_cluster (desired_for : TenantDatabaseCatalog → result ObserveError DynamicObject) : step unit :=
  db! catalog <- catalog_of ;;
  db! desired <- db_pure (desired_for catalog) ;;
  step! p <- retire (CLUSTERS ns) desired "Cluster" 0 ;;
  if is_waiting p then finish ProgressWaiting else step_ret tt.

Definition retire_secret (identify : EntryStatus → DynamicObject → result ObserveError ResourceIdentity) : step bool :=
  db! found <- db_lift (api (perform (FindObject (SECRETS ns) (secret_name cluster)))) ;;
  match found with
  | None => step_ret false
  | Some secret =>
      db! state <- state_of ;;
      db! id <- db_pure (identify state secret) ;;
      if is_none (es_credentials state) then
        db! _ <- db_set (set_credentials (Some id)) ;;
        db! _ <- save u ;;
        finish ProgressChanged
      else
        db! _ <- verify_run ;;
        db! _ <- db_lift (api (perform (DeleteObject (SECRETS ns) (secret_name cluster) (delete_by_uid (Some (ri_uid id)))))) ;;
        step_ret true
  end.

Definition retire_each (api_ : ApiHandle) (kind : string)
    (desired_for : TenantDatabaseCatalog → Z → result ObserveError DynamicObject) (ordinal : Z) (waiting : bool) : step bool :=
  db! catalog <- catalog_of ;;
  db! desired <- db_pure (desired_for catalog ordinal) ;;
  step! p <- retire api_ desired kind ordinal ;;
  step_ret (waiting || is_waiting p).

Definition retire_claims (desired_for : TenantDatabaseCatalog → Z → result ObserveError DynamicObject) (waiting : bool)
    : step unit :=
  step! waiting <- each (ordinals instances) waiting (retire_each (CLAIMS ns) "PersistentVolumeClaim" desired_for) ;;
  if (waiting : bool) then finish ProgressWaiting else step_ret tt.

Definition retire_volumes (desired_for : TenantDatabaseCatalog → Z → result ObserveError DynamicObject) : step unit :=
  step! waiting <- each (ordinals instances) false (retire_each VOLUMES "PersistentVolume" desired_for) ;;
  if (waiting : bool) then finish ProgressWaiting else step_ret tt.

Definition retire_namespace : step unit :=
  db! catalog <- catalog_of ;;
  db! desired <- db_pure (namespace_object catalog u ns) ;;
  step! p <- retire NAMESPACES desired "Namespace" 0 ;;
  if is_waiting p then finish ProgressWaiting else step_ret tt.

(** The proof that nothing is left is recorded, and the entry removed once it
    is. *)
Definition settle : db Progress :=
  db! changed <- unsaved u ;;
  if (changed : bool) then db! _ <- save u ;; db_ret ProgressChanged else
  λ s, do! removed <- remove_spec (run_catalog s) u ;;
       match removed with
       | Ok catalog => Ret (Ok ProgressChanged, {| run_catalog := catalog; run_state := run_state s |})
       | Err e => Ret (Err e, s)
       end.
End Finalize.
