(* ===== verification/DatabaseProvider.v ===== *)
(** * Reconciliation of the databases of a catalog

    [reconcile] of [database-controller/src/reconcile/local.rs] and of
    [reconcile/azure.rs]: both drop the status of an entry that is gone, and
    otherwise go through the entries, those that are to be created first, each
    with the status that is recorded for it.  They differ in what a provider is
    here. *)

From S2P Require Import Prelude RustStd Externals Kube Errors Effects DatabaseApi CatalogOps.
From S2P Require Import DatabaseStatus DatabaseResources DatabaseRun DatabaseSteps.

Definition PROVIDER_RETRY : Z := 10.
Definition PROVIDER_RESYNC : Z := 60.


Record Provider (Access : Type) := {
  pr_load : TenantDatabaseCatalog → bool → io ObserveError Access;
  (** The status of a new entry, and what a recorded one has to satisfy. *)
  pr_entry : Access → string → Z → EntryStatus;
  pr_validate : Access → Target → EntryStatus → result ObserveError unit;
  pr_ensure : Access → bool → Target → db Progress;
  pr_finalize : Access → Target → db Progress;
  (** The errors that make the ownership of a database invalid, and the
      generation that is recorded then, from the one at the start and the
      current catalog. *)
  pr_foreign : ObserveError → bool;
  pr_generation : Z → TenantDatabaseCatalog → result ObserveError Z;
}.
Arguments pr_load {Access}. Arguments pr_entry {Access}. Arguments pr_validate {Access}.
Arguments pr_ensure {Access}. Arguments pr_finalize {Access}. Arguments pr_foreign {Access}.
Arguments pr_generation {Access}.

(** A status whose entry is gone. *)
Definition orphan (catalog : TenantDatabaseCatalog) : option string :=
  and_then (λ status, option_map fst (find_first (λ item, is_none (tds_entries (tdc_spec catalog) !! item.1))
                                        (ordered (cs_entries status)))) (tdc_status catalog).

(** A stable sort by a boolean key. *)
Definition sort_by_flag {A} (key : A → bool) (l : list A) : list A :=
  filter_list (λ x, negb (key x)) l ++ filter_list key l.

Definition sorted_entries (catalog : TenantDatabaseCatalog) : list (string * CatalogEntry) :=
  sort_by_flag (λ item, creation_order (en_deleting item.2) (tds_closed (tdc_spec catalog)))
    (ordered (tds_entries (tdc_spec catalog))).

(** The status of a database that is not ours, or not as it was recorded. *)
Definition mark_invalid (generation_for : TenantDatabaseCatalog → result ObserveError Z) (u : string) : db bool :=
  db! _ <- db_set (set_query None) ;;
  db! catalog <- catalog_of ;;
  db! generation <- db_pure (generation_for catalog) ;;
  db! _ <- db_set (set_generation generation) ;;
  db! _ <- set_health false generation (Some "OwnershipInvalid") ;;
  db! _ <- db_set (set_phase DbOwnershipInvalid) ;;
  db! changed <- unsaved u ;;
  if (changed : bool) then db! _ <- save u ;; db_ret true else db_ret false.

Section Loop.
Context `{SO : Sha256Ops} {Access : Type} (p : Provider Access).

Definition target_of (catalog : TenantDatabaseCatalog) (u : string) (spec : CatalogEntry)
    : result ObserveError Target :=
  let! catalog_uid := ok_or (uid (tdc_meta catalog)) Identity in
  let! names := ownership_names catalog_uid u in
  Ok {| tg_catalog := catalog_uid; tg_uid := u; tg_namespace := names.1; tg_cluster := names.2;
        tg_instances := en_instances spec |}.

Definition reconcile_entry (access : Access) (replay_issued creating : bool) (t : Target) : db Progress :=
  if creating then pr_ensure p access replay_issued t else pr_finalize p access t.

Fixpoint reconcile_entries (access : Access) (generation : Z) (replay_issued : bool)
    (entries : list (string * CatalogEntry)) (catalog : TenantDatabaseCatalog) (waiting : bool)
    : io ObserveError (Action * TenantDatabaseCatalog) :=
  match entries with
  | [] => Ret (Ok (next_action waiting PROVIDER_RETRY PROVIDER_RESYNC, catalog))
  | (u, spec) :: rest =>
      pure! t <- target_of catalog u spec ;;
      let state := unwrap_or (pr_entry p access u generation) (entry_status catalog u) in
      pure! _ <- pr_validate p access t state ;;
      let start := {| run_catalog := catalog; run_state := state |} in
      if is_none (entry_status catalog u) then
        do! out <- save u start ;;
        match out with
        | (Ok _, s) => reconcile_entries access generation replay_issued rest (run_catalog s) true
        | (Err e, _) => Ret (Err e)
        end
      else
        let creating := negb (en_deleting spec) && negb (tds_closed (tdc_spec catalog)) in
        do! out <- reconcile_entry access replay_issued creating t start ;;
        match out with
        | (Ok progress, s) =>
            let '(stop, waiting) := stop_after_progress progress creating waiting in
            if (stop : bool) then Ret (Ok (ActionRequeue PROVIDER_RETRY, run_catalog s))
            else reconcile_entries access generation replay_issued rest (run_catalog s) waiting
        | (Err e, s) =>
            if pr_foreign p e then
              do! out <- mark_invalid (pr_generation p generation) u s ;;
              match out with
              | (Ok changed, s) =>
                  reconcile_entries access generation replay_issued rest (run_catalog s) (waiting || changed)
              | (Err e, _) => Ret (Err e)
              end
            else Ret (Err e)
        end
  end.

Definition provider_reconcile (observed : TenantDatabaseCatalog) (replay_issued : bool)
    : io ObserveError (Action * TenantDatabaseCatalog) :=
  try! catalog <- verify_current observed ;;
  match orphan catalog with
  | Some u =>
      try! catalog <- update catalog u None ;;
      Ret (Ok (ActionRequeue PROVIDER_RETRY, catalog))
  | None =>
      try! access <- pr_load p catalog replay_issued ;;
      pure! generation <- ok_or (generation (tdc_meta catalog)) Identity ;;
      reconcile_entries access generation replay_issued (sorted_entries catalog) catalog false
  end.
End Loop.
