(* ===== verification/LocalDatabase.v ===== *)
(** * Databases of local Tenants

    [database-controller/src/reconcile/local.rs]: a database of a local Tenant
    lives in directories of the Tenant's Docker volume, which become host-path
    volumes of the Tenant cluster. *)

From S2P Require Import Prelude RustStd Externals Paths Kube Errors Api Foundation Allocation Effects Readiness DatabaseApi CatalogOps.
From S2P Require Import DatabaseStatus DatabaseResources TenantAccess DatabaseRun DatabaseSteps DatabaseProvider.

(** ** The record *)
Definition entry (u : string) (generation : Z) : EntryStatus := {|
  es_logical_uid := u; es_observed_generation := generation; es_phase := DbPending; es_conditions := [];
  es_provider := Some {| pi_kind := "local"; pi_storage_namespace := None |};
  es_namespace := None; es_cnpg_cluster := None; es_credentials := None; es_storage := []; es_instances := [];
  es_query := None; es_finalization := None; es_create_intents := [] |}.

Definition database_path (root catalog_uid u : string) (ordinal : Z) : string :=
  path_join (path_join (path_join (path_join root "volumes/cnpg") catalog_uid) u) (int_to_string ordinal).

Definition in_range (instances ordinal : Z) : bool := (1 <=? ordinal) && (ordinal <=? instances).

(** Whether an item has the key of a later one. *)
Fixpoint repeats {A} (same : A → A → bool) (l : list A) : bool :=
  match l with
  | [] => false
  | x :: l' => any (same x) l' || repeats same l'
  end.

Definition misnamed (nm : string) (id : ResourceIdentity) : bool := (ri_name id != nm) || is_empty (ri_uid id).

Definition storage_invalid (root : string) (t : Target) (s : StorageIdentity) : bool :=
  negb (in_range (tg_instances t) (si_ordinal s))
  || (si_requested_bytes s != SIZE)
  || is_some (si_disk s)
  || is_some (si_arm_id s)
  || is_some_and (λ path, negb (path_eq path (database_path root (tg_catalog t) (tg_uid t) (si_ordinal s)))) (si_path s)
  || is_some_and (λ id, ri_name id != volume_name (tg_cluster t) (si_ordinal s)) (si_pv s)
  || is_some_and (λ id, ri_name id != claim_name (tg_cluster t) (si_ordinal s)) (si_pvc s).

Definition intent_invalid (t : Target) (i : CreateIntent) : bool :=
  let kind := ic_kind i in
  if (kind == "Path") || (kind == "PersistentVolume") || (kind == "PersistentVolumeClaim")
  then negb (in_range (tg_instances t) (ic_ordinal i))
  else if (kind == "Namespace") || (kind == "Cluster") then ic_ordinal i != 0
  else true.

Definition same_ordinal (a b : StorageIdentity) : bool := si_ordinal b =? si_ordinal a.
Definition same_intent (a b : CreateIntent) : bool := (ic_kind b == ic_kind a) && (ic_ordinal b =? ic_ordinal a).

Definition state_invalid (root : string) (t : Target) (state : EntryStatus) : bool :=
  (es_logical_uid state != tg_uid t)
  || is_some_and (misnamed (tg_namespace t)) (es_namespace state)
  || is_some_and (misnamed (tg_cluster t)) (es_cnpg_cluster state)
  || is_some_and (misnamed (secret_name (tg_cluster t))) (es_credentials state)
  || is_some_and (λ provider, pi_kind provider != "local") (es_provider state)
  || any (storage_invalid root t) (es_storage state)
  || repeats same_ordinal (es_storage state)
  || (12 <? length (es_create_intents state))%nat
  || repeats same_intent (es_create_intents state)
  || any (intent_invalid t) (es_create_intents state).

Definition validate_state (root : string) (t : Target) (state : EntryStatus) : result ObserveError unit :=
  if state_invalid root t state then Err Foreign else Ok tt.

(** ** Directories *)
Definition path_op {A} (p : io PathError A) : db A := db_lift (perform_map PathFailed p).

Definition inspect (access : LocalAccess) (catalog_uid u : string) (ordinal : Z) : db bool :=
  path_op (perform (PathInspect (la_root access) catalog_uid u ordinal)).
Definition prepare (access : LocalAccess) (catalog_uid u : string) (ordinal : Z) : db string :=
  db! _ <- path_op (perform (PathPrepare (la_root access) catalog_uid u ordinal)) ;;
  db_ret (database_path (la_root access) catalog_uid u ordinal).

Definition path_intent (catalog_uid u : string) (ordinal : Z) : string :=
  catalog_uid +:+ "/" +:+ u +:+ "/" +:+ int_to_string ordinal.

Definition catalog_uid_of : db string :=
  db! catalog <- catalog_of ;;
  db_pure (ok_or (uid (tdc_meta catalog)) Identity).

Definition path (access : LocalAccess) (u : string) (ordinal : Z) : db (option string) :=
  db! catalog_uid <- catalog_uid_of ;;
  let nm := path_intent catalog_uid u ordinal in
  db! state <- state_of ;;
  db! previous <- db_pure (intent state "Path" nm ordinal) ;;
  db! there <- inspect access catalog_uid u ordinal ;;
  if (there : bool) then
    if negb (issued_or_observed previous) then db_err Foreign else
    db! _ <- (if previous != Some Observed then record u "Path" nm ordinal Observed else db_ret tt) ;;
    db! prepared <- prepare access catalog_uid u ordinal ;;
    db_ret (Some prepared)
  else if negb (may_issue previous) then db_ret None else
    db! _ <- announce u "Path" nm ordinal previous false ;;
    db! _ <- verify_run ;;
    db! prepared <- prepare access catalog_uid u ordinal ;;
    db! _ <- record u "Path" nm ordinal Observed ;;
    db_ret (Some prepared).

(** ** Creation *)
Section Local.
Context (access : LocalAccess) (t : Target).
#[local] Notation u := (tg_uid t).
#[local] Notation instances := (tg_instances t).

Definition ensure_path (ordinal : Z) (changed : bool) : step bool :=
  db! found <- path access u ordinal ;;
  match found with
  | None => wait u "UnknownCreateOutcome"
  | Some found =>
      db! _ <- db_set (storage SIZE ordinal) ;;
      db! now <- bind_once (stored si_path ordinal) (λ p, edit_storage SIZE ordinal (set_path (Some p))) found ;;
      step_ret (changed || now)
  end.

Definition ensure_paths : step unit :=
  step! changed <- each (ordinals instances) false ensure_path ;;
  save_changed u changed.

Definition volume_for (ordinal : Z) : db DynamicObject :=
  db! _ <- db_set (storage SIZE ordinal) ;;
  db! state <- state_of ;;
  db! found <- db_pure (ok_or (stored si_path ordinal state) Foreign) ;;
  db! catalog <- catalog_of ;;
  db_pure (volume catalog u (tg_namespace t) (tg_cluster t) ordinal access found).

Definition cluster_for (catalog : TenantDatabaseCatalog) : result ObserveError DynamicObject :=
  cluster_object catalog u (tg_namespace t) (tg_cluster t) instances (la_image access).
Definition claim_for (catalog : TenantDatabaseCatalog) (ordinal : Z) : result ObserveError DynamicObject :=
  claim catalog u (tg_namespace t) (tg_cluster t) ordinal.

Definition identify_secret (id : ResourceIdentity) (secret : DynamicObject) : result ObserveError ResourceIdentity :=
  if negb (owned_by_cluster (owner_references (dyn_meta secret)) id)
     || (and_then as_str (pointer (dyn_data secret) ["type"]) != Some "kubernetes.io/basic-auth")
     || is_none_or is_empty (uid (dyn_meta secret))
  then Err Foreign else
  let! secret_uid := ok_or (uid (dyn_meta secret)) Foreign in
  Ok {| ri_name := secret_name (tg_cluster t); ri_uid := secret_uid |}.

Definition storage_healthy (catalog : TenantDatabaseCatalog) (item : StorageIdentity) (pv pvc : DynamicObject)
    : result ObserveError bool :=
  Ok (is_bound pv && is_bound pvc && is_some (si_path item)).

Definition database_ready (live : DynamicObject) (state : EntryStatus) : bool :=
  (and_then as_i64 (pointer (dyn_data live) ["status"; "readyInstances"]) == Some instances)
  && is_some (es_credentials state)
  && (Z.of_nat (length (es_instances state)) =? as_usize instances)
  && all io_ready (es_instances state)
  && all si_healthy (es_storage state).

Definition ensure (replay_issued : bool) : db Progress :=
  step_end (
    step! _ <- ensure_namespace u (tg_namespace t) replay_issued ;;
    step! _ <- ensure_paths ;;
    step! _ <- ensure_volumes u instances SIZE replay_issued volume_for ;;
    step! id <- ensure_cluster u (tg_namespace t) replay_issued cluster_for ;;
    step! _ <- ensure_claims u (tg_namespace t) instances SIZE claim_for id ;;
    db! live <- observe_cluster u (tg_namespace t) (tg_cluster t) ;;
    db! _ <- observe_credentials (tg_namespace t) (tg_cluster t) (identify_secret id) ;;
    db! _ <- observe_instances (tg_namespace t) (tg_cluster t) instances id ;;
    db! state <- state_of ;;
    db! _ <- observe_storage u (tg_namespace t) (tg_cluster t) storage_healthy (seq 0 (length (es_storage state))) ;;
    db! p <- publish u id (database_ready live) ;;
    finish p).

(** ** Deletion *)

(** A directory whose creation was recorded is taken over. *)
Definition adopt_path (catalog_uid : string) (ordinal : Z) (_ : unit) : step unit :=
  db! there <- inspect access catalog_uid u ordinal ;;
  if negb there then step_ret tt else
  db! _ <- db_set (storage SIZE ordinal) ;;
  db! state <- state_of ;;
  if is_some (stored si_path ordinal state) then step_ret tt else
  db! _ <- db_set (edit_storage SIZE ordinal (set_path (Some (database_path (la_root access) catalog_uid u ordinal)))) ;;
  db! _ <- record u "Path" (path_intent catalog_uid u ordinal) ordinal Observed ;;
  finish ProgressChanged.

Definition path_ordinals (state : EntryStatus) : list Z :=
  map ic_ordinal (filter_list (λ i, ic_kind i == "Path") (es_create_intents state)).

Definition retired_volume (catalog_uid : string) (catalog : TenantDatabaseCatalog) (ordinal : Z)
    : result ObserveError DynamicObject :=
  volume catalog u (tg_namespace t) (tg_cluster t) ordinal access (database_path (la_root access) catalog_uid u ordinal).

Definition retired_secret (state : EntryStatus) (secret : DynamicObject) : result ObserveError ResourceIdentity :=
  if negb (is_some_and (owned_by_cluster (owner_references (dyn_meta secret))) (es_cnpg_cluster state))
     || is_none_or is_empty (uid (dyn_meta secret))
     || is_some_and (λ id, ri_uid id != unwrap_or "" (uid (dyn_meta secret))) (es_credentials state)
  then Err Foreign else
  let! secret_uid := ok_or (uid (dyn_meta secret)) Foreign in
  Ok {| ri_name := secret_name (tg_cluster t); ri_uid := secret_uid |}.

Definition remove_path (catalog_uid : string) (ordinal : Z) (_ : unit) : step unit :=
  db! there <- inspect access catalog_uid u ordinal ;;
  if negb there then step_ret tt else
  db! state <- state_of ;;
  if stored si_path ordinal state != Some (database_path (la_root access) catalog_uid u ordinal) then db_err Foreign else
  db! _ <- verify_run ;;
  db! _ <- path_op (perform (PathRemove (la_root access) catalog_uid u ordinal)) ;;
  step_ret tt.

Definition verified : FinalizationStatus := {|
  fs_terminal_verified := true;
  fs_verified_absent := ["cluster"; "secret"; "pvc"; "pv"; "namespace"; "path"];
  fs_pending := [] |}.

Definition conclude : db Progress :=
  db! _ <- db_set (set_finalization (Some verified)) ;;
  settle u.

(** From the recorded directories on. *)
Definition retire_database (catalog_uid : string) (recorded : list Z) : step Progress :=
  step! _ <- each recorded tt (adopt_path catalog_uid) ;;
  step! _ <- retire_cluster u (tg_namespace t) cluster_for ;;
  step! waiting <- retire_secret u (tg_namespace t) (tg_cluster t) retired_secret ;;
  step! _ <- retire_claims u (tg_namespace t) instances claim_for waiting ;;
  step! _ <- retire_volumes u instances (retired_volume catalog_uid) ;;
  step! _ <- retire_namespace u (tg_namespace t) ;;
  db! catalog_uid <- catalog_uid_of ;;
  step! _ <- each (ordinals instances) tt (remove_path catalog_uid) ;;
  db! absent <- path_op (perform (PathEntryAbsent (la_root access) catalog_uid u)) ;;
  if negb absent then db_err Foreign else
  db! state <- state_of ;;
  if negb (all_creates_resolved state) then finish ProgressWaiting else
  db! p <- conclude ;;
  finish p.

Definition finalize : db Progress :=
  step_end (
    step! _ <- announce_deletion u id ;;
    db! catalog_uid <- catalog_uid_of ;;
    db! state <- state_of ;;
    retire_database catalog_uid (path_ordinals state)).
End Local.

(** ** The provider *)
Definition invalidates (e : ObserveError) : bool :=
  match e with
  | Foreign | PathFailed UnsafeEntry | PathFailed Changed => true
  | _ => false
  end.

Section Provider.
Context `{SO : Sha256Ops, NO : Ipv4NetOps, SJ : SpecJson, FJ : FoundationJson}.

Definition local_provider : Provider LocalAccess := {|
  pr_load := λ catalog _, TenantAccess.load catalog;
  pr_entry := λ _, entry;
  pr_validate := λ access t, validate_state (la_root access) t;
  pr_ensure := λ access replay_issued t, ensure access t replay_issued;
  pr_finalize := λ access t, finalize access t;
  pr_foreign := invalidates;
  pr_generation := λ _ catalog, ok_or (generation (tdc_meta catalog)) Identity |}.

Definition reconcile : TenantDatabaseCatalog → bool → io ObserveError (Action * TenantDatabaseCatalog) :=
  provider_reconcile local_provider.
End Provider.
