(* ===== verification/AzureDatabase.v ===== *)
(** * Databases of Azure Tenants

    [database-controller/src/reconcile/azure.rs] and
    [database-controller/src/finalize/azure.rs]: a database of an Azure Tenant
    lives on managed disks, which the Azure service operator of the management
    cluster creates and the resource manager (ARM) confirms. *)

From S2P Require Import Prelude RustStd Externals Kube Errors Api Foundation Effects Readiness DatabaseApi CatalogOps.
From S2P Require Import DatabaseStatus DatabaseResources DatabaseRun DatabaseSteps DatabaseProvider AzureConfig AzureRuntime.
From S2P Require LocalDatabase.

Definition AZURE_SIZE : Z := 4 * 1024 * 1024 * 1024.
Definition POSTGRES_IMAGE := "ghcr.io/cloudnative-pg/postgresql:18.4-system-trixie@sha256:42708a75345b7a48fdd9257b071830783a97fd228529196b6313187a7198e185".
Definition DISK_VERSION := "v1api20240302".
Definition ARM_VERSION := "2024-03-02".

Definition eq_ignore_ascii_case (a b : string) : bool := to_ascii_lowercase a == to_ascii_lowercase b.

(** ** The resource manager *)
Record Arm := { arm_client_id : string; arm_token_file : string; arm_token_endpoint : string; arm_endpoint : string }.

Definition env_var (nm missing : string) : io ObserveError string :=
  do! v <- perform (EnvVar nm) ;;
  Ret (ok_or v (AzureFailed missing)).

Definition arm_new (tenant_id : string) : io ObserveError Arm :=
  try! client_id <- env_var "AZURE_CLIENT_ID" "workload identity client ID missing" ;;
  try! pinned <- env_var "DATABASE_DISK_CLIENT_ID" "dedicated disk identity missing" ;;
  try! actual_tenant <- env_var "AZURE_TENANT_ID" "workload identity tenant missing" ;;
  try! token_file <- env_var "AZURE_FEDERATED_TOKEN_FILE" "federated token path missing" ;;
  if negb (valid_logical_uid (to_ascii_lowercase client_id))
     || negb (valid_logical_uid (to_ascii_lowercase actual_tenant))
     || negb (eq_ignore_ascii_case client_id pinned)
     || negb (eq_ignore_ascii_case actual_tenant tenant_id)
     || negb (starts_with_char token_file "/"%char)
  then Ret (Err (AzureFailed "workload identity binding differs")) else
  do! built <- perform BuildHttpClient ;;
  if negb built then Ret (Err (AzureFailed "ARM HTTP client unavailable")) else
  Ret (Ok {| arm_client_id := client_id; arm_token_file := token_file;
             arm_token_endpoint := "https://login.microsoftonline.com/" +:+ actual_tenant +:+ "/oauth2/v2.0/token";
             arm_endpoint := "https://management.azure.com" |}).

Definition arm_token (arm : Arm) : io ObserveError string :=
  do! assertion <- perform (ReadTokenFile (arm_token_file arm)) ;;
  pure! assertion <- ok_or assertion (AzureFailed "federated token unavailable") ;;
  if is_empty assertion || (65536 <? len assertion) then Ret (Err (AzureFailed "federated token invalid")) else
  do! response <- perform (PostToken (arm_token_endpoint arm) (arm_client_id arm) (trim assertion)) ;;
  pure! response <- ok_or response (AzureFailed "token exchange failed") ;;
  if negb ((200 <=? hr_status response) && (hr_status response <=? 299))
  then Ret (Err (AzureFailed "token exchange denied")) else
  pure! value <- ok_or (hr_json response) (AzureFailed "token exchange response invalid") ;;
  Ret (ok_or (filter_non_empty (and_then as_str (pointer value ["access_token"]))) (AzureFailed "access token missing")).

Definition arm_url (arm : Arm) (arm_id : string) : string :=
  arm_endpoint arm +:+ arm_id +:+ "?api-version=" +:+ ARM_VERSION.

(** What a response of the resource manager says: the disk, or its absence. *)
Definition arm_outcome (delete : bool) (response : option HttpResponse) : result ObserveError (option Value) :=
  match response with
  | None => Err (AzureFailed "ARM transport failed")
  | Some r =>
      if (hr_status r =? 404) && negb delete then Ok None
      else if (hr_status r =? 200) && negb delete
      then match hr_json r with Some v => Ok (Some v) | None => Err (AzureFailed "ARM disk response invalid") end
      else if delete && any (Z.eqb (hr_status r)) [200; 202; 204] then Ok (Some VNull)
      else Err (AzureFailed "ARM disk request was not conclusive")
  end.

Definition request_with_token (arm : Arm) (arm_id : string) (delete : bool) (token : string) : io ObserveError (option Value) :=
  do! response <- perform (ArmSend delete (arm_url arm arm_id) token) ;;
  Ret (arm_outcome delete response).

Definition arm_request (arm : Arm) (arm_id : string) (delete : bool) : io ObserveError (option Value) :=
  try! token <- arm_token arm ;;
  request_with_token arm arm_id delete token.

(** ** Access *)
Record AzureAccess := {
  aa_capability_ready : bool;
  aa_replay_issued : bool;
  aa_storage_namespace : string;
  aa_storage_uid : string;
  aa_group_id : string;
  aa_location : string;
  aa_arm : option Arm;
}.

Definition access_arm (access : AzureAccess) : result ObserveError Arm :=
  ok_or (aa_arm access) (AzureFailed "dedicated disk identity unavailable").

Definition prerequisite_reason (access : AzureAccess) : option string :=
  if negb (aa_capability_ready access) then Some "CapabilityNotReady"
  else if is_none (aa_arm access) then Some "DiskIdentityUnavailable"
  else None.

Definition storage_namespace (tenant_name : string) : string := "tenant-db-storage-" +:+ tenant_name.

Definition is_azure_spec (p : TenantProviderSpec) : bool := match p with SpecAzure => true | _ => false end.

Section Load.
Context `{SO : Sha256Ops, SJ : SpecJson, FJ : FoundationJson, AJ : AzureConfigJson}.

(** Everything that was read belongs to this Tenant and this configuration. *)
Definition access_mismatch (catalog : TenantDatabaseCatalog) (tenant : Tenant) (capability : DatabaseCapability)
    (azure_ : AzureProviderStatus) (binding : AzureBindingStatus) (config : AzureConfiguration) (canonical : TenantSpec)
    (storage_ns ns : Namespace) (storage_uid : string) (plane cluster : DynamicObject) (secret : Secret)
    (kubeconfig : AzureKubeconfigStatus) (digest : string) : bool :=
  let values := azc_values config in
  (uid (tenant_meta tenant) != Some (tds_tenant_uid (tdc_spec catalog)))
  || negb (is_azure_spec (provider (tenant_spec tenant)))
  || (Some (cap_namespace capability) != namespace (tdc_meta catalog))
  || (Some (cap_catalog_uid capability) != uid (tdc_meta catalog))
  || (cap_storage_namespace_uid capability != Some storage_uid)
  || (get_label (ns_meta storage_ns) TENANT_LABEL != Some (tds_tenant_uid (tdc_spec catalog)))
  || is_some (deletion_timestamp (ns_meta storage_ns))
  || (uid (ns_meta ns) != and_then mgmt_namespace_uid (azure_management azure_))
  || (uid (dyn_meta plane) != and_then mgmt_kamaji_control_plane_uid (azure_management azure_))
  || (uid (dyn_meta cluster) != and_then mgmt_cluster_uid (azure_management azure_))
  || (uid (secret_meta secret) != Some (kc_secret_uid kubeconfig))
  || (digest != kc_content_sha256 kubeconfig)
  || (binding_tenant_uid binding != tds_tenant_uid (tdc_spec catalog))
  || (binding_specification_sha256 binding != spec_hash canonical)
  || (binding_provider_config_uid binding != azc_config_map_uid config)
  || (binding_provider_config_sha256 binding != azc_sha256 config)
  || (binding_resource_group_id binding != ac_resource_group_id values)
  || (binding_foundation_sha256 binding != ac_foundation_sha256 values)
  || (binding_foundation_defaults_sha256 binding != ac_foundation_defaults_sha256 values)
  || negb (eq_ignore_ascii_case (ac_resource_group_id values)
             ("/subscriptions/" +:+ ac_subscription_id values +:+ "/resourceGroups/" +:+ ac_resource_group_name values)).

Definition load (catalog : TenantDatabaseCatalog) (replay_issued : bool) : io ObserveError AzureAccess :=
  let nm := tds_tenant_name (tdc_spec catalog) in
  try! tenant <- api (perform (GetTenant nm)) ;;
  pure! status <- ok_or (tenant_status tenant) Identity ;;
  pure! capability <- ok_or (database_capability status) Identity ;;
  pure! azure_ <- ok_or (azure status) Identity ;;
  try! storage_ns <- api (perform (ReadNamespace (storage_namespace nm))) ;;
  pure! storage_uid <- ok_or (filter_non_empty (uid (ns_meta storage_ns))) Identity ;;
  try! provider_map <- api (perform (ReadConfigMap "tenant-system" CONFIG_NAME)) ;;
  pure! config <- map_err (λ _, Identity) (azure_from_config_map provider_map) ;;
  let values := azc_values config in
  pure! canonical <- map_err (λ _, Identity)
                       (canonical_spec nm (tenant_spec tenant) (ac_supported_kubernetes_version values)) ;;
  pure! binding <- ok_or (azure_binding azure_) Identity ;;
  try! ns <- api (perform (ReadNamespace nm)) ;;
  try! plane <- api (perform (ReadManaged (handle (Some nm) "controlplane.cluster.x-k8s.io" "v1alpha1"
                                "KamajiControlPlane" "kamajicontrolplanes") nm)) ;;
  try! cluster <- api (perform (ReadManaged (handle (Some nm) "cluster.x-k8s.io" "v1beta1" "Cluster" "clusters") nm)) ;;
  pure! endpoint <- ok_or (azure_endpoint azure_) Identity ;;
  try! secret <- perform_map (λ _, Identity) (perform (LoadOwnedClient plane cluster nm nm endpoint)) ;;
  pure! kubeconfig <- ok_or (azure_kubeconfig azure_) Identity ;;
  pure! digest <- ok_or (option_map sha256_hex (and_then (lookup "value") (secret_data secret))) Identity ;;
  if access_mismatch catalog tenant capability azure_ binding config canonical storage_ns ns storage_uid plane cluster
       secret kubeconfig digest
  then Ret (Err Identity) else
  do! arm <- arm_new (ac_tenant_id values) ;;
  Ret (Ok {|
    aa_capability_ready := is_none (deletion_timestamp (tenant_meta tenant))
                           && (observed_generation status == generation (tenant_meta tenant))
                           && (phase status == Some PhaseReady) && cap_available capability;
    aa_replay_issued := replay_issued; aa_storage_namespace := storage_namespace nm; aa_storage_uid := storage_uid;
    aa_group_id := ac_resource_group_id values; aa_location := ac_location values;
    aa_arm := match arm with Ok arm => Some arm | Err _ => None end |}).
End Load.

(** ** The objects of an Azure database *)
Definition disk_name (cluster : string) (ordinal : Z) : string := cluster +:+ "-" +:+ int_to_string ordinal.
Definition arm_id (group_id nm : string) : string := group_id +:+ "/providers/Microsoft.Compute/disks/" +:+ nm.

Definition tags (catalog : TenantDatabaseCatalog) (u : string) : result ObserveError Value :=
  let! catalog_uid := ok_or (uid (tdc_meta catalog)) Identity in
  Ok (VObject [("cnpg-vcluster-catalog-uid", VString catalog_uid);
               ("cnpg-vcluster-entry-uid", VString u);
               ("cnpg-vcluster-tenant-uid", VString (tds_tenant_uid (tdc_spec catalog)))]).

Definition disk (catalog : TenantDatabaseCatalog) (u : string) (access : AzureAccess) (nm : string)
    : result ObserveError DynamicObject :=
  let! lbls := ownership_labels catalog u in
  let! disk_tags := tags catalog u in
  Ok (new_object ("compute.azure.com/" +:+ DISK_VERSION) "Disk" nm (Some (aa_storage_namespace access)) lbls [
    ("spec", VObject [
      ("azureName", VString nm); ("owner", VObject [("armId", VString (aa_group_id access))]);
      ("location", VString (aa_location access)); ("creationData", VObject [("createOption", VString "Empty")]);
      ("diskSizeGB", VNumber 4); ("sku", VObject [("name", VString "StandardSSD_LRS")]); ("tags", disk_tags)])]).

Definition azure_volume (catalog : TenantDatabaseCatalog) (u ns cluster : string) (ordinal : Z) (id : string)
    : result ObserveError DynamicObject :=
  let! lbls := ownership_labels catalog u in
  Ok (new_object "v1" "PersistentVolume" (volume_name cluster ordinal) None lbls [
    ("spec", VObject [
      ("capacity", VObject [("storage", VString "4Gi")]);
      ("accessModes", VArray [VString "ReadWriteOnce"]);
      ("persistentVolumeReclaimPolicy", VString "Retain");
      ("volumeMode", VString "Filesystem");
      ("storageClassName", VString AZURE_STORAGE_CLASS);
      ("csi", VObject [("driver", VString "disk.csi.azure.com"); ("volumeHandle", VString id); ("fsType", VString "ext4")]);
      ("claimRef", VObject [("namespace", VString ns); ("name", VString (disk_name cluster ordinal))])])]).

Definition azure_claim (catalog : TenantDatabaseCatalog) (u ns cluster : string) (ordinal : Z)
    : result ObserveError DynamicObject :=
  let! lbls := ownership_labels catalog u in
  let lbls := <["app.kubernetes.io/component" := "database"]> (<["app.kubernetes.io/name" := "postgresql"]>
    (<["app.kubernetes.io/managed-by" := "cloudnative-pg"]> (<["cnpg.io/pvcRole" := "PG_DATA"]>
    (<["cnpg.io/instanceName" := disk_name cluster ordinal]> (<["cnpg.io/cluster" := cluster]> lbls))))) in
  Ok (new_object "v1" "PersistentVolumeClaim" (disk_name cluster ordinal) (Some ns) lbls [
    ("spec", VObject [
      ("accessModes", VArray [VString "ReadWriteOnce"]);
      ("storageClassName", VString AZURE_STORAGE_CLASS);
      ("volumeMode", VString "Filesystem");
      ("volumeName", VString (volume_name cluster ordinal));
      ("resources", VObject [("requests", VObject [("storage", VString "4Gi")])])])]).

Definition azure_cluster (catalog : TenantDatabaseCatalog) (u ns nm : string) (instances : Z)
    : result ObserveError DynamicObject :=
  let! lbls := ownership_labels catalog u in
  Ok (new_object "postgresql.cnpg.io/v1" "Cluster" nm (Some ns) lbls [
    ("spec", VObject [
      ("instances", VNumber instances); ("imageName", VString POSTGRES_IMAGE); ("enableSuperuserAccess", VBool true);
      ("postgresUID", VNumber 26); ("postgresGID", VNumber 26);
      ("inheritedMetadata", VObject [("labels", json_labels lbls)]);
      ("storage", VObject [
        ("size", VString "4Gi"); ("storageClass", VString AZURE_STORAGE_CLASS);
        ("pvcTemplate", VObject [
          ("storageClassName", VString AZURE_STORAGE_CLASS);
          ("accessModes", VArray [VString "ReadWriteOnce"]);
          ("volumeMode", VString "Filesystem")])])])]).

(** ** The record *)
Definition azure_entry (access : AzureAccess) (u : string) (generation : Z) : EntryStatus := {|
  es_logical_uid := u; es_observed_generation := generation; es_phase := DbPending; es_conditions := [];
  es_provider := Some {| pi_kind := "azure";
    pi_storage_namespace := Some {| ri_name := aa_storage_namespace access; ri_uid := aa_storage_uid access |} |};
  es_namespace := None; es_cnpg_cluster := None; es_credentials := None; es_storage := []; es_instances := [];
  es_query := None; es_finalization := None; es_create_intents := [] |}.

Definition provider_invalid (access : AzureAccess) (provider : ProviderIdentity) : bool :=
  (pi_kind provider != "azure")
  || is_none_or (λ id, (ri_name id != aa_storage_namespace access) || (ri_uid id != aa_storage_uid access))
       (pi_storage_namespace provider).

Definition azure_storage_invalid (access : AzureAccess) (t : Target) (s : StorageIdentity) : bool :=
  let nm := disk_name (tg_cluster t) (si_ordinal s) in
  negb (LocalDatabase.in_range (tg_instances t) (si_ordinal s))
  || (si_requested_bytes s != AZURE_SIZE)
  || is_some (si_path s)
  || (si_arm_id s != Some (arm_id (aa_group_id access) nm))
  || is_some_and (LocalDatabase.misnamed nm) (si_disk s)
  || is_some_and (LocalDatabase.misnamed (volume_name (tg_cluster t) (si_ordinal s))) (si_pv s)
  || is_some_and (LocalDatabase.misnamed nm) (si_pvc s).

Definition azure_intent_invalid (t : Target) (i : CreateIntent) : bool :=
  let kind := ic_kind i in
  if (kind == "Disk") || (kind == "PersistentVolume") || (kind == "PersistentVolumeClaim")
  then negb (LocalDatabase.in_range (tg_instances t) (ic_ordinal i))
       || ((kind == "Disk") && (ic_name i != disk_name (tg_cluster t) (ic_ordinal i)))
  else if (kind == "Namespace") || (kind == "Cluster") then ic_ordinal i != 0
  else true.

Definition azure_state_invalid (access : AzureAccess) (t : Target) (state : EntryStatus) : bool :=
  (es_logical_uid state != tg_uid t)
  || is_none_or (provider_invalid access) (es_provider state)
  || is_some_and (LocalDatabase.misnamed (tg_namespace t)) (es_namespace state)
  || is_some_and (LocalDatabase.misnamed (tg_cluster t)) (es_cnpg_cluster state)
  || is_some_and (LocalDatabase.misnamed (secret_name (tg_cluster t))) (es_credentials state)
  || any (azure_storage_invalid access t) (es_storage state)
  || LocalDatabase.repeats LocalDatabase.same_ordinal (es_storage state)
  || (11 <? length (es_create_intents state))%nat
  || LocalDatabase.repeats LocalDatabase.same_intent (es_create_intents state)
  || any (azure_intent_invalid t) (es_create_intents state).

Definition azure_validate_state (access : AzureAccess) (t : Target) (state : EntryStatus) : result ObserveError unit :=
  if azure_state_invalid access t state then Err Foreign else Ok tt.

Definition set_disk (v : option ResourceIdentity) (x : StorageIdentity) : StorageIdentity := {|
  si_ordinal := si_ordinal x; si_requested_bytes := si_requested_bytes x; si_path := si_path x; si_pv := si_pv x;
  si_pvc := si_pvc x; si_disk := v; si_arm_id := si_arm_id x; si_healthy := si_healthy x |}.
Definition set_arm_id (v : option string) (x : StorageIdentity) : StorageIdentity := {|
  si_ordinal := si_ordinal x; si_requested_bytes := si_requested_bytes x; si_path := si_path x; si_pv := si_pv x;
  si_pvc := si_pvc x; si_disk := si_disk x; si_arm_id := v; si_healthy := si_healthy x |}.

(** ** Disks *)

(** Disks are objects of the management cluster. *)
Definition DISKS (ns : string) : ApiHandle := handle (Some ns) "compute.azure.com" DISK_VERSION "Disk" "disks".

Definition status_id (live : DynamicObject) : option string := and_then as_str (pointer (dyn_data live) ["status"; "id"]).

Definition disk_identity (live desired : DynamicObject) (catalog : TenantDatabaseCatalog) (u : string)
    (expected : option ResourceIdentity) (expected_arm : string) : result ObserveError ResourceIdentity :=
  let! id := check_object live catalog u (name_any (dyn_meta desired)) expected in
  if negb (matches_desired live desired)
     || is_some_and (λ value, negb (eq_ignore_ascii_case value expected_arm)) (status_id live)
  then Err Foreign else Ok id.

(** Whether a value is there, and equal. *)
Definition is_value (v : option Value) (expected : Value) : bool := is_some_and (λ v, value_eqb v expected) v.

Definition arm_disk (actual : Value) (expected : string) (expected_tags : Value) (location : string)
    : result ObserveError unit :=
  if is_none_or (λ id, negb (eq_ignore_ascii_case id expected)) (and_then as_str (json_get actual "id"))
     || negb (is_value (pointer actual ["properties"; "diskSizeGB"]) (VNumber 4))
     || negb (is_value (pointer actual ["sku"; "name"]) (VString "StandardSSD_LRS"))
     || is_none_or (λ value, negb (eq_ignore_ascii_case value location)) (and_then as_str (json_get actual "location"))
     || negb (is_value (json_get actual "tags") expected_tags)
  then Err Foreign
  else if negb (is_value (pointer actual ["properties"; "provisioningState"]) (VString "Succeeded"))
  then Err (AzureFailed "ARM disk creation is not terminal")
  else Ok tt.

Definition I64_MAX : Z := 2 ^ 63 - 1.

Definition disk_condition (live : DynamicObject) (condition : Value) : bool :=
  ready_condition condition
  && is_some_and (λ generation_, unwrap_or I64_MAX (generation (dyn_meta live)) <=? generation_)
       (and_then as_i64 (pointer condition ["observedGeneration"])).

Definition disk_object_ready (live : DynamicObject) (expected_arm : string) : bool :=
  is_some_and (λ id, eq_ignore_ascii_case id expected_arm) (status_id live)
  && is_some_and (any (disk_condition live)) (and_then as_array (pointer (dyn_data live) ["status"; "conditions"])).

(** ** Creation *)
Section Azure.
Context (access : AzureAccess) (t : Target).
#[local] Notation u := (tg_uid t).
#[local] Notation ns := (tg_namespace t).
#[local] Notation cluster := (tg_cluster t).
#[local] Notation instances := (tg_instances t).

Definition expected_arm (ordinal : Z) : string := arm_id (aa_group_id access) (disk_name cluster ordinal).

(** What the resource manager says about a disk. *)
Definition arm_get (ordinal : Z) : db (option Value) :=
  db! arm <- db_pure (access_arm access) ;;
  db_lift (arm_request arm (expected_arm ordinal) false).

Definition check_arm (actual : Value) (ordinal : Z) : db unit :=
  db! catalog <- catalog_of ;;
  db! expected_tags <- db_pure (tags catalog u) ;;
  db_pure (arm_disk actual (expected_arm ordinal) expected_tags (aa_location access)).

Definition issue_disk (desired : DynamicObject) (ordinal : Z) : db (option (ResourceIdentity * DynamicObject)) :=
  db! created <- (λ s, do! r <- perform (CreateObject (DISKS (aa_storage_namespace access)) desired) ;; Ret (Ok r, s)) ;;
  match created with
  | Ok live =>
      db! catalog <- catalog_of ;;
      db! id <- db_pure (disk_identity live desired catalog u None (expected_arm ordinal)) ;;
      db_ret (Some (id, live))
  | Err error =>
      if definite_rejection error
      then db! _ <- record u "Disk" (disk_name cluster ordinal) ordinal Rejected ;; db_err (Api error)
      else db_err (Api error)
  end.

(** The disk that is there, or was created; nothing while the outcome of its
    creation is unknown. *)
Definition disk_observed (desired : DynamicObject) (previous : option CreateState) (ordinal : Z)
    : db (option (ResourceIdentity * DynamicObject)) :=
  let nm := disk_name cluster ordinal in
  db! found <- db_lift (api (perform (FindObject (DISKS (aa_storage_namespace access)) nm))) ;;
  match found with
  | Some live =>
      if negb (issued_or_observed previous) then db_err Foreign else
      db! state <- state_of ;;
      db! catalog <- catalog_of ;;
      db! id <- db_pure (disk_identity live desired catalog u (stored si_disk ordinal state) (expected_arm ordinal)) ;;
      db_ret (Some (id, live))
  | None =>
      let replay := aa_replay_issued access && (previous == Some Issued) in
      if negb (may_issue previous) && negb replay then db_ret None else
      db! _ <- announce u "Disk" nm ordinal previous replay ;;
      db! _ <- verify_run ;;
      issue_disk desired ordinal
  end.

(** A disk is recorded before the resource manager is asked. *)
Definition disk_confirmed (id : ResourceIdentity) (live : DynamicObject) (previous : option CreateState) (ordinal : Z)
    : db bool :=
  db! _ <- db_set (storage AZURE_SIZE ordinal) ;;
  db! changed <- bind_once (stored si_disk ordinal) (λ id, edit_storage AZURE_SIZE ordinal (set_disk (Some id))) id ;;
  if (changed : bool) then db! _ <- save u ;; db_ret false else
  db! actual <- arm_get ordinal ;;
  match actual with
  | None => db_ret false
  | Some actual =>
      db! _ <- check_arm actual ordinal ;;
      if previous != Some Observed
      then db! _ <- record u "Disk" (disk_name cluster ordinal) ordinal Observed ;; db_ret false
      else db_ret (disk_object_ready live (expected_arm ordinal))
  end.

Definition disk_ready (ordinal : Z) : db bool :=
  db! catalog <- catalog_of ;;
  db! desired <- db_pure (disk catalog u access (disk_name cluster ordinal)) ;;
  db! state <- state_of ;;
  db! previous <- db_pure (intent state "Disk" (disk_name cluster ordinal) ordinal) ;;
  db! observed <- disk_observed desired previous ordinal ;;
  match observed with
  | None => db_ret false
  | Some (id, live) => disk_confirmed id live previous ordinal
  end.

Definition initialize_arm_id (ordinal : Z) (changed : bool) : step bool :=
  db! _ <- db_set (storage AZURE_SIZE ordinal) ;;
  db! state <- state_of ;;
  match stored si_arm_id ordinal state with
  | Some actual => if eq_ignore_ascii_case actual (expected_arm ordinal) then step_ret changed else db_err Foreign
  | None =>
      db! _ <- db_set (edit_storage AZURE_SIZE ordinal (set_arm_id (Some (expected_arm ordinal)))) ;;
      step_ret true
  end.

Definition initialize_arm_ids : step unit :=
  step! changed <- each (ordinals instances) false initialize_arm_id ;;
  save_changed u changed.

Definition ensure_disk (ordinal : Z) (waiting : bool) : step bool :=
  db! ready <- disk_ready ordinal ;;
  step_ret (waiting || negb ready).

Definition ensure_disks : step unit :=
  step! waiting <- each (ordinals instances) false ensure_disk ;;
  if (waiting : bool) then wait u "DiskPending" else step_ret tt.

Definition check_runtime : step unit :=
  db! runtime <- (λ s, do! r <- observe_runtime ;; Ret (Ok r, s)) ;;
  match runtime with
  | Ok reason => if reason == "Ready" then step_ret tt else wait u "RuntimeNotReady"
  | Err _ => wait u "RuntimeNotReady"
  end.

Definition azure_volume_for (ordinal : Z) : db DynamicObject :=
  db! _ <- db_set (storage AZURE_SIZE ordinal) ;;
  db! state <- state_of ;;
  db! id <- db_pure (ok_or (stored si_arm_id ordinal state) Foreign) ;;
  db! catalog <- catalog_of ;;
  db_pure (azure_volume catalog u ns cluster ordinal id).

Definition azure_cluster_for (catalog : TenantDatabaseCatalog) : result ObserveError DynamicObject :=
  azure_cluster catalog u ns cluster instances.
Definition azure_claim_for (catalog : TenantDatabaseCatalog) (ordinal : Z) : result ObserveError DynamicObject :=
  azure_claim catalog u ns cluster ordinal.

Definition azure_identify_secret (id : ResourceIdentity) (secret : DynamicObject) : result ObserveError ResourceIdentity :=
  if negb (owned_by_cluster (owner_references (dyn_meta secret)) id)
     || (and_then as_str (pointer (dyn_data secret) ["type"]) != Some "kubernetes.io/basic-auth")
  then Err Foreign else
  let! secret_uid := ok_or (uid (dyn_meta secret)) Foreign in
  Ok {| ri_name := secret_name cluster; ri_uid := secret_uid |}.

Definition azure_storage_healthy (catalog : TenantDatabaseCatalog) (item : StorageIdentity) (pv pvc : DynamicObject)
    : result ObserveError bool :=
  let! id := ok_or (si_arm_id item) Foreign in
  let! desired_pv := azure_volume catalog u ns cluster (si_ordinal item) id in
  if negb (matches_desired pv desired_pv) then Err Foreign else
  let! desired_pvc := azure_claim catalog u ns cluster (si_ordinal item) in
  if negb (matches_desired pvc desired_pvc) then Err Foreign else
  Ok (is_bound pv && is_bound pvc).

Definition azure_database_ready (live : DynamicObject) (state : EntryStatus) : bool :=
  (and_then as_i64 (pointer (dyn_data live) ["status"; "readyInstances"]) == Some instances)
  && is_some (es_credentials state)
  && (Z.of_nat (length (es_storage state)) =? as_usize instances)
  && all si_healthy (es_storage state)
  && (Z.of_nat (length (es_instances state)) =? as_usize instances)
  && all io_ready (es_instances state).

Definition azure_ensure : db Progress :=
  step_end (
    step! _ <- match prerequisite_reason access with Some reason => wait u reason | None => step_ret tt end ;;
    step! _ <- ensure_namespace u ns (aa_replay_issued access) ;;
    step! _ <- check_runtime ;;
    step! _ <- initialize_arm_ids ;;
    step! _ <- ensure_disks ;;
    step! _ <- ensure_volumes u instances AZURE_SIZE (aa_replay_issued access) azure_volume_for ;;
    step! id <- ensure_cluster u ns (aa_replay_issued access) azure_cluster_for ;;
    step! _ <- ensure_claims u ns instances AZURE_SIZE azure_claim_for id ;;
    db! live <- observe_cluster u ns cluster ;;
    db! _ <- observe_credentials ns cluster (azure_identify_secret id) ;;
    db! _ <- observe_instances ns cluster instances id ;;
    db! state <- state_of ;;
    db! _ <- observe_storage u ns cluster azure_storage_healthy (seq 0 (length (es_storage state))) ;;
    db! p <- publish u id (azure_database_ready live) ;;
    finish p).

(** ** Deletion *)

(** The disks whose absence is still to be proved. *)
Definition start_finalization (s : EntryStatus) : EntryStatus :=
  match es_finalization s with
  | Some _ => s
  | None => set_finalization (Some {| fs_terminal_verified := false; fs_verified_absent := [];
                                      fs_pending := map expected_arm (ordinals instances) |}) s
  end.

Definition azure_retired_secret (state : EntryStatus) (secret : DynamicObject) : result ObserveError ResourceIdentity :=
  let! bound_cluster := ok_or (es_cnpg_cluster state) Foreign in
  let! id := azure_identify_secret bound_cluster secret in
  if is_some_and (λ bound, bound != id) (es_credentials state) then Err Foreign else Ok id.

Definition azure_retired_volume (catalog : TenantDatabaseCatalog) (ordinal : Z) : result ObserveError DynamicObject :=
  azure_volume catalog u ns cluster ordinal (expected_arm ordinal).

(** The storage record of an ordinal, if there is one: it has to be for the
    expected disk. *)
Definition recorded_disk (ordinal : Z) : db (option (StorageIdentity * option CreateState)) :=
  db! state <- state_of ;;
  match find_storage state ordinal with
  | None => db_ret None
  | Some item =>
      if si_arm_id item != Some (expected_arm ordinal) then db_err Foreign else
      db! previous <- db_pure (intent state "Disk" (disk_name cluster ordinal) ordinal) ;;
      db_ret (Some (item, previous))
  end.

(** The object of the Azure service operator goes first. *)
Definition retire_disk (ordinal : Z) (waiting : bool) : step bool :=
  let nm := disk_name cluster ordinal in
  db! recorded <- recorded_disk ordinal ;;
  match recorded with
  | None => step_ret waiting
  | Some (item, previous) =>
      db! catalog <- catalog_of ;;
      db! desired <- db_pure (disk catalog u access nm) ;;
      db! found <- db_lift (api (perform (FindObject (DISKS (aa_storage_namespace access)) nm))) ;;
      match found with
      | None => step_ret waiting
      | Some live =>
          if negb (issued_or_observed previous) then db_err Foreign else
          db! id <- db_pure (disk_identity live desired catalog u (si_disk item) (expected_arm ordinal)) ;;
          if is_none (si_disk item) then
            db! _ <- db_set (edit_storage AZURE_SIZE ordinal (set_disk (Some id))) ;;
            db! _ <- save u ;;
            finish ProgressChanged
          else if previous == Some Issued then
            db! actual <- arm_get ordinal ;;
            match actual with
            | None => wait u "UnknownCreateOutcome"
            | Some actual =>
                db! _ <- check_arm actual ordinal ;;
                db! _ <- record u "Disk" nm ordinal Observed ;;
                finish ProgressChanged
            end
          else
            db! _ <- verify_run ;;
            db! _ <- db_lift (api (perform (DeleteObject (DISKS (aa_storage_namespace access)) nm
                                              (delete_by_uid (Some (ri_uid id)))))) ;;
            step_ret true
      end
  end.

Definition receipt (f : FinalizationStatus) (id : string) : FinalizationStatus := {|
  fs_terminal_verified := fs_terminal_verified f; fs_verified_absent := fs_verified_absent f ++ [id];
  fs_pending := filter_list (λ x, x != id) (fs_pending f) |}.

Definition record_absence (id : string) : db bool :=
  db! state <- state_of ;;
  db! f <- db_pure (ok_or (es_finalization state) Foreign) ;;
  if any (λ x, x == id) (fs_pending f) then db! _ <- db_set (set_finalization (Some (receipt f id))) ;; db_ret true
  else if any (λ x, x == id) (fs_verified_absent f) then db_ret false
  else db_err Foreign.

(** The disk itself is deleted only when it is provably the recorded one; a
    receipt is recorded when the resource manager says that it is gone. *)
Definition retire_arm (ordinal : Z) (acc : bool * bool) : step (bool * bool) :=
  let '(changed, waiting) := acc in
  db! recorded <- recorded_disk ordinal ;;
  match recorded with
  | None =>
      db! actual <- arm_get ordinal ;;
      if is_some actual then db_err Foreign else
      db! now <- record_absence (expected_arm ordinal) ;;
      step_ret (changed || now, waiting)
  | Some (item, previous) =>
      if previous == Some Planned then wait u "UnknownCreateOutcome" else
      db! actual <- arm_get ordinal ;;
      if previous == Some Issued then
        match actual with
        | None => wait u "UnknownCreateOutcome"
        | Some actual =>
            db! _ <- check_arm actual ordinal ;;
            if is_none (si_disk item) then db_err Foreign else
            db! _ <- record u "Disk" (disk_name cluster ordinal) ordinal Observed ;;
            finish ProgressChanged
        end
      else
        match actual with
        | Some actual =>
            db! _ <- check_arm actual ordinal ;;
            if (previous != Some Observed) || is_none (si_disk item) then db_err Foreign else
            db! _ <- verify_run ;;
            db! arm <- db_pure (access_arm access) ;;
            db! _ <- db_lift (arm_request arm (expected_arm ordinal) true) ;;
            step_ret (changed, true)
        | None =>
            db! now <- record_absence (expected_arm ordinal) ;;
            step_ret (changed || now, waiting)
        end
  end.

(** A receipt for every disk is the proof that the database is gone. *)
Definition azure_conclude : db Progress :=
  db! state <- state_of ;;
  db! f <- db_pure (ok_or (es_finalization state) Foreign) ;;
  if match fs_pending f with [] => false | _ => true end
     || (Z.of_nat (length (fs_verified_absent f)) != as_usize instances)
  then db_err Foreign else
  db! _ <- db_set (set_finalization (Some {| fs_terminal_verified := true; fs_verified_absent := fs_verified_absent f;
                                             fs_pending := fs_pending f |})) ;;
  settle u.

Definition cleanup : step Progress :=
  step! waiting <- each (ordinals instances) false retire_disk ;;
  if (waiting : bool) then finish ProgressWaiting else
  step! outcome <- each (ordinals instances) (false, false) retire_arm ;;
  let '(changed, waiting) := outcome in
  step! _ <- save_changed u changed ;;
  if (waiting : bool) then finish ProgressWaiting else
  db! state <- state_of ;;
  if negb (all_creates_resolved state) then wait u "UnknownCreateOutcome" else
  db! p <- azure_conclude ;;
  finish p.

Definition azure_finalize : db Progress :=
  step_end (
    step! _ <- announce_deletion u start_finalization ;;
    step! _ <- retire_cluster u ns azure_cluster_for ;;
    step! waiting <- retire_secret u ns cluster azure_retired_secret ;;
    step! _ <- retire_claims u ns instances azure_claim_for waiting ;;
    step! _ <- retire_volumes u instances azure_retired_volume ;;
    step! _ <- retire_namespace u ns ;;
    cleanup).
End Azure.

(** ** The provider *)
Definition is_foreign (e : ObserveError) : bool := match e with Foreign => true | _ => false end.

Section Provider.
Context `{SO : Sha256Ops, SJ : SpecJson, FJ : FoundationJson, AJ : AzureConfigJson}.

Definition azure_provider : Provider AzureAccess := {|
  pr_load := load;
  pr_entry := azure_entry;
  pr_validate := azure_validate_state;
  pr_ensure := λ access _ t, azure_ensure access t;
  pr_finalize := azure_finalize;
  pr_foreign := is_foreign;
  pr_generation := λ generation _, Ok generation |}.

Definition azure_reconcile : TenantDatabaseCatalog → bool → io ObserveError (Action * TenantDatabaseCatalog) :=
  provider_reconcile azure_provider.
End Provider.
