(* ===== verification/CatalogWriters.v ===== *)
(** * What the writers of a catalog send

    Whatever the API server answers, every write of a catalog by the
    administration server and by the database controller is a legal transition
    of a version of the catalog that the writer read. *)

From S2P Require Import Prelude RustStd Kube Errors Api Effects DatabaseApi AdminTypes AdminView CatalogOps.
From S2P Require Import Status Readiness AdminCatalog DatabaseStatus.

#[local] Arguments wp : simpl never.
#[local] Arguments bind : simpl never.
#[local] Arguments perform_map : simpl never.

(** ** Catalogs of a history *)
Definition catalogs_of (e : event Resp) : list TenantDatabaseCatalog :=
  match e with
  | existT o r =>
      match o return Resp o → list TenantDatabaseCatalog with
      | GetCatalog _ _ => λ r, match r with Ok (Some c) => [c] | _ => [] end
      | ReadCatalog _ _ | ReplaceCatalog _ _ _ | ReplaceCatalogStatus _ _ _ | PatchObserver _ _ _ _ =>
          λ r, match r with Ok c => [c] | Err _ => [] end
      | _ => λ _, []
      end r
  end.

Definition seen (h : trace Resp) (c : TenantDatabaseCatalog) : Prop := ∃ e, e ∈ h ∧ c ∈ catalogs_of e.

Lemma catalog_seen_app_l h h' c : seen h c → seen (h ++ h') c.
Proof. intros (e & He & Hc). exists e. split; [apply elem_of_app; by left|done]. Qed.
Lemma catalog_seen_last h e c : c ∈ catalogs_of e → seen (h ++ [e]) c.
Proof. intros Hc. exists e. split; [apply elem_of_app; right; by left|done]. Qed.
Lemma catalog_seen_snoc h e c : seen (h ++ [e]) c ↔ seen h c ∨ c ∈ catalogs_of e.
Proof.
  split; [|intros [H|H]; [by apply catalog_seen_app_l|by apply catalog_seen_last]].
  intros (x & [Hx|Hx]%elem_of_app & Hc); [left; by exists x|].
  apply list_elem_of_singleton in Hx as ->. by right.
Qed.

Definition version (c : TenantDatabaseCatalog) : option string := resource_version (tdc_meta c).

(** Read, with a version that makes a write conditional. *)
Definition read_version (h : trace Resp) (c : TenantDatabaseCatalog) : Prop :=
  seen h c ∧ ∃ rv, version c = Some rv ∧ rv ≠ "".

Lemma read_version_app_l h h' c : read_version h c → read_version (h ++ h') c.
Proof. intros [H ?]. split; [by apply catalog_seen_app_l|done]. Qed.

(** ** Legal writes *)

(** A closed catalog has only entries that are being deleted. *)
Definition closed_rule (spec : TenantDatabaseCatalogSpec) : Prop :=
  tds_closed spec = true → map_Forall (λ _ e, en_deleting e = true) (tds_entries spec).

Definition legal (c : TenantDatabaseCatalog) : Prop :=
  validate_spec (tdc_spec c) = Ok tt ∧ closed_rule (tdc_spec c).

(** A write of the specification made from a version that was read: only the
    entries change, by a legal transition of that version. *)
Definition write_from (c obj : TenantDatabaseCatalog) : Prop :=
  tdc_meta obj = tdc_meta c ∧ tdc_spec obj = tdc_spec (with_entries c (tds_entries (tdc_spec obj))) ∧
  (legal c → validate_transition c (with_entries c (tds_entries (tdc_spec obj))) = Ok tt).

(** A write of the status keeps the specification and sets the status of one
    entry that exists, or drops the status of one that does not. *)
Definition status_from (c obj : TenantDatabaseCatalog) : Prop :=
  ∃ entry_uid next status, new_status c entry_uid next = Ok status ∧ obj = with_status c status.

Definition catalog_write (h : trace Resp) (o : Op) : Prop :=
  match o with
  | ReplaceCatalog ns nm obj => ∃ c, read_version h c ∧ write_from c obj
  | ReplaceCatalogStatus ns nm obj => ∃ c, read_version h c ∧ status_from c obj
  | PatchObserver ns nm rv receipt => ∃ c, read_version h c ∧ version c = Some rv ∧
      uid (tdc_meta c) = Some (ob_catalog_uid receipt) ∧ generation (tdc_meta c) = Some (ob_observed_generation receipt)
      ∧ ob_observed_resource_version receipt = rv
  | DeleteTenant _ _ => False
  | _ => True
  end.

Definition quiet (o : Op) : Prop := writes o = false.

Lemma quiet_write h o : quiet o → catalog_write h o.
Proof. by destruct o. Qed.

(** Requests that change nothing. *)
Definition reading (o : Op) : Prop := changes o = false.

Lemma reading_quiet o : reading o → quiet o.
Proof. by destruct o. Qed.
Lemma reading_write h o : reading o → catalog_write h o.
Proof. intros H. by apply quiet_write, reading_quiet. Qed.

(** ** Transitions *)
Lemma validate_transition_entries c entries :
  validate_spec (tdc_spec (with_entries c entries)) = Ok tt →
  (∀ u e, tds_entries (tdc_spec c) !! u = Some e → check_kept c (with_entries c entries) (u, e) = Ok tt) →
  (tds_closed (tdc_spec c) = true →
     map_Forall (λ u e, en_deleting e = true ∧ is_Some (tds_entries (tdc_spec c) !! u)) entries) →
  validate_transition c (with_entries c entries) = Ok tt.
Proof.
  intros Hspec Hkept Hclosed. unfold validate_transition. rewrite Hspec. cbn [with_entries tdc_spec tds_tenant_name
    tds_tenant_uid tds_closed tds_entries]. rewrite !bool_decide_eq_true_2 by done. cbn [negb orb].
  rewrite andb_negb_r.
  assert (try_for (check_kept c (with_entries c entries)) (ordered (tds_entries (tdc_spec c))) = Ok tt) as Hf.
  { apply try_for_Ok. intros [u e] He%elem_of_ordered. by apply Hkept. }
  cbn [with_entries] in Hf. rewrite Hf. destruct (tds_closed (tdc_spec c)); [|done]. specialize (Hclosed eq_refl).
  cbn [andb]. rewrite (proj2 (any_false _ _)), (proj2 (any_false _ _)); [done| |].
  - intros [u e] He%elem_of_ordered. destruct (Hclosed u e He) as [_ [x Hx]]. cbn. by rewrite Hx.
  - intros [u e] He%elem_of_ordered. destruct (Hclosed u e He) as [Hd _]. cbn. by rewrite Hd.
Qed.

(** The rules of an object on its entries. *)
Lemma validate_entries c entries :
  validate_spec (tdc_spec c) = Ok tt → (size entries ≤ 3)%nat →
  map_Forall crd_entry_rule entries → crd_unique_names entries →
  validate_spec (tdc_spec (with_entries c entries)) = Ok tt.
Proof. rewrite !validate_spec_crd. intros [] ???. by split. Qed.

Lemma insert_unique entries u (e : CatalogEntry) :
  (∀ u' e', entries !! u' = Some e' → u' ≠ u → en_name e' ≠ en_name e) →
  crd_unique_names entries → crd_unique_names (<[u := e]> entries).
Proof.
  intros Hn H u1 u2 e1 e2 H1 H2 E.
  apply lookup_insert_Some in H1 as [[<- <-]|[Hne1 H1]]; apply lookup_insert_Some in H2 as [[<- <-]|[Hne2 H2]];
    [done| | |by eapply H].
  - by destruct (Hn u2 e2 H2 (not_eq_sym Hne2)).
  - by destruct (Hn u1 e1 H1 (not_eq_sym Hne1)).
Qed.

Lemma exact_catalog_Ok c u : exact_catalog c u = Ok tt →
  valid_logical_uid u = true ∧ uid (tdc_meta c) = Some u ∧ tds_closed (tdc_spec c) = false.
Proof.
  unfold exact_catalog. destruct (valid_logical_uid u), (bool_decide _) eqn:Hb; cbn; try done.
  apply bool_decide_eq_true in Hb. by destruct (tds_closed _).
Qed.

Lemma check_kept_same c c' u e e' :
  tds_entries (tdc_spec c') !! u = Some e' → en_name e' = en_name e → en_instances e' = en_instances e →
  (en_deleting e = true → en_deleting e' = true) → check_kept c c' (u, e) = Ok tt.
Proof.
  intros Hu Hn Hi Hd. unfold check_kept. rewrite Hu, Hn, Hi, !bool_decide_eq_true_2 by done. cbn.
  destruct (en_deleting e); [|done]. by rewrite Hd.
Qed.

Lemma insert_legal c request u c' :
  insert c request u = Ok c' → valid_logical_uid u = true → validate_spec (tdc_spec c) = Ok tt →
  ∃ e, c' = with_entries c (<[u := e]> (tds_entries (tdc_spec c))) ∧ en_name e = dar_name request ∧
    en_deleting e = false ∧ tds_entries (tdc_spec c) !! u = None ∧ validate_transition c c' = Ok tt.
Proof.
  unfold insert. intros H Hu Hspec. destruct (exact_catalog c _) as [[]|] eqn:Hx; [|done].
  apply exact_catalog_Ok in Hx as (_ & _ & Hopen).
  destruct (valid_name (dar_name request)) eqn:Hn; [|done].
  destruct ((1 <=? _) && _) eqn:Hi; [|done]. cbn [negb orb] in H.
  destruct (any _ _) eqn:Ha; [done|]. destruct (tds_entries (tdc_spec c) !! u) as [|] eqn:He; [done|].
  cbn [is_some orb] in H. case_bool_decide as Hsize; [done|]. injection H as <-.
  eexists. split_and!; [done..|]. apply validate_transition_entries.
  - pose proof Hspec as Hs. rewrite validate_spec_crd in Hs. destruct Hs as [_ _ _ HF HN].
    apply validate_entries; [done|rewrite map_size_insert_None by done; unfold DATABASE_LIMIT in Hsize; lia| |].
    + apply map_Forall_insert_2; [|done]. split_and!; [by apply valid_logical_uid_crd|by apply valid_name_crd|..];
        cbn [en_instances]; unfold as_i32; bool_hyp; rewrite Z.mod_small by lia; lia.
    + apply insert_unique; [|done]. intros u' e' He' _ E. rewrite any_false in Ha.
      specialize (Ha (u', e') (proj2 (elem_of_ordered _ _ _) He')). cbn in Ha. by apply bool_decide_eq_false in Ha.
  - intros u' e' He'. eapply check_kept_same; [|done..]. cbn. rewrite lookup_insert_ne; [done|congruence].
  - congruence.
Qed.

Lemma mark_delete_legal c request c' :
  mark_delete c request = Ok c' → validate_spec (tdc_spec c) = Ok tt →
  ∃ e, c' = with_entries c (<[ddr_logical_uid request := {| en_name := en_name e; en_instances := en_instances e;
                              en_deleting := true |}]> (tds_entries (tdc_spec c))) ∧
    tds_entries (tdc_spec c) !! ddr_logical_uid request = Some e ∧ en_name e = ddr_confirmation request ∧
    validate_transition c c' = Ok tt.
Proof.
  unfold mark_delete. intros H Hspec. destruct (exact_catalog c _) as [[]|] eqn:Hx; [|done].
  apply exact_catalog_Ok in Hx as (_ & _ & Hopen). destruct (negb _ || negb _); [done|].
  destruct (tds_entries (tdc_spec c) !! ddr_logical_uid request) as [e|] eqn:He; [|done]. cbn [ok_or] in H.
  destruct (bool_decide _) eqn:Hn; [|done]. apply bool_decide_eq_true in Hn. injection H as <-.
  exists e. split_and!; [done..|]. apply validate_transition_entries.
  - pose proof Hspec as Hs. rewrite validate_spec_crd in Hs. destruct Hs as [_ _ Hsize HF HN].
    apply validate_entries; [done| | |].
    + rewrite map_size_insert_Some by done. done.
    + apply map_Forall_insert_2; [|done]. exact (HF _ e He).
    + apply insert_unique; [|done]. intros u' e' He' Hne E. apply Hne. by eapply HN.
  - intros u' e' He'. destruct (decide (u' = ddr_logical_uid request)) as [->|Hne].
    + assert (e' = e) as -> by congruence. eapply check_kept_same; [cbn; by rewrite lookup_insert_eq|done..].
    + eapply check_kept_same; [cbn; by rewrite lookup_insert_ne|done..].
  - congruence.
Qed.

Lemma remove_legal c u :
  removable c u = true → validate_spec (tdc_spec c) = Ok tt → closed_rule (tdc_spec c) →
  validate_transition c (with_entries c (base.delete u (tds_entries (tdc_spec c)))) = Ok tt.
Proof.
  unfold removable. intros [Hd Hp]%andb_true_iff Hspec Hcl.
  pose proof Hspec as Hs. rewrite validate_spec_crd in Hs. destruct Hs as [_ _ Hsize HF HN].
  apply validate_transition_entries.
  - apply validate_entries; [done| | |].
    + etrans; [apply map_subseteq_size, delete_subseteq|done].
    + by apply map_Forall_delete.
    + intros u1 u2 e1 e2 [_ H1]%lookup_delete_Some [_ H2]%lookup_delete_Some. by eapply HN.
  - intros u' e He. destruct (decide (u' = u)) as [->|Hne].
    + unfold check_kept. cbn. rewrite lookup_delete_eq, Hp. cbn.
      rewrite He in Hd. cbn in Hd. by rewrite Hd.
    + eapply check_kept_same; [cbn; by rewrite lookup_delete_ne|done..].
  - intros Hc u' e' [_ He']%lookup_delete_Some. split; [exact (Hcl Hc u' e' He')|by eexists].
Qed.

(** ** Programs that only read *)
#[local] Hint Extern 1 (quiet _) => reflexivity : permits.

Lemma within_read tenant : within quiet (read tenant).
Proof. unfold read, read_opt. walk. Qed.
Lemma within_live_tenant tenant : within quiet (live_tenant tenant).
Proof. unfold live_tenant, read_opt. walk. Qed.
Lemma within_no_cutover kinds : within quiet (no_cutover kinds).
Proof. induction kinds as [|kind kinds IH]; cbn [no_cutover]; walk. Qed.
Lemma within_may_access nm verbs : within quiet (may_access nm verbs).
Proof. induction verbs as [|verb verbs IH]; cbn [may_access]; walk. Qed.
#[local] Hint Resolve within_no_cutover within_may_access : permits.
Lemma within_rollout tenant : within quiet (rollout tenant).
Proof. unfold rollout, load_creation_capability, read_opt. walk. Qed.
Lemma within_verify_current observed : within quiet (verify_current observed).
Proof. unfold verify_current, api. walk. Qed.

(** ** What a reader knows *)
(** A read whose absence is an error. *)
Ltac read_request :=
  unfold read_opt; apply wp_bind; request;
  [|match goal with E : _ = _ ++ [existT _ ?r] |- _ => destruct r as [[?|]|?] end;
    cbn [map_err ok_or]; apply wp_return; cbn [ok_or]].

Lemma check_catalog_Ok nm tenant_uid capability expected c :
  check_catalog nm tenant_uid capability expected c = Ok tt →
  validate_spec (tdc_spec c) = Ok tt ∧ (∃ rv, version c = Some rv ∧ rv ≠ "") ∧
  uid (tdc_meta c) = Some (cap_catalog_uid capability).
Proof.
  unfold check_catalog, version. destruct (_ || is_err _) eqn:H; [done|]. intros _. bool_hyp.
  split_and!.
  - by destruct (validate_spec (tdc_spec c)) as [[]|].
  - by eexists.
  - done.
Qed.

Lemma wp_read tenant h :
  wp (read tenant) h (λ _, quiet)
    (λ h' r, ∀ c, r = Ok c → read_version h' c ∧ validate_spec (tdc_spec c) = Ok tt).
Proof.
  unfold read. destruct (ok_or (opt_filter _ _) _) as [nm|e]; [|done].
  destruct (source_uid _) as [tu|e]; [|done]. destruct (ok_or (and_then _ _) _) as [cap|e]; [|done].
  read_request; [done| |done..]. destruct (check_namespace _ _ _ _ _) as [[]|e]; [|done].
  read_request; [done| |done..]. destruct (check_catalog _ _ _ _ _) as [[]|e] eqn:Hc; [|done].
  apply check_catalog_Ok in Hc as (Hs & Hv & _). apply wp_return. intros c [= <-].
  split; [split; [|done]|done]. subst. apply catalog_seen_last. by left.
Qed.

Lemma wp_live_tenant tenant h :
  wp (live_tenant tenant) h (λ _, quiet)
    (λ h' r, ∀ live, r = Ok live → uid (tenant_meta live) = uid (tenant_meta tenant) ∧
       ∃ nm, replied h' (GetTenantOpt nm) (Ok (Some live))).
Proof.
  unfold live_tenant. destruct (ok_or _ _) as [nm|e]; [|done]. read_request; [done| |done..].
  case_bool_decide as Hu; [|done]. apply wp_return. intros live [= <-]. split; [done|].
  exists nm. subst. apply replied_last.
Qed.

Lemma wp_no_cutover kinds h :
  wp (no_cutover kinds) h (λ _, quiet)
    (λ h' r, r = Ok tt → ∀ kind, kind ∈ kinds → replied h' (GetAdmission kind CUTOVER_LOCK) (Ok None)).
Proof.
  revert h. induction kinds as [|kind kinds IH]; intros h; cbn [no_cutover].
  { apply wp_return. set_solver. }
  request; [done|]. destruct reply as [[d|]|e]; cbn [map_err is_some]; [done| |done].
  eapply wp_post; [apply wp_extends, IH|]. intros h' r [Hr [g ->]] Ok_r k [->|Hk]%elem_of_cons; [|by apply Hr].
  apply replied_app_l. subst. apply replied_last.
Qed.

Lemma wp_may_access nm verbs h :
  wp (may_access nm verbs) h (λ _, quiet)
    (λ h' r, r = Ok tt → ∀ verb, verb ∈ verbs → ∃ data,
       replied h' (ReviewAccess (database_namespace nm) nm verb) (Ok data) ∧ review_allows data = true).
Proof.
  revert h. induction verbs as [|verb verbs IH]; intros h; cbn [may_access].
  { apply wp_return. set_solver. }
  request; [done|]. destruct reply as [data|e]; cbn [map_err]; [|done].
  destruct (review_allows data) eqn:Ha; cbn [negb]; [|done].
  eapply wp_post; [apply wp_extends, IH|]. intros h' r [Hr [g ->]] Ok_r v [->|Hv]%elem_of_cons; [|by apply Hr].
  exists data. split; [|done]. apply replied_app_l. subst. apply replied_last.
Qed.

(** What the rollout check established: both controllers are rolled out, no
    migration lock exists and the server may write the catalog. *)
Definition rollout_checked (live : Tenant) (h : trace Resp) : Prop :=
  (∃ deployment, replied h (GetDeployment CONTROLLER_NAMESPACE CONTROLLER_DEPLOYMENT) (Ok (Some deployment)) ∧
     cc_available (deployment_capability (provider_mode live) deployment) = true) ∧
  (∃ deployment, replied h (GetDeployment CONTROLLER_NAMESPACE "database-controller") (Ok (Some deployment)) ∧
     deployment_rolled_out deployment = true) ∧
  replied h (GetAdmission "ValidatingAdmissionPolicy" CUTOVER_LOCK) (Ok None) ∧
  replied h (GetAdmission "ValidatingAdmissionPolicyBinding" CUTOVER_LOCK) (Ok None) ∧
  ∃ nm data, name (tenant_meta live) = Some nm ∧
    replied h (ReviewAccess (database_namespace nm) nm "update") (Ok data) ∧ review_allows data = true.

Lemma rollout_checked_app_l live h h' : rollout_checked live h → rollout_checked live (h ++ h').
Proof.
  intros ((d1 & H1 & ?) & (d2 & H2 & ?) & H3 & H4 & (nm & data & ? & H5 & ?)).
  split_and!; [exists d1|exists d2|..|exists nm, data]; split_and?; by try apply replied_app_l.
Qed.

Lemma wp_rollout live h :
  wp (rollout live) h (λ _, quiet) (λ h' r, r = Ok tt → rollout_checked live h').
Proof.
  unfold rollout, load_creation_capability. apply wp_bind. request; [done|].
  destruct reply as [[d1|]|e]; apply wp_return; [|done..].
  destruct (cc_available _) eqn:H1; cbn [negb]; [|done].
  read_request; [done| |done..]. destruct (deployment_rolled_out d) eqn:H2; cbn [negb]; [|done].
  apply wp_bind. eapply wp_post; [apply wp_extends, wp_no_cutover|]. intros h2 r [Hc [g2 ->]].
  destruct r as [[]|e]; [|done]. specialize (Hc eq_refl).
  destruct (ok_or _ _) as [nm|e] eqn:Hn; [|done].
  eapply wp_post; [apply wp_extends, wp_may_access|]. intros h3 r [Ha [g3 ->]] Hr. specialize (Ha Hr).
  split_and!.
  - exists d1. split; [|done]. subst. do 3 apply replied_app_l. apply replied_last.
  - exists d. split; [|done]. subst. do 2 apply replied_app_l. apply replied_last.
  - apply replied_app_l, Hc. set_solver.
  - apply replied_app_l, Hc. set_solver.
  - destruct (Ha "update") as (data & ? & ?); [set_solver|]. exists nm, data. split; [|done].
    destruct (name (tenant_meta live)); by simplify_eq/=.
Qed.

(** ** Mutations of the administration server *)

(** A write that was refused with a conflict took no effect. *)
Definition conflicted (e : event Resp) : Prop :=
  match e with
  | existT o r =>
      match o return Resp o → Prop with
      | ReplaceCatalog _ _ _ => λ r, match r with Ok _ => False | Err e => is_conflict e = true end
      | _ => λ _, True
      end r
  end.
Definition attempts_conflicted (h : trace Resp) : Prop := Forall conflicted h.

Lemma attempts_conflicted_snoc h e : attempts_conflicted h → conflicted e → attempts_conflicted (h ++ [e]).
Proof. intros Hh He. apply Forall_app. by split; [|constructor]. Qed.

Lemma wp_reading {A} (p : prog Resp A) h (Post : trace Resp → A → Prop) :
  wp p h (λ _, quiet) Post →
  wp p h (λ _, quiet) (λ h' a, Post h' a ∧ (∃ g, h' = h ++ g) ∧ (attempts_conflicted h → attempts_conflicted h')).
Proof.
  intros Hp. enough (wp p h (λ _, quiet) (λ h' a, Post h' a ∧ (attempts_conflicted h → attempts_conflicted h'))) as H.
  { eapply wp_post; [apply wp_extends, H|]. naive_solver. }
  revert h Hp. induction p as [a|o k IH]; intros h; [done|].
  intros [Ho Hk]. split; [done|]. intros r. eapply wp_post; [apply IH, Hk|].
  intros h' a [HP Hc]. split; [done|]. intros H. apply Hc, attempts_conflicted_snoc; [done|]. by destruct o.
Qed.

(** The view that is reported is of a catalog the server returned. *)
Definition reported (h : trace Resp) (r : result SourceError CatalogView) : Prop :=
  ∀ view, r = Ok view → ∃ c live, seen h c ∧ project c (provider_mode live) (capability_available live) = Ok view.

Lemma wp_recover tenant cu lu nm deleting h :
  wp (recover tenant cu lu nm deleting) h (λ _, quiet) reported.
Proof.
  unfold recover. apply wp_bind. eapply wp_post; [apply wp_read|]. intros h' [c|e] Hr; [|done].
  destruct (Hr c eq_refl) as [[Hs _] _]. case_bool_decide; [|done]. destruct (recovered _ _ _ _); [|done].
  apply wp_return. intros view Hv. by exists c, tenant.
Qed.

(** A write and what follows: the report, another attempt after a conflict, or
    the recovery of an unknown outcome. *)
Lemma wp_mutation (Pre : trace Resp → Op → Prop) updated live retry cu lu nm deleting h :
  (∀ h o, quiet o → Pre h o) →
  Pre h (ReplaceCatalog (database_namespace (catalog_name updated)) (catalog_name updated) (without_status updated)) →
  attempts_conflicted h → (∀ h', attempts_conflicted h' → wp retry h' Pre reported) →
  wp (do! reply <- replace_catalog updated ;;
      match reply with
      | Ok stored => Ret (project stored (provider_mode live) (capability_available live))
      | Err error =>
          if is_conflict error then retry
          else if definite error then Ret (Err (mutation_error error))
          else recover live cu lu nm deleting
      end) h Pre reported.
Proof.
  intros Hq Ho Hc Hretry. unfold replace_catalog. request; [done|]. destruct reply as [stored|e].
  - apply wp_return. intros view Hv. exists stored, live. split; [|done]. subst. apply catalog_seen_last. by left.
  - destruct (is_conflict e) eqn:He; [apply Hretry; subst; by apply attempts_conflicted_snoc|].
    destruct (definite e); [done|]. eapply wp_mono; [| |apply wp_recover]; eauto.
Qed.

(** What is established before a database is added, in this attempt. *)
Definition add_write (tenant : Tenant) (request : DatabaseAddRequest) (u : string)
    (h : trace Resp) (o : Op) : Prop :=
  match o with
  | ReplaceCatalog ns nm obj => ∃ live c c',
      uid (tenant_meta live) = uid (tenant_meta tenant) ∧
      (∃ n, replied h (GetTenantOpt n) (Ok (Some live))) ∧ ready live = Ok tt ∧ rollout_checked live h ∧
      read_version h c ∧ insert c request u = Ok c' ∧ obj = without_status c' ∧
      validate_transition c c' = Ok tt ∧ attempts_conflicted h
  | _ => quiet o
  end.

Definition delete_write (tenant : Tenant) (request : DatabaseDeleteRequest) (h : trace Resp) (o : Op) : Prop :=
  match o with
  | ReplaceCatalog ns nm obj => ∃ live c c',
      uid (tenant_meta live) = uid (tenant_meta tenant) ∧
      (∃ n, replied h (GetTenantOpt n) (Ok (Some live))) ∧
      read_version h c ∧ mark_delete c request = Ok c' ∧ obj = without_status c' ∧
      validate_transition c c' = Ok tt ∧ attempts_conflicted h
  | _ => quiet o
  end.

(** A program that only reads, then the rest. *)
Lemma wp_after_reading {A B} (p : io SourceError A) (f : A → io SourceError B) h (Pre : trace Resp → Op → Prop)
    (Known : trace Resp → A → Prop) Post :
  (∀ h o, quiet o → Pre h o) → wp p h (λ _, quiet) (λ h' r, ∀ a, r = Ok a → Known h' a) →
  (∀ h' e, Post h' (Err e)) → attempts_conflicted h →
  (∀ g a, Known (h ++ g) a → attempts_conflicted (h ++ g) → wp (f a) (h ++ g) Pre Post) →
  wp (try! a <- p ;; f a) h Pre Post.
Proof.
  intros Hq Hp Herr Hh Hf. apply wp_bind. eapply (wp_mono _ _ (λ _, quiet)); [done| |apply wp_reading, Hp].
  intros h' [a|e] (Hk & [g ->] & Hc); [|apply wp_return, Herr]. apply Hf; [by apply Hk|by apply Hc].
Qed.

Lemma add_write_quiet tenant request u h o : quiet o → add_write tenant request u h o.
Proof. by destruct o. Qed.
Lemma delete_write_quiet tenant request h o : quiet o → delete_write tenant request h o.
Proof. by destruct o. Qed.

Lemma wp_add_attempt retry tenant request u h :
  valid_logical_uid u = true → attempts_conflicted h →
  (∀ h', attempts_conflicted h' → wp retry h' (add_write tenant request u) reported) →
  wp (add_attempt retry tenant request u) h (add_write tenant request u) reported.
Proof.
  intros Hu Hh Hretry. unfold add_attempt.
  eapply wp_after_reading; [apply add_write_quiet|apply wp_live_tenant|done|done|].
  intros g1 live [Huid [n Hlive]] H1. destruct (ready live) as [[]|] eqn:Hready; [|done].
  eapply (wp_after_reading _ _ _ _ (λ h' _, rollout_checked live h'));
    [apply add_write_quiet| |done|done|].
  { eapply wp_post; [apply wp_rollout|]. by intros h' [[]|] Hr [] ?; [apply Hr|]. }
  intros g2 [] Hroll H2.
  eapply wp_after_reading; [apply add_write_quiet|apply wp_read|done|done|].
  intros g3 c [Hc Hs] H3. destruct (insert c request u) as [c'|] eqn:Hi; [|done].
  apply wp_mutation; [apply add_write_quiet| |done|done].
  destruct (insert_legal c request u c' Hi Hu Hs) as (e & _ & _ & _ & _ & Hlegal).
  exists live, c, c'. split_and!; [done| |done| |done..].
  - exists n. by do 2 apply replied_app_l.
  - by apply rollout_checked_app_l.
Qed.

Lemma wp_delete_attempt retry tenant request h :
  attempts_conflicted h →
  (∀ h', attempts_conflicted h' → wp retry h' (delete_write tenant request) reported) →
  wp (delete_attempt retry tenant request) h (delete_write tenant request) reported.
Proof.
  intros Hh Hretry. unfold delete_attempt.
  eapply wp_after_reading; [apply delete_write_quiet|apply wp_live_tenant|done|done|].
  intros g1 live [Huid [n Hlive]] H1.
  eapply wp_after_reading; [apply delete_write_quiet|apply wp_read|done|done|].
  intros g3 c [Hc Hs] H3. destruct (mark_delete c request) as [c'|] eqn:Hi; [|done].
  apply wp_mutation; [apply delete_write_quiet| |done|done].
  destruct (mark_delete_legal c request c' Hi Hs) as (e & _ & _ & _ & Hlegal).
  exists live, c, c'. split_and!; [done| |done..]. exists n. by apply replied_app_l.
Qed.

Lemma wp_add tenant request u h :
  valid_logical_uid u = true → attempts_conflicted h →
  wp (add tenant request u) h (add_write tenant request u) reported.
Proof.
  intros Hu. unfold add. generalize 2%nat. intros retries. revert h.
  induction retries as [|retries IH]; intros h Hh; (apply wp_add_attempt; [done|done|]); [done|exact IH].
Qed.

Lemma wp_delete tenant request h :
  attempts_conflicted h → wp (delete tenant request) h (delete_write tenant request) reported.
Proof.
  unfold delete. generalize 2%nat. intros retries. revert h.
  induction retries as [|retries IH]; intros h Hh; (apply wp_delete_attempt; [done|]); [done|exact IH].
Qed.

(** ** Writes of the database controller *)

(** Every write is conditional on a version that was read and legal from it. *)
Definition respects {A} (p : prog Resp A) : Prop := ∀ h, wp p h catalog_write (λ _ _, True).

Lemma respects_within {A} (p : prog Resp A) : within quiet p → respects p.
Proof. intros Hp h. eapply wp_mono; [| |apply Hp]; [|done]. intros h' o. apply quiet_write. Qed.

Lemma respects_bind {A B} (p : prog Resp A) (f : A → prog Resp B) :
  respects p → (∀ a, respects (f a)) → respects (bind p f).
Proof. intros Hp Hf h. apply wp_bind. eapply wp_post; [apply Hp|]. intros h' a _. apply Hf. Qed.

(** The errors that say nothing about the ownership of a database. *)
Definition benign (e : ObserveError) : bool :=
  match e with Foreign | PathFailed _ => false | _ => true end.

(** The errors of the identity check are benign. *)
Definition errs_benign {A} (r : result ObserveError A) : Prop := match r with Ok _ => True | Err e => benign e = true end.

Lemma benign_ok_or {A} (o : option A) e : benign e = true → errs_benign (ok_or o e).
Proof. by destruct o. Qed.
Lemma benign_bind {A B} (r : result ObserveError A) (f : A → result ObserveError B) :
  errs_benign r → (∀ a, errs_benign (f a)) → errs_benign (let! a := r in f a).
Proof. intros Hr Hf. by destruct r. Qed.
Lemma benign_field_differs v path expected rest : errs_benign rest → errs_benign (field_differs v path expected rest).
Proof. intros Hr. apply benign_bind; [by apply benign_ok_or|]. intros a. by destruct (bool_decide _). Qed.

Lemma verify_identity_benign c tenant ns : errs_benign (verify_identity c tenant ns).
Proof.
  unfold verify_identity. apply benign_bind; [by destruct (validate_spec _)|intros _].
  do 3 (apply benign_bind; [by apply benign_ok_or|intros ?]).
  apply benign_bind.
  - destruct (metadata_mismatch _ _ _ _); [done|]. by repeat apply benign_field_differs.
  - intros []; [done|]. destruct (Readiness.pointer _ _); [|done].
    apply benign_bind; [by apply benign_field_differs|by intros []].
Qed.

(** The identity check returns a version of the catalog that it read. *)
Lemma wp_verified observed h :
  wp (verify_current observed) h (λ _, reading)
    (λ h' r, match r with
             | Ok c => seen h' c ∧ uid (tdc_meta c) = uid (tdc_meta observed)
             | Err e => benign e = true
             end).
Proof.
  unfold verify_current, api, required_uid. destruct (ok_or _ _) as [ns|] eqn:Hn; cbn;
    [|by destruct (namespace _); simplify_eq/=].
  request; [done|]. destruct reply as [current|]; cbn [map_err]; [|done].
  destruct (filter_non_empty (uid (tdc_meta current))) as [u1|] eqn:H1; cbn [ok_or]; [|done].
  destruct (filter_non_empty (uid (tdc_meta observed))) as [u2|] eqn:H2; cbn [ok_or]; [|done].
  case_bool_decide; [|done]. cbn [negb].
  request; [done|]. destruct reply as [tenant|]; cbn [map_err]; [|done].
  request; [done|]. destruct reply as [dns|]; cbn [map_err]; [|done].
  pose proof (verify_identity_benign current tenant dns) as Hv. destruct (verify_identity _ _ _); [|done].
  request; [done|]. destruct reply as [latest|]; cbn [map_err]; [|done].
  destruct (filter_non_empty (uid (tdc_meta latest))) as [u3|] eqn:H3; cbn [ok_or]; [|done].
  destruct (_ || _) eqn:Hb; [done|]. bool_hyp. apply wp_return. split; [subst; apply catalog_seen_last; by left|].
  apply filter_non_empty_Some in H2 as [-> _]. apply filter_non_empty_Some in H3 as [-> _]. congruence.
Qed.

Lemma wp_verify_current {B} observed (f : TenantDatabaseCatalog → io ObserveError B) h :
  (∀ h' c, seen h' c → wp (f c) h' catalog_write (λ _ _, True)) →
  wp (try! c <- verify_current observed ;; f c) h catalog_write (λ _ _, True).
Proof.
  intros Hf. apply wp_bind. eapply (wp_mono _ _ (λ _, reading)); [apply reading_write| |apply wp_verified].
  intros h' [c|e] Hc; [by apply Hf, Hc|done].
Qed.

Lemma guard_Ok current observed :
  guard current observed = Ok tt → version current = version observed ∧ ∃ rv, version current = Some rv ∧ rv ≠ "".
Proof. unfold guard, version. destruct (_ || _) eqn:H; [done|]. intros _. bool_hyp. split; [done|by eexists]. Qed.

(** A program that only reads the catalog, in one with more rights. *)
Lemma wp_verifying {B} (Pre : trace Resp → Op → Prop) observed (f : TenantDatabaseCatalog → io ObserveError B) h Post :
  (∀ h o, reading o → Pre h o) → (∀ h' e, benign e = true → Post h' (Err e)) →
  (∀ g c, seen (h ++ g) c → uid (tdc_meta c) = uid (tdc_meta observed) → wp (f c) (h ++ g) Pre Post) →
  wp (try! c <- verify_current observed ;; f c) h Pre Post.
Proof.
  intros Hq He Hf. apply wp_bind.
  eapply (wp_mono _ _ (λ _, reading)); [exact Hq| |apply wp_extends, wp_verified].
  intros h' [c|e] [Hc [g ->]]; [by apply Hf; apply Hc|by apply He].
Qed.

(** The status of one entry is written over a version that was read, and the
    catalog that is returned has it. *)
Lemma wp_update (Pre : trace Resp → Op → Prop) observed u next h :
  (∀ h o, reading o → Pre h o) →
  (∀ g c ns status, read_version (h ++ g) c → version c = version observed → new_status c u next = Ok status →
     Pre (h ++ g) (ReplaceCatalogStatus ns (name_any (tdc_meta c)) (with_status c status))) →
  wp (update observed u next) h Pre
    (λ h' r, match r with
             | Ok c => seen h' c ∧ uid (tdc_meta c) = uid (tdc_meta observed) ∧ ∃ c0 status, new_status c0 u next = Ok status ∧ tdc_status c = Some status
             | Err e => benign e = true
             end).
Proof.
  intros Hq Hw. unfold update. apply wp_verifying; [done|done|]. intros g c Hc Hu.
  destruct (guard c observed) as [[]|e] eqn:Hg; [|unfold guard in Hg; destruct (_ || _); by simplify_eq].
  apply guard_Ok in Hg as [Hv Hrv].
  destruct (new_status c u next) as [status|e] eqn:Hs;
    [|unfold new_status in Hs; destruct next; case_match; by simplify_eq].
  destruct (ok_or _ _) as [ns|e] eqn:Hn; [|by destruct (namespace _); simplify_eq/=]. unfold api. request.
  { by apply Hw. }
  destruct reply as [updated|e]; cbn [map_err]; [|done]. destruct (_ || _) eqn:Hup; [done|]. bool_hyp.
  apply wp_verifying; [done|done|]. intros g2 latest Hl Hu2. destruct (_ || _) eqn:Hb; [done|]. bool_hyp.
  apply wp_return. split; [done|]. split; [congruence|]. by exists c, status.
Qed.

Lemma respects_update observed entry_uid next : respects (update observed entry_uid next).
Proof.
  intros h. eapply wp_post; [apply wp_update|done]; [apply reading_write|].
  intros g c ns status Hr _ Hs. exists c. split; [done|]. by exists entry_uid, next, status.
Qed.

(** An entry is removed only with its proof, from a version that was read. *)
Lemma wp_remove_spec (Pre : trace Resp → Op → Prop) observed u h :
  (∀ h o, reading o → Pre h o) →
  (∀ g c ns, read_version (h ++ g) c → version c = version observed → removable c u = true →
     Pre (h ++ g) (ReplaceCatalog ns (name_any (tdc_meta c)) (without_entry c u))) →
  wp (remove_spec observed u) h Pre
    (λ h' r, match r with
             | Ok c => seen h' c ∧ uid (tdc_meta c) = uid (tdc_meta observed)
             | Err e => benign e = true
             end).
Proof.
  intros Hq Hw. unfold remove_spec. apply wp_verifying; [done|done|]. intros g c Hc Hu.
  destruct (guard c observed) as [[]|e] eqn:Hg; [|unfold guard in Hg; destruct (_ || _); by simplify_eq].
  apply guard_Ok in Hg as [Hv Hrv]. destruct (removable c u) eqn:Hr; cbn [negb]; [|done].
  destruct (ok_or _ _) as [ns|e] eqn:Hn; [|by destruct (namespace _); simplify_eq/=]. unfold api. request.
  { by apply Hw. }
  destruct reply as [removed|e]; cbn [map_err]; [|done]. destruct (_ || _) eqn:Hb; [done|]. bool_hyp.
  apply wp_return. split; [subst; apply catalog_seen_last; by left|congruence].
Qed.

Lemma respects_remove_spec observed entry_uid : respects (remove_spec observed entry_uid).
Proof.
  intros h. eapply wp_post; [apply wp_remove_spec|done]; [apply reading_write|].
  intros g c ns Hr _ Hrem. exists c. split; [done|]. split_and!; [done|done|]. intros [Hs Hcl]. by apply remove_legal.
Qed.

Lemma respects_record_observer observed pod_uid instance_id :
  respects (record_observer observed pod_uid instance_id).
Proof.
  intros h. unfold record_observer. apply wp_verify_current. intros h1 c Hc.
  destruct (required_uid (tdc_meta c)) as [u|] eqn:Hu; [|done].
  destruct (ok_or (filter_non_empty _) _) as [rv|] eqn:Hrv; [|done].
  destruct (ok_or (generation _) _) as [gen|] eqn:Hgen; [|done].
  destruct (_ || _); [done|]. destruct (ok_or (namespace _) _) as [ns|]; [|done].
  apply ok_or_Ok, filter_non_empty_Some in Hu as [Hu _]. apply ok_or_Ok, filter_non_empty_Some in Hrv as [Hrv Hne].
  apply ok_or_Ok in Hgen.
  unfold api. request.
  { exists c. split_and!; [split; [done|by exists rv]|done..]. }
  destruct reply as [patched|e]; cbn [map_err]; [|done].
  destruct (required_uid _) as [u'|]; [|done]. destruct (_ || _); [done|].
  apply wp_verify_current. intros h2 latest _. by destruct (_ || _).
Qed.

Lemma respects_observe observed pod_uid instance_id : respects (observe observed pod_uid instance_id).
Proof.
  intros h. unfold observe. apply wp_verify_current. intros h1 c Hc.
  destruct (empty_catalog c); [|done]. cbn [negb]. destruct (observer_needs_refresh _ _ _) as [[]|]; [|done..].
  apply wp_bind. eapply wp_post; [apply respects_record_observer|]. by intros h2 [] _.
Qed.

Lemma respects_reconcile local azure observed pod_uid instance_id :
  (∀ c b, respects (local c b)) → (∀ c b, respects (azure c b)) →
  respects (reconcile local azure observed pod_uid instance_id).
Proof.
  intros Hlocal Hazure h. unfold reconcile. apply wp_verify_current. intros h1 c Hc.
  destruct (empty_catalog c); [apply respects_observe|].
  destruct (observer_epoch_changed _ _ _) as [replay|]; [|done].
  unfold api. request; [done|]. destruct reply as [tenant|e]; cbn [map_err]; [|done].
  destruct (field _ _) as [provider|]; [|done]. apply wp_bind.
  eapply (wp_post _ _ _ (λ _ _, True)).
  { destruct (bool_decide _); [apply Hlocal|]. destruct (bool_decide _); [apply Hazure|done]. }
  intros h2 [[action verified]|e] _; [|done]. destruct (has_issued_intents verified); [done|].
  destruct (observer_needs_refresh _ _ _) as [[]|]; [|done..].
  apply wp_bind. eapply wp_post; [apply respects_record_observer|]. by intros h3 [] _.
Qed.

Lemma insert_shape c request u c' : insert c request u = Ok c' →
  c' = with_entries c (tds_entries (tdc_spec c')).
Proof. unfold insert. intros H. destruct (exact_catalog _ _); [|done]. by repeat (case_match; simplify_eq). Qed.
Lemma mark_delete_shape c request c' : mark_delete c request = Ok c' →
  c' = with_entries c (tds_entries (tdc_spec c')).
Proof. unfold mark_delete. intros H. destruct (exact_catalog _ _); [|done]. by repeat (case_match; simplify_eq). Qed.

Lemma add_write_legal tenant request u h o : add_write tenant request u h o → catalog_write h o.
Proof.
  destruct o; try done. cbn. intros (live & c & c' & _ & _ & _ & _ & Hr & Hi%insert_shape & -> & Ht & _).
  exists c. split; [done|]. rewrite Hi in Ht |- *. by split_and!.
Qed.
Lemma delete_write_legal tenant request h o : delete_write tenant request h o → catalog_write h o.
Proof.
  destruct o; try done. cbn. intros (live & c & c' & _ & _ & Hr & Hi%mark_delete_shape & -> & Ht & _).
  exists c. split; [done|]. rewrite Hi in Ht |- *. by split_and!.
Qed.

(** C13. Whatever the API server answers, the administration server adds a
    database or requests a deletion only by a write of the catalog that is a
    legal transition of a version it read, conditional on that version, with
    every guard established by the replies of the same operation (the Tenant
    is live with the same UID; for an addition it is Ready, both controllers
    are rolled out, no migration lock exists and the review allows the
    update), and never after a write whose outcome is not a conflict.  A view
    is reported only of a catalog the server returned. *)
Theorem mutations_guarded env tenant (u : string) :
  valid_logical_uid u = true →
  (∀ request, let '(h, r) := run env (add tenant request u) [] in
     issued (add_write tenant request u) [] h ∧ reported h r) ∧
  (∀ request, let '(h, r) := run env (delete tenant request) [] in
     issued (delete_write tenant request) [] h ∧ reported h r).
Proof.
  assert (Hnil : attempts_conflicted []) by constructor. intros Hu. split; intros request.
  - pose proof (wp_run env _ _ _ _ (wp_add tenant request u [] Hu Hnil)) as H. by destruct (run _ _ _), H.
  - pose proof (wp_run env _ _ _ _ (wp_delete tenant request [] Hnil)) as H. by destruct (run _ _ _), H.
Qed.

(** A server on which both operations succeed. *)
Module MutationFixture.
Definition meta (nm : string) : ObjectMeta := {|
  name := Some nm; namespace := None; uid := Some "tenant-uid"; resource_version := Some "5";
  generation := Some 1; labels := Some {[TENANT_UID_LABEL := "tenant-uid"]}; annotations := None;
  owner_references := None; finalizers := Some [Api.FINALIZER]; deletion_timestamp := None |}.
Definition tenant : Tenant := {|
  tenant_meta := meta "tenant-a";
  tenant_spec := {| kubernetes_version := "1.34.0"; workers := 1; provider := SpecLocal |};
  tenant_status := Some {|
    observed_generation := Some 1; phase := Some PhaseReady;
    conditions := [{| cond_type := "Ready"; cond_status := "True"; cond_observed_generation := Some 1;
                      cond_reason := "Ready"; cond_message := ""; cond_last_transition_time := 0 |}];
    database_capability := Some {| cap_available := true; cap_reason := ""; cap_namespace := "tenant-db-tenant-a";
      cap_namespace_uid := "tenant-uid"; cap_catalog_uid := CatalogFixture.uid0; cap_storage_namespace_uid := None |};
    catalog_create_intent := None; provider_status := None |} |}.
Definition catalog : TenantDatabaseCatalog := {|
  tdc_meta := {| name := Some "tenant-a"; namespace := Some "tenant-db-tenant-a"; uid := Some CatalogFixture.uid0;
    resource_version := Some "0"; generation := Some 1; labels := None; annotations := None;
    owner_references := Some [catalog_owner "tenant-a" "tenant-uid"];
    finalizers := Some [DatabaseApi.FINALIZER]; deletion_timestamp := None |};
  tdc_spec := {| tds_tenant_name := "tenant-a"; tds_tenant_uid := "tenant-uid"; tds_closed := false;
                 tds_entries := {[CatalogFixture.uid0 := CatalogFixture.entry false]} |};
  tdc_status := None |}.
Definition deployment : Deployment := {|
  dep_meta := meta CONTROLLER_DEPLOYMENT;
  dep_spec := Some {| dsp_replicas := None; dsp_pod := Some [{| ct_name := "manager";
    ct_args := Some ["--provider=local"; "--supported-kubernetes-version"; "v1.34.0"] |}] |};
  dep_status := Some {| dst_observed_generation := Some 1; dst_updated_replicas := Some 1;
    dst_ready_replicas := Some 1; dst_available_replicas := Some 1 |} |}.
Definition answers (o : Op) : Resp o :=
  match o return Resp o with
  | GetTenantOpt _ => Ok (Some tenant)
  | GetNamespace nm => Ok (Some {| ns_meta := meta nm |})
  | GetCatalog _ _ => Ok (Some catalog)
  | GetDeployment _ _ => Ok (Some deployment)
  | GetAdmission _ _ => Ok None
  | ReviewAccess _ _ _ => Ok (VObject [("status", VObject [("allowed", VBool true)])])
  | ReplaceCatalog _ _ obj => Ok obj
  | o => refusal o (KubeOther "")
  end.
Definition uid1 := "12345678-1234-1234-1234-123456789abd".
Definition added : DatabaseAddRequest :=
  {| dar_catalog_uid := CatalogFixture.uid0; dar_name := "billing"; dar_instances := 3 |}.
Definition removed : DatabaseDeleteRequest :=
  {| ddr_catalog_uid := CatalogFixture.uid0; ddr_logical_uid := CatalogFixture.uid0; ddr_confirmation := "orders" |}.
Definition env (h : trace Resp) (o : Op) : Resp o := answers o.
Definition add_run := run env (add tenant added uid1) [].
Definition delete_run := run env (delete tenant removed) [].
End MutationFixture.

Lemma mutations_guarded_witness :
  valid_logical_uid MutationFixture.uid1 = true ∧
  (is_ok MutationFixture.add_run.2 = true ∧ (length MutationFixture.add_run.1 = 10)%nat ∧
   let '(h, r) := MutationFixture.add_run in
   issued (add_write MutationFixture.tenant MutationFixture.added MutationFixture.uid1) [] h ∧ reported h r) ∧
  is_ok MutationFixture.delete_run.2 = true ∧
  let '(h, r) := MutationFixture.delete_run in
  issued (delete_write MutationFixture.tenant MutationFixture.removed) [] h ∧ reported h r.
Proof.
  assert (Hu : valid_logical_uid MutationFixture.uid1 = true) by (vm_compute; reflexivity).
  pose proof (mutations_guarded MutationFixture.env MutationFixture.tenant MutationFixture.uid1 Hu) as H.
  split; [exact Hu|]. split; [split; [|split]|split].
  - vm_compute. reflexivity.
  - vm_compute. reflexivity.
  - exact (proj1 H MutationFixture.added).
  - vm_compute. reflexivity.
  - exact (proj2 H MutationFixture.removed).
Defined.
