(* ===== verification/DatabaseSafety.v ===== *)
(** * What the steps on a database may do

    Rules for programs over a catalog and the status of one entry, and the
    invariant that every step keeps, whatever the environment answers: the
    catalog at hand was returned by the server, and a proof that a database is
    gone is only claimed when the catalog records it or what was observed shows
    it. *)

From S2P Require Import Prelude RustStd Externals Kube Errors Effects Readiness DatabaseApi CatalogOps.
From S2P Require Import DatabaseStatus DatabaseResources DatabaseRun DatabaseSteps DatabaseProvider CatalogWriters.

#[local] Arguments wp : simpl never.
#[local] Arguments bind : simpl never.
#[local] Arguments perform_map : simpl never.

(** ** Rules for steps *)
Section Rules.
Context (Pre : trace Resp → Op → Prop) (Error : ObserveError → trace Resp → Run → Prop).

Definition outcome {A} (Q : A → trace Resp → Run → Prop) (h : trace Resp) (out : result ObserveError A * Run) : Prop :=
  match out with
  | (Ok a, s) => Q a h s
  | (Err e, s) => Error e h s
  end.

Definition triple {A} (P : trace Resp → Run → Prop) (m : db A) (Q : A → trace Resp → Run → Prop) : Prop :=
  ∀ h s, P h s → wp (m s) h Pre (outcome Q).

Lemma wp_db_bind {A B} (m : db A) (f : A → db B) h s (Q : B → trace Resp → Run → Prop) :
  wp (m s) h Pre (outcome (λ a h' s', wp (f a s') h' Pre (outcome Q))) → wp (db_bind m f s) h Pre (outcome Q).
Proof.
  intros H. apply wp_bind. eapply wp_post; [exact H|]. by intros h' [[a|e] s'].
Qed.

Lemma wp_call {A B} (m : db A) (f : A → db B) h s P (R : A → trace Resp → Run → Prop) (Q : B → trace Resp → Run → Prop) :
  triple P m R → P h s → (∀ a g s', R a (h ++ g) s' → wp (f a s') (h ++ g) Pre (outcome Q)) →
  wp (db_bind m f s) h Pre (outcome Q).
Proof.
  intros Hm HP Hf. apply wp_db_bind. eapply wp_post; [apply wp_extends, Hm, HP|].
  intros h' [[a|e] s'] [H [g ->]]; [by apply Hf|done].
Qed.

Lemma wp_tail {A} (m : db A) h s P (R Q : A → trace Resp → Run → Prop) :
  triple P m R → P h s → (∀ a g s', R a (h ++ g) s' → Q a (h ++ g) s') → wp (m s) h Pre (outcome Q).
Proof.
  intros Hm HP Hf. eapply wp_post; [apply wp_extends, Hm, HP|].
  intros h' [[a|e] s'] [H [g ->]]; [by apply Hf|done].
Qed.

Lemma wp_request_db {A B} (o : Op) (conv : Resp o → result ObserveError A) (f : A → db B) h s (Q : B → trace Resp → Run → Prop) :
  Pre h o →
  (∀ (r : Resp o) g, g = [existT o r] →
     match conv r with
     | Ok a => wp (f a s) (h ++ g) Pre (outcome Q)
     | Err e => Error e (h ++ g) s
     end) →
  wp (db_bind (db_lift (bind (perform o) (λ r, Ret (conv r)))) f s) h Pre (outcome Q).
Proof.
  intros Ho H. split; [done|]. intros r. specialize (H r _ eq_refl).
  change (wp (match conv r with Ok a => f a s | Err e => Ret (Err e, s) end) (h ++ [existT o r]) Pre (outcome Q)).
  by destruct (conv r).
Qed.

Lemma wp_pure_db {A B} (r : result ObserveError A) (f : A → db B) h s (Q : B → trace Resp → Run → Prop) :
  (∀ e, r = Err e → Error e h s) → (∀ a, r = Ok a → wp (f a s) h Pre (outcome Q)) →
  wp (db_bind (db_pure r) f s) h Pre (outcome Q).
Proof. intros He Hf. destruct r; [by apply Hf|by apply He]. Qed.

Lemma wp_set_db {B} g (f : unit → db B) h s (Q : B → trace Resp → Run → Prop) :
  wp (f tt {| run_catalog := run_catalog s; run_state := g (run_state s) |}) h Pre (outcome Q) →
  wp (db_bind (db_set g) f s) h Pre (outcome Q).
Proof. done. Qed.

Lemma wp_get_db {A B} (g : Run → A) (f : A → db B) h s (Q : B → trace Resp → Run → Prop) :
  wp (f (g s) s) h Pre (outcome Q) → wp (db_bind (db_get g) f s) h Pre (outcome Q).
Proof. done. Qed.

Lemma wp_ret_db {A B} (a : A) (f : A → db B) h s (Q : B → trace Resp → Run → Prop) :
  wp (f a s) h Pre (outcome Q) → wp (db_bind (db_ret a) f s) h Pre (outcome Q).
Proof. done. Qed.

Lemma wp_step_bind {A B} (m : step A) (f : A → step B) h s (Q : Progress + B → trace Resp → Run → Prop) :
  wp (m s) h Pre (outcome (λ r h' s', match r with
                                      | inl p => Q (inl p) h' s'
                                      | inr a => wp (f a s') h' Pre (outcome Q)
                                      end)) →
  wp (step_bind m f s) h Pre (outcome Q).
Proof.
  intros H. apply wp_db_bind. eapply wp_post; [exact H|]. by intros h' [[[p|a]|e] s'].
Qed.

(** Steps with an assertion for the end of the reconciliation. *)
Definition steps {A} (P : trace Resp → Run → Prop) (m : step A) (End : trace Resp → Run → Prop)
    (Q : A → trace Resp → Run → Prop) : Prop :=
  triple P m (λ r h s, match r with inl _ => End h s | inr a => Q a h s end).

Lemma steps_bind {A B} P (m : step A) (f : A → step B) End (Q : A → trace Resp → Run → Prop)
    (R : B → trace Resp → Run → Prop) :
  steps P m End Q → (∀ a, steps (Q a) (f a) End R) → steps P (step_bind m f) End R.
Proof.
  intros Hm Hf h s HP. apply wp_step_bind. eapply wp_post; [by apply Hm|].
  intros h' [[[p|a]|e] s'] H; [done|by apply Hf|done].
Qed.

Lemma wp_step_call {A B} (m : step A) (f : A → step B) h s P End (R : A → trace Resp → Run → Prop)
    (Q : B → trace Resp → Run → Prop) :
  steps P m End R → P h s →
  (∀ a g s', R a (h ++ g) s' → wp (f a s') (h ++ g) Pre (outcome (λ r h s, match r with inl _ => End h s | inr b => Q b h s end))) →
  wp (step_bind m f s) h Pre (outcome (λ r h s, match r with inl _ => End h s | inr b => Q b h s end)).
Proof.
  intros Hm HP Hf. apply wp_step_bind. eapply wp_post; [apply wp_extends, Hm, HP|].
  intros h' [[[p|a]|e] s'] [H [g ->]]; [done|by apply Hf|done].
Qed.

Lemma steps_tail {A} (m : step A) h s P End (R Q : A → trace Resp → Run → Prop) :
  steps P m End R → P h s → (∀ a h s, R a h s → Q a h s) →
  wp (m s) h Pre (outcome (λ r h s, match r with inl _ => End h s | inr b => Q b h s end)).
Proof. intros Hm HP HQ. eapply wp_tail; [apply Hm|done|]. intros [p|a] g s'; [done|apply HQ]. Qed.

Lemma steps_each {I S} (l : list I) (body : I → S → step S) (L : list I → S → trace Resp → Run → Prop) End acc :
  (∀ done i rest acc, l = done ++ i :: rest → steps (L done acc) (body i acc) End (L (done ++ [i]))) →
  steps (L [] acc) (each l acc body) End (L l).
Proof.
  intros Hbody. enough (Hgen : ∀ rest done acc, l = done ++ rest → steps (L done acc) (each rest acc body) End (L l)).
  { by apply (Hgen l []). }
  induction rest as [|i rest IH]; intros done a Hl; cbn [each].
  - rewrite app_nil_r in Hl. subst. by intros h s HL.
  - eapply steps_bind; [by eapply Hbody|]. intros a'. apply IH. by rewrite <-(assoc_L (++)).
Qed.

(** A loop whose invariant does not depend on what is done. *)
Lemma steps_loop {I S} (l : list I) (body : I → S → step S) (L : trace Resp → Run → Prop) End acc :
  (∀ i acc, i ∈ l → steps L (body i acc) End (λ _, L)) → steps L (each l acc body) End (λ _, L).
Proof.
  intros Hbody. apply (steps_each l body (λ _ _, L)). intros done i rest a Hl. apply Hbody.
  subst. apply elem_of_app. right. by left.
Qed.

Lemma triple_step_end P (m : step Progress) (Q : trace Resp → Run → Prop) :
  steps P m Q (λ _, Q) → triple P (step_end m) (λ _, Q).
Proof.
  intros Hm h s HP. apply wp_db_bind. eapply wp_post; [by apply Hm|]. by intros h' [[[p|p]|e] s'].
Qed.

Lemma triple_conseq {A} (P P' : trace Resp → Run → Prop) (m : db A) (Q Q' : A → trace Resp → Run → Prop) :
  triple P m Q → (∀ h s, P' h s → P h s) → (∀ a h s, Q a h s → Q' a h s) → triple P' m Q'.
Proof.
  intros Hm HP HQ h s H. eapply wp_post; [by apply Hm, HP|]. intros h' [[a|e] s']; [apply HQ|done].
Qed.
End Rules.

(** Straight-line code. *)
Ltac db_step :=
  lazymatch goal with
  | |- wp (db_bind catalog_of _ _) _ _ _ => unfold catalog_of at 1; apply wp_get_db; cbn beta
  | |- wp (db_bind state_of _ _) _ _ _ => unfold state_of at 1; apply wp_get_db; cbn beta
  | |- wp (db_bind (unsaved _) _ _) _ _ _ => unfold unsaved at 1; apply wp_get_db; cbn beta
  | |- wp (db_bind (db_get _) _ _) _ _ _ => apply wp_get_db; cbn beta
  | |- wp (db_bind (db_set _) _ _) _ _ _ => apply wp_set_db; cbn beta
  | |- wp (db_bind (db_ret _) _ _) _ _ _ => apply wp_ret_db; cbn beta
  | |- wp (db_bind (db_bind _ _) _ _) _ _ _ => apply wp_db_bind
  | |- wp (step_bind _ _ _) _ _ _ => apply wp_step_bind
  | |- wp (db_bind (db_lift (api (perform ?o))) ?f ?s) ?h ?P (outcome ?E ?Q) =>
      refine (wp_request_db P E o (map_err Api) f h s Q _ _);
      [|let r := fresh "reply" in let g := fresh "g" in let E := fresh "Eg" in
        intros r g E; destruct r as [r|r]; cbn [map_err]]
  | |- wp (db_ret _ _) _ _ _ => apply wp_return
  | |- wp (step_ret _ _) _ _ _ => apply wp_return
  | |- wp (finish _ _) _ _ _ => apply wp_return
  | |- wp (db_err _ _) _ _ _ => apply wp_return
  end; cbn [run_catalog run_state].

(** ** What holds of a database during its reconciliation *)

Definition identified (nm : string) (id : ResourceIdentity) : Prop := ri_name id = nm ∧ ri_uid id ≠ "".

(** A query target is published only while the database is ready, and it is
    the recorded cluster with the recorded credentials. *)
Definition query_ok (st : EntryStatus) : Prop :=
  ∀ q, es_query st = Some q → es_phase st = DbReady ∧
    option_map ri_uid (es_cnpg_cluster st) = Some (qi_cluster_uid q) ∧
    option_map ri_uid (es_credentials st) = Some (qi_credential_uid q).

Definition has_intent (st : EntryStatus) (kind nm : string) (ordinal : Z) (x : CreateState) : Prop :=
  ∃ i, i ∈ es_create_intents st ∧ ic_kind i = kind ∧ ic_name i = nm ∧ ic_ordinal i = ordinal ∧ ic_state i = x.

(** What a provider keeps true of a status. *)
Class StatusLaws (t : Target) (size : Z) (kinds : string → Z → Prop) (valid : EntryStatus → Prop) : Prop := {
  sl_conditions st c p : valid st → valid (set_conditions c p st);
  sl_generation st g : valid st → valid (set_generation g st);
  sl_query st q : valid st → valid (set_query q st);
  sl_instances st l : valid st → valid (set_instances l st);
  sl_finalization st f : valid st → valid (set_finalization f st);
  sl_namespace st id : valid st → identified (tg_namespace t) id → valid (set_namespace (Some id) st);
  sl_cluster st id : valid st → identified (tg_cluster t) id → valid (set_cluster (Some id) st);
  sl_credentials st id : valid st → identified (secret_name (tg_cluster t)) id → valid (set_credentials (Some id) st);
  sl_row st o : valid st → o ∈ ordinals (tg_instances t) → valid (storage size o st);
  sl_pv st o id : valid st → o ∈ ordinals (tg_instances t) → identified (volume_name (tg_cluster t) o) id →
    valid (edit_storage size o (set_pv (Some id)) st);
  sl_pvc st o id : valid st → o ∈ ordinals (tg_instances t) → identified (claim_name (tg_cluster t) o) id →
    valid (edit_storage size o (set_pvc (Some id)) st);
  sl_healthy st i item v : valid st → es_storage st !! i = Some item →
    valid (set_storage (<[i := set_healthy v item]> (es_storage st)) st);
  sl_intent st l kind nm o next : valid st → kinds kind o → put_intent (es_create_intents st) kind nm o next = Ok l →
    valid (set_intents l st);
  sl_kind_namespace : kinds "Namespace" 0;
  sl_kind_cluster : kinds "Cluster" 0;
  sl_kind_pv o : o ∈ ordinals (tg_instances t) → kinds "PersistentVolume" o;
}.

(** The status says that the database is gone. *)
Definition claims_gone (st : EntryStatus) : bool := is_some_and fs_terminal_verified (es_finalization st).

Lemma terminal_proof_claims v st : terminal_proof v st = true → claims_gone st = true.
Proof.
  unfold terminal_proof, claims_gone. destruct (es_finalization st) as [f|]; cbn; rewrite ?andb_false_r; [|done].
  rewrite !andb_true_iff. tauto.
Qed.

(** Evidence that a database is gone is not lost. *)
Class Evidence (gone : trace Resp → Prop) : Prop := gone_app h g : gone h → gone (h ++ g).
(** An error that leaves the ownership open is not taken for a foreign object. *)
Class ForeignErrors (foreign : ObserveError → bool) : Prop := foreign_benign e : benign e = true → foreign e = false.

(** The identities that a status records, by the kind of the object. *)
Definition recorded_identity (st : EntryStatus) (kind : string) (id : ResourceIdentity) : Prop :=
  (kind = "Secret" ∧ es_credentials st = Some id) ∨
  (kind = "Disk" ∧ ∃ x, x ∈ es_storage st ∧ si_disk x = Some id) ∨
  (∃ ordinal, bound st kind ordinal = Some id).

(** *** The order of a deletion *)
Definition absent (h : trace Resp) (a : ApiHandle) (nm : string) : Prop := replied h (FindObject a nm) (Ok None).

Section Order.
Context (t : Target).

Definition cluster_gone (h : trace Resp) : Prop := absent h (CLUSTERS (tg_namespace t)) (tg_cluster t).
Definition dependents_gone (h : trace Resp) : Prop :=
  absent h (SECRETS (tg_namespace t)) (secret_name (tg_cluster t)) ∧
  ∀ o, o ∈ ordinals (tg_instances t) → absent h (CLAIMS (tg_namespace t)) (claim_name (tg_cluster t) o).
Definition volumes_gone (h : trace Resp) : Prop :=
  ∀ o, o ∈ ordinals (tg_instances t) → absent h VOLUMES (volume_name (tg_cluster t) o).
Definition namespace_gone (h : trace Resp) : Prop := absent h NAMESPACES (tg_namespace t).
Definition workload_gone (h : trace Resp) : Prop :=
  cluster_gone h ∧ dependents_gone h ∧ volumes_gone h ∧ namespace_gone h.

(** What has to be seen gone before an object of a kind is deleted. *)
Definition before (h : trace Resp) (kind : string) : Prop :=
  (kind = "Cluster") ∨
  (kind = "Secret" ∨ kind = "PersistentVolumeClaim") ∧ cluster_gone h ∨
  kind = "PersistentVolume" ∧ cluster_gone h ∧ dependents_gone h ∨
  kind = "Namespace" ∧ cluster_gone h ∧ dependents_gone h ∧ volumes_gone h ∨
  kind = "Disk" ∧ workload_gone h.

Lemma absent_app h g a nm : absent h a nm → absent (h ++ g) a nm.
Proof. apply replied_app_l. Qed.
Lemma cluster_gone_app h g : cluster_gone h → cluster_gone (h ++ g).
Proof. apply absent_app. Qed.
Lemma dependents_gone_app h g : dependents_gone h → dependents_gone (h ++ g).
Proof. intros [Hs Hc]. split; [by apply absent_app|]. intros o Ho. by apply absent_app, Hc. Qed.
Lemma volumes_gone_app h g : volumes_gone h → volumes_gone (h ++ g).
Proof. intros H o Ho. by apply absent_app, H. Qed.
Lemma workload_gone_app h g : workload_gone h → workload_gone (h ++ g).
Proof.
  intros (? & ? & ? & ?).
  split_and!; [by apply cluster_gone_app|by apply dependents_gone_app|by apply volumes_gone_app|by apply absent_app].
Qed.
End Order.

Section Entry.
Context {t : Target} {creating : bool} {size : Z} {kinds : string → Z → Prop} {valid : EntryStatus → Prop}.
(** What shows that the database is gone. *)
Context {gone : trace Resp → Prop}.
(** Requests of one provider only. *)
Context {other : trace Resp → Op → Prop}.
Context {foreign : ObserveError → bool}.
(** What is assumed of the status that was recorded at the start. *)
Context {sound : Prop}.
#[local] Notation u := (tg_uid t).

Definition query_good (st : EntryStatus) : Prop := sound → query_ok st.

(** The catalog of a version that was read records it. *)
Definition recorded_terminal (h : trace Resp) (v : option string) : Prop :=
  ∃ c st, seen h c ∧ version c = v ∧ entry_status c u = Some st ∧ claims_gone st = true.

(** A status is written over a version that was read.  It is valid, and says
    that the database is gone only if that was recorded or is shown. *)
Definition status_rule (h : trace Resp) (obj : TenantDatabaseCatalog) : Prop :=
  ∃ c status next, read_version h c ∧ new_status c u (Some next) = Ok status ∧ obj = with_status c status ∧
    valid next ∧ query_good next ∧
    (claims_gone next = true → recorded_terminal h (version c) ∨ gone h).

(** An entry is removed from a version that was read and records the proof. *)
Definition removal_rule (h : trace Resp) (obj : TenantDatabaseCatalog) : Prop :=
  ∃ c, read_version h c ∧ removable c u = true ∧ obj = without_entry c u ∧ gone h.

(** An object is created with the labels of its owner, after a catalog that the
    server returned records that its creation is issued. *)
Definition create_rule (h : trace Resp) (a : ApiHandle) (obj : DynamicObject) : Prop :=
  ∃ c st ordinal labels_, seen h c ∧ entry_status c u = Some st ∧
    has_intent st (ah_kind a) (name_any (dyn_meta obj)) ordinal Issued ∧
    (∃ c', seen h c' ∧ ownership_labels c' u = Ok labels_) ∧ labels (dyn_meta obj) = Some labels_.

(** An object is deleted that was read, by the UID that a catalog the server
    returned records for it. *)
Definition delete_rule (h : trace Resp) (a : ApiHandle) (nm : string) (params : DeleteParams) : Prop :=
  ∃ c st live id, seen h c ∧ entry_status c u = Some st ∧ replied h (FindObject a nm) (Ok (Some live)) ∧
    uid (dyn_meta live) = Some (ri_uid id) ∧ recorded_identity st (ah_kind a) id ∧
    params = delete_by_uid (Some (ri_uid id)) ∧ before t h (ah_kind a).

Definition entry_op (h : trace Resp) (o : Op) : Prop :=
  match o with
  | ReplaceCatalogStatus ns nm obj => status_rule h obj
  | ReplaceCatalog ns nm obj => creating = false ∧ removal_rule h obj
  | CreateObject a obj => creating = true ∧ create_rule h a obj
  | DeleteObject a nm params => creating = false ∧ delete_rule h a nm params
  | o => reading o ∨ other h o
  end.

Lemma entry_op_reading h o : reading o → entry_op h o.
Proof. destruct o; try done; by left. Qed.

(** *** Assertions *)
Record grounded (h : trace Resp) (s : Run) : Prop := {
  gr_seen : seen h (run_catalog s);
  gr_catalog : uid (tdc_meta (run_catalog s)) = Some (tg_catalog t);
  gr_uid : es_logical_uid (run_state s) = u;
  gr_valid : valid (run_state s);
  gr_terminal : claims_gone (run_state s) = true → recorded_terminal h (version (run_catalog s)) ∨ gone h;
}.
Definition settled (h : trace Resp) (s : Run) : Prop := grounded h s ∧ query_good (run_state s).
Definition synced (h : trace Resp) (s : Run) : Prop :=
  settled h s ∧ ∃ st, entry_status (run_catalog s) u = Some st ∧ es_create_intents st = es_create_intents (run_state s).
Definition saved (h : trace Resp) (s : Run) : Prop :=
  settled h s ∧ entry_status (run_catalog s) u = Some (run_state s).
Definition on_error (e : ObserveError) (h : trace Resp) (s : Run) : Prop := foreign e = true → grounded h s.

#[local] Notation triple := (triple entry_op on_error).
#[local] Notation steps := (steps entry_op on_error).

Lemma saved_synced h s : saved h s → synced h s.
Proof. intros [H E]. split; [done|]. by eexists. Qed.

Context `{EV : !Evidence gone} `{FE : !ForeignErrors foreign} `{SL : !StatusLaws t size kinds valid}.

Lemma recorded_terminal_app h g v : recorded_terminal h v → recorded_terminal (h ++ g) v.
Proof. intros (c & st & Hc & ?). exists c, st. split; [by apply catalog_seen_app_l|done]. Qed.
Lemma grounded_app h g s : grounded h s → grounded (h ++ g) s.
Proof.
  intros []. split; [by apply catalog_seen_app_l|done|done|done|].
  intros H. destruct (gr_terminal0 H); [left; by apply recorded_terminal_app|right; by apply gone_app].
Qed.
Lemma settled_app h g s : settled h s → settled (h ++ g) s.
Proof. intros []. split; [by apply grounded_app|done]. Qed.
Lemma synced_app h g s : synced h s → synced (h ++ g) s.
Proof. intros []. split; [by apply settled_app|done]. Qed.
Lemma saved_app h g s : saved h s → saved (h ++ g) s.
Proof. intros []. split; [by apply settled_app|done]. Qed.

Lemma on_error_benign e h s : benign e = true → on_error e h s.
Proof. intros H. unfold on_error. by rewrite (foreign_benign e H). Qed.

(** *** Saving *)
Lemma triple_save st : triple (λ h s, settled h s ∧ run_state s = st) (save u) (λ _ h s, saved h s ∧ run_state s = st).
Proof.
  intros h s [[Hg Hq] Est]. unfold save. apply wp_bind. eapply wp_post.
  - apply (wp_extends _ _ entry_op), wp_update; [apply entry_op_reading|].
    intros g c ns status Hr Hv Hs. exists c, status, (run_state s). destruct (grounded_app h g s Hg). split_and!; try done.
    by rewrite Hv.
  - intros h' [c|e] [H [g ->]]; [|by apply wp_return, on_error_benign]. destruct H as (Hc & Hu & c0 & status & Hs & Hst).
    assert (entry_status c u = Some (run_state s)) as He.
    { unfold new_status in Hs. destruct (_ || _); [done|]. injection Hs as <-. unfold entry_status. rewrite Hst. cbn.
      apply lookup_insert_eq. }
    apply wp_return. split; [|done]. split; [|done]. split; [|done]. destruct Hg. split; [done|cbn; congruence|done..|].
    intros Ht. left. exists c, (run_state s). by split_and!.
Qed.

Lemma put_intent_has l kind nm o next l' : put_intent l kind nm o next = Ok l' →
  ∃ i, i ∈ l' ∧ ic_kind i = kind ∧ ic_name i = nm ∧ ic_ordinal i = o ∧ ic_state i = next.
Proof.
  revert l'. induction l as [|i l IH]; intros l'; cbn.
  - intros [= <-]. eexists. split; [by left|done].
  - destruct (for_intent kind o i) eqn:Hf.
    + case_bool_decide as Hn; [|done]. intros [= <-]. eexists. split; [by left|].
      apply andb_true_iff in Hf as [Hkind%bool_decide_eq_true Ho%Z.eqb_eq]. done.
    + destruct (put_intent l kind nm o next) as [rest|]; [|done]. intros [= <-].
      destruct (IH rest eq_refl) as (j & Hj & ?). exists j. split; [by right|done].
Qed.

(** The status with other intents. *)
Lemma settled_intents h s l : settled h s → valid (set_intents l (run_state s)) →
  settled h {| run_catalog := run_catalog s; run_state := set_intents l (run_state s) |}.
Proof. intros [[]] Hv. by split; [split|]. Qed.

Lemma triple_record kind nm o next : kinds kind o →
  triple settled (record u kind nm o next) (λ _ h s, saved h s ∧ has_intent (run_state s) kind nm o next).
Proof.
  intros Hk h s Hs. unfold record. db_step. apply wp_pure_db; [intros e _ _; apply Hs|]. intros l Hl. db_step.
  eapply wp_tail; [apply (triple_save (set_intents l (run_state s)))| |].
  - split; [|done]. apply settled_intents; [done|]. eapply sl_intent; [apply Hs|done|done].
  - cbn. intros [] g s' [Hsaved ->]. split; [done|]. by apply put_intent_has in Hl.
Qed.

(** *** Health *)
Lemma triple_health ready g blocked st c :
  triple (λ h s, s = {| run_catalog := c; run_state := st |}) (set_health ready g blocked)
    (λ _ h s, run_catalog s = c ∧ ∃ l, run_state s = set_conditions l (health_phase ready (es_phase st)) st).
Proof.
  intros h s ->. unfold set_health. cbn [run_state]. apply wp_bind.
  destruct (opt_filter _ _) as [x|]; [apply wp_return|split; [by left|intros tm]];
    (apply wp_return; cbn; split; [done|by eexists]).
Qed.

(** An edit that leaves the proof of deletion alone. *)
Lemma grounded_edit h s st' :
  grounded h s → es_logical_uid st' = es_logical_uid (run_state s) → es_finalization st' = es_finalization (run_state s) →
  valid st' → grounded h {| run_catalog := run_catalog s; run_state := st' |}.
Proof. intros [? ? ? ? Ht] Eu Ef Hv. split; [done|done|cbn; congruence|done|]. unfold claims_gone in *. cbn. by rewrite Ef. Qed.

Lemma triple_generation P : (∀ h s, P h s → grounded h s) →
  triple P generation_of (λ g h s, P h s ∧ generation (tdc_meta (run_catalog s)) = Some g).
Proof.
  intros HP h s H. unfold generation_of. db_step. unfold db_pure. apply wp_return.
  destruct (generation (tdc_meta (run_catalog s))) eqn:E; cbn; [by rewrite E|]. intros _. by apply HP.
Qed.

Lemma triple_blocked reason : triple grounded (blocked u reason) (λ _, grounded).
Proof.
  intros h s Hs. unfold blocked. db_step.
  eapply wp_call; [apply (triple_generation (λ h0 s0, grounded h0 s0 ∧ es_query (run_state s0) = None)); tauto| |].
  { split; [|done]. apply grounded_edit; [done..|]. apply sl_query, Hs. }
  intros g h1 s1 [[Hs1 Hq] _]. db_step. eapply wp_call; [apply triple_health|done|].
  cbn [run_catalog run_state]. intros [] h2 s2 [Hc [l Hst]].
  assert (settled ((h ++ h1) ++ h2) s2) as H2.
  { destruct s2 as [c2 st2]. cbn in *. subst. split; [|by intros _ q; cbn; rewrite Hq].
    apply grounded_app. eapply grounded_edit; [done..|]. apply sl_conditions, sl_generation, Hs1. }
  db_step. case_bool_decide; cbn [negb]; [db_step; apply H2|].
  eapply wp_call; [apply (triple_save (run_state s2))|by split|]. intros [] h3 s3 [[[H3 _] _] _].
  by apply wp_return.
Qed.

Lemma steps_wait {A} reason P (Q : A → trace Resp → Run → Prop) :
  (∀ h s, P h s → grounded h s) → steps P (wait u reason) grounded Q.
Proof.
  intros HP h s H. unfold wait, blocked_progress. db_step.
  eapply wp_call; [apply triple_blocked|by apply HP|]. intros b g s' H'. by do 2 apply wp_return.
Qed.

Lemma steps_save_changed P changed :
  (∀ h s, P h s → settled h s) → steps P (save_changed u changed) grounded (λ _ h s, P h s ∧ changed = false).
Proof.
  intros HP h s H. unfold save_changed. destruct changed; [|by apply wp_return].
  eapply wp_call; [apply (triple_save (run_state s))|by split; [apply HP|]|].
  intros [] g s' [[[H' _] _] _]. by apply wp_return.
Qed.

(** *** Creation *)
Lemma triple_verify_run (P : trace Resp → Run → Prop) :
  (∀ h g s, P h s → P (h ++ g) s) → triple P verify_run (λ _, P).
Proof.
  intros Happ h s H. unfold verify_run. db_step. apply wp_db_bind. unfold db_lift. apply wp_bind.
  eapply (wp_mono _ _ (λ _, reading)); [apply entry_op_reading| |apply wp_extends, wp_verified].
  intros h' [c|e] [Hc [g ->]]; apply wp_return; [apply wp_return; by apply Happ|by apply on_error_benign].
Qed.

Lemma intent_has st kind nm o x : intent st kind nm o = Ok (Some x) → has_intent st kind nm o x.
Proof.
  unfold intent. destruct (filter_list _ _) as [|i [|]] eqn:Hf; [done| |done]. case_bool_decide; [|done].
  intros [= <-]. assert (i ∈ filter_list (for_intent kind o) (es_create_intents st)) as Hi by (rewrite Hf; by left).
  apply elem_of_filter_list in Hi as [[Hk%bool_decide_eq_true Ho%Z.eqb_eq]%andb_true_iff Hi]. by exists i.
Qed.

Lemma check_object_Ok o c nm expected id : check_object o c u nm expected = Ok id →
  identified nm id ∧ uid (dyn_meta o) = Some (ri_uid id) ∧ ∀ x, expected = Some x → x = id.
Proof.
  unfold check_object, ownership_check, name_any. case_bool_decide as Hn; cbn [negb]; [|done]. case_match; [done|].
  destruct (filter_non_empty (uid (dyn_meta o))) as [v|] eqn:Hu; [|done].
  apply filter_non_empty_Some in Hu as [Hu Hne]. destruct (name (dyn_meta o)) as [n|]; [|done].
  cbn in Hn |- *. destruct (ownership_labels c u); [|done]. destruct (_ || _) eqn:Hb; [done|]. intros [= <-].
  split_and!; [by split|done|]. intros x ->. cbn in Hb. bool_hyp. destruct x. cbn in *. congruence.
Qed.

Definition labelled (h : trace Resp) (o : DynamicObject) : Prop :=
  ∃ c l, seen h c ∧ ownership_labels c u = Ok l ∧ labels (dyn_meta o) = Some l.
Lemma labelled_app h g o : labelled h o → labelled (h ++ g) o.
Proof. intros (c & l & Hc & ?). exists c, l. split; [by apply catalog_seen_app_l|done]. Qed.

(** The catalog at hand records the creation as issued. *)
Definition recorded_issued (kind nm : string) (o : Z) (h : trace Resp) (s : Run) : Prop :=
  synced h s ∧ ∃ st, entry_status (run_catalog s) u = Some st ∧ has_intent st kind nm o Issued.
Lemma recorded_issued_app kind nm o h g s : recorded_issued kind nm o h s → recorded_issued kind nm o (h ++ g) s.
Proof. intros [H ?]. split; [by apply synced_app|done]. Qed.

Lemma triple_announce kind nm o previous replay : kinds kind o →
  triple (λ h s, synced h s ∧ (replay = true → has_intent (run_state s) kind nm o Issued))
    (announce u kind nm o previous replay) (λ _, recorded_issued kind nm o).
Proof.
  intros Hk h s [Hs Hr]. unfold announce. destruct replay.
  { apply wp_return. split; [done|]. destruct Hs as [_ (st & Hst & Hi)]. exists st. split; [done|].
    destruct (Hr eq_refl) as (i & Hin & ?). exists i. by rewrite Hi. }
  apply (wp_call _ _ _ _ _ _ settled (λ _, settled)).
  - intros h1 s1 H1. case_bool_decide; cbn [negb]; [by apply wp_return|].
    eapply wp_tail; [by apply triple_record|done|]. by intros [] g s' [[]].
  - apply Hs.
  - intros [] g s1 H1. eapply wp_tail; [by apply triple_record|done|].
    intros [] g2 s2 [H2 Hi]. split; [by apply saved_synced|]. exists (run_state s2). split; [apply H2|done].
Qed.

Lemma triple_observe_existing existing desired kind o previous : kinds kind o →
  triple synced (observe_existing u existing desired kind o previous)
    (λ r h s, synced h s ∧ ∀ id, r = Some id → identified (name_any (dyn_meta desired)) id).
Proof.
  intros Hk h s Hs. unfold observe_existing. do 2 db_step.
  apply wp_pure_db; [intros e _ _; apply Hs|]. intros id Hid. apply check_object_Ok in Hid as (Hid & _ & _).
  destruct (matches_desired _ _); cbn [negb]; [|db_step; intros _; apply Hs].
  destruct (issued_or_observed previous); cbn [negb]; [|db_step; intros _; apply Hs].
  apply (wp_call _ _ _ _ _ _ synced (λ _, synced)); [|done|].
  - intros h1 s1 H1. case_bool_decide; cbn [negb]; [by apply wp_return|].
    eapply wp_tail; [by apply triple_record|by destruct H1|]. intros [] g s2 [H2 _]. by apply saved_synced.
  - intros [] g s1 H1. db_step. split; [done|]. by intros ? [= <-].
Qed.

Lemma triple_issue api_ desired kind o : creating = true → kinds kind o → ah_kind api_ = kind →
  triple (λ h s, recorded_issued kind (name_any (dyn_meta desired)) o h s ∧ labelled h desired)
    (issue u api_ desired kind o)
    (λ r h s, synced h s ∧ ∀ id, r = Some id → identified (name_any (dyn_meta desired)) id).
Proof.
  intros Hc Hk Ha h s [[Hs (st & Hst & Hi)] (c & l & Hseen & Hl & Hobj)]. unfold issue.
  apply (wp_request_db _ _ (CreateObject api_ desired) (λ r, Ok r)).
  { split; [done|]. exists (run_catalog s), st, o, l. rewrite Ha. split_and!; [apply Hs|done|done|by exists c|done]. }
  intros r g0 _. apply (synced_app h g0) in Hs. destruct r as [created|e].
  - do 2 db_step. apply wp_pure_db; [intros e _ _; apply Hs|]. intros id Hid. apply check_object_Ok in Hid as (Hid & _ & _).
    eapply wp_call; [by apply triple_record|apply Hs|]. intros [] g s2 [H2 _]. db_step.
    split; [by apply saved_synced|]. by intros ? [= <-].
  - destruct (definite_rejection e); [|db_step; intros _; apply Hs].
    eapply wp_call; [by apply triple_record|apply Hs|]. intros [] g s2 [[[H2 _] _] _]. db_step. by intros _.
Qed.

Lemma triple_create api_ desired kind o replay : creating = true → kinds kind o → ah_kind api_ = kind →
  triple (λ h s, synced h s ∧ labelled h desired) (create_with_replay u api_ desired kind o replay)
    (λ r h s, synced h s ∧ ∀ id, r = Some id → identified (name_any (dyn_meta desired)) id).
Proof.
  intros Hc Hk Ha h s [Hs Hl]. unfold create_with_replay. db_step.
  apply wp_pure_db; [intros e _ _; apply Hs|]. intros previous Hp. db_step; [by left| |intros _; by apply grounded_app, Hs].
  apply (synced_app h g) in Hs. apply (labelled_app h g) in Hl.
  destruct reply as [existing|]; [by apply triple_observe_existing|].
  destruct (negb (may_issue previous) && _) eqn:Hm; [by db_step|].
  eapply wp_call; [apply (triple_announce kind (name_any (dyn_meta desired)) o previous); done| |].
  { split; [done|]. intros Hr. apply andb_true_iff in Hr as [_ ->%bool_decide_eq_true]. by apply intent_has. }
  intros [] g1 s1 H1. apply (labelled_app _ g1) in Hl.
  eapply wp_call; [apply (triple_verify_run (λ h s, recorded_issued kind (name_any (dyn_meta desired)) o h s ∧ labelled h desired))| |].
  - intros h2 g2 s2 []. split; [by apply recorded_issued_app|by apply labelled_app].
  - by split.
  - intros [] g2 s2 H2. by apply (triple_issue _ _ _ _ Hc Hk Ha).
Qed.

(** An edit that leaves the proof of deletion and the intents alone. *)
Lemma synced_edit h s st' :
  synced h s → es_logical_uid st' = es_logical_uid (run_state s) → es_finalization st' = es_finalization (run_state s) →
  es_create_intents st' = es_create_intents (run_state s) → valid st' → query_good st' →
  synced h {| run_catalog := run_catalog s; run_state := st' |}.
Proof.
  intros [[Hg _] (st & Hst & Hi)] Eu Ef Ei Hv Hq. split; [split; [by apply grounded_edit|done]|].
  exists st. split; [done|]. cbn. congruence.
Qed.

Lemma query_good_same st st' : query_good st → es_query st' = es_query st → es_phase st' = es_phase st →
  es_cnpg_cluster st' = es_cnpg_cluster st → es_credentials st' = es_credentials st → query_good st'.
Proof. intros H Eq Ep Ec Er Hs q. rewrite Eq, Ep, Ec, Er. by apply H. Qed.

(** The rows of the storage of a status are edited in place. *)
Lemma synced_storage h s l : synced h s → valid (set_storage l (run_state s)) →
  synced h {| run_catalog := run_catalog s; run_state := set_storage l (run_state s) |}.
Proof. intros Hs Hv. apply synced_edit; [done..|]. eapply query_good_same; [apply Hs|done..]. Qed.

Lemma storage_shape o st : ∃ l, storage size o st = set_storage l st.
Proof. unfold storage. destruct (any _ _); [|by eexists]. exists (es_storage st). by destruct st. Qed.
Lemma edit_storage_shape o g st : ∃ l, edit_storage size o g st = set_storage l st.
Proof. unfold edit_storage. destruct (storage_shape o st) as [l ->]. by eexists. Qed.

(** An assertion that the storage, the instances and the bookkeeping of a
    status do not affect. *)
Definition with_cluster (id : ResourceIdentity) (h : trace Resp) (s : Run) : Prop :=
  synced h s ∧ es_cnpg_cluster (run_state s) = Some id.
Lemma with_cluster_app id h g s : with_cluster id h s → with_cluster id (h ++ g) s.
Proof. intros []. split; [by apply synced_app|done]. Qed.

Lemma synced_edit_storage h s o g : synced h s → valid (edit_storage size o g (run_state s)) →
  synced h {| run_catalog := run_catalog s; run_state := edit_storage size o g (run_state s) |}.
Proof. destruct (edit_storage_shape o g (run_state s)) as [l ->]. apply synced_storage. Qed.
Lemma synced_row h s o : synced h s → o ∈ ordinals (tg_instances t) →
  synced h {| run_catalog := run_catalog s; run_state := storage size o (run_state s) |}.
Proof.
  intros Hs Ho. assert (valid (storage size o (run_state s))) as Hv by (apply sl_row; [apply Hs|done]).
  destruct (storage_shape o (run_state s)) as [l El]. rewrite El in *. by apply synced_storage.
Qed.
Lemma storage_cluster o st : es_cnpg_cluster (storage size o st) = es_cnpg_cluster st.
Proof. by destruct (storage_shape o st) as [l ->]. Qed.
Lemma edit_storage_cluster o g st : es_cnpg_cluster (edit_storage size o g st) = es_cnpg_cluster st.
Proof. by destruct (edit_storage_shape o g st) as [l ->]. Qed.

(** *** The steps of a creation *)
Lemma triple_bind_once {A} `{EqDecision A} (get : EntryStatus → option A) put (a : A)
    (P : trace Resp → Run → Prop) (Q : trace Resp → Run → Prop) :
  (∀ h s, P h s → grounded h s) → (∀ h s, P h s → get (run_state s) = Some a → Q h s) →
  (∀ h s, P h s → get (run_state s) = None → Q h {| run_catalog := run_catalog s; run_state := put a (run_state s) |}) →
  triple P (bind_once get put a) (λ _, Q).
Proof.
  intros HP Hsame Hput h s H. unfold bind_once. db_step. case_bool_decide as Hg; [db_step; by apply Hsame|].
  destruct (get (run_state s)) as [x|] eqn:Hx; cbn [is_some]; [db_step; intros _; by apply HP|].
  do 2 db_step. by apply Hput.
Qed.

Lemma steps_created api_ desired kind o replay : creating = true → kinds kind o → ah_kind api_ = kind →
  steps (λ h s, synced h s ∧ labelled h desired) (created_or_wait u api_ desired kind o replay) grounded
    (λ id h s, synced h s ∧ identified (name_any (dyn_meta desired)) id).
Proof.
  intros Hc Hk Ha h s H. unfold created_or_wait. eapply wp_call; [by apply triple_create|done|].
  intros [id|] g s1 [H1 Hid]; [db_step; split; [done|by apply Hid]|].
  eapply (steps_wait _ synced); [by intros ? ? [[]]|done].
Qed.

Lemma namespace_object_Ok c nm o : namespace_object c u nm = Ok o →
  name_any (dyn_meta o) = nm ∧ ∃ l, ownership_labels c u = Ok l ∧ labels (dyn_meta o) = Some l.
Proof. unfold namespace_object. destruct (ownership_labels c u) as [l|]; [|done]. intros [= <-]. split; [done|by exists l]. Qed.

Lemma steps_ensure_namespace replay : creating = true →
  steps synced (ensure_namespace u (tg_namespace t) replay) grounded (λ _, synced).
Proof.
  intros Hc h s Hs. unfold ensure_namespace. db_step. apply wp_pure_db; [intros e _ _; apply Hs|].
  intros desired (Hn & l & Hl & Hlab)%namespace_object_Ok.
  eapply wp_step_call; [apply (steps_created _ desired "Namespace" 0 replay); [done|apply sl_kind_namespace|done]| |].
  { split; [done|]. exists (run_catalog s), l. split_and!; [apply Hs|done..]. }
  intros id g s1 [H1 Hid]. rewrite Hn in Hid.
  eapply wp_call; [apply (triple_bind_once _ _ _ synced synced)|done|].
  - by intros ? ? [[]].
  - done.
  - intros h2 s2 H2 _. apply synced_edit; [done..| |]; [apply sl_namespace; [apply H2|done]|].
    eapply query_good_same; [apply H2|done..].
  - intros changed g2 s2 H2. eapply steps_tail; [apply (steps_save_changed synced); by intros ? ? []|done|by intros ? ? ? []].
Qed.

Lemma steps_ensure_volume desired_for replay o changed : creating = true → o ∈ ordinals (tg_instances t) →
  triple synced (desired_for o) (λ d h s, synced h s ∧ labelled h d ∧ name_any (dyn_meta d) = volume_name (tg_cluster t) o) →
  steps synced (ensure_volume u size replay desired_for o changed) grounded (λ _, synced).
Proof.
  intros Hc Ho Hd h s Hs. unfold ensure_volume. eapply wp_call; [exact Hd|done|]. intros d g s1 (H1 & Hl & Hn).
  eapply wp_step_call; [apply (steps_created _ d "PersistentVolume" o replay); [done|by apply sl_kind_pv|done]|by split|].
  intros id g2 s2 [H2 Hid]. rewrite Hn in Hid. db_step. apply (synced_row _ _ o) in H2; [|done].
  eapply wp_call; [apply (triple_bind_once _ _ _ synced synced)|exact H2|].
  - by intros ? ? [[]].
  - done.
  - intros h3 s3 H3 _. apply synced_edit_storage; [done|]. apply sl_pv; [apply H3|done..].
  - intros now g3 s3 H3. by db_step.
Qed.

Lemma steps_ensure_volumes desired_for replay : creating = true →
  (∀ o, o ∈ ordinals (tg_instances t) →
     triple synced (desired_for o) (λ d h s, synced h s ∧ labelled h d ∧ name_any (dyn_meta d) = volume_name (tg_cluster t) o)) →
  steps synced (ensure_volumes u (tg_instances t) size replay desired_for) grounded (λ _, synced).
Proof.
  intros Hc Hd. eapply steps_bind; [apply steps_loop; intros o changed Ho; apply steps_ensure_volume; auto|].
  intros changed h s Hs. eapply steps_tail; [apply (steps_save_changed synced); by intros ? ? []|done|by intros ? ? ? []].
Qed.

Lemma steps_ensure_cluster desired_for replay : creating = true →
  (∀ c d, desired_for c = Ok d → name_any (dyn_meta d) = tg_cluster t ∧
     ∃ l, ownership_labels c u = Ok l ∧ labels (dyn_meta d) = Some l) →
  steps synced (ensure_cluster u (tg_namespace t) replay desired_for) grounded with_cluster.
Proof.
  intros Hc Hd h s Hs. unfold ensure_cluster. db_step. apply wp_pure_db; [intros e _ _; apply Hs|].
  intros d (Hn & l & Hl & Hlab)%Hd.
  eapply wp_step_call; [apply (steps_created _ d "Cluster" 0 replay); [done|apply sl_kind_cluster|done]| |].
  { split; [done|]. exists (run_catalog s), l. split_and!; [apply Hs|done..]. }
  intros id g s1 [H1 Hid]. rewrite Hn in Hid.
  eapply wp_call; [apply (triple_bind_once _ _ _ synced (with_cluster id))|done|].
  - by intros ? ? [[]].
  - by split.
  - intros h2 s2 H2 Hnone. split; [|done]. apply synced_edit; [done..| |]; [apply sl_cluster; [apply H2|done]|].
    destruct H2 as [[_ Hq] _]. intros Hsound q Eq. destruct (Hq Hsound q Eq) as (_ & Hcl & _). by rewrite Hnone in Hcl.
  - intros changed g2 s2 H2. eapply wp_step_call;
      [apply (steps_save_changed (with_cluster id)); by intros ? ? [[]]|done|].
    intros [] g3 s3 [H3 _]. by db_step.
Qed.

Lemma steps_ensure_claim desired_for id o acc : o ∈ ordinals (tg_instances t) →
  (∀ c d, desired_for c o = Ok d → name_any (dyn_meta d) = claim_name (tg_cluster t) o) →
  steps (with_cluster id) (ensure_claim u (tg_namespace t) size desired_for id o acc) grounded (λ _, with_cluster id).
Proof.
  intros Ho Hd h s Hs. unfold ensure_claim. destruct acc as [waiting changed]. db_step.
  assert (∀ g, grounded (h ++ g) s) as Hgr by (intros g; apply grounded_app, Hs).
  apply wp_pure_db; [intros e _ _; apply Hs|]. intros d Hn%Hd.
  db_step; [by left| |intros _; apply Hgr]. destruct reply as [actual|]; [|db_step; by apply with_cluster_app].
  db_step. apply wp_pure_db; [intros e _ _; apply Hgr|]. intros claimed (Hid & _)%check_object_Ok. rewrite Hn in Hid.
  destruct (_ || _); [db_step; intros _; apply Hgr|]. db_step.
  apply (with_cluster_app _ _ g) in Hs as [Hs Hcl]. apply (synced_row _ _ o) in Hs; [|done].
  case_bool_decide; [db_step; split; [done|cbn; by rewrite storage_cluster]|]. do 2 db_step. split.
  - apply (synced_edit_storage _ _ o (set_pvc (Some claimed))) in Hs; [done|]. apply sl_pvc; [apply Hs|done..].
  - cbn [run_state]. rewrite edit_storage_cluster, storage_cluster. done.
Qed.

Lemma steps_ensure_claims desired_for id :
  (∀ c o d, desired_for c o = Ok d → name_any (dyn_meta d) = claim_name (tg_cluster t) o) →
  steps (with_cluster id) (ensure_claims u (tg_namespace t) (tg_instances t) size desired_for id) grounded
    (λ _, with_cluster id).
Proof.
  intros Hd. eapply steps_bind; [apply steps_loop; intros o acc Ho; apply steps_ensure_claim; eauto|].
  intros [waiting changed] h s Hs. destruct waiting; [by eapply (steps_wait _ (with_cluster id)); [intros ? ? [[[]]]|]|].
  eapply steps_tail; [apply (steps_save_changed (with_cluster id)); by intros ? ? [[]]|done|by intros ? ? ? []].
Qed.

(** *** Observation *)
Lemma triple_observe_cluster id :
  triple (with_cluster id) (observe_cluster u (tg_namespace t) (tg_cluster t)) (λ _, with_cluster id).
Proof.
  intros h s Hs. unfold observe_cluster. db_step; [by left| |intros _; by apply grounded_app, Hs]. do 2 db_step.
  apply wp_pure_db; [intros e _ _; by apply grounded_app, Hs|]. intros _ _. db_step. by apply with_cluster_app.
Qed.

Lemma triple_observe_credentials id identify :
  (∀ secret sid st, identify secret = Ok sid → valid st → valid (set_credentials (Some sid) st)) →
  triple (with_cluster id) (observe_credentials (tg_namespace t) (tg_cluster t) identify) (λ _, with_cluster id).
Proof.
  intros Hid h s Hs. unfold observe_credentials. db_step; [by left| |intros _; by apply grounded_app, Hs].
  apply (with_cluster_app _ _ g) in Hs. clear Eg. db_step. destruct reply as [secret|].
  - apply wp_pure_db; [intros e _ _; apply Hs|]. intros sid Hsid.
    destruct (is_some_and _ _) eqn:Hb; [db_step; intros _; apply Hs|]. apply wp_return. destruct Hs as [Hs Hcl].
    split; [|done]. apply synced_edit; [done..|by eapply Hid; [|apply Hs]|].
    destruct Hs as [[_ Hq] _]. intros Hsound q Eq. destruct (Hq Hsound q Eq) as (Hp & Hc & Hr). split_and!; [done|done|].
    destruct (es_credentials (run_state s)) as [b|]; [|done]. cbn in Hb |- *. bool_hyp. by subst.
  - destruct (is_some _); [db_step; intros _; apply Hs|by db_step].
Qed.

Lemma triple_observe_instances id :
  triple (with_cluster id) (observe_instances (tg_namespace t) (tg_cluster t) (tg_instances t) id) (λ _, with_cluster id).
Proof.
  intros h s Hs. unfold observe_instances. db_step; [by left| |intros _; by apply grounded_app, Hs].
  apply (with_cluster_app _ _ g) in Hs. destruct reply as [items continue]. destruct (_ || _); [db_step; intros _; apply Hs|].
  apply wp_pure_db; [intros e _ _; apply Hs|]. intros l _. apply wp_return. destruct Hs as [Hs Hcl]. split; [|done].
  apply synced_edit; [done..|apply sl_instances, Hs|]. eapply query_good_same; [apply Hs|done..].
Qed.

Lemma triple_observe_storage id healthy l :
  triple (with_cluster id) (observe_storage u (tg_namespace t) (tg_cluster t) healthy l) (λ _, with_cluster id).
Proof.
  induction l as [|i l IH]; cbn [observe_storage]; [by intros h s Hs; apply wp_return|].
  intros h s Hs. apply (wp_call _ _ _ _ _ _ (with_cluster id) (λ _, with_cluster id)); [|done|intros [] g s'; apply IH].
  clear h s Hs. intros h s Hs. unfold observe_storage_at. db_step.
  destruct (es_storage (run_state s) !! i) as [item|] eqn:Hi; [|by db_step].
  db_step; [by left| |intros _; by apply grounded_app, Hs].
  db_step; [by left| |intros _; by do 2 apply grounded_app; apply Hs].
  apply (with_cluster_app _ _ g), (with_cluster_app _ _ g0) in Hs. db_step.
  do 2 (apply wp_pure_db; [intros e _ _; apply Hs|]; intros _ _).
  apply wp_pure_db; [intros e _ _; apply Hs|]. intros v _. apply wp_return. destruct Hs as [Hs Hcl]. split; [|done].
  apply synced_storage; [done|]. eapply sl_healthy; [apply Hs|done].
Qed.

Lemma triple_publish id is_ready : triple (with_cluster id) (publish u id is_ready) (λ _, grounded).
Proof.
  intros h s Hs. unfold publish. db_step. generalize (is_ready (run_state s)). intros ready.
  eapply wp_call; [apply (triple_generation (with_cluster id)); intros ? ? [[[]]]; done|done|].
  intros g h1 s1 [[H1 Hcl] _]. eapply wp_call; [apply (triple_health ready g None (run_state s1) (run_catalog s1))|by destruct s1|].
  intros [] h2 s2 [Hc2 [l Hst2]]. do 2 db_step.
  set (st' := set_generation _ _). assert (settled ((h ++ h1) ++ h2) {| run_catalog := run_catalog s2; run_state := st' |}) as H2.
  { rewrite Hc2. split.
    - apply grounded_app, grounded_edit; [apply H1|subst st'; by rewrite Hst2..|].
      subst st'. rewrite Hst2. apply sl_generation, sl_query, sl_conditions, H1.
    - subst st'. rewrite Hst2. intros _ q. cbn. destruct (es_credentials _) as [x|]; [|done]. cbn.
      destruct ready; [|done]. intros [= <-]. by rewrite Hcl. }
  db_step. case_bool_decide; cbn [negb]; [db_step; apply H2|].
  eapply wp_call; [apply (triple_save st')|by split|]. intros [] g3 s3 [[[H3 _] _] _]. by db_step.
Qed.

(** *** The steps of a deletion *)
Definition deleting (h : trace Resp) (s : Run) : Prop := saved h s ∧ es_query (run_state s) = None.
Lemma deleting_app h g s : deleting h s → deleting (h ++ g) s.
Proof. intros []. split; [by apply saved_app|done]. Qed.
Lemma deleting_grounded h s : deleting h s → grounded h s.
Proof. by intros [[[]]]. Qed.

Lemma steps_announce_deletion extra :
  (∀ st, valid st → valid (extra st)) → (∀ st, es_logical_uid (extra st) = es_logical_uid st) →
  (∀ st, es_query (extra st) = es_query st) → (∀ st, claims_gone (extra st) = true → claims_gone st = true) →
  steps grounded (announce_deletion u extra) grounded (λ _, deleting).
Proof.
  intros Hv Hu Hq Ht h s Hs. unfold announce_deletion.
  eapply wp_call; [by apply (triple_generation grounded)|done|]. intros g h1 s1 [H1 _].
  eapply wp_call; [apply (triple_health false g (Some "Deleting") (run_state s1) (run_catalog s1))|by destruct s1|].
  intros [] h2 s2 [Hc2 [l Hst2]]. db_step. set (st' := extra _).
  assert (es_query st' = None) as Hnone by (subst st'; by rewrite Hq).
  assert (settled ((h ++ h1) ++ h2) {| run_catalog := run_catalog s2; run_state := st' |}) as H2.
  { rewrite Hc2. split; [|by intros _ q; cbn; rewrite Hnone]. apply grounded_app. destruct H1 as [? ? ? Hv1 Ht1]. split; [done|done|..].
    - subst st'. cbn. rewrite Hu, Hst2. done.
    - subst st'. cbn. rewrite Hst2. by apply Hv, sl_generation, sl_query, sl_conditions, sl_conditions.
    - subst st'. cbn. rewrite Hst2. intros H%Ht. by apply Ht1. }
  db_step. unfold save_changed. case_bool_decide as He; cbn [negb].
  - db_step. split; [|done]. by split.
  - eapply wp_call; [apply (triple_save st')|by split|]. intros [] g3 s3 [[[H3 _] _] _]. by db_step.
Qed.

(** The objects of a database, by kind and ordinal. *)
Definition object_name (kind : string) (o : Z) (nm : string) : Prop :=
  kind = "Namespace" ∧ o = 0 ∧ nm = tg_namespace t ∨
  kind = "Cluster" ∧ o = 0 ∧ nm = tg_cluster t ∨
  kind = "PersistentVolume" ∧ o ∈ ordinals (tg_instances t) ∧ nm = volume_name (tg_cluster t) o ∨
  kind = "PersistentVolumeClaim" ∧ o ∈ ordinals (tg_instances t) ∧ nm = claim_name (tg_cluster t) o.

Lemma object_kinds kind o nm : object_name kind o nm → kind ≠ "PersistentVolumeClaim" → kinds kind o.
Proof.
  intros [(-> & -> & _)|[(-> & -> & _)|[(-> & Ho & _)|(-> & _)]]] Hne;
    [apply sl_kind_namespace|apply sl_kind_cluster|by apply sl_kind_pv|done].
Qed.

Lemma assign_Ok kind o nm id put st : size = SIZE → object_name kind o nm → identified nm id → assign kind o id = Ok put →
  valid st → valid (put st) ∧ es_logical_uid (put st) = es_logical_uid st ∧ es_query (put st) = es_query st ∧
  es_finalization (put st) = es_finalization st.
Proof.
  intros HS Hn Hid Hput Hv. unfold assign in Hput. rewrite <-HS in Hput.
  destruct Hn as [(-> & _ & ->)|[(-> & _ & ->)|[(-> & Ho & ->)|(-> & Ho & ->)]]]; cbn in Hput; injection Hput as <-.
  - split; [by apply sl_namespace|done].
  - split; [by apply sl_cluster|done].
  - split; [by apply sl_pv|]. by destruct (edit_storage_shape o (set_pv (Some id)) st) as [l ->].
  - split; [by apply sl_pvc|]. by destruct (edit_storage_shape o (set_pvc (Some id)) st) as [l ->].
Qed.

Lemma triple_adopt_found live desired kind o : size = SIZE → object_name kind o (name_any (dyn_meta desired)) →
  triple deleting (adopt_found u live desired kind o) (λ b h s, grounded h s ∧ b = true).
Proof.
  intros HS Hn h s Hs. pose proof (deleting_grounded h s Hs) as Hg. unfold adopt_found. db_step.
  apply (wp_call _ _ _ _ _ _ (λ h0 s0, s0 = s ∧ deleting h0 s) (λ _ h0 s0, s0 = s ∧ deleting h0 s)); [|done|].
  { intros h0 s0 [-> H0]. destruct (bool_decide _); [by db_step|]. apply wp_pure_db; [intros e _ _; by apply deleting_grounded|].
    intros previous _. destruct (issued_or_observed _); db_step; [done|]. intros _. by apply deleting_grounded. }
  intros [] g s0 [-> H0]. clear Hs Hg. pose proof (deleting_grounded _ s H0) as Hg. db_step.
  apply wp_pure_db; [by intros e _ _|]. intros id (Hid & _)%check_object_Ok.
  destruct (matches_desired _ _); cbn [negb]; [|db_step; by intros _]. destruct (_ && _); [db_step; by intros _|].
  apply wp_pure_db; [by intros e _ _|]. intros put Hput. db_step.
  assert (settled (h ++ g) {| run_catalog := run_catalog s; run_state := put (run_state s) |}) as H1.
  { destruct (assign_Ok _ _ _ _ _ (run_state s) HS Hn Hid Hput) as (Hv & Eu & Eq & Ef); [apply Hg|].
    split; [by apply grounded_edit|]. intros _ q. cbn. rewrite Eq. destruct H0 as [_ ->]. done. }
  apply (wp_call _ _ _ _ _ _ settled (λ _, grounded)); [|done|intros [] g1 s1 H; by db_step].
  intros h2 s2 H2. case_bool_decide as Hk.
  - eapply wp_tail; [apply (triple_save (run_state s2))|done|]. by intros [] g2 s3 [[[]]].
  - eapply wp_tail; [by apply triple_record, (object_kinds _ _ _ Hn)|done|]. by intros [] g2 s3 [[[]]].
Qed.

(** Nothing of the catalog changes unless something is adopted. *)
Lemma triple_adopt api_ desired kind o : size = SIZE → object_name kind o (name_any (dyn_meta desired)) →
  triple deleting (adopt u api_ desired kind o) (λ b h s, if b then grounded h s else deleting h s).
Proof.
  intros HS Hn h s Hs. unfold adopt. db_step; [by left| |intros _; by apply grounded_app, deleting_grounded].
  apply (deleting_app _ g) in Hs. db_step. destruct reply as [live|]; [|by db_step].
  destruct (is_none _); [|by db_step]. eapply wp_tail; [by apply triple_adopt_found|done|]. by intros b g1 s1 [H1 ->].
Qed.

Lemma triple_delete_exact api_ desired recorded kind o (known : trace Resp → Prop) :
  creating = false → ah_kind api_ = kind → (∀ h g, known h → known (h ++ g)) → (∀ h, known h → before t h kind) →
  triple (λ h s, deleting h s ∧ known h ∧ recorded = bound (run_state s) kind o) (delete_exact u api_ desired recorded)
    (λ p h s, deleting h s ∧ known h ∧ (is_waiting p = false → absent h api_ (name_any (dyn_meta desired)))).
Proof.
  intros Hc Ha Happ Hb h s (Hs & Hk & Hrec). unfold delete_exact.
  db_step; [by left| |intros _; by apply grounded_app, deleting_grounded].
  apply (deleting_app _ g) in Hs. apply (Happ _ g) in Hk. pose proof (deleting_grounded _ s Hs) as Hg.
  destruct reply as [live|].
  2:{ db_step. split_and!; [done|done|]. intros _. subst g. apply replied_last. }
  destruct recorded as [recorded|]; [|db_step; by intros _]. db_step.
  apply wp_pure_db; [by intros e _ _|]. intros id (Hid & Huid & Hsame)%check_object_Ok.
  destruct (matches_desired _ _); cbn [negb]; [|db_step; by intros _].
  specialize (Hsame recorded eq_refl) as <-.
  eapply wp_call; [apply (triple_verify_run (λ h0 s0, deleting h0 s0 ∧ known h0 ∧ s0 = s ∧
    replied h0 (FindObject api_ (name_any (dyn_meta desired))) (Ok (Some live))))| |].
  - intros h1 g1 s1 (? & ? & ? & ?). split_and!; [by apply deleting_app|by apply Happ|done|by apply replied_app_l].
  - split_and!; [done..|]. subst g. apply replied_last.
  - intros [] g1 s1 (H1 & Hk1 & -> & Hrep). db_step; [|db_step|intros _; by apply grounded_app, deleting_grounded].
    + split; [done|]. exists (run_catalog s), (run_state s), live, recorded. destruct Hid.
      split_and!; [apply H1|apply H1|done..| |done|rewrite Ha; by apply Hb]. right. right. exists o. by rewrite Ha.
    + split_and!; [by apply deleting_app|by apply Happ|done].
Qed.

Lemma steps_retire api_ desired kind o (known : trace Resp → Prop) :
  creating = false → ah_kind api_ = kind → (∀ h g, known h → known (h ++ g)) → (∀ h, known h → before t h kind) →
  size = SIZE → object_name kind o (name_any (dyn_meta desired)) →
  steps (λ h s, deleting h s ∧ known h) (retire u api_ desired kind o) grounded
    (λ p h s, deleting h s ∧ known h ∧ (is_waiting p = false → absent h api_ (name_any (dyn_meta desired)))).
Proof.
  intros Hc Ha Happ Hb HS Hn h s [Hs Hk]. unfold retire.
  eapply wp_call; [by apply triple_adopt|done|]. intros [] g s1 H1; [by db_step|]. apply (Happ _ g) in Hk. db_step.
  eapply wp_call; [by apply (triple_delete_exact api_ desired _ kind o known)|by split_and!|].
  intros p g2 s2 H2. by db_step.
Qed.

(** What is known at each point of a deletion. *)
Definition knowing (known : trace Resp → Prop) (h : trace Resp) (s : Run) : Prop := deleting h s ∧ known h.
Lemma knowing_grounded known h s : knowing known h s → grounded h s.
Proof. intros [H _]. by apply deleting_grounded. Qed.

Definition cluster_named (desired_for : TenantDatabaseCatalog → result ObserveError DynamicObject) : Prop :=
  ∀ c d, desired_for c = Ok d → name_any (dyn_meta d) = tg_cluster t.
Definition each_named (name_of : Z → string) (desired_for : TenantDatabaseCatalog → Z → result ObserveError DynamicObject)
    : Prop := ∀ c o d, desired_for c o = Ok d → name_any (dyn_meta d) = name_of o.

Lemma steps_retire_cluster desired_for : creating = false → size = SIZE → cluster_named desired_for →
  steps deleting (retire_cluster u (tg_namespace t) desired_for) grounded (λ _, knowing (cluster_gone t)).
Proof.
  intros Hc HS Hd h s Hs. unfold retire_cluster. db_step.
  apply wp_pure_db; [intros e _ _; by apply deleting_grounded|]. intros d Hn%Hd.
  eapply wp_step_call; [apply (steps_retire _ d "Cluster" 0 (λ _, True)); [done..| |done|]| |].
  - intros h0 _. by left.
  - right. left. by rewrite Hn.
  - done.
  - intros p g s1 (H1 & _ & Habs). destruct (is_waiting p); db_step; [by apply deleting_grounded|].
    split; [done|]. rewrite Hn in Habs. by apply Habs.
Qed.

Lemma steps_retire_secret identify : creating = false →
  (∀ st secret id, identify st secret = Ok id → uid (dyn_meta secret) = Some (ri_uid id) ∧
     (∀ x, es_credentials st = Some x → ri_uid x = ri_uid id) ∧ (valid st → valid (set_credentials (Some id) st))) →
  steps (knowing (cluster_gone t)) (retire_secret u (tg_namespace t) (tg_cluster t) identify) grounded
    (λ waiting h s, knowing (cluster_gone t) h s ∧
       (waiting = false → absent h (SECRETS (tg_namespace t)) (secret_name (tg_cluster t)))).
Proof.
  intros Hc Hid h s [Hs Hk]. unfold retire_secret.
  db_step; [by left| |intros _; by apply grounded_app, deleting_grounded].
  apply (deleting_app _ g) in Hs. apply (cluster_gone_app t _ g) in Hk. pose proof (deleting_grounded _ s Hs) as Hg.
  destruct reply as [secret|].
  2:{ db_step. split; [done|]. intros _. subst g. apply replied_last. }
  db_step. apply wp_pure_db; [by intros e _ _|]. intros id (Huid & Hsame & Hval)%Hid.
  destruct (es_credentials (run_state s)) as [x|] eqn:Hx; cbn [is_none is_some negb].
  - eapply wp_call; [apply (triple_verify_run (λ h0 s0, deleting h0 s0 ∧ cluster_gone t h0 ∧ s0 = s ∧
      replied h0 (FindObject (SECRETS (tg_namespace t)) (secret_name (tg_cluster t))) (Ok (Some secret))))| |].
    + intros h1 g1 s1 (? & ? & ? & ?). split_and!; [by apply deleting_app|by apply cluster_gone_app|done|by apply replied_app_l].
    + split_and!; [done..|]. subst g. apply replied_last.
    + intros [] g1 s1 (H1 & Hk1 & -> & Hrep). specialize (Hsame x eq_refl).
      db_step; [|db_step|intros _; by apply grounded_app, deleting_grounded].
      * split; [done|]. exists (run_catalog s), (run_state s), secret, x. rewrite Hsame.
        split_and!; [apply H1|apply H1|done..| |done|]; [by left|]. right. left. split; [by left|done].
      * split; [|done]. split; [by apply deleting_app|by apply cluster_gone_app].
  - db_step. eapply wp_call; [apply (triple_save (set_credentials (Some id) (run_state s)))| |].
    + split; [|done]. split; [apply grounded_edit; [done..|apply Hval, Hg]|].
      intros _ q. cbn. destruct Hs as [_ ->]. done.
    + intros [] g1 s1 [[[H1 _] _] _]. by db_step.
Qed.

(** A loop over the objects of one kind. *)
Lemma steps_retire_all api_ kind desired_for name_of (known : trace Resp → Prop) (fine : trace Resp → Prop) waiting :
  creating = false → ah_kind api_ = kind → (∀ h g, known h → known (h ++ g)) → (∀ h g, fine h → fine (h ++ g)) →
  (∀ h, known h → before t h kind) → size = SIZE → each_named name_of desired_for →
  (∀ o, o ∈ ordinals (tg_instances t) → object_name kind o (name_of o)) →
  steps (λ h s, knowing known h s ∧ (waiting = false → fine h))
    (each (ordinals (tg_instances t)) waiting (retire_each u api_ kind desired_for)) grounded
    (λ waiting h s, knowing known h s ∧
       (waiting = false → fine h ∧ ∀ o, o ∈ ordinals (tg_instances t) → absent h api_ (name_of o))).
Proof.
  intros Hc Ha Happ Hfine Hb HS Hd Hobj.
  assert (Hgen : steps (λ h s, knowing known h s ∧ (waiting = false → fine h ∧ ∀ o, o ∈ [] → absent h api_ (name_of o)))
    (each (ordinals (tg_instances t)) waiting (retire_each u api_ kind desired_for)) grounded
    (λ waiting h s, knowing known h s ∧
       (waiting = false → fine h ∧ ∀ o, o ∈ ordinals (tg_instances t) → absent h api_ (name_of o)))).
  2:{ intros h s [Hk Hf]. apply Hgen. split; [done|]. intros Hw. split; [by apply Hf|]. by intros o ?%not_elem_of_nil. }
  apply (steps_each _ _ _ _ (λ done_ w h s, knowing known h s ∧
    (w = false → fine h ∧ ∀ o, o ∈ done_ → absent h api_ (name_of o)))).
  intros done_ o rest w Hl h s [[Hs Hk] Hdone]. unfold retire_each. db_step.
  apply wp_pure_db; [intros e _ _; by apply deleting_grounded|]. intros d Hn%Hd.
  assert (o ∈ ordinals (tg_instances t)) as Ho by (rewrite Hl; apply elem_of_app; right; by left).
  eapply wp_step_call; [apply (steps_retire api_ d kind o known); try done; rewrite Hn; by apply Hobj|done|].
  intros p g s1 (H1 & Hk1 & Habs). db_step. split; [done|]. intros [-> Hp]%orb_false_iff.
  destruct (Hdone eq_refl) as [Hf Hprev]. split; [by apply Hfine|].
  intros o' [Ho'| ->%list_elem_of_singleton]%elem_of_app; [by apply absent_app, Hprev|].
  rewrite Hn in Habs. by apply Habs.
Qed.

Lemma steps_retire_claims desired_for waiting : creating = false → size = SIZE →
  each_named (claim_name (tg_cluster t)) desired_for →
  steps (λ h s, knowing (cluster_gone t) h s ∧
           (waiting = false → absent h (SECRETS (tg_namespace t)) (secret_name (tg_cluster t))))
    (retire_claims u (tg_namespace t) (tg_instances t) desired_for waiting) grounded
    (λ _, knowing (λ h, cluster_gone t h ∧ dependents_gone t h)).
Proof.
  intros Hc HS Hd. eapply steps_bind.
  - apply (steps_retire_all _ _ _ (claim_name (tg_cluster t)) (cluster_gone t)
      (λ h, absent h (SECRETS (tg_namespace t)) (secret_name (tg_cluster t)))); [done..| | | |done|done|].
    + intros ? ?. apply cluster_gone_app.
    + intros ? ?. apply absent_app.
    + intros h Hh. right. left. split; [by right|done].
    + intros o Ho. right. right. by right.
  - intros w h s [[Hs Hk] Hw]. destruct w; db_step; [by apply deleting_grounded|]. split; [done|]. split; [done|]. by apply Hw.
Qed.

Lemma steps_retire_volumes desired_for : creating = false → size = SIZE →
  each_named (volume_name (tg_cluster t)) desired_for →
  steps (knowing (λ h, cluster_gone t h ∧ dependents_gone t h)) (retire_volumes u (tg_instances t) desired_for) grounded
    (λ _, knowing (λ h, cluster_gone t h ∧ dependents_gone t h ∧ volumes_gone t h)).
Proof.
  intros Hc HS Hd h s Hs. eapply wp_step_call; [apply (steps_retire_all VOLUMES "PersistentVolume" _
    (volume_name (tg_cluster t)) (λ h, cluster_gone t h ∧ dependents_gone t h) (λ _, True)); [done..| |done| |done|exact Hd|]|by split|].
  - intros ? ? []. split; [by apply cluster_gone_app|by apply dependents_gone_app].
  - intros h0 Hh. right. right. by left.
  - intros o Ho. right. right. by left.
  - intros w g s1 [[H1 [Hk1 Hk2]] Hw]. destruct w; db_step; [by apply deleting_grounded|].
    split; [done|]. split_and!; [done..|]. by destruct (Hw eq_refl).
Qed.

Lemma steps_retire_namespace : creating = false → size = SIZE →
  steps (knowing (λ h, cluster_gone t h ∧ dependents_gone t h ∧ volumes_gone t h)) (retire_namespace u (tg_namespace t)) grounded
    (λ _, knowing (workload_gone t)).
Proof.
  intros Hc HS h s [Hs Hk]. unfold retire_namespace. db_step.
  apply wp_pure_db; [intros e _ _; by apply deleting_grounded|]. intros d (Hn & _)%namespace_object_Ok.
  eapply wp_step_call; [apply (steps_retire _ d "Namespace" 0 (λ h, cluster_gone t h ∧ dependents_gone t h ∧ volumes_gone t h));
    [done..| | |done|]|by split|].
  - intros ? ? (? & ? & ?). split_and!; [by apply cluster_gone_app|by apply dependents_gone_app|by apply volumes_gone_app].
  - intros h0 Hh. do 3 right. by left.
  - left. by rewrite Hn.
  - intros p g s1 (H1 & (? & ? & ?) & Habs). destruct (is_waiting p); db_step; [by apply deleting_grounded|].
    split; [done|]. rewrite Hn in Habs. split_and!; [done..|]. by apply Habs.
Qed.

(** *** The end of a deletion, and foreign databases *)
Lemma triple_settle : creating = false →
  triple (λ h s, settled h s ∧ gone h) (settle u) (λ _, grounded).
Proof.
  intros Hc h s [Hs Hg]. unfold settle. db_step. case_bool_decide; cbn [negb].
  - apply wp_bind. eapply wp_post.
    + apply (wp_extends _ _ entry_op), wp_remove_spec; [apply entry_op_reading|].
      intros g c ns Hr _ Hrem. split; [done|]. exists c. split_and!; [done..|]. by apply gone_app.
    + intros h' [c|e] [H1 [g ->]]; [|by apply wp_return, on_error_benign]. destruct H1 as [Hseen Hu].
      apply wp_return. destruct Hs as [[] _]. split; [done|cbn; congruence|done..|]. intros _. right. by apply gone_app.
  - eapply wp_call; [apply (triple_save (run_state s))|done|]. intros [] g s1 [[[H1 _] _] _]. by db_step.
Qed.

Lemma triple_mark_invalid generation_for : triple grounded (mark_invalid generation_for u) (λ _, grounded).
Proof.
  intros h s Hs. unfold mark_invalid. do 2 db_step. apply wp_pure_db.
  { intros e _ _. apply grounded_edit; [done..|]. apply sl_query, Hs. }
  intros g _. db_step. eapply wp_call;
    [apply (triple_health false g (Some "OwnershipInvalid") (set_generation g (set_query None (run_state s))) (run_catalog s))|done|].
  intros [] g1 s1 [Hc1 [l Hst1]]. db_step.
  assert (settled (h ++ g1) {| run_catalog := run_catalog s1; run_state := set_phase DbOwnershipInvalid (run_state s1) |}) as H1.
  { rewrite Hc1, Hst1. split; [|done]. apply grounded_app, grounded_edit; [done..|].
    apply sl_conditions, sl_conditions, sl_generation, sl_query, Hs. }
  db_step. case_bool_decide; cbn [negb]; [db_step; apply H1|].
  eapply wp_call; [eapply triple_save|by split|]. intros [] g2 s2 [[[H2 _] _] _]. by db_step.
Qed.
End Entry.

Arguments query_good : clear implicits.
Arguments recorded_terminal : clear implicits.
Arguments status_rule : clear implicits.
Arguments removal_rule : clear implicits.
Arguments create_rule : clear implicits.
Arguments delete_rule : clear implicits.
Arguments entry_op : clear implicits.
Arguments grounded : clear implicits.
Arguments settled : clear implicits.
Arguments synced : clear implicits.
Arguments saved : clear implicits.
Arguments on_error : clear implicits.
Arguments labelled : clear implicits.
Arguments recorded_issued : clear implicits.
Arguments with_cluster : clear implicits.
Arguments deleting : clear implicits.
Arguments object_name : clear implicits.
Arguments knowing : clear implicits.
Arguments cluster_named : clear implicits.

(** Applies a lemma; the laws it needs are instances. *)
Tactic Notation "law" uconstr(H) :=
  eapply H;
  try lazymatch goal with
  | |- Evidence _ => apply _
  | |- ForeignErrors _ => apply _
  | |- StatusLaws _ _ _ _ => apply _
  end.
