(* ===== verification/ProviderSafety.v ===== *)
(** * Reconciliation of a catalog, for any safe provider

    What a provider has to guarantee of its steps on one database, and what the
    reconciliation of a catalog then guarantees of every request, whatever the
    environment answers. *)

From S2P Require Import Prelude RustStd Externals Kube Errors Effects DatabaseApi CatalogOps.
From S2P Require Import DatabaseStatus DatabaseResources DatabaseRun DatabaseSteps DatabaseProvider CatalogWriters DatabaseSafety.

#[local] Arguments wp : simpl never.
#[local] Arguments bind : simpl never.
#[local] Arguments perform_map : simpl never.

Section Safety.
Context `{SO : Sha256Ops} {Access : Type} (p : Provider Access).

(** What is known of the access that was loaded for a catalog, what holds of
    the statuses, what shows that a database is gone, the intents, and the
    requests of the provider's own. *)
Record Contract := {
  ct_loaded : TenantDatabaseCatalog → trace Resp → Access → Prop;
  ct_valid : Access → Target → EntryStatus → Prop;
  ct_gone : Access → Target → trace Resp → Prop;
  ct_kinds : Access → Target → string → Z → Prop;
  ct_other : Access → Target → bool → trace Resp → Op → Prop;
}.

Definition contract_op (ct : Contract) (access : Access) (t : Target) (creating : bool) (sound : Prop) :=
  entry_op t creating (ct_valid ct access t) (ct_gone ct access t) (ct_other ct access t creating) sound.
Definition contract_error (ct : Contract) (access : Access) (t : Target) :=
  on_error t (ct_valid ct access t) (ct_gone ct access t) (pr_foreign p).

Class SafeProvider (ct : Contract) : Prop := {
  sp_load c b h : wp (pr_load p c b) h (λ _, reading) (λ h' r, ∀ access, r = Ok access → ct_loaded ct c h' access);
  sp_loaded c h g access : ct_loaded ct c h access → ct_loaded ct c (h ++ g) access;
  sp_evidence access t : Evidence (ct_gone ct access t);
  sp_foreign : ForeignErrors (pr_foreign p);
  sp_other access t creating h o : ct_other ct access t creating h o → quiet o;
  sp_laws access t : StatusLaws t SIZE (ct_kinds ct access t) (ct_valid ct access t);
  sp_validate access t st : pr_validate p access t st = Ok tt → ct_valid ct access t st ∧ es_logical_uid st = tg_uid t;
  sp_entry access u g : es_query (pr_entry p access u g) = None ∧ es_finalization (pr_entry p access u g) = None;
  sp_ensure access replay t sound :
    triple (contract_op ct access t true sound) (contract_error ct access t)
      (synced t (ct_valid ct access t) (ct_gone ct access t) sound) (pr_ensure p access replay t)
      (λ _, grounded t (ct_valid ct access t) (ct_gone ct access t));
  sp_finalize access t sound :
    triple (contract_op ct access t false sound) (contract_error ct access t)
      (grounded t (ct_valid ct access t) (ct_gone ct access t)) (pr_finalize p access t)
      (λ _, grounded t (ct_valid ct access t) (ct_gone ct access t));
}.

(** The database is an entry of a catalog that was read, with the names that
    its UIDs give it, and it is to be created or deleted as the entry and the
    catalog at hand say. *)
Definition target_known (h : trace Resp) (t : Target) (creating : bool) (c : TenantDatabaseCatalog) : Prop :=
  ∃ c0 e, seen h c0 ∧ tds_entries (tdc_spec c0) !! tg_uid t = Some e ∧ tg_instances t = en_instances e ∧
    seen h c ∧ uid (tdc_meta c) = Some (tg_catalog t) ∧
    ownership_names (tg_catalog t) (tg_uid t) = Ok (tg_namespace t, tg_cluster t) ∧
    creating = negb (en_deleting e) && negb (tds_closed (tdc_spec c)).

Definition recorded_sound (c : TenantDatabaseCatalog) (u : string) : Prop :=
  ∀ st, entry_status c u = Some st → query_ok st.

(** The access is the one of the catalog that the database belongs to. *)
Definition access_known (ct : Contract) (h : trace Resp) (t : Target) (access : Access) : Prop :=
  ∃ c, seen h c ∧ uid (tdc_meta c) = Some (tg_catalog t) ∧ ct_loaded ct c h access.

Definition database_op (ct : Contract) (h : trace Resp) (o : Op) : Prop :=
  ∃ access t creating c, target_known h t creating c ∧ access_known ct h t access ∧
    contract_op ct access t creating (recorded_sound c (tg_uid t)) h o.

(** The status of an entry that is gone is dropped. *)
Definition drops_orphan (h : trace Resp) (o : Op) : Prop :=
  match o with
  | ReplaceCatalogStatus ns nm obj => ∃ c u status,
      read_version h c ∧ new_status c u None = Ok status ∧ obj = with_status c status
  | _ => False
  end.

Definition provider_op (ct : Contract) (h : trace Resp) (o : Op) : Prop :=
  reading o ∨ drops_orphan h o ∨ database_op ct h o.

Lemma target_known_app h g t creating c : target_known h t creating c → target_known (h ++ g) t creating c.
Proof.
  intros (c0 & e & H0 & ? & ? & H1 & ? & ? & ?). exists c0, e. split_and!; try done; by apply catalog_seen_app_l.
Qed.

Context (ct : Contract) `{SP : !SafeProvider ct}.

Lemma access_known_app h g t access : access_known ct h t access → access_known ct (h ++ g) t access.
Proof. intros (c & ? & ? & ?). exists c. split_and!; [by apply catalog_seen_app_l|done|by apply sp_loaded]. Qed.

(** A step on one database, within the reconciliation of the catalog. *)
Lemma wp_database {A} access t creating c (m : prog Resp A) h Post :
  target_known h t creating c → access_known ct h t access → wp m h (contract_op ct access t creating (recorded_sound c (tg_uid t))) Post →
  wp m h (provider_op ct) Post.
Proof.
  intros Ht Ha Hm. eapply wp_mono; [| |apply wp_within, Hm].
  - intros h' o [Ho [g ->]]. right. right. exists access, t, creating, c.
    split_and!; [by apply target_known_app|by apply access_known_app|done].
  - by intros h' a [].
Qed.

#[local] Existing Instances sp_evidence sp_foreign sp_laws.

Lemma ownership_names_pair catalog_uid u names : ownership_names catalog_uid u = Ok names →
  ownership_names catalog_uid u = Ok (names.1, names.2).
Proof. by destruct names. Qed.

Lemma wp_reconcile_entries access generation replay entries catalog waiting h :
  seen h catalog → (∀ t, uid (tdc_meta catalog) = Some (tg_catalog t) → access_known ct h t access) → (∀ u e, (u, e) ∈ entries → ∃ c0, seen h c0 ∧ tds_entries (tdc_spec c0) !! u = Some e) →
  wp (reconcile_entries p access generation replay entries catalog waiting) h (provider_op ct) (λ _ _, True).
Proof.
  revert catalog waiting h. induction entries as [|[u e] rest IH]; intros catalog waiting h Hc Hacc He; [done|].
  assert (Hnext : ∀ g s b, grounded s (ct_valid ct access s) (ct_gone ct access s) (h ++ g) b →
    uid (tdc_meta catalog) = Some (tg_catalog s) →
    ∀ w, wp (reconcile_entries p access generation replay rest (run_catalog b) w) (h ++ g) (provider_op ct) (λ _ _, True)).
  { intros g s b [Hb Hu _ _ _] Hs w. apply IH; [done| |].
    { intros t Ht. apply access_known_app, Hacc. congruence. }
    intros u' e' Hin.
    destruct (He u' e') as (c0 & H0 & ?); [by right|]. exists c0. split; [by apply catalog_seen_app_l|done]. }
  cbn [reconcile_entries]. unfold target_of. destruct (ok_or (uid _) _) as [cu|] eqn:Hcu; [|done].
  apply ok_or_Ok in Hcu. destruct (ownership_names cu u) as [names|] eqn:Hnames; [|done].
  apply ownership_names_pair in Hnames. set (t := {| tg_catalog := cu |}).
  destruct (He u e) as (c0 & Hc0 & Hc0e); [by left|].
  assert (Ht : target_known h t (negb (en_deleting e) && negb (tds_closed (tdc_spec catalog))) catalog) by (by exists c0, e).
  specialize (Hacc t Hcu) as Ha.
  destruct (pr_validate p access t _) as [[]|] eqn:Hval; [|done].
  apply sp_validate in Hval as [Hvalid Huid].
  destruct (entry_status catalog u) as [st|] eqn:Hst; cbn [unwrap_or is_none is_some negb] in *.
  - set (creating := negb _ && _) in *. set (start := {| run_catalog := catalog; run_state := st |}).
    assert (Hg : grounded t (ct_valid ct access t) (ct_gone ct access t) h start).
    { split; [done..|]. intros Hp. left. by exists catalog, st. }
    apply wp_bind.
    eapply (wp_post _ _ _ (λ h' out, (∃ g, h' = h ++ g) ∧ outcome (contract_error ct access t)
      (λ _, grounded t (ct_valid ct access t) (ct_gone ct access t)) h' out)).
    { apply (wp_database access t creating catalog); [done..|]. eapply wp_post; [apply wp_extends|by intros h' a [? ?]].
      unfold reconcile_entry. destruct creating.
      - apply sp_ensure. split; [split; [done|]|]; [|by exists st]. intros Hsound. by apply Hsound.
      - by apply sp_finalize. }
    intros h' [[progress|err] s] [[g ->] Hout]; cbn in Hout.
    + destruct (stop_after_progress progress creating waiting) as [[] w]; [done|by eapply Hnext].
    + destruct (pr_foreign p err) eqn:Hf; [|done]. specialize (Hout Hf). apply wp_bind.
      eapply (wp_post _ _ _ (λ h' out, (∃ g', h' = (h ++ g) ++ g') ∧ outcome (contract_error ct access t)
        (λ _, grounded t (ct_valid ct access t) (ct_gone ct access t)) h' out)).
      { apply (wp_database access t creating catalog); [by apply target_known_app|by apply access_known_app|].
        eapply wp_post; [apply wp_extends|by intros h' a [? ?]].
        by law (@triple_mark_invalid t creating SIZE (ct_kinds ct access t) (ct_valid ct access t) (ct_gone ct access t) (ct_other ct access t creating)). }
      intros h' [[changed|err'] s'] [[g' ->] Hout']; [|done]. rewrite <-(assoc_L (++)) in *. by eapply Hnext.
  - set (creating := negb _ && _) in *. set (start := {| run_catalog := catalog; run_state := pr_entry p access u generation |}).
    destruct (sp_entry access u generation) as [Hq Hf].
    assert (Hg : grounded t (ct_valid ct access t) (ct_gone ct access t) h start).
    { split; [done..|]. unfold claims_gone. cbn. by rewrite Hf. }
    apply wp_bind.
    eapply (wp_post _ _ _ (λ h' out, (∃ g, h' = h ++ g) ∧ outcome (contract_error ct access t)
      (λ _ h s, saved t (ct_valid ct access t) (ct_gone ct access t) (recorded_sound catalog u) h s ∧
         run_state s = pr_entry p access u generation) h' out)).
    { apply (wp_database access t creating catalog); [done..|]. eapply wp_post; [apply wp_extends|by intros h' a [? ?]].
      law (@triple_save t creating (ct_valid ct access t) (ct_gone ct access t) (ct_other ct access t creating)). split; [|done]. split; [done|].
      intros _ q. cbn. by rewrite Hq. }
    intros h' [[[]|err] s] [[g ->] Hout]; [|done]. destruct Hout as [[[Hout _] _] _]. by eapply Hnext.
Qed.

Lemma sorted_entries_elem c u e : (u, e) ∈ sorted_entries c → tds_entries (tdc_spec c) !! u = Some e.
Proof.
  unfold sorted_entries, sort_by_flag. intros [H|H]%elem_of_app; apply elem_of_filter_list in H as [_ H];
    by apply elem_of_ordered in H.
Qed.

Lemma wp_provider_reconcile observed replay h :
  wp (provider_reconcile p observed replay) h (provider_op ct) (λ _ _, True).
Proof.
  unfold provider_reconcile. apply wp_verifying; [by left|done|]. intros g c Hc _.
  destruct (orphan c) as [u|].
  - apply wp_bind. eapply wp_post; [apply wp_update; [by left|]|by intros h' []].
    intros g' c' ns status Hr _ Hs. right. left. by exists c', u, status.
  - apply wp_bind. eapply (wp_mono _ _ (λ _, reading)); [by left| |apply wp_extends, sp_load].
    intros h' [access|] [Hload [g' ->]]; [|done]. destruct (ok_or _ _); [|done].
    apply wp_reconcile_entries; [by apply catalog_seen_app_l| |].
    { intros t Ht. exists c. split_and!; [by apply catalog_seen_app_l|done|by apply Hload]. }
    intros u e He. exists c. split; [by apply catalog_seen_app_l|by apply sorted_entries_elem].
Qed.

(** What a provider writes respects the rules of the catalog. *)
Lemma provider_op_legal h o : provider_op ct h o → catalog_write h o.
Proof.
  intros [Hr|[Hd|(access & t & creating & c & _ & _ & Ho)]].
  - by apply reading_write.
  - destruct o; try done. destruct Hd as (c & u & status & Hr & Hs & ->). exists c. split; [done|]. by exists u, None, status.
  - destruct o; try done; try (destruct Ho as [Ho|Ho%sp_other]; [by apply reading_write|by apply quiet_write]).
    + destruct Ho as (_ & c0 & Hr & Hrem & -> & _). exists c0. split; [done|]. split_and!; [done|done|].
      intros [Hs Hcl]. by apply remove_legal.
    + destruct Ho as (c0 & status & next & Hr & Hs & -> & _). exists c0. split; [done|].
      by exists (tg_uid t), (Some next), status.
Qed.

Lemma respects_provider_reconcile observed replay : respects (provider_reconcile p observed replay).
Proof. intros h. eapply wp_mono; [apply provider_op_legal| |apply wp_provider_reconcile]. done. Qed.
End Safety.
