(* ===== verification/LocalSafety.v ===== *)
(** * Safety of the databases of local Tenants

    The steps of [LocalDatabase] keep the contract of [ProviderSafety]: what
    they record passes the provider's own validation again, directories are
    created and removed only with their record, and a database counts as gone
    only when all of it was seen gone. *)

From S2P Require Import Prelude RustStd Externals Paths Kube Errors Api Ownership Foundation Docker Allocation Effects DatabaseApi CatalogOps.
From S2P Require Import DatabaseStatus DatabaseResources TenantAccess DatabaseRun DatabaseSteps DatabaseProvider LocalDatabase.
From S2P Require Import CatalogWriters DatabaseSafety ProviderSafety.

#[local] Arguments wp : simpl never.
#[local] Arguments bind : simpl never.
#[local] Arguments perform_map : simpl never.

(** ** Valid statuses *)
Lemma elem_of_ordinals n o : o ∈ ordinals n ↔ in_range n o = true.
Proof.
  unfold ordinals, in_range. rewrite andb_true_iff, !Z.leb_le. split.
  - intros (k & -> & Hk)%list_elem_of_fmap. apply elem_of_seq in Hk. lia.
  - intros H. apply list_elem_of_fmap. exists (Z.to_nat o). split; [lia|]. apply elem_of_seq. lia.
Qed.

Lemma length_ordinals n : length (ordinals n) = Z.to_nat n.
Proof. unfold ordinals. by rewrite length_map, length_seq. Qed.

Lemma repeats_NoDup {A K} `{EqDecision K} (key : A → K) (same : A → A → bool) l :
  (∀ x y, same x y = true ↔ key x = key y) → repeats same l = false ↔ NoDup (map key l).
Proof.
  intros Hsame. induction l as [|x l IH]; cbn; [split; [constructor|done]|].
  rewrite orb_false_iff, IH, list.NoDup_cons, any_false. split; intros [H ?]; (split; [|done]).
  - intros (y & Hk & Hy)%list_elem_of_fmap. specialize (H y Hy). by rewrite (proj2 (Hsame x y)) in H.
  - intros y Hy. destruct (same x y) eqn:E; [|done]. apply Hsame in E. destruct H. apply list_elem_of_fmap. by exists y.
Qed.

Section Valid.
Context (root : string) (t : Target).

Definition intent_kind (kind : string) (o : Z) : Prop :=
  (kind = "Path" ∨ kind = "PersistentVolume" ∨ kind = "PersistentVolumeClaim") ∧ o ∈ ordinals (tg_instances t) ∨
  (kind = "Namespace" ∨ kind = "Cluster") ∧ o = 0.

Definition intent_key (i : CreateIntent) : string * Z := (ic_kind i, ic_ordinal i).

Record local_valid (st : EntryStatus) : Prop := {
  lv_uid : es_logical_uid st = tg_uid t;
  lv_namespace id : es_namespace st = Some id → identified (tg_namespace t) id;
  lv_cluster id : es_cnpg_cluster st = Some id → identified (tg_cluster t) id;
  lv_credentials id : es_credentials st = Some id → identified (secret_name (tg_cluster t)) id;
  lv_provider x : es_provider st = Some x → pi_kind x = "local";
  lv_storage x : x ∈ es_storage st → storage_invalid root t x = false;
  lv_ordinals : NoDup (map si_ordinal (es_storage st));
  lv_length : (length (es_create_intents st) ≤ 12)%nat;
  lv_keys : NoDup (map intent_key (es_create_intents st));
  lv_kinds i : i ∈ es_create_intents st → intent_kind (ic_kind i) (ic_ordinal i);
}.

Lemma misnamed_false nm id : is_some_and (misnamed nm) id = false ↔ ∀ x, id = Some x → identified nm x.
Proof.
  destruct id as [x|]; cbn; [|done]. unfold misnamed, identified. rewrite orb_false_iff, negb_false_iff, bool_decide_eq_true,
    is_empty_false. split; [by intros H ? [= <-]|intros H; by apply H].
Qed.

Lemma intent_invalid_false i : intent_invalid t i = false ↔ intent_kind (ic_kind i) (ic_ordinal i).
Proof.
  unfold intent_invalid, intent_kind. rewrite elem_of_ordinals. destruct i as [kind nm o x]. cbn [ic_kind ic_ordinal].
  destruct (_ || _ || _) eqn:H1; [|destruct ((kind == "Namespace") || (kind == "Cluster")) eqn:H2].
  - rewrite !orb_true_iff, !bool_decide_eq_true in H1. rewrite negb_false_iff. split.
    + intros H. left. split; [|done]. by destruct H1 as [[->| ->]| ->]; auto.
    + by intros [[_ H]|[[->| ->] _]]; [|destruct H1 as [[?|?]|?]..].
  - rewrite !orb_true_iff, !bool_decide_eq_true in H2. rewrite negb_false_iff, bool_decide_eq_true. split; [by right|].
    by intros [[[->|[->| ->]] _]|[_ H]]; [destruct H2..|].
  - bool_hyp. split; [done|]. intros [[[?|[?|?]] _]|[[?|?] _]]; contradiction.
Qed.

Lemma same_ordinal_key x y : same_ordinal x y = true ↔ si_ordinal x = si_ordinal y.
Proof. unfold same_ordinal. by rewrite Z.eqb_eq. Qed.
Lemma same_intent_key x y : same_intent x y = true ↔ intent_key x = intent_key y.
Proof.
  unfold same_intent, intent_key. rewrite andb_true_iff, bool_decide_eq_true, Z.eqb_eq.
  split; [intros [-> ->]; done|by intros [= -> ->]].
Qed.

Lemma validate_state_valid st : validate_state root t st = Ok tt ↔ local_valid st.
Proof.
  unfold validate_state. transitivity (state_invalid root t st = false).
  { by destruct (state_invalid root t st). }
  unfold state_invalid. split.
  - intros H. repeat match goal with H : _ || _ = false |- _ => apply orb_false_iff in H as [? ?] end.
    repeat match goal with
    | H : is_some_and (misnamed _) _ = false |- _ => rewrite misnamed_false in H
    | H : any _ _ = false |- _ => rewrite any_false in H
    | H : repeats same_ordinal _ = false |- _ => apply (repeats_NoDup si_ordinal _ _ same_ordinal_key) in H
    | H : repeats same_intent _ = false |- _ => apply (repeats_NoDup intent_key _ _ same_intent_key) in H
    | H : (_ <? _)%nat = false |- _ => apply Nat.ltb_ge in H
    | H : (_ != _) = false |- _ => apply negb_false_iff, bool_decide_eq_true in H
    end.
    split; try done.
    + intros x Hx. rewrite Hx in *. cbn in *. by bool_hyp.
    + intros i Hi. apply intent_invalid_false. auto.
  - intros []. repeat (apply orb_false_iff; split); rewrite ?misnamed_false, ?any_false; try done.
    + by apply negb_false_iff, bool_decide_eq_true.
    + destruct (es_provider st) as [x|] eqn:Hx; [|done]. cbn. by rewrite (lv_provider0 x eq_refl).
    + by apply (repeats_NoDup si_ordinal _ _ same_ordinal_key).
    + by apply Nat.ltb_ge.
    + by apply (repeats_NoDup intent_key _ _ same_intent_key).
    + intros i Hi. by apply intent_invalid_false, lv_kinds0.
Qed.
End Valid.

Section Laws.
Context (root : string) (t : Target).

(** The CRD limits a database to three instances. *)
Definition local_ok (st : EntryStatus) : Prop := tg_instances t ≤ 3 → local_valid root t st.
Definition local_kinds (kind : string) (o : Z) : Prop := tg_instances t ≤ 3 → intent_kind t kind o.

Lemma update_first_elem {A} (f : A → bool) g l y :
  y ∈ update_first f g l → y ∈ l ∨ ∃ x, x ∈ l ∧ f x = true ∧ y = g x.
Proof.
  induction l as [|x l IH]; cbn; [by left|]. destruct (f x) eqn:Hf.
  - intros [->|H]%elem_of_cons; [right; exists x; split_and!; [by left|done|done]|left; by right].
  - intros [->|H]%elem_of_cons; [left; by left|]. destruct (IH H) as [?|(x' & ? & ?)]; [left; by right|].
    right. exists x'. split; [by right|done].
Qed.
Lemma update_first_map {A K} (key : A → K) f g l :
  (∀ x, key (g x) = key x) → map key (update_first f g l) = map key l.
Proof. intros Hk. induction l as [|x l IH]; cbn; [done|]. destruct (f x); cbn; [by rewrite Hk|by rewrite IH]. Qed.

Lemma valid_rows st l : local_valid root t st → (∀ x, x ∈ l → storage_invalid root t x = false) →
  NoDup (map si_ordinal l) → local_valid root t (set_storage l st).
Proof. intros [] H1 H2. by split. Qed.

Lemma valid_row st o : local_valid root t st → o ∈ ordinals (tg_instances t) → local_valid root t (storage SIZE o st).
Proof.
  intros V Ho. unfold storage. destruct (any _ _) eqn:Ha; [done|]. rewrite any_false in Ha. apply valid_rows; [done|..].
  - intros x [Hx| ->%list_elem_of_singleton]%elem_of_app; [by apply (lv_storage _ _ _ V)|].
    apply elem_of_ordinals in Ho. unfold storage_invalid. cbn. by rewrite Ho.
  - rewrite map_app. apply list.NoDup_app. split; [apply V|]. split; [|apply NoDup_singleton].
    intros k (x & -> & Hx)%list_elem_of_fmap Hin. apply list_elem_of_singleton in Hin. cbn in Hin.
    specialize (Ha x Hx). apply Z.eqb_neq in Ha. done.
Qed.

Lemma valid_edit st o g : local_valid root t st → o ∈ ordinals (tg_instances t) → (∀ x, si_ordinal (g x) = si_ordinal x) →
  (∀ x, si_ordinal x = o → storage_invalid root t x = false → storage_invalid root t (g x) = false) →
  local_valid root t (edit_storage SIZE o g st).
Proof.
  intros V Ho Hord Hg. apply (valid_row _ o) in V; [|done]. unfold edit_storage. apply valid_rows; [done|..].
  - intros y [Hy|(x & Hx & Ex%Z.eqb_eq & ->)]%update_first_elem; [by apply (lv_storage _ _ _ V)|].
    apply Hg; [done|]. by apply (lv_storage _ _ _ V).
  - rewrite update_first_map by done. apply V.
Qed.

Lemma storage_invalid_split x : storage_invalid root t x = false ↔
  in_range (tg_instances t) (si_ordinal x) = true ∧ si_requested_bytes x = SIZE ∧ si_disk x = None ∧ si_arm_id x = None ∧
  (∀ p, si_path x = Some p → path_eq p (database_path root (tg_catalog t) (tg_uid t) (si_ordinal x)) = true) ∧
  (∀ id, si_pv x = Some id → ri_name id = volume_name (tg_cluster t) (si_ordinal x)) ∧
  (∀ id, si_pvc x = Some id → ri_name id = claim_name (tg_cluster t) (si_ordinal x)).
Proof.
  unfold storage_invalid. rewrite !orb_false_iff, !is_some_and_false, !negb_false_iff, bool_decide_eq_true.
  setoid_rewrite negb_false_iff. setoid_rewrite bool_decide_eq_true.
  destruct (si_disk x), (si_arm_id x); cbn; naive_solver.
Qed.

Lemma put_intent_keys l kind nm o next l' : put_intent l kind nm o next = Ok l' →
  map intent_key l' = map intent_key l ∨ (map intent_key l' = map intent_key l ++ [(kind, o)] ∧ (kind, o) ∉ map intent_key l).
Proof.
  revert l'. induction l as [|i l IH]; intros l'; cbn.
  - intros [= <-]. right. split; [done|]. apply not_elem_of_nil.
  - destruct (for_intent kind o i) eqn:Hf; [case_bool_decide; [|done]; intros [= <-]; by left|].
    destruct (put_intent l kind nm o next) as [rest|]; [|done]. intros [= <-]. cbn.
    destruct (IH rest eq_refl) as [-> |[-> Hnot]]; [by left|]. right. split; [done|].
    intros [E|H]%elem_of_cons; [|done]. apply Bool.not_true_iff_false in Hf. apply Hf.
    unfold for_intent, intent_key in *. injection E as -> ->. by rewrite bool_decide_eq_true_2, Z.eqb_refl.
Qed.

(** There are at most eleven intents for three instances. *)
Definition all_keys : list (string * Z) :=
  [("Namespace", 0); ("Cluster", 0)] ++ map (pair "Path") (ordinals (tg_instances t))
  ++ map (pair "PersistentVolume") (ordinals (tg_instances t)) ++ map (pair "PersistentVolumeClaim") (ordinals (tg_instances t)).

Lemma intent_kind_key kind o : intent_kind t kind o → (kind, o) ∈ all_keys.
Proof.
  assert (Hmap : ∀ k : string, o ∈ ordinals (tg_instances t) → (k, o) ∈ map (@pair string Z k) (ordinals (tg_instances t))).
  { intros k Ho. apply list_elem_of_fmap. by exists o. }
  unfold all_keys. rewrite !elem_of_app. intros [[[->|[->| ->]] Ho]|[[->| ->] ->]]; auto; left; [left|right; left].
Qed.

Lemma intents_bounded (l : list CreateIntent) : tg_instances t ≤ 3 → NoDup (map intent_key l) →
  (∀ i, i ∈ l → intent_kind t (ic_kind i) (ic_ordinal i)) → (length l ≤ 12)%nat.
Proof.
  intros Hn Hd Hk. rewrite <-(length_map intent_key). trans (length all_keys).
  - apply submseteq_length, NoDup_submseteq; [done|]. intros k (i & -> & Hi)%list_elem_of_fmap. by apply intent_kind_key, Hk.
  - unfold all_keys. rewrite !length_app, !length_map, length_ordinals. cbn. lia.
Qed.

Lemma put_intent_elem l kind nm o next l' i : put_intent l kind nm o next = Ok l' → i ∈ l' →
  intent_key i = (kind, o) ∨ i ∈ l.
Proof.
  revert l'. induction l as [|j l IH]; intros l'; cbn.
  - intros [= <-] ->%list_elem_of_singleton. by left.
  - destruct (for_intent kind o j) eqn:Hf.
    + case_bool_decide; [|done]. intros [= <-] [->|Hi]%elem_of_cons; [left|right; by right].
      apply andb_true_iff in Hf as [->%bool_decide_eq_true ->%Z.eqb_eq]. done.
    + destruct (put_intent l kind nm o next) as [rest|]; [|done]. intros [= <-] [->|Hi]%elem_of_cons; [right; by left|].
      destruct (IH rest eq_refl Hi); [by left|right; by right].
Qed.

Lemma valid_intents st kind nm o next l' : tg_instances t ≤ 3 → local_valid root t st → intent_kind t kind o →
  put_intent (es_create_intents st) kind nm o next = Ok l' → local_valid root t (set_intents l' st).
Proof.
  intros Hn V Hk Hp.
  assert (Hkinds : ∀ i, i ∈ l' → intent_kind t (ic_kind i) (ic_ordinal i)).
  { intros i Hi. destruct (put_intent_elem _ _ _ _ _ _ _ Hp Hi) as [[= -> ->]|Hin]; [done|by apply (lv_kinds _ _ _ V)]. }
  assert (Hkeys : NoDup (map intent_key l')).
  { destruct (put_intent_keys _ _ _ _ _ _ Hp) as [-> |[-> Hnot]]; [apply V|].
    apply list.NoDup_app. split; [apply V|]. split; [|apply NoDup_singleton].
    intros k Hin ->%list_elem_of_singleton. done. }
  destruct V. split; try done. by apply intents_bounded.
Qed.

Lemma path_eq_refl p : path_eq p p = true.
Proof. unfold path_eq. by apply bool_decide_eq_true. Qed.

Lemma valid_path st o : local_ok st → (tg_instances t ≤ 3 → o ∈ ordinals (tg_instances t)) →
  local_ok (edit_storage SIZE o (set_path (Some (database_path root (tg_catalog t) (tg_uid t) o))) st).
Proof.
  intros V Ho Hn. apply valid_edit; [by apply V|by apply Ho|done|]. intros x <-. rewrite !storage_invalid_split. cbn.
  intros (? & ? & ? & ? & ? & ? & ?). split_and!; try done. intros p [= <-]. apply path_eq_refl.
Qed.

#[export] Instance local_laws : StatusLaws t SIZE local_kinds local_ok.
Proof.
  unfold local_ok, local_kinds. split.
  - intros st c p V Hn. destruct (V Hn). by split.
  - intros st g V Hn. destruct (V Hn). by split.
  - intros st q V Hn. destruct (V Hn). by split.
  - intros st l V Hn. destruct (V Hn). by split.
  - intros st f V Hn. destruct (V Hn). by split.
  - intros st id V Hid Hn. destruct (V Hn). split; try done. by intros ? [= <-].
  - intros st id V Hid Hn. destruct (V Hn). split; try done. by intros ? [= <-].
  - intros st id V Hid Hn. destruct (V Hn). split; try done. by intros ? [= <-].
  - intros st o V Ho Hn. by apply valid_row; [apply V|].
  - intros st o id V Ho [Hid _] Hn. apply valid_edit; [by apply V|done|done|]. intros x <-. rewrite !storage_invalid_split. cbn.
    intros (? & ? & ? & ? & ? & ? & ?). split_and!; try done. by intros ? [= <-].
  - intros st o id V Ho [Hid _] Hn. apply valid_edit; [by apply V|done|done|]. intros x <-. rewrite !storage_invalid_split. cbn.
    intros (? & ? & ? & ? & ? & ? & ?). split_and!; try done. by intros ? [= <-].
  - intros st i item v V Hi Hn. specialize (V Hn). apply valid_rows; [done|..].
    + intros x [->|Hx]%elem_of_updated; [|by apply (lv_storage _ _ _ V)].
      assert (storage_invalid root t item = false) as Hv by (apply (lv_storage _ _ _ V); by eapply list_elem_of_lookup_2).
      by rewrite storage_invalid_split in *.
    + change (NoDup (si_ordinal <$> <[i:=set_healthy v item]> (es_storage st))).
      rewrite list_fmap_insert, list_insert_id; [apply V|]. by rewrite list_lookup_fmap, Hi.
  - intros st l kind nm o next V Hk Hp Hn. by eapply valid_intents; [|apply V|apply Hk|].
  - intros _. right. auto.
  - intros _. right. auto.
  - intros o Ho _. left. auto.
Qed.
End Laws.

(** ** The contract *)
Section Steps.
Context (access : LocalAccess) (t : Target).
#[local] Notation root := (la_root access).
#[local] Notation u := (tg_uid t).
#[local] Notation cu := (tg_catalog t).

(** Everything of the database was seen gone, in this reconciliation, and the
    outcome of every creation is known. *)
Definition local_gone (h : trace Resp) : Prop :=
  workload_gone t h ∧
  (∀ o, o ∈ ordinals (tg_instances t) →
     replied h (PathInspect root cu u o) (Ok false) ∨ replied h (PathRemove root cu u o) (Ok tt)) ∧
  replied h (PathEntryAbsent root cu u) (Ok true) ∧
  ∃ c st, seen h c ∧ entry_status c u = Some st ∧ all_creates_resolved st = true.

(** A directory is created or completed only when its creation is recorded, and
    removed only when it is recorded and the workload was seen gone. *)
Definition local_other (creating : bool) (h : trace Resp) (op : Op) : Prop :=
  match op with
  | PathPrepare root' cu' u' o =>
      creating = true ∧ root' = root ∧ cu' = cu ∧ u' = u ∧ o ∈ ordinals (tg_instances t) ∧
      ∃ c st x, seen h c ∧ entry_status c u = Some st ∧ has_intent st "Path" (path_intent cu u o) o x ∧
        (x = Issued ∨ x = Observed)
  | PathRemove root' cu' u' o =>
      creating = false ∧ root' = root ∧ cu' = cu ∧ u' = u ∧ o ∈ ordinals (tg_instances t) ∧ workload_gone t h ∧
      replied h (PathInspect root cu u o) (Ok true) ∧
      ∃ c st, seen h c ∧ entry_status c u = Some st ∧ stored si_path o st = Some (database_path root cu u o)
  | _ => False
  end.

Lemma local_gone_app h g : local_gone h → local_gone (h ++ g).
Proof.
  intros (Hw & Hp & Ha & (c & st & Hc & ?)). split_and!.
  - by apply workload_gone_app.
  - intros o Ho. destruct (Hp o Ho); [left|right]; by apply replied_app_l.
  - by apply replied_app_l.
  - exists c, st. split; [by apply catalog_seen_app_l|done].
Qed.

#[local] Instance local_evidence : Evidence local_gone.
Proof. intros h g. apply local_gone_app. Qed.
#[local] Instance local_foreign : ForeignErrors invalidates.
Proof. by intros [| | |[]| | |]. Qed.
#[local] Existing Instance local_laws.

Context (sound : Prop).
#[local] Notation ok := (local_ok root t).
#[local] Notation grounded := (grounded t ok local_gone).
#[local] Notation synced := (synced t ok local_gone sound).
#[local] Notation deleting := (deleting t ok local_gone sound).
#[local] Notation op creating := (entry_op t creating ok local_gone (local_other creating) sound).
#[local] Notation err := (on_error t ok local_gone invalidates).

(** A file operation. *)
Lemma wp_path_op {A B} creating (o : Op) (conv : Resp o → result PathError A) (f : A → db B) h s
    (Q : B → trace Resp → Run → Prop) :
  (op creating) h o → grounded h s →
  (∀ (r : Resp o) g, g = [existT o r] → ∀ a, conv r = Ok a → wp (f a s) (h ++ g) (op creating) (outcome err Q)) →
  wp (db_bind (db_lift (bind (perform o) (λ r, Ret (map_err PathFailed (conv r))))) f s) h (op creating) (outcome err Q).
Proof.
  intros Ho Hg Hf. apply (wp_request_db _ _ o (λ r, map_err PathFailed (conv r))); [done|]. intros r g Eg.
  destruct (conv r) as [a|e] eqn:E; cbn [map_err]; [by eapply Hf|]. intros _. by law grounded_app.
Qed.

Lemma wp_inspect {B} creating o (f : bool → db B) h s (Q : B → trace Resp → Run → Prop) :
  grounded h s →
  (∀ b g, g = [existT (PathInspect root cu u o) (Ok b)] → wp (f b s) (h ++ g) (op creating) (outcome err Q)) →
  wp (db_bind (inspect access cu u o) f s) h (op creating) (outcome err Q).
Proof.
  intros Hg Hf. refine (wp_path_op creating (PathInspect root cu u o) (λ r, r) f h s Q _ Hg _); [by left|].
  intros r g Eg a ->. by apply Hf.
Qed.

Definition recorded_path (o : Z) (h : trace Resp) (s : Run) : Prop :=
  synced h s ∧ ∃ st x, entry_status (run_catalog s) u = Some st ∧
    has_intent st "Path" (path_intent cu u o) o x ∧ (x = Issued ∨ x = Observed).
Lemma recorded_path_app o h g s : recorded_path o h s → recorded_path o (h ++ g) s.
Proof. intros [H ?]. split; [by law synced_app|done]. Qed.

Lemma triple_prepare o : o ∈ ordinals (tg_instances t) →
  triple (op true) err (recorded_path o) (prepare access cu u o)
    (λ p h s, synced h s ∧ p = database_path root cu u o).
Proof.
  intros Ho h s [Hs (st & x & Hst & Hi & Hx)]. unfold prepare.
  refine (wp_path_op true (PathPrepare root cu u o) (λ r, r) _ h s _ _ _ _).
  - right. split_and!; try done. exists (run_catalog s), st, x. split_and!; try done. apply Hs.
  - apply Hs.
  - intros r g _ a _. db_step. split; [by law synced_app|done].
Qed.

Lemma path_kind o : o ∈ ordinals (tg_instances t) → local_kinds t "Path" o.
Proof. intros Ho _. left. auto. Qed.

Lemma triple_path o : o ∈ ordinals (tg_instances t) →
  triple (op true) err synced (path access u o)
    (λ r h s, synced h s ∧ ∀ p, r = Some p → p = database_path root cu u o).
Proof.
  intros Ho h s Hs. unfold path, catalog_uid_of. do 2 db_step. unfold db_pure at 1.
  assert (uid (tdc_meta (run_catalog s)) = Some cu) as -> by apply Hs. apply wp_return. cbn [outcome ok_or]. db_step.
  apply wp_pure_db; [intros e _ _; apply Hs|]. intros previous Hp.
  apply wp_inspect; [apply Hs|]. intros there g _. assert (Hs1 : synced (h ++ g) s) by (by law synced_app). clear Hs. rename Hs1 into Hs.
  destruct there.
  - destruct (issued_or_observed previous); cbn [negb]; [|db_step; intros _; apply Hs].
    apply (wp_call _ _ _ _ _ _ (λ h0 s0, synced h0 s0 ∧ s0 = s) (λ _, recorded_path o)); [|done|].
    + intros h1 s1 [H1 ->]. case_bool_decide as Hob; cbn [negb].
      * db_step. split; [done|]. destruct H1 as [_ (st & Hst & Hi)]. rewrite Hob in Hp. apply intent_has in Hp as (i & Hin & ?).
        exists st, Observed. split_and!; [done| |by right]. exists i. by rewrite Hi.
      * eapply wp_tail; [by law triple_record; apply path_kind|apply H1|]. intros [] g1 s2 [H2 Hi].
        split; [by apply saved_synced|]. exists (run_state s2), Observed. split_and!; [apply H2|done|by right].
    + intros [] g1 s1 H1. eapply wp_call; [by apply triple_prepare|done|]. intros p g2 s2 [H2 ->]. db_step.
      split; [done|]. by intros ? [= <-].
  - destruct (may_issue previous); cbn [negb]; [|by db_step].
    eapply wp_call; [by law triple_announce; apply path_kind|by split|].
    intros [] g1 s1 [H1 (st & Hst & Hi)]. eapply wp_call; [law (triple_verify_run (recorded_path o))| |].
    { intros h2 g2 s2. apply recorded_path_app. }
    { split; [done|]. exists st, Issued. auto. }
    intros [] g2 s2 H2. eapply wp_call; [by apply triple_prepare|done|].
    intros p g3 s3 [H3 ->]. eapply wp_call; [by law triple_record; apply path_kind|apply H3|].
    intros [] g4 s4 [H4 _]. db_step. split; [by apply saved_synced|]. by intros ? [= <-].
Qed.

(** *** Creation *)
Lemma volume_Ok c o path d : volume c u (tg_namespace t) (tg_cluster t) o access path = Ok d →
  name_any (dyn_meta d) = volume_name (tg_cluster t) o ∧ ∃ l, ownership_labels c u = Ok l ∧ labels (dyn_meta d) = Some l.
Proof.
  unfold volume. destruct (path_strip_prefix _ _); [|done]. cbn. destruct (ownership_labels c u) as [l|]; [|done].
  intros [= <-]. split; [done|by exists l].
Qed.
Lemma cluster_for_Ok c d : cluster_for access t c = Ok d →
  name_any (dyn_meta d) = tg_cluster t ∧ ∃ l, ownership_labels c u = Ok l ∧ labels (dyn_meta d) = Some l.
Proof.
  unfold cluster_for, cluster_object. destruct (ownership_labels c u) as [l|]; [|done]. intros [= <-]. split; [done|by exists l].
Qed.
Lemma claim_for_Ok : each_named (claim_name (tg_cluster t)) (claim_for t).
Proof. intros c o d. unfold claim_for, claim. destruct (ownership_labels c u) as [l|]; [|done]. by intros [= <-]. Qed.

Lemma steps_ensure_path o changed : o ∈ ordinals (tg_instances t) →
  steps (op true) err synced (ensure_path access t o changed) grounded (λ _, synced).
Proof.
  intros Ho h s Hs. unfold ensure_path. eapply wp_call; [by apply triple_path|done|].
  intros [p|] g s1 [H1 Hp]; [rewrite (Hp p eq_refl)|law (steps_wait _ synced); [by intros ? ? [[]]|exact H1]].
  db_step. assert (synced (h ++ g) {| run_catalog := run_catalog s1; run_state := storage SIZE o (run_state s1) |}) as H2
    by (by law synced_row).
  eapply wp_call; [law (triple_bind_once _ _ _ synced synced)|exact H2|].
  - by intros ? ? [[]].
  - done.
  - intros h3 s3 H3 _. law synced_edit_storage; [done|]. apply valid_path; [apply H3|done].
  - intros now g2 s3 H3. by db_step.
Qed.

Lemma steps_ensure_paths : steps (op true) err synced (ensure_paths access t) grounded (λ _, synced).
Proof.
  eapply steps_bind; [apply steps_loop; intros o changed Ho; by apply steps_ensure_path|].
  intros changed h s Hs. eapply steps_tail; [law (steps_save_changed synced); by intros ? ? []|done|by intros ? ? ? []].
Qed.

Lemma triple_volume_for o : o ∈ ordinals (tg_instances t) →
  triple (op true) err synced (volume_for access t o)
    (λ d h s, synced h s ∧ labelled t h d ∧ name_any (dyn_meta d) = volume_name (tg_cluster t) o).
Proof.
  intros Ho h s Hs. unfold volume_for. db_step.
  assert (synced h {| run_catalog := run_catalog s; run_state := storage SIZE o (run_state s) |}) as H1 by (by law synced_row).
  db_step. apply wp_pure_db; [intros e _ _; apply H1|]. intros path _. db_step. unfold db_pure. apply wp_return.
  destruct (volume _ _ _ _ _ _ _) as [d|e] eqn:Hd; [|intros _; apply H1]. apply volume_Ok in Hd as (Hn & l & Hl & Hlab).
  split_and!; [done| |done]. exists (run_catalog s), l. split_and!; [apply Hs|done..].
Qed.

Lemma identify_secret_ok id secret sid st : identify_secret t id secret = Ok sid → ok st → ok (set_credentials (Some sid) st).
Proof.
  unfold identify_secret. destruct (_ || _) eqn:Hb; [done|]. bool_hyp.
  match goal with H : uid _ = Some _ |- _ => rewrite H end. intros [= <-] V. by apply sl_credentials.
Qed.

Lemma triple_ensure replay : triple (op true) err synced (ensure access t replay) (λ _, grounded).
Proof.
  apply triple_step_end.
  eapply steps_bind; [by law steps_ensure_namespace|intros []].
  eapply steps_bind; [apply steps_ensure_paths|intros []].
  eapply steps_bind; [law steps_ensure_volumes; [done|apply triple_volume_for]|intros []].
  eapply steps_bind; [law steps_ensure_cluster; [done|apply cluster_for_Ok]|intros id].
  eapply steps_bind; [law steps_ensure_claims; apply claim_for_Ok|intros []].
  intros h s Hs. eapply wp_call; [law triple_observe_cluster|exact Hs|]. intros live g1 s1 H1.
  eapply wp_call; [law triple_observe_credentials; apply identify_secret_ok|exact H1|]. intros [] g2 s2 H2.
  eapply wp_call; [law triple_observe_instances|exact H2|]. intros [] g3 s3 H3. db_step.
  eapply wp_call; [law triple_observe_storage|exact H3|]. intros [] g4 s4 H4.
  eapply wp_call; [law triple_publish|exact H4|]. intros p g5 s5 H5. by db_step.
Qed.

(** *** Deletion *)
Lemma row_present st o : is_some (stored si_path o (storage SIZE o st)) = true → storage SIZE o st = st.
Proof.
  unfold storage. destruct (any _ _) eqn:Ha; [done|]. unfold stored, find_storage. cbn.
  rewrite find_first_app. destruct (find_first _ (es_storage st)) as [x|] eqn:Hx.
  - apply find_first_Some in Hx as [Hx Ho]. rewrite any_false in Ha. by rewrite (Ha x Hx) in Ho.
  - cbn. by rewrite Z.eqb_refl.
Qed.

Lemma steps_adopt_path o : (tg_instances t ≤ 3 → o ∈ ordinals (tg_instances t)) →
  steps (op false) err deleting (adopt_path access t cu o tt) grounded (λ _, deleting).
Proof.
  intros Ho h s Hs. unfold adopt_path. apply wp_inspect; [by apply (deleting_grounded h s Hs)|]. intros there g _.
  assert (deleting (h ++ g) s) as H1 by (by law deleting_app). destruct there; cbn [negb]; [|by db_step]. do 2 db_step.
  destruct (is_some _) eqn:Hp.
  { db_step. rewrite (row_present _ _ Hp). by destruct s. }
  db_step. set (st' := edit_storage _ _ _ _).
  assert (settled t ok local_gone sound (h ++ g) {| run_catalog := run_catalog s; run_state := st' |}) as H2.
  { assert (ok (storage SIZE o (run_state s))) as V.
    { intros Hn. apply valid_row; [|by apply Ho]. by apply (gr_valid _ _ (deleting_grounded _ _ H1)). }
    assert (ok st') as V' by by apply valid_path.
    destruct (edit_storage_shape (size:=SIZE) o (set_path (Some (database_path root cu u o))) (storage SIZE o (run_state s))) as [l El].
    subst st'. rewrite El in *. destruct (storage_shape (size:=SIZE) o (run_state s)) as [l' El']. rewrite El' in *.
    split; [law grounded_edit; [apply (deleting_grounded _ _ H1)|done..]|]. intros _ q. cbn. destruct H1 as [_ ->]. done. }
  eapply wp_call; [law triple_record|exact H2|]; [intros Hn; left; auto|]. intros [] g2 s2 [[[H3 _] _] _]. by db_step.
Qed.

Lemma triple_catalog_uid creating P : (∀ h s, P h s → grounded h s) →
  triple (op creating) err P catalog_uid_of (λ c h s, P h s ∧ c = cu).
Proof.
  intros HP h s H. unfold catalog_uid_of. db_step. unfold db_pure. apply wp_return.
  by rewrite (gr_catalog _ _ (HP h s H)).
Qed.

Lemma path_ordinals_range h s o : grounded h s → o ∈ path_ordinals (run_state s) →
  tg_instances t ≤ 3 → o ∈ ordinals (tg_instances t).
Proof.
  intros Hg (i & -> & [Hk%bool_decide_eq_true Hi]%elem_of_filter_list)%list_elem_of_fmap Hn.
  destruct (lv_kinds _ _ _ (gr_valid _ _ Hg Hn) i Hi) as [[_ Ho]|[[E|E] _]]; [done|by rewrite Hk in E..].
Qed.

Definition path_gone (h : trace Resp) (o : Z) : Prop :=
  replied h (PathInspect root cu u o) (Ok false) ∨ replied h (PathRemove root cu u o) (Ok tt).
Definition paths_gone (l : list Z) (h : trace Resp) : Prop := workload_gone t h ∧ ∀ o, o ∈ l → path_gone h o.

Lemma paths_gone_app l h g : paths_gone l h → paths_gone l (h ++ g).
Proof.
  intros [Hw Hp]. split; [by apply workload_gone_app|]. intros o Ho.
  destruct (Hp o Ho); [left|right]; by apply replied_app_l.
Qed.
Lemma paths_gone_snoc l h o : paths_gone l h → path_gone h o → paths_gone (l ++ [o]) h.
Proof. intros [Hw Hp] Ho. split; [done|]. by intros o' [H| ->%list_elem_of_singleton]%elem_of_app; [apply Hp|]. Qed.

Lemma steps_remove_path l o : o ∈ ordinals (tg_instances t) →
  steps (op false) err (knowing t ok local_gone sound (paths_gone l)) (remove_path access t cu o tt) grounded
    (λ _, knowing t ok local_gone sound (paths_gone (l ++ [o]))).
Proof.
  intros Ho h s [Hs Hk]. unfold remove_path. apply wp_inspect; [by apply (deleting_grounded h s Hs)|]. intros there g Eg.
  assert (deleting (h ++ g) s) as H1 by (by law deleting_app). apply (paths_gone_app _ _ g) in Hk.
  destruct there; cbn [negb].
  2:{ db_step. split; [done|]. apply paths_gone_snoc; [done|]. left. subst g. apply replied_last. }
  db_step. case_bool_decide as Hp; cbn [negb]; [|db_step; intros _; apply (deleting_grounded _ _ H1)].
  eapply wp_call; [law (triple_verify_run (λ h0 s0, deleting h0 s0 ∧ paths_gone l h0 ∧ s0 = s ∧
    replied h0 (PathInspect root cu u o) (Ok true)))| |].
  - intros h1 g1 s1 (? & ? & ? & ?). split_and!; [by law deleting_app|by apply paths_gone_app|done|by apply replied_app_l].
  - split_and!; [done..|]. subst g. apply replied_last.
  - intros [] g1 s1 (H2 & Hk2 & -> & Hrep).
    refine (wp_path_op false (PathRemove root cu u o) (λ r, r) _ _ s _ _ (deleting_grounded _ _ H2) _).
    + right. split_and!; try done; [by destruct Hk2|]. exists (run_catalog s), (run_state s).
      split_and!; [apply H2|apply H2|done].
    + intros r g2 Eg2 [] Hr. db_step. split; [by law deleting_app|]. apply paths_gone_snoc; [by apply paths_gone_app|].
      right. subst r g2. apply replied_last.
Qed.

Lemma steps_remove_paths :
  steps (op false) err (knowing t ok local_gone sound (workload_gone t))
    (each (ordinals (tg_instances t)) tt (remove_path access t cu)) grounded
    (λ _, knowing t ok local_gone sound (paths_gone (ordinals (tg_instances t)))).
Proof.
  enough (H : steps (op false) err (knowing t ok local_gone sound (paths_gone []))
    (each (ordinals (tg_instances t)) tt (remove_path access t cu)) grounded
    (λ _, knowing t ok local_gone sound (paths_gone (ordinals (tg_instances t))))).
  { intros h s [Hs Hw]. apply H. split; [done|]. split; [done|]. by intros o ?%not_elem_of_nil. }
  apply (steps_each _ _ _ _ (λ done_ _, knowing t ok local_gone sound (paths_gone done_))).
  intros done_ o rest [] Hl. apply steps_remove_path. rewrite Hl. apply elem_of_app. right. by left.
Qed.

Lemma retired_volume_Ok : each_named (volume_name (tg_cluster t)) (retired_volume access t cu).
Proof. by intros c o d [Hn _]%volume_Ok. Qed.

Lemma retired_secret_Ok st secret id : retired_secret t st secret = Ok id →
  uid (dyn_meta secret) = Some (ri_uid id) ∧
  (∀ x, es_credentials st = Some x → ri_uid x = ri_uid id) ∧ (ok st → ok (set_credentials (Some id) st)).
Proof.
  unfold retired_secret. destruct (_ || _) eqn:Hb; [done|]. bool_hyp.
  match goal with H : uid _ = Some _ |- _ => rewrite H in * end. intros [= <-]. cbn in *. split_and!; [done..| |].
  - intros y Hy. rewrite Hy in *. cbn in *. by bool_hyp.
  - intros V. by apply sl_credentials.
Qed.

Lemma triple_conclude : triple (op false) err
  (λ h s, deleting h s ∧ paths_gone (ordinals (tg_instances t)) h ∧ replied h (PathEntryAbsent root cu u) (Ok true) ∧
     all_creates_resolved (run_state s) = true)
  (conclude t) (λ _, grounded).
Proof.
  intros h s (Hs & [Hw Hp] & Ha & Hr). unfold conclude. db_step.
  assert (local_gone h) as Hgone.
  { split_and!; [done..|]. exists (run_catalog s), (run_state s). split_and!; [apply Hs|apply Hs|done]. }
  law triple_settle; [done|]. split; [|done]. destruct Hs as [[[Hg _] _] Hq]. split; [|by intros _ q; cbn; rewrite Hq].
  destruct Hg. split; [done|done|done| |]; [by apply sl_finalization|by right].
Qed.

Lemma steps_retire_database l : (∀ o, o ∈ l → tg_instances t ≤ 3 → o ∈ ordinals (tg_instances t)) →
  steps (op false) err deleting (retire_database access t cu l) grounded (λ _, grounded).
Proof.
  intros Hord. unfold retire_database.
  eapply steps_bind; [apply steps_loop; intros o [] Ho; by apply steps_adopt_path, Hord|intros []].
  eapply steps_bind; [law steps_retire_cluster; [done|done|by intros c d [Hn _]%cluster_for_Ok]|intros []].
  eapply steps_bind; [law steps_retire_secret; [done|apply retired_secret_Ok]|intros waiting].
  eapply steps_bind; [law steps_retire_claims; [done|done|apply claim_for_Ok]|intros []].
  eapply steps_bind; [law steps_retire_volumes; [done|done|apply retired_volume_Ok]|intros []].
  eapply steps_bind; [by law steps_retire_namespace|intros []].
  intros h s Hs. eapply wp_call; [apply (triple_catalog_uid false (knowing t ok local_gone sound (workload_gone t)));
    apply knowing_grounded|done|].
  intros ? g1 s1 [H1 ->]. eapply wp_step_call; [apply steps_remove_paths|done|]. intros [] g2 s2 [H2 Hp].
  refine (wp_path_op false (PathEntryAbsent root cu u) (λ r, r) _ _ s2 _ _ (deleting_grounded _ _ H2) _); [by left|].
  intros r g3 Eg [] Hr; cbn [negb]; [|db_step; intros _; by law grounded_app; apply (deleting_grounded _ _ H2)].
  db_step. destruct (all_creates_resolved _) eqn:Hc; cbn [negb];
    [|db_step; by law grounded_app; apply (deleting_grounded _ _ H2)].
  eapply wp_call; [apply triple_conclude| |intros p g4 s4 H4; by db_step].
  split_and!; [by law deleting_app|by apply paths_gone_app| |done]. subst r g3. apply replied_last.
Qed.

Lemma triple_finalize : triple (op false) err grounded (finalize access t) (λ _, grounded).
Proof.
  apply triple_step_end. eapply steps_bind; [by law steps_announce_deletion|intros []].
  intros h s Hs. eapply wp_call; [apply (triple_catalog_uid false deleting); apply deleting_grounded|done|].
  intros ? g1 s1 [H1 ->]. db_step. apply steps_retire_database; [|done].
  intros o. apply (path_ordinals_range (h ++ g1)). apply (deleting_grounded _ _ H1).
Qed.
End Steps.

(** ** The provider *)
Section Provider.
Context `{SO : Sha256Ops, NO : Ipv4NetOps, SJ : SpecJson, FJ : FoundationJson}.

(** The root is the mount point of the Tenant's volume, which was read and
    validated. *)
Definition local_loaded (c : TenantDatabaseCatalog) (h : trace Resp) (access : LocalAccess) : Prop :=
  ∃ prefix volume expected,
    let nm := prefix +:+ "-" +:+ tds_tenant_name (tdc_spec c) +:+ "-storage" in
    replied h (InspectVolume nm) (Ok (Some volume)) ∧ validate_volume volume nm expected = Ok tt ∧
    expected !! TENANT_UID_ANNOTATION = Some (tds_tenant_uid (tdc_spec c)) ∧ la_root access = dv_mountpoint volume.

Definition local_contract : Contract (Access := LocalAccess) := {|
  ct_loaded := local_loaded;
  ct_valid := λ access t, local_ok (la_root access) t;
  ct_gone := local_gone;
  ct_kinds := λ access t, local_kinds t;
  ct_other := local_other |}.

Lemma locate_root foundation nm volume access : locate foundation nm volume = Ok access → la_root access = dv_mountpoint volume.
Proof.
  unfold locate. destruct (_ || _); [done|]. destruct (_ || _); [done|]. destruct (ok_or _ _); [|done]. cbn.
  destruct (canonical_exact_reference _); [|done]. by intros [= <-].
Qed.

Lemma check_tenant_uid c tenant status capability tenant_uid ns live_ns :
  check_tenant c tenant status capability tenant_uid ns live_ns = Ok tt → tenant_uid = tds_tenant_uid (tdc_spec c).
Proof.
  unfold check_tenant. destruct (_ || _) eqn:H; [done|]. intros _.
  repeat apply orb_false_iff in H as [H _]. by apply negb_false_iff, bool_decide_eq_true in H.
Qed.

Lemma wp_load c h : wp (TenantAccess.load c) h (λ _, reading) (λ h' r, ∀ access, r = Ok access → local_loaded c h' access).
Proof.
  unfold TenantAccess.load, api. request; [done|]. destruct reply as [tenant|]; cbn [map_err]; [|done].
  destruct (required _) as [tenant_uid|]; [|done]. do 3 (destruct (ok_or _ _); [|done]).
  request; [done|]. destruct reply as [live_ns|]; cbn [map_err]; [|done].
  destruct (check_tenant _ _ _ _ _ _ _) as [[]|] eqn:Huid; [|done]. apply check_tenant_uid in Huid.
  request; [done|]. destruct reply as [map|]; cbn [map_err]; [|done].
  destruct (load_foundation _ _) as [[[foundation hash] slot]|]; [|done].
  request; [done|]. destruct reply as [cluster|]; cbn [map_err]; [|done].
  destruct (map_err _ _); [|done]. destruct (negb _); [done|].
  request; [done|]. destruct reply as [plane|]; cbn [map_err]; [|done].
  destruct (map_err _ _); [|done]. destruct (negb _); [done|].
  request; [done|]. destruct reply as [[]|]; cbn [map_err]; [|done].
  request; [done|]. destruct reply as [[]|]; cbn [map_err]; [|done].
  request; [done|]. destruct reply as [[volume|]|]; cbn [map_err ok_or]; [|done..].
  destruct (validate_volume _ _ _) as [[]|] eqn:Hvol; [|done]. apply wp_return. intros access Hroot%locate_root.
  eexists _, volume, _. split_and!; [subst; apply replied_last|exact Hvol| |done].
  unfold storage_labels. rewrite !lookup_insert_ne by done. rewrite lookup_insert_eq. by f_equal.
Qed.

#[export] Instance local_safe : SafeProvider local_provider local_contract.
Proof.
  split.
  - intros c b h. exact (wp_load c h).
  - intros c h g access (prefix & volume & expected & Hr & ?). exists prefix, volume, expected. split; [by apply replied_app_l|done].
  - intros access t. apply local_evidence.
  - apply local_foreign.
  - intros access t creating h o. by destruct o.
  - intros access t. apply local_laws.
  - intros access t st H%validate_state_valid. split; [by intros _|apply H].
  - intros access u g. by split.
  - intros access replay t sound. exact (triple_ensure access t sound replay).
  - intros access t sound. exact (triple_finalize access t sound).
Qed.
End Provider.

(** ** Claims *)
Section Claims.
Context `{SO : Sha256Ops, NO : Ipv4NetOps, SJ : SpecJson, FJ : FoundationJson}.

(** C17. Whatever the API server, the Tenant cluster and the file system answer,
    every request of a reconciliation of local databases that changes anything
    belongs to one entry of a catalog it read, with the names that the UIDs
    give it and the Tenant's own volume.  An object is created only with its
    owner's labels and after the catalog records the creation as issued.  It is
    deleted only if it was read, by the UID that the catalog records, and only
    in order: the cluster, then the secret and the claims, then the volumes,
    then the namespace, each after the ones before were seen gone.  A directory
    is made only with a recorded intent, and removed only if the catalog records
    its path and the whole workload was seen gone.  A status says that a
    database is gone, and an entry is removed, only on that evidence. *)
Theorem local_requests_guarded env observed replay :
  let '(h, r) := run env (LocalDatabase.reconcile observed replay) [] in issued (provider_op local_contract) [] h.
Proof.
  pose proof (wp_run env _ _ _ _ (wp_provider_reconcile local_provider local_contract observed replay [])) as H.
  unfold LocalDatabase.reconcile. destruct (run _ _ _). apply H.
Qed.
End Claims.
