(* ===== verification/AzureSafety.v ===== *)
(** * Safety of the databases of Azure Tenants

    The steps of [AzureDatabase] keep the contract of [ProviderSafety]: disks
    are created and deleted like every other object of a database, a disk is
    deleted in Azure only when it is provably the recorded one, and a database
    counts as gone only when the resource manager says of each of its disks
    that it does not exist. *)

From S2P Require Import Prelude RustStd Externals Kube Errors Api Foundation Effects Readiness DatabaseApi CatalogOps.
From S2P Require Import DatabaseStatus DatabaseResources DatabaseRun DatabaseSteps DatabaseProvider AzureConfig AzureRuntime AzureDatabase.
From S2P Require Import CatalogWriters DatabaseSafety ProviderSafety.

#[local] Arguments wp : simpl never.
#[local] Arguments bind : simpl never.
#[local] Arguments perform_map : simpl never.

(** ** Valid statuses *)
Section Valid.
Context (access : AzureAccess) (t : Target).

(** The status names its own objects, of the Tenant's storage namespace. *)
Record azure_valid (st : EntryStatus) : Prop := {
  av_provider : is_none_or (provider_invalid access) (es_provider st) = false;
  av_namespace id : es_namespace st = Some id → identified (tg_namespace t) id;
  av_cluster id : es_cnpg_cluster st = Some id → identified (tg_cluster t) id;
}.

Lemma misnamed_identified nm id x : is_some_and (LocalDatabase.misnamed nm) id = false → id = Some x → identified nm x.
Proof. intros H ->. cbn in H. unfold LocalDatabase.misnamed in H. by bool_hyp. Qed.

Lemma azure_validate_valid st : azure_validate_state access t st = Ok tt → azure_valid st ∧ es_logical_uid st = tg_uid t.
Proof.
  unfold azure_validate_state. destruct (azure_state_invalid access t st) eqn:H; [done|]. intros _.
  unfold azure_state_invalid in H.
  repeat match goal with H : _ || _ = false |- _ => apply orb_false_iff in H as [? ?] end.
  split; [split|]; [done|intros id; by apply misnamed_identified..|].
  match goal with H : (es_logical_uid _ != _) = false |- _ => apply negb_false_iff, bool_decide_eq_true in H end. done.
Qed.

(** Creations of any kind are recorded. *)
Definition azure_kinds (kind : string) (o : Z) : Prop := True.

Lemma azure_laws size : StatusLaws t size azure_kinds azure_valid.
Proof.
  assert (Hrow : ∀ st l, azure_valid st → azure_valid (set_storage l st)) by (intros st l []; by split).
  assert (Hadd : ∀ st o, azure_valid st → azure_valid (storage size o st)).
  { intros st o V. unfold storage. destruct (any _ _); [done|by apply Hrow]. }
  split; try done; try (intros st; intros; by destruct H; split).
  - intros st id [] Hid. split; [done| |done]. by intros ? [= <-].
  - intros st id [] Hid. split; [done|done|]. by intros ? [= <-].
  - intros st o V _. by apply Hadd.
  - intros st o id V _ _. by apply Hrow, Hadd.
  - intros st o id V _ _. by apply Hrow, Hadd.
Qed.
End Valid.

(** ** The resource manager *)
Section Requests.
Context (Pre : trace Resp → Op → Prop) (Hreading : ∀ h o, reading o → Pre h o).

Lemma wp_arm_token arm h : wp (arm_token arm) h Pre (λ _ r, errs_benign r).
Proof.
  unfold arm_token. request; [by apply Hreading|]. destruct reply as [assertion|]; [|done]. cbn [ok_or].
  destruct (_ || _); [done|]. request; [by apply Hreading|]. destruct reply as [response|]; [|done]. cbn [ok_or].
  destruct (negb _); [done|]. destruct (hr_json response); [|done]. apply wp_return. by destruct (filter_non_empty _).
Qed.

Lemma arm_outcome_benign delete r : errs_benign (arm_outcome delete r).
Proof. unfold arm_outcome. destruct r as [r|]; [|done]. repeat case_match; done. Qed.

(** What a reply about a disk shows. *)
Definition arm_replied (h : trace Resp) (arm : Arm) (id : string) (actual : option Value) : Prop :=
  ∃ token response, replied h (ArmSend false (arm_url arm id) token) (Some response) ∧
    match actual with
    | None => hr_status response = 404
    | Some v => hr_status response = 200 ∧ hr_json response = Some v
    end.

Lemma arm_outcome_Ok r actual : arm_outcome false r = Ok actual →
  ∃ response, r = Some response ∧ match actual with
                                  | None => hr_status response = 404
                                  | Some v => hr_status response = 200 ∧ hr_json response = Some v
                                  end.
Proof.
  unfold arm_outcome. destruct r as [r|]; [|done]. rewrite !andb_true_r. intros H. exists r. split; [done|].
  destruct (hr_status r =? 404) eqn:E4; [injection H as <-; by apply Z.eqb_eq|].
  destruct (hr_status r =? 200) eqn:E2; [|done]. destruct (hr_json r); [|done]. injection H as <-. by apply Z.eqb_eq in E2.
Qed.

Lemma wp_arm_read arm id h : wp (arm_request arm id false) h Pre
  (λ h' r, errs_benign r ∧ ∀ actual, r = Ok actual → arm_replied h' arm id actual).
Proof.
  unfold arm_request. apply wp_bind. eapply wp_post; [apply wp_arm_token|]. intros h' [token|e] He; [|by apply wp_return].
  unfold request_with_token. request; [by apply Hreading|]. apply wp_return. split; [apply arm_outcome_benign|].
  intros actual (response & -> & Hr)%arm_outcome_Ok. exists token, response. split; [|done]. subst h0. apply replied_last.
Qed.

Lemma wp_arm_delete arm id h : (∀ g token, Pre (h ++ g) (ArmSend true (arm_url arm id) token)) →
  wp (arm_request arm id true) h Pre (λ _ r, errs_benign r).
Proof.
  intros Hd. unfold arm_request. apply wp_bind. eapply wp_post; [apply wp_extends, wp_arm_token|].
  intros h' [token|e] [He [g ->]]; [|by apply wp_return].
  unfold request_with_token. request; [apply Hd|]. apply wp_return, arm_outcome_benign.
Qed.

Lemma wp_observe_runtime h :
  (∀ h', replied h' (GetStorageClass AZURE_STORAGE_CLASS) (Ok None) → Pre h' (CreateStorageClass expected_class)) →
  wp observe_runtime h Pre (λ _ _, True).
Proof.
  intros Hclass. assert (Hw : ∀ a b k c i h0, wp (workload a b k c i) h0 Pre (λ _ _, True)).
  { intros. unfold workload. request; [by apply Hreading|]. by destruct reply. }
  assert (Hd : ∀ h0, wp observe_disk h0 Pre (λ _ _, True)).
  { intros h0. unfold observe_disk. request; [by apply Hreading|]. destruct reply as [found|]; [|done].
    destruct (is_none_or _ _); [done|]. apply wp_bind. unfold ensure_class. request; [by apply Hreading|].
    destruct reply as [[class|]|]; [by destruct (valid_class class)| |done].
    request; [apply Hclass; subst h2; apply replied_last|]. by destruct reply. }
  unfold observe_runtime. do 3 (apply wp_bind; eapply wp_post; [apply Hw|]; intros ? ? _).
  apply wp_bind. apply (wp_post _ _ _ (λ _ _, True)).
  - destruct a0 as [[]|], a1 as [[]|]; done.
  - intros ? ? _. destruct a as [[]|]; done.
Qed.
End Requests.

(** ** The contract *)
Section Steps.
Context (access : AzureAccess) (t : Target).
#[local] Notation u := (tg_uid t).
#[local] Notation disks := (DISKS (aa_storage_namespace access)).
#[local] Notation name_of := (disk_name (tg_cluster t)).
#[local] Notation arm_of := (expected_arm access t).

(** The resource manager says that a disk does not exist. *)
Definition arm_absent (h : trace Resp) (o : Z) : Prop :=
  ∃ arm, aa_arm access = Some arm ∧ arm_replied h arm (arm_of o) None.
(** It returned a disk that is the one of this database. *)
Definition arm_ours (h : trace Resp) (o : Z) : Prop :=
  ∃ arm actual c expected_tags, aa_arm access = Some arm ∧ arm_replied h arm (arm_of o) (Some actual) ∧
    seen h c ∧ tags c u = Ok expected_tags ∧ arm_disk actual (arm_of o) expected_tags (aa_location access) = Ok tt.

(** The objects of the recorded disks were seen gone. *)
Definition disks_gone (h : trace Resp) (st : EntryStatus) : Prop :=
  ∀ o, o ∈ ordinals (tg_instances t) → is_some (find_storage st o) = true → absent h disks (name_of o).

(** Everything of the database was seen gone, in this reconciliation, and the
    outcome of every creation is known. *)
Definition azure_gone (h : trace Resp) : Prop :=
  workload_gone t h ∧ (∀ o, o ∈ ordinals (tg_instances t) → arm_absent h o) ∧
  ∃ c st, seen h c ∧ entry_status c u = Some st ∧ disks_gone h st ∧ all_creates_resolved st = true.

(** A missing storage class is created; a disk is deleted in Azure when the
    workload and the object of the disk are gone, and the resource manager
    returned it with the expected identity and tags, for a creation that is
    recorded with its identity. *)
Definition azure_other (creating : bool) (h : trace Resp) (op : Op) : Prop :=
  match op with
  | CreateStorageClass class =>
      creating = true ∧ class = expected_class ∧ replied h (GetStorageClass AZURE_STORAGE_CLASS) (Ok None)
  | ArmSend true url token =>
      creating = false ∧ workload_gone t h ∧ ∃ arm o, aa_arm access = Some arm ∧ o ∈ ordinals (tg_instances t) ∧
        url = arm_url arm (arm_of o) ∧ absent h disks (name_of o) ∧ arm_ours h o ∧
        ∃ c st, seen h c ∧ entry_status c u = Some st ∧ has_intent st "Disk" (name_of o) o Observed ∧
          is_some (stored si_disk o st) = true
  | _ => False
  end.

Lemma arm_replied_app h g arm id actual : arm_replied h arm id actual → arm_replied (h ++ g) arm id actual.
Proof. intros (token & response & Hr & ?). exists token, response. split; [by apply replied_app_l|done]. Qed.
Lemma arm_absent_app h g o : arm_absent h o → arm_absent (h ++ g) o.
Proof. intros (arm & Ha & Hr). exists arm. split; [done|by apply arm_replied_app]. Qed.
Lemma arm_ours_app h g o : arm_ours h o → arm_ours (h ++ g) o.
Proof.
  intros (arm & actual & c & tg & Ha & Hr & Hc & ?). exists arm, actual, c, tg.
  split_and!; try done; [by apply arm_replied_app|by apply catalog_seen_app_l|naive_solver..].
Qed.
Lemma disks_gone_app h g st : disks_gone h st → disks_gone (h ++ g) st.
Proof. intros H o Ho Hs. by apply absent_app, H. Qed.

Lemma azure_gone_app h g : azure_gone h → azure_gone (h ++ g).
Proof.
  intros (Hw & Ha & c & st & Hc & Hst & Hd & Hr). split_and!.
  - by apply workload_gone_app.
  - intros o Ho. by apply arm_absent_app, Ha.
  - exists c, st. split_and!; [by apply catalog_seen_app_l|done|by apply disks_gone_app|done].
Qed.

#[local] Instance azure_evidence : Evidence azure_gone.
Proof. intros h g. apply azure_gone_app. Qed.
#[local] Instance azure_foreign : ForeignErrors is_foreign.
Proof. by intros []. Qed.

Context (sound : Prop).
#[local] Notation ok := (azure_valid access t).
#[local] Notation grounded := (grounded t ok azure_gone).
#[local] Notation synced := (synced t ok azure_gone sound).
#[local] Notation deleting := (deleting t ok azure_gone sound).
#[local] Notation knowing := (knowing t ok azure_gone sound).
#[local] Notation op creating := (entry_op t creating ok azure_gone (azure_other creating) sound).
#[local] Notation err := (on_error t ok azure_gone is_foreign).

Lemma on_error_errs {A} (r : result ObserveError A) e h s : errs_benign r → r = Err e → err e h s.
Proof. intros Hb ->. by apply on_error_benign. Qed.

(** Asking the resource manager about a disk. *)
Lemma triple_arm_get creating (P : trace Resp → Run → Prop) o :
  (∀ h g s, P h s → P (h ++ g) s) →
  triple (op creating) err P (arm_get access t o)
    (λ actual h s, P h s ∧ ∃ arm, aa_arm access = Some arm ∧ arm_replied h arm (arm_of o) actual).
Proof.
  intros Happ h s H. unfold arm_get, access_arm. apply wp_pure_db.
  { intros e He. apply (on_error_errs _ e h s) in He; [done|]. by destruct (aa_arm access). }
  intros arm Harm%ok_or_Ok. unfold db_lift. apply wp_bind.
  eapply wp_post; [apply wp_extends, wp_arm_read, entry_op_reading|].
  intros h' [actual|e] [[He Hr] [g ->]]; apply wp_return; [|by apply on_error_benign].
  split; [by apply Happ|]. exists arm. split; [done|by apply Hr].
Qed.

Lemma triple_check_arm creating (P : trace Resp → Run → Prop) actual o :
  (∀ h s, P h s → grounded h s) →
  triple (op creating) err P (check_arm access t actual o)
    (λ _ h s, P h s ∧ ∃ c expected_tags, seen h c ∧ tags c u = Ok expected_tags ∧
       arm_disk actual (arm_of o) expected_tags (aa_location access) = Ok tt).
Proof.
  intros HP h s H. unfold check_arm. db_step. apply wp_pure_db; [intros e _ _; by apply HP|]. intros tg Htg.
  unfold db_pure. apply wp_return. destruct (arm_disk _ _ _ _) as [[]|e] eqn:Hd; [|intros _; by apply HP].
  split; [done|]. exists (run_catalog s), tg. split_and!; [apply (HP h s H)|done..].
Qed.

Lemma disk_identity_Ok live desired c expected arm id :
  disk_identity live desired c u expected arm = Ok id →
  identified (name_any (dyn_meta desired)) id ∧ uid (dyn_meta live) = Some (ri_uid id) ∧ ∀ x, expected = Some x → x = id.
Proof.
  unfold disk_identity. destruct (check_object _ _ _ _ _) as [x|] eqn:Hx; [|done]. cbn.
  destruct (_ || _); [done|]. intros [= <-]. by apply check_object_Ok in Hx.
Qed.

Lemma disk_Ok c nm d : disk c u access nm = Ok d →
  name_any (dyn_meta d) = nm ∧ ∃ l, ownership_labels c u = Ok l ∧ labels (dyn_meta d) = Some l.
Proof.
  unfold disk. destruct (ownership_labels c u) as [l|]; [|done]. cbn. destruct (tags c u); [|done]. intros [= <-].
  split; [done|by exists l].
Qed.

Lemma valid_storage size o st : ok st → ok (storage size o st).
Proof. intros [? ? ?]. destruct (storage_shape (size:=size) o st) as [l ->]. by split. Qed.
Lemma valid_edit_storage size o g st : ok st → ok (edit_storage size o g st).
Proof. intros [? ? ?]. destruct (edit_storage_shape (size:=size) o g st) as [l ->]. by split. Qed.
#[local] Hint Resolve valid_storage valid_edit_storage : core.

(** *** Creation *)
Section Creation.
#[local] Instance creation_laws : StatusLaws t AZURE_SIZE azure_kinds ok := azure_laws access t AZURE_SIZE.

Lemma triple_issue_disk desired o : o ∈ ordinals (tg_instances t) →
  triple (op true) err (λ h s, recorded_issued t ok azure_gone sound "Disk" (name_any (dyn_meta desired)) o h s ∧ labelled t h desired)
    (issue_disk access t desired o) (λ _, synced).
Proof.
  intros Ho h s [[Hs (st & Hst & Hi)] (c & l & Hseen & Hl & Hobj)]. unfold issue_disk.
  apply (wp_request_db _ _ (CreateObject disks desired) (λ r, Ok r)).
  { split; [done|]. exists (run_catalog s), st, o, l. split_and!; [apply Hs|done|done|by exists c|done]. }
  intros r g _. assert (synced (h ++ g) s) as H1 by (by law synced_app). destruct r as [live|e].
  - db_step. apply wp_pure_db; [intros e _ _; apply H1|]. intros id _. by db_step.
  - destruct (definite_rejection e); [|db_step; intros _; apply H1].
    eapply wp_call; [by law triple_record|apply H1|]. intros [] g2 s2 [[[H2 _] _] _]. db_step. by intros _.
Qed.

Lemma triple_disk_observed desired previous o : o ∈ ordinals (tg_instances t) → name_any (dyn_meta desired) = name_of o →
  triple (op true) err (λ h s, synced h s ∧ labelled t h desired ∧ intent (run_state s) "Disk" (name_of o) o = Ok previous)
    (disk_observed access t desired previous o) (λ _, synced).
Proof.
  intros Ho Hn h s (Hs & Hl & Hp). unfold disk_observed.
  db_step; [by left| |intros _; by law grounded_app; apply Hs].
  assert (synced (h ++ g) s) as H1 by (by law synced_app). apply (labelled_app _ g) in Hl. destruct reply as [live|].
  - destruct (issued_or_observed previous); cbn [negb]; [|db_step; intros _; apply H1]. do 2 db_step.
    apply wp_pure_db; [intros e _ _; apply H1|]. intros id _. by db_step.
  - destruct (negb (may_issue previous) && _) eqn:Hm; [by db_step|].
    eapply wp_call; [law (triple_announce "Disk" (name_of o) o previous); done| |].
    { split; [exact H1|]. intros Hr. apply andb_true_iff in Hr as [_ ->%bool_decide_eq_true]. by apply intent_has. }
    intros [] g1 s1 H2. apply (labelled_app _ g1) in Hl.
    eapply wp_call; [law (triple_verify_run (λ h s, recorded_issued t ok azure_gone sound "Disk" (name_of o) o h s ∧ labelled t h desired))| |].
    + intros h2 g2 s2 []. split; [by law recorded_issued_app|by apply labelled_app].
    + by split.
    + intros [] g2 s2 H3. apply triple_issue_disk; [done|]. by rewrite Hn.
Qed.

Lemma triple_disk_confirmed id live previous o : o ∈ ordinals (tg_instances t) →
  triple (op true) err synced (disk_confirmed access t id live previous o) (λ _, synced).
Proof.
  intros Ho h s Hs. unfold disk_confirmed. db_step.
  assert (synced h {| run_catalog := run_catalog s; run_state := storage AZURE_SIZE o (run_state s) |}) as H1
    by (by law synced_row).
  eapply wp_call; [law (triple_bind_once _ _ _ synced synced)|exact H1|].
  - by intros ? ? [[]].
  - done.
  - intros h2 s2 H2 _. law synced_edit_storage; [done|]. apply valid_edit_storage, H2.
  - intros changed g s2 H2. destruct changed.
    { eapply wp_call; [law (triple_save (run_state s2))|by split; [apply H2|]|]. intros [] g3 s3 [H3 _]. db_step.
      by apply saved_synced. }
    eapply wp_call; [apply (triple_arm_get true synced); intros; by law synced_app|done|].
    intros [actual|] g3 s3 [H3 _]; [|by db_step].
    eapply wp_call; [apply (triple_check_arm true synced); by intros ? ? [[]]|done|]. intros [] g4 s4 [H4 _].
    case_bool_decide; cbn [negb]; [by db_step|].
    eapply wp_call; [by law triple_record|apply H4|]. intros [] g5 s5 [H5 _]. db_step. by apply saved_synced.
Qed.

Lemma triple_disk_ready o : o ∈ ordinals (tg_instances t) →
  triple (op true) err synced (disk_ready access t o) (λ _, synced).
Proof.
  intros Ho h s Hs. unfold disk_ready. db_step. apply wp_pure_db; [intros e _ _; apply Hs|].
  intros d (Hn & l & Hl & Hlab)%disk_Ok. db_step. apply wp_pure_db; [intros e _ _; apply Hs|]. intros previous Hp.
  eapply wp_call; [by apply (triple_disk_observed d previous o)| |].
  { split_and!; [done| |done]. exists (run_catalog s), l. split_and!; [apply Hs|done..]. }
  intros [[id live]|] g s1 H1; [by apply triple_disk_confirmed|by db_step].
Qed.

Lemma steps_initialize_arm_ids : steps (op true) err synced (initialize_arm_ids access t) grounded (λ _, synced).
Proof.
  eapply steps_bind; [apply steps_loop|].
  - intros o changed Ho h s Hs. unfold initialize_arm_id. db_step.
    assert (synced h {| run_catalog := run_catalog s; run_state := storage AZURE_SIZE o (run_state s) |}) as H1
      by (by law synced_row).
    db_step. destruct (stored _ _ _) as [actual|].
    + destruct (eq_ignore_ascii_case _ _); [by db_step|db_step; intros _; apply H1].
    + do 2 db_step. eapply (synced_edit_storage _ {| run_state := storage _ _ _ |}); [exact H1|].
      apply valid_edit_storage, H1.
  - intros changed h s Hs. eapply steps_tail; [law (steps_save_changed synced); by intros ? ? []|done|by intros ? ? ? []].
Qed.

Lemma steps_ensure_disks : steps (op true) err synced (ensure_disks access t) grounded (λ _, synced).
Proof.
  eapply steps_bind; [apply steps_loop|].
  - intros o waiting Ho h s Hs. unfold ensure_disk. eapply wp_call; [by apply triple_disk_ready|done|].
    intros ready g s1 H1. by db_step.
  - intros waiting h s Hs. destruct waiting; [|by db_step]. law (steps_wait _ synced); [by intros ? ? [[]]|exact Hs].
Qed.

Lemma steps_check_runtime : steps (op true) err synced (check_runtime t) grounded (λ _, synced).
Proof.
  intros h s Hs. unfold check_runtime. apply wp_db_bind, wp_bind.
  eapply wp_post; [apply wp_extends, wp_observe_runtime; [apply entry_op_reading|]|].
  { intros h' Hr. by right. }
  intros h' r [_ [g ->]]. apply wp_return. cbn [outcome].
  assert (synced (h ++ g) s) as H1 by (by law synced_app).
  destruct r as [reason|]; [destruct (bool_decide _); [by db_step|]|];
    (law (steps_wait _ synced); [by intros ? ? [[]]|exact H1]).
Qed.

Lemma azure_volume_Ok c o id d : azure_volume c u (tg_namespace t) (tg_cluster t) o id = Ok d →
  name_any (dyn_meta d) = volume_name (tg_cluster t) o ∧ ∃ l, ownership_labels c u = Ok l ∧ labels (dyn_meta d) = Some l.
Proof.
  unfold azure_volume. destruct (ownership_labels c u) as [l|]; [|done]. intros [= <-]. split; [done|by exists l].
Qed.
Lemma azure_cluster_for_Ok c d : azure_cluster_for t c = Ok d →
  name_any (dyn_meta d) = tg_cluster t ∧ ∃ l, ownership_labels c u = Ok l ∧ labels (dyn_meta d) = Some l.
Proof.
  unfold azure_cluster_for, azure_cluster. destruct (ownership_labels c u) as [l|]; [|done]. intros [= <-].
  split; [done|by exists l].
Qed.
Lemma azure_claim_for_Ok : each_named (claim_name (tg_cluster t)) (azure_claim_for t).
Proof. intros c o d. unfold azure_claim_for, azure_claim. destruct (ownership_labels c u) as [l|]; [|done]. by intros [= <-]. Qed.

Lemma triple_azure_volume_for o : o ∈ ordinals (tg_instances t) →
  triple (op true) err synced (azure_volume_for t o)
    (λ d h s, synced h s ∧ labelled t h d ∧ name_any (dyn_meta d) = volume_name (tg_cluster t) o).
Proof.
  intros Ho h s Hs. unfold azure_volume_for. db_step.
  assert (synced h {| run_catalog := run_catalog s; run_state := storage AZURE_SIZE o (run_state s) |}) as H1
    by (by law synced_row).
  db_step. apply wp_pure_db; [intros e _ _; apply H1|]. intros id _. db_step. unfold db_pure. apply wp_return.
  destruct (azure_volume _ _ _ _ _ _) as [d|e] eqn:Hd; [|intros _; apply H1].
  apply azure_volume_Ok in Hd as (Hn & l & Hl & Hlab).
  split_and!; [done| |done]. exists (run_catalog s), l. split_and!; [apply Hs|done..].
Qed.

Lemma valid_credentials id st : ok st → ok (set_credentials (Some id) st).
Proof. intros []. by split. Qed.

Lemma triple_azure_ensure : triple (op true) err synced (azure_ensure access t) (λ _, grounded).
Proof.
  apply triple_step_end. eapply (steps_bind _ _ synced _ _ _ (λ _, synced)).
  { intros h s Hs. destruct (prerequisite_reason access); [|by db_step].
    law (steps_wait _ synced); [by intros ? ? [[]]|exact Hs]. }
  intros []. eapply steps_bind; [by law steps_ensure_namespace|intros []].
  eapply steps_bind; [apply steps_check_runtime|intros []].
  eapply steps_bind; [apply steps_initialize_arm_ids|intros []].
  eapply steps_bind; [apply steps_ensure_disks|intros []].
  eapply steps_bind; [law steps_ensure_volumes; [done|apply triple_azure_volume_for]|intros []].
  eapply steps_bind; [law steps_ensure_cluster; [done|apply azure_cluster_for_Ok]|intros id].
  eapply steps_bind; [law steps_ensure_claims; apply azure_claim_for_Ok|intros []].
  intros h s Hs. eapply wp_call; [law triple_observe_cluster|exact Hs|]. intros live g1 s1 H1.
  eapply wp_call; [law triple_observe_credentials; intros; by apply valid_credentials|exact H1|]. intros [] g2 s2 H2.
  eapply wp_call; [law triple_observe_instances|exact H2|]. intros [] g3 s3 H3. db_step.
  eapply wp_call; [law triple_observe_storage|exact H3|]. intros [] g4 s4 H4.
  eapply wp_call; [law triple_publish|exact H4|]. intros p g5 s5 H5. by db_step.
Qed.
End Creation.

(** *** Deletion *)
Section Deletion.
#[local] Instance deletion_laws : StatusLaws t SIZE azure_kinds ok := azure_laws access t SIZE.

Lemma azure_retired_secret_Ok st secret id : azure_retired_secret t st secret = Ok id →
  uid (dyn_meta secret) = Some (ri_uid id) ∧ (∀ x, es_credentials st = Some x → ri_uid x = ri_uid id) ∧
  (ok st → ok (set_credentials (Some id) st)).
Proof.
  unfold azure_retired_secret, azure_identify_secret. destruct (es_cnpg_cluster st) as [bound|]; [|done]. cbn.
  destruct (_ || _); [done|]. destruct (uid (dyn_meta secret)) as [v|]; [|done]. cbn.
  destruct (is_some_and _ _) eqn:Hb; [done|]. intros [= <-]. split_and!; [done| |apply valid_credentials].
  intros x Hx. rewrite Hx in Hb. cbn in Hb. bool_hyp. by subst.
Qed.

Lemma azure_retired_volume_Ok : each_named (volume_name (tg_cluster t)) (azure_retired_volume access t).
Proof. by intros c o d [Hn _]%azure_volume_Ok. Qed.

(** What is known of the disks at a point of the cleanup. *)
Definition objects_gone (l : list Z) (h : trace Resp) (s : Run) : Prop :=
  workload_gone t h ∧ ∀ o, o ∈ l → is_some (find_storage (run_state s) o) = true → absent h disks (name_of o).
Lemma objects_gone_app l h g s : objects_gone l h s → objects_gone l (h ++ g) s.
Proof. intros [Hw Ha]. split; [by apply workload_gone_app|]. intros o Ho Hs. by apply absent_app, Ha. Qed.
Lemma objects_gone_snoc l h s o : objects_gone l h s → (is_some (find_storage (run_state s) o) = true → absent h disks (name_of o)) →
  objects_gone (l ++ [o]) h s.
Proof. intros [Hw Ha] Ho. split; [done|]. by intros o' [H| ->%list_elem_of_singleton]%elem_of_app; [apply Ha|]. Qed.

Lemma triple_recorded_disk (P : trace Resp → Run → Prop) o :
  (∀ h s, P h s → grounded h s) →
  triple (op false) err P (recorded_disk access t o)
    (λ r h s, P h s ∧ match r with
       | None => find_storage (run_state s) o = None
       | Some (item, previous) => find_storage (run_state s) o = Some item ∧
           ∀ x, previous = Some x → has_intent (run_state s) "Disk" (name_of o) o x
       end).
Proof.
  intros HP h s H. unfold recorded_disk. db_step. destruct (find_storage _ _) as [item|] eqn:Hi; [|by db_step].
  case_bool_decide; cbn [negb]; [|db_step; intros _; by apply HP].
  apply wp_pure_db; [intros e _ _; by apply HP|]. intros previous Hp. db_step. split_and!; [done..|].
  intros x ->. by apply intent_has.
Qed.

(** An edit while the database is being deleted. *)
Lemma settled_edit h s st' : deleting h s → es_logical_uid st' = es_logical_uid (run_state s) →
  es_finalization st' = es_finalization (run_state s) → es_query st' = None → ok st' →
  settled t ok azure_gone sound h {| run_catalog := run_catalog s; run_state := st' |}.
Proof.
  intros Hs Eu Ef Eq Hv. split; [law grounded_edit; [by apply (deleting_grounded h s Hs)|done..]|]. intros _ q. cbn. by rewrite Eq.
Qed.

Lemma stored_disk st o item id : find_storage st o = Some item → si_disk item = Some id →
  recorded_identity st "Disk" id ∧ stored si_disk o st = Some id.
Proof.
  intros Hf Hd. split.
  - right. left. split; [done|]. exists item. by apply find_first_Some in Hf as [Hf _].
  - unfold stored. rewrite Hf. cbn. done.
Qed.

Lemma steps_retire_disk l o waiting : o ∈ ordinals (tg_instances t) →
  steps (op false) err (λ h s, deleting h s ∧ workload_gone t h ∧ (waiting = false → objects_gone l h s))
    (retire_disk access t o waiting) grounded
    (λ waiting h s, deleting h s ∧ workload_gone t h ∧ (waiting = false → objects_gone (l ++ [o]) h s)).
Proof.
  intros Ho h s H. set (P := λ h s, deleting h s ∧ workload_gone t h ∧ (waiting = false → objects_gone l h s)).
  assert (Happ : ∀ h g s, P h s → P (h ++ g) s).
  { intros h0 g0 s0 (? & ? & Hl). split_and!; [by law deleting_app|by apply workload_gone_app|].
    intros Hw. by apply objects_gone_app, Hl. }
  assert (Hgr : ∀ h s, P h s → grounded h s) by (intros h0 s0 (H0 & _); by apply (deleting_grounded h0 s0 H0)).
  unfold retire_disk. eapply wp_call; [by apply (triple_recorded_disk P)|exact H|].
  intros [[item previous]|] g s1 [H1 Hr].
  2:{ db_step. destruct H1 as (? & ? & Hl). split_and!; [done..|]. intros Hw. apply objects_gone_snoc; [by apply Hl|]. by rewrite Hr. }
  destruct Hr as [Hitem _]. db_step. apply wp_pure_db; [intros e _ _; by apply Hgr|]. intros d (Hn & _)%disk_Ok.
  db_step; [by left| |intros _; by apply Hgr, Happ]. apply (Happ _ g0) in H1. destruct reply as [live|].
  2:{ db_step. destruct H1 as (? & ? & Hl). split_and!; [done..|]. intros Hw. apply objects_gone_snoc; [by apply Hl|].
      intros _. subst g0. apply replied_last. }
  destruct (issued_or_observed previous); cbn [negb]; [|db_step; intros _; by apply Hgr].
  apply wp_pure_db; [intros e _ _; by apply Hgr|]. intros id (Hid & Huid & Hsame)%disk_identity_Ok.
  destruct (si_disk item) as [x|] eqn:Hx; cbn [is_none is_some negb].
  - specialize (Hsame x eq_refl) as ->. case_bool_decide.
    + eapply wp_call; [by apply (triple_arm_get false P)|exact H1|].
      intros [actual|] g2 s2 [H2 _]; [|law (steps_wait _ P); [done|exact H2]].
      eapply wp_call; [by apply (triple_check_arm false P)|exact H2|]. intros [] g3 s3 [H3 _].
      eapply wp_call; [by law triple_record|apply H3|]. intros [] g4 s4 [[[H4 _] _] _]. by db_step.
    + eapply wp_call; [law (triple_verify_run (λ h0 s0, P h0 s0 ∧ s0 = s1 ∧
        replied h0 (FindObject disks (name_of o)) (Ok (Some live))))| |].
      * intros h2 g2 s2 (? & ? & ?). split_and!; [by apply Happ|done|by apply replied_app_l].
      * split_and!; [exact H1|done|]. subst g0. apply replied_last.
      * intros [] g2 s2 (H2 & -> & Hrep). db_step; [|db_step|intros _; by apply Hgr, Happ].
        -- destruct H2 as (Hdel & Hw & _). split; [done|]. exists (run_catalog s1), (run_state s1), live, id.
           split_and!; [apply Hdel|apply Hdel|done|done| |done|]; [by eapply stored_disk|]. do 4 right. done.
        -- destruct (Happ _ g1 _ H2) as (? & ? & _). by split_and!.
  - db_step. eapply wp_call; [law (triple_save (edit_storage AZURE_SIZE o (set_disk (Some id)) (run_state s1)))| |].
    + split; [|done]. destruct H1 as (Hdel & _).
      destruct (edit_storage_shape (size:=AZURE_SIZE) o (set_disk (Some id)) (run_state s1)) as [rows Er].
      apply settled_edit; [done|by rewrite Er..|by rewrite Er; apply Hdel|].
      apply valid_edit_storage. by apply (gr_valid _ _ (deleting_grounded _ _ Hdel)).
    + intros [] g2 s2 [[[H2 _] _] _]. by db_step.
Qed.

Lemma steps_retire_disks :
  steps (op false) err (knowing (workload_gone t)) (each (ordinals (tg_instances t)) false (retire_disk access t)) grounded
    (λ waiting h s, deleting h s ∧ (waiting = false → objects_gone (ordinals (tg_instances t)) h s)).
Proof.
  intros h s [Hs Hw].
  apply (steps_tail _ _ _ _ _ (λ h s, deleting h s ∧ workload_gone t h ∧ (false = false → objects_gone [] h s)) _
    (λ w h s, deleting h s ∧ workload_gone t h ∧ (w = false → objects_gone (ordinals (tg_instances t)) h s))).
  - apply (steps_each _ _ _ _ (λ l w h s, deleting h s ∧ workload_gone t h ∧ (w = false → objects_gone l h s))).
    intros l o rest w Hl. apply steps_retire_disk. rewrite Hl. apply elem_of_app. right. by left.
  - split_and!; [done..|]. intros _. split; [done|]. by intros o ?%not_elem_of_nil.
  - by intros w h1 s1 (? & _ & ?).
Qed.

(** Only receipts are added to what the catalog records. *)
Definition receipts (h : trace Resp) (s : Run) : Prop :=
  settled t ok azure_gone sound h s ∧ es_query (run_state s) = None ∧ objects_gone (ordinals (tg_instances t)) h s ∧
  ∃ st f, entry_status (run_catalog s) u = Some st ∧ run_state s = set_finalization f st.
Lemma receipts_app h g s : receipts h s → receipts (h ++ g) s.
Proof. intros (? & ? & ? & ?). split_and!; [by law settled_app|done|by apply objects_gone_app|done]. Qed.
Lemma receipts_grounded h s : receipts h s → grounded h s.
Proof. by intros [[]]. Qed.

Lemma triple_record_absence o (P : trace Resp → Prop) : (∀ h g, P h → P (h ++ g)) →
  triple (op false) err (λ h s, receipts h s ∧ P h) (record_absence (arm_of o)) (λ _ h s, receipts h s ∧ P h).
Proof.
  intros Happ h s [Hs HP]. unfold record_absence. db_step.
  apply wp_pure_db; [intros e _ _; by apply receipts_grounded|]. intros f Hf%ok_or_Ok.
  destruct (any _ (fs_pending f)).
  - do 2 db_step. split; [|done]. destruct Hs as (Hset & Hq & [Hw Ho] & st & f0 & Hst & Hrun). split_and!; [|done|by split|].
    + destruct Hset as [[? ? ? [] Ht] _]. split; [|by intros _ q; cbn; rewrite Hq]. split; [done|done|done|by split|].
      intros Hc. apply Ht. unfold claims_gone in *. by rewrite Hf.
    + exists st, (Some (receipt f (arm_of o))). split; [done|]. cbn. by rewrite Hrun.
  - destruct (any _ _); [by db_step|db_step; intros _; by apply receipts_grounded].
Qed.

Definition arms_gone (l : list Z) (h : trace Resp) : Prop := ∀ o, o ∈ l → arm_absent h o.
Lemma arms_gone_app l h g : arms_gone l h → arms_gone l (h ++ g).
Proof. intros H o Ho. by apply arm_absent_app, H. Qed.
Lemma arms_gone_snoc l h o : arms_gone l h → arm_absent h o → arms_gone (l ++ [o]) h.
Proof. intros H Ho. by intros o' [?| ->%list_elem_of_singleton]%elem_of_app; [apply H|]. Qed.

(** The end of a loop over the disks in Azure. *)
Definition arms_step (l : list Z) (r : Progress + bool * bool) (h : trace Resp) (s : Run) : Prop :=
  match r with
  | inl _ => grounded h s
  | inr acc => receipts h s ∧ (acc.2 = false → arms_gone l h)
  end.

Lemma wp_delete_disk h s l o changed :
  o ∈ ordinals (tg_instances t) → receipts h s → arm_ours h o → has_intent (run_state s) "Disk" (name_of o) o Observed →
  is_some (stored si_disk o (run_state s)) = true →
  wp ((db! _ <- verify_run ;;
       db! arm <- db_pure (access_arm access) ;;
       db! _ <- db_lift (arm_request arm (arm_of o) true) ;;
       step_ret (changed, true)) s) h (op false) (outcome err (arms_step l)).
Proof.
  intros Ho Hs Hours Hi Hd.
  eapply wp_call; [law (triple_verify_run (λ h0 s0, receipts h0 s0 ∧ s0 = s ∧ arm_ours h0 o))| |].
  - intros h1 g1 s1 (? & ? & ?). split_and!; [by apply receipts_app|done|by apply arm_ours_app].
  - by split_and!.
  - intros [] g1 s1 (H1 & -> & Hours1). apply wp_pure_db; [intros e _ _; by apply receipts_grounded|]. intros arm Harm%ok_or_Ok.
    apply wp_db_bind. unfold db_lift. apply wp_bind.
    eapply wp_post; [apply wp_extends, wp_arm_delete; [apply entry_op_reading|]|].
    + intros g2 token. right. apply (receipts_app _ g2) in H1 as (Hset & _ & [Hw Hob] & st & f & Hst & Hrun).
      split_and!; [done|done|]. exists arm, o. rewrite Hrun in *. split_and!; try done.
      * apply Hob; [done|]. unfold stored in Hd. by destruct (find_storage _ _).
      * by apply arm_ours_app.
      * exists (run_catalog s), st. split_and!; [apply Hset|done..].
    + intros h' r [He [g2 ->]]. destruct r as [v|e]; apply wp_return; [|by apply on_error_benign]. cbn [outcome].
      db_step. split; [by apply receipts_app|done].
Qed.

Lemma wp_absence h s l o changed waiting :
  receipts h s → (waiting = false → arms_gone l h) → arm_absent h o →
  wp ((db! now <- record_absence (arm_of o) ;; step_ret (changed || now, waiting)) s) h (op false)
    (outcome err (arms_step (l ++ [o]))).
Proof.
  intros Hs Hl Ha. eapply wp_call; [apply (triple_record_absence o (λ h, waiting = false → arms_gone (l ++ [o]) h))| |].
  - intros h1 g1 Hw E. by apply arms_gone_app, Hw.
  - split; [done|]. intros E. by apply arms_gone_snoc; [apply Hl|].
  - intros now g1 s1 H1. by db_step.
Qed.

Lemma steps_retire_arm l o acc : o ∈ ordinals (tg_instances t) →
  triple (op false) err (λ h s, receipts h s ∧ (acc.2 = false → arms_gone l h)) (retire_arm access t o acc)
    (arms_step (l ++ [o])).
Proof.
  intros Ho h s H. destruct acc as [changed waiting]. cbn [snd] in *.
  set (P := λ h s, receipts h s ∧ (waiting = false → arms_gone l h)).
  assert (Happ : ∀ h g s, P h s → P (h ++ g) s).
  { intros h0 g0 s0 (? & Hl). split; [by apply receipts_app|]. intros Hw. by apply arms_gone_app, Hl. }
  assert (Hgr : ∀ h s, P h s → grounded h s) by (intros h0 s0 [H0 _]; by apply receipts_grounded).
  unfold retire_arm. eapply wp_call; [by apply (triple_recorded_disk P)|exact H|].
  intros [[item previous]|] g s1 [H1 Hr].
  2:{ eapply wp_call; [by apply (triple_arm_get false P)|exact H1|]. intros [actual|] g2 s2 [[H2 Hl] (arm & Harm & Hrep)].
      - cbn [is_some]. db_step. intros _. by apply receipts_grounded.
      - apply wp_absence; [done..|]. by exists arm. }
  destruct Hr as [Hitem Hint]. case_bool_decide; [law (steps_wait _ P); [done|exact H1]|].
  eapply wp_call; [apply (triple_arm_get false (λ h s, P h s ∧ s = s1)); naive_solver|by split|].
  intros actual g2 s2 [[H2 ->] (arm & Harm & Hrep)]. case_bool_decide as Hiss.
  - destruct actual as [actual|]; [|law (steps_wait _ P); [done|exact H2]].
    eapply wp_call; [by apply (triple_check_arm false P)|exact H2|]. intros [] g3 s3 [H3 _].
    destruct (is_none _); [db_step; intros _; by apply Hgr|].
    eapply wp_call; [by law triple_record|apply H3|]. intros [] g4 s4 [[[H4 _] _] _]. by db_step.
  - destruct actual as [actual|]; [|apply wp_absence; [apply H2..|by exists arm]].
    eapply wp_call; [apply (triple_check_arm false (λ h s, P h s ∧ s = s1)); intros ? ? []; by apply Hgr|by split|].
    intros [] g3 s3 [[H3 ->] (c & tg & Hc & Htg & Hours)].
    destruct (_ || _) eqn:Hb; [db_step; intros _; by apply Hgr|]. apply orb_false_iff in Hb as [Hob Hdisk].
    apply negb_false_iff, bool_decide_eq_true in Hob. apply wp_delete_disk; [done|apply H3| |by apply Hint|].
    + exists arm, actual, c, tg. split_and!; try done. by apply arm_replied_app.
    + unfold stored. rewrite Hitem. cbn. by destruct (si_disk item).
Qed.

Lemma triple_azure_conclude :
  triple (op false) err (λ h s, receipts h s ∧ arms_gone (ordinals (tg_instances t)) h ∧ all_creates_resolved (run_state s) = true)
    (azure_conclude t) (λ _, grounded).
Proof.
  intros h s (Hs & Ha & Hr). unfold azure_conclude. db_step.
  apply wp_pure_db; [intros e _ _; by apply receipts_grounded|]. intros f _.
  destruct (_ || _); [db_step; intros _; by apply receipts_grounded|]. db_step.
  destruct Hs as ([[? ? ? [] _] _] & Hq & [Hw Hob] & st & f0 & Hst & Hrun).
  assert (azure_gone h) as Hgone.
  { split_and!; [done|done|]. exists (run_catalog s), st. rewrite Hrun in *. by split_and!. }
  law triple_settle; [done|]. split; [|done]. split; [|by intros _ q; cbn; rewrite Hq].
  split; [done|done|done|by split|by right].
Qed.

Lemma steps_cleanup : steps (op false) err (knowing (workload_gone t)) (cleanup access t) grounded (λ _, grounded).
Proof.
  eapply steps_bind; [apply steps_retire_disks|]. intros waiting h s [Hs Hob].
  destruct waiting; [db_step; by apply (deleting_grounded h s Hs)|].
  eapply wp_step_call; [apply (steps_each _ _ _ _ (λ l acc h s, receipts h s ∧ (acc.2 = false → arms_gone l h)))| |].
  - intros l o rest acc Hl. apply steps_retire_arm. rewrite Hl. apply elem_of_app. right. by left.
  - split; [|by intros _ o ?%not_elem_of_nil]. destruct Hs as [[Hset He] Hq]. split_and!; [done|done|by apply Hob|].
    exists (run_state s), (es_finalization (run_state s)). split; [done|]. by destruct (run_state s).
  - intros [changed waiting] g s1 [H1 Ha]. cbn [snd] in Ha.
    eapply wp_step_call; [law (steps_save_changed (λ h0 s0, h0 = h ++ g ∧ s0 = s1)); by intros ? ? [-> ->]; destruct H1|done|].
    intros [] g2 s2 [[Eg ->] _]. rewrite Eg. destruct waiting; [db_step; by apply receipts_grounded|]. db_step.
    destruct (all_creates_resolved _) eqn:Hr; cbn [negb].
    + eapply wp_call; [apply triple_azure_conclude|split_and!; [done|by apply Ha|done]|]. intros p g3 s3 H3. by db_step.
    + law (steps_wait _ receipts); [apply receipts_grounded|done].
Qed.

Lemma triple_azure_finalize : triple (op false) err grounded (azure_finalize access t) (λ _, grounded).
Proof.
  apply triple_step_end. eapply steps_bind; [law steps_announce_deletion|intros []].
  - intros st []. unfold start_finalization. by destruct (es_finalization st).
  - intros st. unfold start_finalization. by destruct (es_finalization st).
  - intros st. unfold start_finalization. by destruct (es_finalization st).
  - intros st. unfold start_finalization, claims_gone. destruct (es_finalization st) eqn:E; cbn; [by rewrite E|done].
  - eapply steps_bind; [law steps_retire_cluster; [done|done|by intros c d [Hn _]%azure_cluster_for_Ok]|intros []].
    eapply steps_bind; [law steps_retire_secret; [done|apply azure_retired_secret_Ok]|intros waiting].
    eapply steps_bind; [law steps_retire_claims; [done|done|apply azure_claim_for_Ok]|intros []].
    eapply steps_bind; [law steps_retire_volumes; [done|done|apply azure_retired_volume_Ok]|intros []].
    eapply steps_bind; [by law steps_retire_namespace|intros []].
    apply steps_cleanup.
Qed.
End Deletion.
End Steps.

(** ** The provider *)
Section Provider.
Context `{SO : Sha256Ops, SJ : SpecJson, FJ : FoundationJson, AJ : AzureConfigJson}.

(** The resource group is the one of the provider configuration, and the storage
    namespace, labelled for the Tenant, was read. *)
Definition azure_loaded (c : TenantDatabaseCatalog) (h : trace Resp) (access : AzureAccess) : Prop :=
  ∃ map config ns,
    replied h (ReadConfigMap "tenant-system" CONFIG_NAME) (Ok map) ∧ azure_from_config_map map = Ok config ∧
    aa_group_id access = ac_resource_group_id (azc_values config) ∧
    replied h (ReadNamespace (storage_namespace (tds_tenant_name (tdc_spec c)))) (Ok ns) ∧
    aa_storage_namespace access = storage_namespace (tds_tenant_name (tdc_spec c)) ∧
    get_label (ns_meta ns) TENANT_LABEL = Some (tds_tenant_uid (tdc_spec c)).

Definition azure_contract : Contract (Access := AzureAccess) := {|
  ct_loaded := azure_loaded;
  ct_valid := azure_valid;
  ct_gone := azure_gone;
  ct_kinds := λ access t, azure_kinds;
  ct_other := azure_other |}.

#[local] Hint Extern 1 (reading _) => reflexivity : permits.

Lemma within_arm_new tenant_id : within reading (arm_new tenant_id).
Proof. unfold arm_new, env_var. walk. Qed.

Lemma mismatch_label c tenant capability azure_ binding config canonical storage_ns ns storage_uid plane cluster secret kc digest :
  access_mismatch c tenant capability azure_ binding config canonical storage_ns ns storage_uid plane cluster secret kc digest = false →
  get_label (ns_meta storage_ns) TENANT_LABEL = Some (tds_tenant_uid (tdc_spec c)).
Proof.
  unfold access_mismatch. intros H. do 14 apply orb_false_iff in H as [H _]. apply orb_false_iff in H as [_ H].
  by apply negb_false_iff, bool_decide_eq_true in H.
Qed.

Lemma wp_azure_load c b h : wp (load c b) h (λ _, reading) (λ h' r, ∀ access, r = Ok access → azure_loaded c h' access).
Proof.
  unfold load, api. request; [done|]. destruct reply as [tenant|]; cbn [map_err]; [|done]. do 3 (destruct (ok_or _ _); [|done]).
  request; [done|]. destruct reply as [storage_ns|]; cbn [map_err]; [|done]. destruct (ok_or _ _); [|done].
  request; [done|]. destruct reply as [map|]; cbn [map_err]; [|done].
  destruct (azure_from_config_map map) as [config|] eqn:Hconfig; [|done]. cbn [map_err].
  destruct (map_err _ _); [|done]. destruct (ok_or _ _); [|done].
  request; [done|]. destruct reply as [ns|]; cbn [map_err]; [|done].
  request; [done|]. destruct reply as [plane|]; cbn [map_err]; [|done].
  request; [done|]. destruct reply as [cluster|]; cbn [map_err]; [|done]. destruct (ok_or _ _); [|done].
  request; [done|]. destruct reply as [secret|]; cbn [map_err]; [|done]. do 2 (destruct (ok_or _ _); [|done]).
  destruct (access_mismatch _ _ _ _ _ _ _ _ _ _ _ _ _ _ _) eqn:Hm; [done|]. apply mismatch_label in Hm. apply wp_bind.
  eapply wp_post; [apply wp_extends, within_arm_new|]. intros h' arm [_ [g ->]]. apply wp_return.
  intros access [= <-]. exists map, config, storage_ns. cbn [aa_group_id aa_storage_namespace].
  split_and!; try done; subst; do 5 apply replied_app_l.
  - apply replied_last.
  - apply replied_app_l, replied_last.
Qed.

#[export] Instance azure_safe : SafeProvider azure_provider azure_contract.
Proof.
  split.
  - intros c b h. exact (wp_azure_load c b h).
  - intros c h g access (map & config & ns & Hr & ? & ? & Hn & ?). exists map, config, ns.
    split_and!; try by apply replied_app_l. all: naive_solver.
  - intros access t. apply azure_evidence.
  - apply azure_foreign.
  - intros access t creating h o. by destruct o.
  - intros access t. apply azure_laws.
  - intros access t st H. by apply azure_validate_valid.
  - intros access u g. by split.
  - intros access replay t sound. exact (triple_azure_ensure access t sound).
  - intros access t sound. exact (triple_azure_finalize access t sound).
Qed.
End Provider.

(** C18. Whatever the API servers and Azure answer, every request of a
    reconciliation of Azure databases that changes anything belongs to one
    entry of a catalog it read, with the names that the UIDs give it and the
    resource group of the provider configuration.  Objects and disks are
    created only after the catalog records the creation as issued, and deleted
    only by the recorded UID and in order, the disks last.  A disk is deleted in
    Azure only when the workload and the object of the disk were seen gone, the
    creation is recorded as observed with its identity, and the resource
    manager returned the disk with the expected identity, size and tags.  A
    status says that a database is gone, and an entry is removed, only when the
    resource manager said of every disk that it does not exist. *)
Theorem azure_requests_guarded `{SO : Sha256Ops, SJ : SpecJson, FJ : FoundationJson, AJ : AzureConfigJson} env observed replay :
  let '(h, r) := run env (azure_reconcile observed replay) [] in issued (provider_op azure_contract) [] h.
Proof.
  pose proof (wp_run env _ _ _ _ (wp_provider_reconcile azure_provider azure_contract observed replay [])) as H.
  unfold azure_reconcile. destruct (run _ _ _). apply H.
Qed.
