(* ===== verification/CatalogEntries.v ===== *)
(** * The life of the entries of a catalog

    Any number of operations of the administration server ([add], [delete]) and
    of the database controller ([reconcile], with both providers) run against
    one API server, interleaved request by request with each other and
    with other writers whose changes the CRD accepts (the Tenant controller
    closing the catalog).  The server applies a write only to the version it
    names; a write that fails may still take effect at any later time, and a
    read may return any version that was stored.  Nothing is assumed about the
    other replies. *)

From stdpp Require Import relations pretty.
From S2P Require Import Prelude RustStd Externals Kube Errors Api Foundation Effects Status DatabaseApi AdminTypes AdminView CatalogOps.
From S2P Require Import AdminCatalog DatabaseStatus AzureConfig CatalogWriters.
From S2P Require LocalDatabase AzureDatabase ProviderSafety LocalSafety AzureSafety.

#[local] Arguments wp : simpl never.
#[local] Arguments bind : simpl never.

(** ** The server *)

(** The versions that were stored, the oldest first, numbered from [sv_base]; and
    the writes that may still take effect. *)
Record Server := {
  sv_base : N;
  sv_log : list TenantDatabaseCatalog;
  sv_pending : list Op;
}.

Definition next_version (s : Server) : string := pretty (sv_base s + N.of_nat (length (sv_log s)))%N.

Definition stamp (meta : ObjectMeta) (rv : string) (changed : bool) : ObjectMeta := {|
  name := name meta; namespace := namespace meta; uid := uid meta; resource_version := Some rv;
  generation := (if changed then option_map Z.succ (generation meta) else generation meta);
  labels := labels meta; annotations := annotations meta; owner_references := owner_references meta;
  finalizers := finalizers meta; deletion_timestamp := deletion_timestamp meta |}.

Definition located (c : TenantDatabaseCatalog) (ns nm : string) : bool :=
  (namespace (tdc_meta c) == Some ns) && (name (tdc_meta c) == Some nm).

(** What a write stores over the current version, if it is accepted: the main
    endpoint keeps the status, the status endpoint keeps the specification. *)
Definition apply (rv : string) (current : TenantDatabaseCatalog) (o : Op) : option TenantDatabaseCatalog :=
  match o with
  | ReplaceCatalog ns nm obj =>
      if located current ns nm && (version obj == version current)
      then Some {| tdc_meta := stamp (tdc_meta current) rv true; tdc_spec := tdc_spec obj;
                   tdc_status := tdc_status current |}
      else None
  | ReplaceCatalogStatus ns nm obj =>
      if located current ns nm && (version obj == version current)
      then Some {| tdc_meta := stamp (tdc_meta current) rv false; tdc_spec := tdc_spec current;
                   tdc_status := tdc_status obj |}
      else None
  | PatchObserver ns nm v receipt =>
      if located current ns nm && (Some v == version current)
      then Some {| tdc_meta := stamp (tdc_meta current) rv false; tdc_spec := tdc_spec current;
                   tdc_status := Some {| cs_entries := cs_entries (unwrap_or default_catalog_status (tdc_status current));
                                         cs_observer := Some receipt |} |}
      else None
  | _ => None
  end.

Definition push (s : Server) (c : TenantDatabaseCatalog) : Server :=
  {| sv_base := sv_base s; sv_log := sv_log s ++ [c]; sv_pending := sv_pending s |}.
Definition delay (s : Server) (o : Op) : Server :=
  {| sv_base := sv_base s; sv_log := sv_log s; sv_pending := o :: sv_pending s |}.

(** Replies without an effect: reads of stored versions, and errors. *)
Definition plain_reply (s : Server) (o : Op) (r : Resp o) : Prop :=
  match o return Resp o → Prop with
  | GetCatalog _ _ => λ r, ∀ c, r = Ok (Some c) → c ∈ sv_log s
  | ReadCatalog _ _ => λ r, ∀ c, r = Ok c → c ∈ sv_log s
  | ReplaceCatalog _ _ _ | ReplaceCatalogStatus _ _ _ | PatchObserver _ _ _ _ => λ r, is_err r = true
  | _ => λ _, True
  end r.

Definition stored_reply (o : Op) (r : Resp o) (c : TenantDatabaseCatalog) : Prop :=
  match o return Resp o → Prop with
  | ReplaceCatalog _ _ _ | ReplaceCatalogStatus _ _ _ | PatchObserver _ _ _ _ => λ r, r = Ok c
  | _ => λ _, False
  end r.

Inductive served (s : Server) (o : Op) (r : Resp o) : Server → Prop :=
| served_plain : plain_reply s o r → served s o r s
| served_unknown : plain_reply s o r → served s o r (delay s o)
| served_stored current c :
    list.last (sv_log s) = Some current → apply (next_version s) current o = Some c → stored_reply o r c →
    served s o r (push s c).

(** ** Clients *)
Definition discard {A} (p : prog Resp A) : prog Resp unit := bind p (λ _, Ret tt).

Section System.
Context `{SO : Sha256Ops, NO : Ipv4NetOps, SJ : SpecJson, FJ : FoundationJson, AJ : AzureConfigJson}.

(** The database controller, with its providers. *)
Definition controller_reconcile : TenantDatabaseCatalog → string → string →
    io ObserveError (Action * TenantDatabaseCatalog) :=
  reconcile LocalDatabase.reconcile AzureDatabase.azure_reconcile.

Inductive writer : prog Resp unit → Prop :=
| writer_add tenant request u : valid_logical_uid u = true → writer (discard (add tenant request u))
| writer_delete tenant request : writer (discard (delete tenant request))
| writer_reconcile observed pod_uid instance_id :
    writer (discard (controller_reconcile observed pod_uid instance_id)).

Definition Client : Type := trace Resp * prog Resp unit.
Definition System : Type := Server * list Client.

(** A change by another writer: legal on the specification, on the same object. *)
Definition foreign (old new : TenantDatabaseCatalog) (rv : string) : Prop :=
  validate_transition old new = Ok tt ∧ tdc_status new = tdc_status old ∧ version new = Some rv.

Inductive sys_step : System → System → Prop :=
| step_start s clients p : writer p → sys_step (s, clients) (s, clients ++ [([], p)])
| step_request s s' clients i h o k r :
    clients !! i = Some (h, Vis o k) → served s o r s' →
    sys_step (s, clients) (s', <[i := (h ++ [existT o r], k r)]> clients)
| step_delayed s clients o current c :
    o ∈ sv_pending s → list.last (sv_log s) = Some current → apply (next_version s) current o = Some c →
    sys_step (s, clients) (push s c, clients)
| step_foreign s clients current c :
    list.last (sv_log s) = Some current → foreign current c (next_version s) →
    sys_step (s, clients) (push s c, clients).

(** Statuses are recorded under the logical UID they carry. *)
Definition keyed (c : TenantDatabaseCatalog) : Prop :=
  ∀ s, tdc_status c = Some s → map_Forall (λ u e, es_logical_uid e = u) (cs_entries s).

Inductive initial : System → Prop :=
| initial_intro n c : legal c → keyed c → version c = Some (pretty n) →
    initial ({| sv_base := n; sv_log := [c]; sv_pending := [] |}, []).

Definition reachable (sys : System) : Prop := ∃ sys0, initial sys0 ∧ rtc sys_step sys0 sys.

(** ** The invariant *)
Definition versions (s : Server) : Prop :=
  ∀ i c, sv_log s !! i = Some c → version c = Some (pretty (sv_base s + N.of_nat i)%N).

Definition justified (s : Server) (h : trace Resp) : Prop := ∀ c, seen h c → c ∈ sv_log s.

Record inv (sys : System) : Prop := {
  inv_versions : versions sys.1;
  inv_sound : ∀ c, c ∈ sv_log sys.1 → legal c ∧ keyed c;
  inv_chain : ∀ i old new, sv_log sys.1 !! i = Some old → sv_log sys.1 !! S i = Some new →
    validate_transition old new = Ok tt;
  inv_pending : ∀ o, o ∈ sv_pending sys.1 → ∃ h, justified sys.1 h ∧ catalog_write h o;
  inv_clients : ∀ h p, (h, p) ∈ sys.2 → justified sys.1 h ∧ wp p h catalog_write (λ _ _, True);
}.

Lemma versions_unique s c1 c2 :
  versions s → c1 ∈ sv_log s → c2 ∈ sv_log s → version c1 = version c2 → c1 = c2.
Proof.
  intros Hv [i Hi]%list_elem_of_lookup [j Hj]%list_elem_of_lookup E.
  rewrite (Hv i c1 Hi), (Hv j c2 Hj) in E. injection E as E%(inj pretty). assert (i = j) as -> by lia. congruence.
Qed.

Lemma validate_transition_spec old new new' :
  tdc_spec new' = tdc_spec new → validate_transition old new' = validate_transition old new.
Proof. intros E. unfold validate_transition, check_kept. by rewrite E. Qed.

Lemma transition_legal old new : validate_transition old new = Ok tt → legal new.
Proof.
  unfold validate_transition, legal. destruct (validate_spec (tdc_spec new)) as [[]|]; [|done].
  destruct (_ || _); [done|]. destruct (try_for _ _); [|done]. destruct (_ && _) eqn:H; [done|]. intros _.
  split; [done|]. intros Hc. rewrite Hc in H. cbn [andb] in H. apply orb_false_iff in H as [H _].
  rewrite any_false in H. intros u e He. specialize (H (u, e) (proj2 (elem_of_ordered _ _ _) He)).
  by apply negb_false_iff in H.
Qed.

Lemma transition_same c : legal c → validate_transition c c = Ok tt.
Proof.
  intros [Hs Hc]. rewrite <-(validate_transition_spec c c (with_entries c (tds_entries (tdc_spec c))))
    by (by destruct c as [? [] ?]).
  apply validate_transition_entries; [by destruct c as [? [] ?]| |].
  - intros u e He. by eapply check_kept_same.
  - intros Hcl u e He. split; [by apply (Hc Hcl u e)|by eexists].
Qed.

Lemma last_elem s c : list.last (sv_log s) = Some c → c ∈ sv_log s.
Proof. apply last_Some_elem_of. Qed.

Lemma new_status_keyed c entry_uid next status :
  keyed c → new_status c entry_uid next = Ok status → map_Forall (λ u e, es_logical_uid e = u) (cs_entries status).
Proof.
  intros Hk. assert (map_Forall (λ u e, es_logical_uid e = u)
    (cs_entries (unwrap_or default_catalog_status (tdc_status c)))) as H.
  { destruct (tdc_status c) as [s|] eqn:Hs; [by apply Hk|apply map_Forall_empty]. }
  unfold new_status. destruct next as [next|].
  - case_bool_decide as Hu; cbn [negb orb]; [|done]. destruct (is_none _); [done|]. intros [= <-]. cbn.
    by apply map_Forall_insert_2.
  - destruct (is_some _); [done|]. intros [= <-]. cbn. by apply map_Forall_delete.
Qed.

(** An accepted write was made from the current version. *)
Lemma apply_sound s h rv current o c :
  versions s → (∀ c, c ∈ sv_log s → legal c ∧ keyed c) → list.last (sv_log s) = Some current →
  justified s h → catalog_write h o → apply rv current o = Some c →
  validate_transition current c = Ok tt ∧ keyed c ∧ version c = Some rv.
Proof.
  intros Hv Hs Hlast Hj Hw Ha. pose proof (last_elem s current Hlast) as Hcur.
  destruct (Hs current Hcur) as [Hlegal Hkeyed].
  assert (Hsame : ∀ c0, seen h c0 → version c0 = version current → c0 = current).
  { intros c0 Hc0. apply (versions_unique s); auto. }
  destruct o; try done; cbn in Ha, Hw; destruct (located _ _ _); try done; cbn [andb] in Ha;
    case_bool_decide as Hver; try done; injection Ha as <-.
  - destruct Hw as (c0 & [Hseen _] & Hmeta & Hspec & Hok).
    assert (c0 = current) as -> by (apply Hsame; [done|unfold version in *; congruence]).
    split_and!; [|done|done]. rewrite <-(Hok Hlegal). by apply validate_transition_spec.
  - destruct Hw as (c0 & [Hseen _] & u & next & status & Hnew & ->).
    assert (c0 = current) as -> by (by apply Hsame).
    split_and!; [|by intros s0 [= <-]; eapply new_status_keyed|done].
    rewrite <-(transition_same current Hlegal). by apply validate_transition_spec.
  - split_and!; [| |done].
    + rewrite <-(transition_same current Hlegal). by apply validate_transition_spec.
    + intros s0 [= <-]. cbn. destruct (tdc_status current) as [st|] eqn:Hst; [by apply Hkeyed|apply map_Forall_empty].
Qed.

Lemma push_inv s clients current c :
  inv (s, clients) → list.last (sv_log s) = Some current → validate_transition current c = Ok tt → keyed c →
  version c = Some (next_version s) → inv (push s c, clients).
Proof.
  intros [Hv Hs Hch Hp Hcl] Hlast Ht Hk Hver. cbn in *.
  assert (Hmono : ∀ h, justified s h → justified (push s c) h).
  { intros h Hh c0 Hc0. cbn. apply elem_of_app. left. by apply Hh. }
  split; cbn.
  - intros i c0 [Hi|[Hi E]]%lookup_app_Some; [by apply Hv|].
    destruct (i - length (sv_log s))%nat eqn:Hd; [|done]. injection E as ->. rewrite Hver.
    unfold next_version. do 3 f_equal. lia.
  - intros c0 [H| ->%list_elem_of_singleton]%elem_of_app; [by apply Hs|]. split; [by eapply transition_legal|done].
  - intros i old new Hold Hnew. apply lookup_app_Some in Hnew as [Hnew|[Hi E]].
    + rewrite lookup_app_l in Hold by (apply lookup_lt_Some in Hnew; lia). by eapply Hch.
    + destruct (S i - length (sv_log s))%nat eqn:Hd; [|done]. injection E as <-.
      assert (i = Nat.pred (length (sv_log s))) as -> by lia.
      rewrite lookup_app_l in Hold by lia. rewrite last_lookup in Hlast. congruence.
  - intros o Ho. destruct (Hp o Ho) as (h & Hj & Hw). exists h. split; [by apply Hmono|done].
  - intros h p Hin. destruct (Hcl h p Hin). split; [by apply Hmono|done].
Qed.

Lemma served_inv s s' clients h o r :
  inv (s, clients) → justified s h → catalog_write h o → served s o r s' →
  inv (s', clients) ∧ justified s' (h ++ [existT o r]).
Proof.
  intros Hinv Hj Hw Hserved. pose proof Hinv as [Hv Hs Hch Hp Hcl].
  assert (Hplain : plain_reply s o r → justified s (h ++ [existT o r])).
  { intros Hr c [Hc|Hc]%catalog_seen_snoc; [by apply Hj|].
    destruct o; cbn in Hr, Hc; try by apply not_elem_of_nil in Hc.
    all: destruct r as [x|]; try destruct x as [x|]; try by apply not_elem_of_nil in Hc.
    all: try (apply list_elem_of_singleton in Hc as ->; by apply Hr). all: done. }
  destruct Hserved as [Hr|Hr|current c Hlast Ha Hr].
  - split; [done|by apply Hplain].
  - split; [|by apply Hplain]. split; try done. cbn. intros o' [->|Ho']%elem_of_cons; [by exists h|by apply Hp].
  - destruct (apply_sound s h _ current o c Hv Hs Hlast Hj Hw Ha) as (Ht & Hk & Hver).
    split; [by eapply push_inv|]. intros c0 [Hc|Hc]%catalog_seen_snoc; cbn; apply elem_of_app; [left; by apply Hj|right].
    destruct o; cbn in Hr; try done; subst r; exact Hc.
Qed.

Lemma respects_discard {A} (p : prog Resp A) : respects p → wp (discard p) [] catalog_write (λ _ _, True).
Proof. intros Hp. apply wp_bind. eapply wp_post; [apply Hp|]. done. Qed.

Lemma writer_respects p : writer p → wp p [] catalog_write (λ _ _, True).
Proof.
  assert (Hnil : attempts_conflicted []) by constructor.
  intros [tenant request u Hu|tenant request|observed pod inst].
  - apply wp_bind. eapply wp_mono; [apply add_write_legal| |by apply wp_add]. done.
  - apply wp_bind. eapply wp_mono; [apply delete_write_legal| |by apply wp_delete]. done.
  - apply respects_discard, respects_reconcile.
    + intros c b. exact (ProviderSafety.respects_provider_reconcile _ _ (SP := LocalSafety.local_safe) c b).
    + intros c b. exact (ProviderSafety.respects_provider_reconcile _ _ (SP := AzureSafety.azure_safe) c b).
Qed.

Lemma entries_step_inv sys sys' : inv sys → sys_step sys sys' → inv sys'.
Proof.
  intros Hinv Hstep. destruct Hstep as [s clients p Hp|s s' clients i h o k r Hi Hs|s clients o current c Ho Hlast Ha
    |s clients current c Hlast (Ht & Hst & Hver)].
  - destruct Hinv as [Hv Hs Hch Hpe Hcl]. split; try done. cbn in *. intros h p' [Hin|Hin]%elem_of_app; [by apply Hcl|].
    apply list_elem_of_singleton in Hin as [= -> ->]. split; [|by apply writer_respects].
    intros c (e & He & _). by apply not_elem_of_nil in He.
  - destruct (inv_clients _ Hinv h (Vis o k)) as [Hj [Ho Hk]]; [by eapply list_elem_of_lookup_2|].
    destruct (served_inv s s' clients h o r Hinv Hj Ho Hs) as [Hinv' Hj'].
    destruct Hinv' as [Hv Hs' Hch Hpe Hcl]. split; try done. cbn in *. intros h' p' Hin.
    apply elem_of_updated in Hin as [[= -> ->]|Hin]; [by split|by apply Hcl].
  - destruct (inv_pending _ Hinv o Ho) as (h & Hj & Hw). pose proof Hinv as [Hv Hs _ _ _].
    destruct (apply_sound s h _ current o c Hv Hs Hlast Hj Hw Ha) as (Ht & Hk & Hver). by eapply push_inv.
  - eapply push_inv; [done|done|done| |done]. intros st. rewrite Hst.
    apply (inv_sound _ Hinv current), last_elem, Hlast.
Qed.

Lemma entries_reachable_inv sys : reachable sys → inv sys.
Proof.
  intros (sys0 & [n c Hl Hk Hv] & Hsteps). cut (inv ({| sv_base := n; sv_log := [c]; sv_pending := [] |}, [])).
  { clear Hv. induction Hsteps as [|x y z Hs _ IH]; [done|]. intros Hx. by apply IH, (entries_step_inv x). }
  split; cbn.
  - intros [|i] c' [= <-]. by rewrite Hv, N.add_0_r.
  - by intros c' ->%list_elem_of_singleton.
  - by intros [|i].
  - by intros o ?%not_elem_of_nil.
  - by intros h p ?%not_elem_of_nil.
Qed.

(** ** Entries *)

(** The entry as it was, its deletion possibly requested. *)
Definition continues (e e' : CatalogEntry) : Prop :=
  en_name e' = en_name e ∧ en_instances e' = en_instances e ∧ (en_deleting e = true → en_deleting e' = true).

(** The entry is being deleted and its status proves that nothing of it is left. *)
Definition proved_gone (c : TenantDatabaseCatalog) (u : string) : Prop :=
  ∃ e s state, tds_entries (tdc_spec c) !! u = Some e ∧ en_deleting e = true ∧ tdc_status c = Some s ∧
    cs_entries s !! u = Some state ∧ terminal_proof u state = true.

Lemma check_kept_entry old new u e :
  tds_entries (tdc_spec old) !! u = Some e → check_kept old new (u, e) = Ok tt →
  (∃ e', tds_entries (tdc_spec new) !! u = Some e' ∧ continues e e') ∨ proved_gone old u.
Proof.
  intros He. unfold check_kept. destruct (tds_entries (tdc_spec new) !! u) as [e'|] eqn:He'.
  - destruct (_ || _) eqn:H; [done|]. intros _. left. exists e'. split; [done|]. bool_hyp.
    split_and!; [done..|]. intros Hd. rewrite Hd in *. by destruct (en_deleting e').
  - destruct (_ || _) eqn:H; [done|]. intros _. right. bool_hyp.
    destruct (tdc_status old) as [s|] eqn:Hs; [|done]. exists e, s. by eexists.
Qed.

Lemma transition_entry old new u e :
  validate_transition old new = Ok tt → tds_entries (tdc_spec old) !! u = Some e →
  (∃ e', tds_entries (tdc_spec new) !! u = Some e' ∧ continues e e') ∨ proved_gone old u.
Proof.
  intros Ht He. apply check_kept_entry; [done|]. unfold validate_transition in Ht.
  destruct (validate_spec _); [|done]. destruct (_ || _); [done|].
  destruct (try_for _ _) as [[]|] eqn:Hf; [|done]. rewrite try_for_Ok in Hf. by apply Hf, elem_of_ordered.
Qed.

(** C12. However additions, deletions and reconciliations interleave, and
    whichever writes are delayed or lose their answer, every version of the
    catalog that is ever stored satisfies the CRD's rules (at most three
    entries, unique valid names, only deletions once closed) with statuses
    under their own logical UID, every stored version is a legal transition of
    the one before, and a database that was once in the catalog stays, with
    its name and size and never undeleted, unless an earlier stored version
    proves its deletion complete. *)
Theorem entries_never_lost sys :
  reachable sys →
  (∀ c, c ∈ sv_log sys.1 → crd_spec_rules (tdc_spec c) ∧ closed_rule (tdc_spec c) ∧ keyed c) ∧
  (∀ i old new, sv_log sys.1 !! i = Some old → sv_log sys.1 !! S i = Some new →
     validate_transition old new = Ok tt) ∧
  (∀ i j ci cj u e, (i ≤ j)%nat → sv_log sys.1 !! i = Some ci → sv_log sys.1 !! j = Some cj →
     tds_entries (tdc_spec ci) !! u = Some e →
     (∃ e', tds_entries (tdc_spec cj) !! u = Some e' ∧ continues e e') ∨
     ∃ k ck, (i ≤ k < j)%nat ∧ sv_log sys.1 !! k = Some ck ∧ proved_gone ck u).
Proof.
  intros Hr. apply entries_reachable_inv in Hr as [Hv Hs Hch _ _]. split_and!; [|exact Hch|].
  - intros c Hc. destruct (Hs c Hc) as [[Hspec Hcl] Hk]. by apply validate_spec_crd in Hspec.
  - intros i j ci cj u e Hij Hi Hj He. revert cj Hj. induction Hij as [|j Hij IH]; intros cj Hj.
    { left. exists e. rewrite Hi in Hj. injection Hj as <-. done. }
    destruct (lookup_lt_is_Some_2 (sv_log sys.1) j) as [ck Hk]; [apply lookup_lt_Some in Hj; lia|].
    destruct (IH ck Hk) as [(e1 & He1 & Hn1 & Hi1 & Hd1)|(k & c' & Hkr & Hc')]; [|right; exists k, c'; split; [lia|done]].
    destruct (transition_entry ck cj u e1 (Hch j ck cj Hk Hj) He1) as [(e2 & He2 & Hn2 & Hi2 & Hd2)|Hgone].
    + left. exists e2. split; [done|]. split_and!; [congruence..|auto].
    + right. exists j, ck. by split; [lia|].
Qed.

End System.

(** ** An execution: an addition and then a deletion request, one after the other *)
Module EntriesFixture.
Import MutationFixture.

#[export] Existing Instances Concrete.cidr_ops Concrete.hex_ops witness_spec_json Foundation.Fixture.json AzureFixture.json.

Definition refuse : KubeError := KubeApi 409 "Conflict" "the object has been modified".

Definition write (s : Server) (o : Op) : result KubeError TenantDatabaseCatalog * Server :=
  match list.last (sv_log s) with
  | None => (Err refuse, s)
  | Some current =>
      match apply (next_version s) current o with
      | Some c => (Ok c, push s c)
      | None => (Err refuse, s)
      end
  end.

Definition serve (s : Server) (o : Op) : Resp o * Server :=
  match o return Resp o * Server with
  | GetCatalog _ _ => (Ok (list.last (sv_log s)), s)
  | ReplaceCatalog ns nm obj => write s (ReplaceCatalog ns nm obj)
  | o => (answers o, s)
  end.

Lemma serve_served s o : served s o (serve s o).1 (serve s o).2.
Proof.
  destruct o; try by apply served_plain.
  - apply served_plain. cbn. intros c [= Hc]. by apply last_elem.
  - cbn. unfold write. destruct (list.last (sv_log s)) as [current|] eqn:Hl; [|by apply served_plain].
    destruct (apply _ _ _) as [c|] eqn:Ha; [|by apply served_plain]. by eapply served_stored.
Qed.

(** A client runs to its end, on any such server. *)
Section Alone.
Context (reply_of : ∀ (s : Server) (o : Op), Resp o * Server)
  (Hserved : ∀ s o, served s o (reply_of s o).1 (reply_of s o).2).

Lemma run_alone (p : prog Resp unit) h s clients i :
  clients !! i = Some (h, p) → ∃ clients', rtc sys_step (s, clients) ((exec reply_of p s).2, clients').
Proof.
  revert h s clients. induction p as [a|o k IH]; intros h s clients Hi; cbn [exec]; [by eexists|].
  pose proof (Hserved s o) as Hs. destruct (reply_of s o) as [r s']. cbn in Hs.
  destruct (IH r (h ++ [existT o r]) s' (<[i := (h ++ [existT o r], k r)]> clients)) as [clients' H].
  { apply list_lookup_insert_eq. by eapply lookup_lt_Some. }
  exists clients'. eapply rtc_l; [by eapply step_request|exact H].
Qed.

Lemma start_alone p s clients :
  writer p → ∃ clients', rtc sys_step (s, clients) ((exec reply_of p s).2, clients').
Proof.
  intros Hp. destruct (run_alone p [] s (clients ++ [([], p)]) (length clients)) as [clients' H].
  { by rewrite lookup_app_r, Nat.sub_diag by done. }
  exists clients'. eapply rtc_l; [by apply step_start|exact H].
Qed.
End Alone.

Definition server0 : Server := {| sv_base := 0; sv_log := [catalog]; sv_pending := [] |}.
Definition server1 : Server := (exec serve (discard (add tenant added uid1)) server0).2.
Definition server2 : Server := (exec serve (discard (delete tenant removed)) server1).2.
End EntriesFixture.

Import EntriesFixture.

Lemma fixture_reachable : ∃ clients, reachable (EntriesFixture.server2, clients).
Proof.
  destruct (EntriesFixture.start_alone serve serve_served _ EntriesFixture.server0 []
    (writer_add MutationFixture.tenant MutationFixture.added MutationFixture.uid1 eq_refl)) as [clients1 H1].
  destruct (EntriesFixture.start_alone serve serve_served _ EntriesFixture.server1 clients1
    (writer_delete MutationFixture.tenant MutationFixture.removed)) as [clients2 H2].
  exists clients2, (EntriesFixture.server0, []). split.
  - apply (initial_intro 0 MutationFixture.catalog); [split|..]; [vm_compute; reflexivity|done|done|done].
  - etrans; [exact H1|exact H2].
Qed.

Lemma entries_never_lost_witness :
  length (sv_log EntriesFixture.server2) = 3%nat ∧
  ∃ c e', sv_log EntriesFixture.server2 !! 2%nat = Some c ∧ crd_spec_rules (tdc_spec c) ∧
    tds_entries (tdc_spec c) !! CatalogFixture.uid0 = Some e' ∧
    continues (CatalogFixture.entry false) e' ∧ en_deleting e' = true.
Proof.
  destruct fixture_reachable as [clients H].
  destruct (entries_never_lost _ H) as (Hrules & _ & Hlife). cbn [fst] in *.
  split; [vm_compute; reflexivity|].
  destruct (sv_log EntriesFixture.server2 !! 2%nat) as [c|] eqn:Hc; [|exfalso; vm_compute in Hc; discriminate].
  assert (He : tds_entries (tdc_spec c) !! CatalogFixture.uid0 = Some (CatalogFixture.entry true))
    by (vm_compute in Hc; injection Hc as <-; vm_compute; reflexivity).
  exists c, (CatalogFixture.entry true). split_and!; [done| |done| |done].
  - apply Hrules. by eapply list_elem_of_lookup_2.
  - destruct (Hlife 0%nat 2%nat MutationFixture.catalog c CatalogFixture.uid0 (CatalogFixture.entry false))
      as [(e' & He' & Hcont)|(k & ck & Hk & Hck & e & s & st & _ & _ & Hs & _)]; [lia|reflexivity|done|reflexivity| |].
    + rewrite He in He'. by injection He' as <-.
    + exfalso. assert (k = 0 ∨ k = 1)%nat as [-> | ->] by lia; vm_compute in Hck; injection Hck as <-; done.
Defined.
