(* ===== verification/CatalogEvidence.v ===== *)
(** * A database is forgotten only when it is gone

    The system of [CatalogEntries], with what the clients observed: whenever a
    stored status says that a database is gone, a reconciliation saw everything
    of it gone before the status was written. *)

From stdpp Require Import relations.
From S2P Require Import Prelude RustStd Externals Kube Errors Api Foundation Effects DatabaseApi CatalogOps.
From S2P Require Import AdminCatalog DatabaseStatus DatabaseResources AzureConfig CatalogWriters DatabaseSteps DatabaseSafety ProviderSafety CatalogEntries.
From S2P Require LocalDatabase AzureDatabase LocalSafety AzureSafety.

#[local] Arguments wp : simpl never.
#[local] Arguments bind : simpl never.

Section Evidence.
Context `{SO : Sha256Ops, NO : Ipv4NetOps, SJ : SpecJson, FJ : FoundationJson, AJ : AzureConfigJson}.

(** A reconciliation of the catalog saw everything of the database gone, with
    the access of one of the providers. *)
Definition shown_gone (h : trace Resp) (u : string) : Prop :=
  ∃ t creating c, tg_uid t = u ∧ target_known h t creating c ∧
    ((∃ access, access_known LocalSafety.local_contract h t access ∧ LocalSafety.local_gone access t h) ∨
     (∃ access, access_known AzureSafety.azure_contract h t access ∧ AzureSafety.azure_gone access t h)).

(** The catalog records that the database is gone. *)
Definition records_gone (c : TenantDatabaseCatalog) (u : string) : Prop :=
  ∃ st, entry_status c u = Some st ∧ claims_gone st = true.

(** A status that says so is written over a version that says so, or after it
    was seen. *)
Definition evident (h : trace Resp) (o : Op) : Prop :=
  match o with
  | ReplaceCatalogStatus ns nm obj =>
      ∀ u, records_gone obj u → (∃ c, seen h c ∧ version c = version obj ∧ records_gone c u) ∨ shown_gone h u
  | _ => True
  end.

Definition writes_status (o : Op) : bool := match o with ReplaceCatalogStatus _ _ _ => true | _ => false end.

Lemma evident_quiet h o : writes_status o = false → evident h o.
Proof. by destruct o. Qed.
Lemma evident_reading h o : reading o → evident h o.
Proof. by destruct o. Qed.

(** The status of one entry is written; the others stay. *)
Lemma evident_update h c u next status ns nm :
  read_version h c → new_status c u next = Ok status →
  (∀ st, next = Some st → claims_gone st = true →
     (∃ c0, seen h c0 ∧ version c0 = version c ∧ records_gone c0 u) ∨ shown_gone h u) →
  evident h (ReplaceCatalogStatus ns nm (with_status c status)).
Proof.
  intros [Hc _] Hs Hnext v (st & Hst & Hgone). unfold entry_status in Hst. cbn in Hst.
  assert (Hother : ∀ st0, cs_entries (unwrap_or default_catalog_status (tdc_status c)) !! v = Some st0 → st0 = st →
    ∃ c0, seen h c0 ∧ version c0 = version (with_status c status) ∧ records_gone c0 v).
  { intros st0 H0 ->. exists c. split_and!; [done|done|]. exists st. split; [|done]. unfold entry_status.
    by destruct (tdc_status c). }
  unfold new_status in Hs. destruct next as [next|]; destruct (_ || _) eqn:Hb in Hs || destruct (is_some _) eqn:Hb in Hs; try done;
    injection Hs as <-; cbn in Hst.
  - apply lookup_insert_Some in Hst as [[<- <-]|[Hne Hst]]; [|left; by eapply Hother].
    by apply (Hnext next).
  - apply lookup_delete_Some in Hst as [_ Hst]. left. by eapply Hother.
Qed.

Lemma provider_evident {Access} (ct : Contract (Access := Access)) h o :
  (∀ access t creating c, target_known h t creating c → access_known ct h t access → ct_gone ct access t h →
     shown_gone h (tg_uid t)) →
  provider_op ct h o → evident h o.
Proof.
  intros Hgone [Hr|[Hd|(access & t & creating & c & Ht & Ha & Ho)]]; [by apply evident_reading|..]; destruct o; try done.
  - destruct Hd as (c & u & status & Hr & Hs & ->). by eapply evident_update.
  - destruct Ho as (c0 & status & next & Hr & Hs & -> & _ & _ & Hterm). eapply evident_update; [done..|].
    intros st [= <-] Hc. destruct (Hterm Hc) as [(c1 & st1 & ? & ? & ? & ?)|Hg]; [left|right; by eapply Hgone].
    exists c1. split_and!; [done|done|by exists st1].
Qed.

Lemma local_evident c b h : wp (LocalDatabase.reconcile c b) h evident (λ _ _, True).
Proof.
  eapply wp_mono; [|done|exact (wp_provider_reconcile _ _ (SP := LocalSafety.local_safe) c b h)].
  intros h' o. apply provider_evident. intros access t creating c' Ht Ha Hg. exists t, creating, c'.
  split_and!; [done..|]. left. by exists access.
Qed.
Lemma azure_evident c b h : wp (AzureDatabase.azure_reconcile c b) h evident (λ _ _, True).
Proof.
  eapply wp_mono; [|done|exact (wp_provider_reconcile _ _ (SP := AzureSafety.azure_safe) c b h)].
  intros h' o. apply provider_evident. intros access t creating c' Ht Ha Hg. exists t, creating, c'.
  split_and!; [done..|]. right. by exists access.
Qed.

(** Programs that write no status. *)
#[local] Hint Extern 1 (writes_status _ = false) => reflexivity : permits.
#[local] Notation stays := (within (λ o, writes_status o = false)).

Lemma stays_evident {A} (p : prog Resp A) h : stays p → wp p h evident (λ _ _, True).
Proof. intros Hp. eapply wp_mono; [|done|apply Hp]. intros h' o. apply evident_quiet. Qed.

Lemma stays_verify_current c : stays (verify_current c).
Proof. unfold verify_current, api. walk. Qed.
#[local] Hint Resolve stays_verify_current : permits.
Lemma stays_record_observer c pod inst : stays (record_observer c pod inst).
Proof. unfold record_observer, api. walk. Qed.
#[local] Hint Resolve stays_record_observer : permits.
Lemma stays_observe c pod inst : stays (observe c pod inst).
Proof. unfold observe. walk. Qed.

Lemma controller_evident c pod inst h : wp (controller_reconcile c pod inst) h evident (λ _ _, True).
Proof.
  unfold controller_reconcile, reconcile, api. apply wp_bind. eapply wp_post; [apply stays_evident, stays_verify_current|].
  intros h1 [current|] _; [|done]. destruct (empty_catalog current); [apply stays_evident, stays_observe|].
  destruct (observer_epoch_changed _ _ _) as [replay|]; [|done]. request; [done|].
  destruct reply as [tenant|]; cbn [map_err]; [|done]. destruct (field _ _) as [provider|]; [|done]. apply wp_bind.
  eapply (wp_post _ _ _ (λ _ _, True)).
  { destruct (bool_decide _); [apply local_evident|]. destruct (bool_decide _); [apply azure_evident|done]. }
  intros h3 [[action verified]|] _; [|done]. destruct (has_issued_intents verified); [done|].
  destruct (observer_needs_refresh _ _ _) as [[]|]; [|done..].
  apply wp_bind. eapply wp_post; [apply stays_evident, stays_record_observer|]. by intros h4 [] _.
Qed.

Lemma writer_evident p : writer p → wp p [] evident (λ _ _, True).
Proof.
  assert (Hnil : attempts_conflicted []) by constructor.
  intros [tenant request u Hu|tenant request|observed pod inst]; apply wp_bind; (eapply wp_post; [|done]).
  - eapply wp_mono; [|done|by apply wp_add]. by intros h' [].
  - eapply wp_mono; [|done|by apply wp_delete]. by intros h' [].
  - apply controller_evident.
Qed.

(** ** The invariant *)
Lemma shown_gone_app h g u : shown_gone h u → shown_gone (h ++ g) u.
Proof.
  intros (t & creating & c & <- & Ht & H). exists t, creating, c. split_and!; [done|by apply target_known_app|].
  destruct H as [(access & Ha & Hg)|(access & Ha & Hg)]; [left|right]; exists access.
  - split; [by apply (access_known_app _ _ (SP := LocalSafety.local_safe))|by apply LocalSafety.local_gone_app].
  - split; [by apply (access_known_app _ _ (SP := AzureSafety.azure_safe))|by apply AzureSafety.azure_gone_app].
Qed.

(** One of the clients saw that the database is gone. *)
Definition client_saw (clients : list Client) (u : string) : Prop := ∃ h p, (h, p) ∈ clients ∧ shown_gone h u.

(** The first stored catalog already recorded it. *)
Definition recorded_first (s : Server) (u : string) : Prop := ∃ c, head (sv_log s) = Some c ∧ records_gone c u.

Record evidence_inv (sys : System) : Prop := {
  ev_log : ∀ c u, c ∈ sv_log sys.1 → records_gone c u → recorded_first sys.1 u ∨ client_saw sys.2 u;
  ev_pending : ∀ o, o ∈ sv_pending sys.1 →
    ∃ h, justified sys.1 h ∧ evident h o ∧ ∀ u, shown_gone h u → client_saw sys.2 u;
  ev_clients : ∀ h p, (h, p) ∈ sys.2 → wp p h evident (λ _ _, True);
}.

(** What an accepted write stores is backed by what it was made from. *)
Lemma apply_records s h rv current o c u :
  versions s → list.last (sv_log s) = Some current → justified s h → evident h o →
  CatalogEntries.apply rv current o = Some c → records_gone c u → records_gone current u ∨ shown_gone h u.
Proof.
  intros Hv Hlast Hj He Ha (st & Hst & Hg). pose proof (last_elem s current Hlast) as Hcur.
  destruct o; try done; cbn in Ha; destruct (located _ _ _); try done; cbn [andb] in Ha;
    case_bool_decide as Hver; try done; injection Ha as <-.
  - left. by exists st.
  - destruct (He u) as [(c0 & Hc0 & Hv0 & Hr)|]; [by exists st| |by right]. left.
    assert (c0 = current) as -> by (apply (versions_unique s); [done|by apply Hj|done|congruence]). done.
  - left. exists st. split; [|done]. unfold entry_status in *. cbn in Hst. by destruct (tdc_status current).
Qed.

Lemma push_evidence s clients c :
  evidence_inv (s, clients) →
  (∀ u, records_gone c u → recorded_first s u ∨ client_saw clients u) → evidence_inv (push s c, clients).
Proof.
  intros [Hlog Hpend Hcl] Hc. cbn in *.
  assert (Hfirst : ∀ u, recorded_first s u → recorded_first (push s c) u).
  { intros u (c0 & H0 & ?). exists c0. split; [|done]. cbn. by destruct (sv_log s). }
  split; cbn; [| |done].
  - intros c0 u [H0| ->%list_elem_of_singleton]%elem_of_app Hr;
      [destruct (Hlog c0 u H0 Hr)|destruct (Hc u Hr)]; auto.
  - intros o Ho. destruct (Hpend o Ho) as (h & Hj & ?). exists h. split; [|done]. intros c0 H0. cbn. apply elem_of_app. left. auto.
Qed.

(** Clients only learn. *)
Definition grows (clients clients' : list Client) : Prop := ∀ u, client_saw clients u → client_saw clients' u.

Lemma evidence_grows s clients clients' :
  evidence_inv (s, clients) → grows clients clients' →
  (∀ h p, (h, p) ∈ clients' → wp p h evident (λ _ _, True)) → evidence_inv (s, clients').
Proof.
  intros [Hlog Hpend _] Hg Hcl. split; cbn; [| |done].
  - intros c u Hc Hr. destruct (Hlog c u Hc Hr); auto.
  - intros o Ho. destruct (Hpend o Ho) as (h & ? & ? & Hs). exists h. split_and!; auto.
Qed.

Lemma client_step_grows clients i h p e p' :
  clients !! i = Some (h, p) → grows clients (<[i := (h ++ [e], p')]> clients).
Proof.
  intros Hi u (h0 & p0 & [j Hj]%list_elem_of_lookup & Hs). destruct (decide (i = j)) as [<-|Hne].
  - pose proof (eq_trans (eq_sym Hi) Hj) as [= <- <-]. exists (h ++ [e]), p'. split; [|by apply shown_gone_app].
    eapply list_elem_of_lookup_2, list_lookup_insert_eq. by eapply lookup_lt_Some.
  - exists h0, p0. split; [|done]. eapply (list_elem_of_lookup_2 _ j). by rewrite list_lookup_insert_ne.
Qed.

Lemma evidence_step sys sys' : inv sys → evidence_inv sys → sys_step sys sys' → evidence_inv sys'.
Proof.
  intros Hinv Hev Hstep. pose proof (inv_versions _ Hinv) as Hv.
  destruct Hstep as [s clients p Hp|s s' clients i h o k r Hi Hs|s clients o current c Ho Hlast Ha
    |s clients current c Hlast (Ht & Hst & Hver)].
  - eapply evidence_grows; [done| |].
    + intros u (h & p0 & ? & ?). exists h, p0. split; [|done]. apply elem_of_app. by left.
    + intros h p0 [H|[= -> ->]%list_elem_of_singleton]%elem_of_app; [by apply (ev_clients _ Hev)|by apply writer_evident].
  - pose proof (list_elem_of_lookup_2 _ _ _ Hi) as Hin. destruct (ev_clients _ Hev _ _ Hin) as [He Hk].
    destruct (inv_clients _ Hinv _ _ Hin) as [Hj _]. set (clients' := <[i := (h ++ [existT o r], k r)]> clients).
    assert (Hg : grows clients clients') by (by eapply client_step_grows).
    assert (Hsaw : ∀ u, shown_gone h u → client_saw clients' u) by (intros u Hu; apply Hg; by exists h, (Vis o k)).
    assert (evidence_inv (s, clients')) as Hev'.
    { eapply evidence_grows; [done..|]. intros h0 p0 [[= -> ->]|H]%elem_of_updated; [apply Hk|by apply (ev_clients _ Hev)]. }
    destruct Hs as [Hr|Hr|current c Hlast Ha Hr]; [done|..].
    + destruct Hev' as [Hlog Hpend Hcl]. split; cbn; [done| |done].
      intros o' [->|Ho']%elem_of_cons; [by exists h|by apply Hpend].
    + apply push_evidence; [done|]. intros u Hu.
      destruct (apply_records s h _ current o c u Hv Hlast Hj He Ha Hu); [|right; by apply Hsaw].
      apply (ev_log _ Hev' current); [by apply last_elem|done].
  - destruct (ev_pending _ Hev o Ho) as (h & Hj & He & Hsaw). apply push_evidence; [done|]. intros u Hu.
    destruct (apply_records s h _ current o c u Hv Hlast Hj He Ha Hu); [|right; by apply Hsaw].
    apply (ev_log _ Hev current); [by apply last_elem|done].
  - apply push_evidence; [done|]. intros u (st & Hs & Hg). apply (ev_log _ Hev current); [by apply last_elem|].
    exists st. split; [|done]. unfold entry_status in *. by rewrite <-Hst.
Qed.

Lemma evidence_reachable sys : reachable sys → inv sys ∧ evidence_inv sys.
Proof.
  intros Hr. split; [by apply entries_reachable_inv|]. destruct Hr as (sys0 & H0 & Hsteps).
  assert (inv sys0) as Hinv by (apply entries_reachable_inv; by exists sys0).
  cut (evidence_inv sys0).
  { clear H0. induction Hsteps as [|x y z Hs _ IH]; [done|]. intros Hx.
    apply IH; [by apply (entries_step_inv x)|by apply (evidence_step x)]. }
  destruct H0 as [n c _ _ _]. split; cbn.
  - intros c0 u ->%list_elem_of_singleton Hc. left. by exists c.
  - by intros o ?%not_elem_of_nil.
  - by intros h p ?%not_elem_of_nil.
Qed.

Lemma proved_gone_records c u : proved_gone c u → records_gone c u.
Proof.
  intros (e & st & state & _ & _ & Hs & Hst & Hp). exists state. unfold entry_status. rewrite Hs. split; [done|].
  by eapply terminal_proof_claims.
Qed.

(** An entry that is there and later is not was proved gone in between. *)
Lemma first_removal sys i j ci cj u :
  inv sys → (i ≤ j)%nat → sv_log sys.1 !! i = Some ci → sv_log sys.1 !! j = Some cj →
  is_Some (tds_entries (tdc_spec ci) !! u) → tds_entries (tdc_spec cj) !! u = None →
  ∃ k ck, sv_log sys.1 !! k = Some ck ∧ proved_gone ck u.
Proof.
  intros Hinv Hij Hi. revert cj. induction Hij as [|j Hij IH]; intros cj Hj He Hnone.
  { rewrite Hi in Hj. injection Hj as <-. rewrite Hnone in He. by destruct He. }
  destruct (lookup_lt_is_Some_2 (sv_log sys.1) j) as [ck Hk]; [apply lookup_lt_Some in Hj; lia|].
  destruct (tds_entries (tdc_spec ck) !! u) as [e|] eqn:Hck; [|by eapply IH].
  destruct (transition_entry ck cj u e (inv_chain _ Hinv j ck cj Hk Hj) Hck) as [(e' & He' & _)|Hg]; [congruence|].
  by exists j, ck.
Qed.
End Evidence.

(** C16. An entry disappears from the stored catalogs only if the catalog that was
    stored first already recorded its deletion as complete, or if one
    reconciliation of the database controller, with the access it loaded for
    this catalog, saw everything of the database gone: the PostgreSQL cluster,
    its secret, claims, volumes and namespace, and every directory of a local
    database or every managed disk of an Azure database, with no creation left
    whose outcome is unknown.  This holds for every interleaving of additions,
    deletions and reconciliations, and with delayed writes. *)
Theorem entries_removed_only_gone `{SO : Sha256Ops, NO : Ipv4NetOps, SJ : SpecJson, FJ : FoundationJson, AJ : AzureConfigJson}
    sys i j ci cj u :
  reachable sys → (i ≤ j)%nat → sv_log sys.1 !! i = Some ci → sv_log sys.1 !! j = Some cj →
  is_Some (tds_entries (tdc_spec ci) !! u) → tds_entries (tdc_spec cj) !! u = None →
  recorded_first sys.1 u ∨ client_saw sys.2 u.
Proof.
  intros Hr Hij Hi Hj He Hnone. apply evidence_reachable in Hr as [Hinv Hev].
  destruct (first_removal sys i j ci cj u Hinv Hij Hi Hj He Hnone) as (k & ck & Hk & Hgone).
  apply (ev_log _ Hev ck); [by eapply list_elem_of_lookup_2|]. by apply proved_gone_records.
Qed.

(** ** An execution: a database of which nothing exists is deleted *)
Module DeletionFixture.
Import MutationFixture EntriesFixture.

Definition tenant_value : Value := VObject [
  ("spec", VObject [("provider", VObject [("type", VString "local")])]);
  ("status", VObject [("catalogCreateIntent", VObject [("namespace", VString "tenant-db-tenant-a");
    ("name", VString "tenant-a"); ("tenantUID", VString "tenant-uid")])])].

Definition dynamic (types : TypeMeta) (m : ObjectMeta) (v : Value) : DynamicObject :=
  {| dyn_types := Some types; dyn_meta := m; dyn_data := v |}.

Definition local_tenant : Tenant := {|
  tenant_meta := tenant_meta tenant;
  tenant_spec := {| kubernetes_version := "1.36.4"; workers := 1; provider := SpecLocal |};
  tenant_status := option_map (λ st, {|
    observed_generation := observed_generation st; phase := phase st; conditions := conditions st;
    database_capability := database_capability st; catalog_create_intent := None;
    provider_status := Some (StatusLocal {|
      local_allocation := Some {| slot_id := "tenant-00"; endpoint := "172.18.255.223"; pod_cidr := "10.73.0.0/16";
                                  service_cidr := "10.143.0.0/16" |};
      local_foundation_hash := Some Foundation.Fixture.hash; local_cluster_uid := Some "tenant-uid" |}) |})
    (tenant_status tenant) |}.

Definition identity : Ownership.Identity :=
  TenantAccess.identity_of catalog local_tenant "tenant-uid" Foundation.Fixture.hash Foundation.Fixture.foundation.

Definition root (resource : string) (owners : option (list OwnerReference)) : ObjectMeta := {|
  name := Some "tenant-a"; namespace := Some "tenant-a"; uid := Some "tenant-uid"; resource_version := Some "1";
  generation := Some 1; labels := Some {["example.io/owned" := "example"]};
  annotations := Some (Ownership.identity_annotations identity resource); owner_references := owners;
  finalizers := None; deletion_timestamp := None |}.

Definition cluster_owner : OwnerReference := {|
  owner_api_version := "cluster.x-k8s.io/v1beta2"; owner_kind := "Cluster"; owner_name := "tenant-a";
  owner_uid := "tenant-uid"; owner_controller := Some true; owner_block_deletion := None |}.

Definition storage_volume (nm : string) : Docker.DockerVolume := {|
  Docker.dv_name := nm; Docker.dv_created_at := "now"; Docker.dv_mountpoint := "/var/lib/docker/volumes/" +:+ nm +:+ "/_data";
  Docker.dv_labels := TenantAccess.storage_labels identity "tenant-a" |}.

Definition answers (o : Op) : Resp o :=
  match o return Resp o with
  | ReadTenant _ => Ok (dynamic {| tm_api_version := TENANT_API_VERSION; tm_kind := "Tenant" |} (meta "tenant-a") tenant_value)
  | ReadNamespace nm => Ok {| ns_meta := meta nm |}
  | GetTenant _ => Ok local_tenant
  | ReadConfigMap _ _ => Ok {| cm_meta := meta "tenant-foundation";
      cm_data := Some {["foundation.json" := "{}"; "foundation.sha256" := Foundation.Fixture.hash]} |}
  | ReadManaged a nm =>
      Ok (dynamic {| tm_api_version := ah_version a; tm_kind := ah_kind a |}
            (if ah_kind a == "Cluster" then root "cluster" None
             else root "kamaji-control-plane" (Some [cluster_owner])) VNull)
  | LoadTenantClient _ _ _ _ => Ok tt
  | ConnectDocker _ => Ok tt
  | InspectVolume nm => Ok (Some (storage_volume nm))
  | FindObject _ _ => Ok None
  | PathInspect _ _ _ _ => Ok false
  | PathEntryAbsent _ _ _ => Ok true
  | Now => 7
  | o => refusal o (KubeOther "")
  end.

Definition serve (s : Server) (o : Op) : Resp o * Server :=
  match o return Resp o * Server with
  | ReadCatalog _ _ => (match list.last (sv_log s) with Some c => Ok c | None => Err refuse end, s)
  | ReplaceCatalog ns nm obj => write s (ReplaceCatalog ns nm obj)
  | ReplaceCatalogStatus ns nm obj => write s (ReplaceCatalogStatus ns nm obj)
  | PatchObserver ns nm rv receipt => write s (PatchObserver ns nm rv receipt)
  | o => (answers o, s)
  end.

Lemma deletion_served s o : served s o (serve s o).1 (serve s o).2.
Proof.
  destruct o; try by apply served_plain.
  2:{ apply served_plain. cbn. destruct (list.last (sv_log s)) eqn:Hl; [|done]. intros c' [= <-]. by apply last_elem. }
  all: cbn; unfold write; destruct (list.last (sv_log s)) as [current|] eqn:Hl; [|by apply served_plain];
    destruct (CatalogEntries.apply _ _ _) as [c|] eqn:Ha; [|by apply served_plain]; by eapply served_stored.
Qed.

Definition start : TenantDatabaseCatalog := {|
  tdc_meta := tdc_meta catalog;
  tdc_spec := {| tds_tenant_name := "tenant-a"; tds_tenant_uid := "tenant-uid"; tds_closed := false;
                 tds_entries := {[CatalogFixture.uid0 := CatalogFixture.entry true]} |};
  tdc_status := None |}.

Definition pass (s : Server) : Server := (exec serve (discard (controller_reconcile start "pod" "instance")) s).2.
Definition server0 : Server := {| sv_base := 0; sv_log := [start]; sv_pending := [] |}.
Definition finished : Server := pass (pass (pass (pass server0))).
End DeletionFixture.

Import EntriesFixture DeletionFixture.

Lemma deletion_reachable : ∃ clients, reachable (DeletionFixture.finished, clients).
Proof.
  assert (Hpass : ∀ s clients, ∃ clients', rtc sys_step (s, clients) (pass s, clients')).
  { intros s clients. apply (start_alone DeletionFixture.serve deletion_served), writer_reconcile. }
  destruct (Hpass DeletionFixture.server0 []) as [c1 H1]. destruct (Hpass (pass DeletionFixture.server0) c1) as [c2 H2].
  destruct (Hpass (pass (pass DeletionFixture.server0)) c2) as [c3 H3].
  destruct (Hpass (pass (pass (pass DeletionFixture.server0))) c3) as [c4 H4].
  exists c4, (DeletionFixture.server0, []). split.
  - apply (initial_intro 0 start); [split|..]; [vm_compute; reflexivity|done|done|done].
  - exact (transitivity H1 (transitivity H2 (transitivity H3 H4))).
Qed.

Lemma lookup_map_at {A B} (f : A → B) l l' i x : map f l = l' → l' !! i = Some x → ∃ a, l !! i = Some a ∧ f a = x.
Proof. intros <- Hi. apply list_lookup_fmap_Some in Hi as (a & -> & Ha). by exists a. Qed.

(** The entry is in the first version and not in the last. *)
Lemma finished_entries :
  map (λ c, tds_entries (tdc_spec c) !! CatalogFixture.uid0) (sv_log DeletionFixture.finished) =
  replicate 5 (Some (CatalogFixture.entry true)) ++ [None; None].
Proof. vm_compute. reflexivity. Qed.
Lemma finished_length : length (sv_log DeletionFixture.finished) = 7%nat.
Proof. vm_compute. reflexivity. Qed.
Lemma finished_first : option_map tdc_status (head (sv_log DeletionFixture.finished)) = Some None.
Proof. vm_compute. reflexivity. Qed.

Lemma entries_removed_only_gone_witness :
  length (sv_log DeletionFixture.finished) = 7%nat ∧
  ∃ clients, reachable (DeletionFixture.finished, clients) ∧ client_saw clients CatalogFixture.uid0.
Proof.
  pose proof finished_entries as He. split; [exact finished_length|].
  destruct deletion_reachable as [clients H]. exists clients. split; [exact H|].
  destruct (lookup_map_at _ _ _ 0 (Some (CatalogFixture.entry true)) He eq_refl) as (c0 & H0 & E0).
  destruct (lookup_map_at _ _ _ 6 None He eq_refl) as (c6 & H6 & E6).
  destruct (entries_removed_only_gone (DeletionFixture.finished, clients) 0 6 c0 c6 CatalogFixture.uid0 H) as [Hr|Hs];
    [lia|exact H0|exact H6|rewrite E0; eexists; reflexivity|exact E6| |exact Hs].
  exfalso. destruct Hr as (c & Hc & st & Hst & _). pose proof finished_first as Hf. cbn [fst] in Hc. rewrite Hc in Hf.
  injection Hf as Hf. unfold entry_status in Hst. rewrite Hf in Hst. discriminate.
Defined.
