(* ===== verification/CatalogStatuses.v ===== *)
(** * The recorded statuses

    The system of [CatalogEntries], with what its reconciliations record: every
    status that is stored was accepted for its database by a reconciliation that
    read the database and loaded the access to its Tenant, and a query target is
    only recorded with a ready database. *)

From stdpp Require Import relations.
From S2P Require Import Prelude RustStd Externals Kube Errors Api Foundation Effects DatabaseApi CatalogOps.
From S2P Require Import AdminCatalog DatabaseStatus DatabaseResources AzureConfig TenantAccess CatalogWriters DatabaseSteps DatabaseSafety ProviderSafety CatalogEntries CatalogEvidence.
From S2P Require LocalDatabase AzureDatabase LocalSafety AzureSafety.

#[local] Arguments wp : simpl never.
#[local] Arguments bind : simpl never.

Section Statuses.
Context `{SO : Sha256Ops, NO : Ipv4NetOps, SJ : SpecJson, FJ : FoundationJson, AJ : AzureConfigJson}.

(** The status of a database of a catalog that was read is fit for it, with the
    access that was loaded: it passes the validation of the local provider, or
    names the provider, the namespace and the cluster of an Azure database. *)
Definition fit (h : trace Resp) (t : Target) (st : EntryStatus) : Prop :=
  (∃ access, access_known LocalSafety.local_contract h t access ∧
     (tg_instances t ≤ 3 → LocalDatabase.validate_state (la_root access) t st = Ok tt)) ∨
  (∃ access, access_known AzureSafety.azure_contract h t access ∧ AzureSafety.azure_valid access t st).

Definition recorded (h : trace Resp) (u : string) (st : EntryStatus) : Prop :=
  ∃ t creating c, tg_uid t = u ∧ target_known h t creating c ∧ fit h t st.

(** A status is written over a version that was read, for one database; it is
    fit, and sound if the recorded one was. *)
Definition sound_write (h : trace Resp) (o : Op) : Prop :=
  match o with
  | ReplaceCatalogStatus ns nm obj => ∃ c u next status,
      read_version h c ∧ new_status c u next = Ok status ∧ obj = with_status c status ∧
      ∀ st, next = Some st → recorded h u st ∧ ∃ c', seen h c' ∧ (recorded_sound c' u → query_ok st)
  | _ => True
  end.

Lemma sound_quiet h o : writes_status o = false → sound_write h o.
Proof. by destruct o. Qed.

Lemma provider_sound {Access} (ct : Contract (Access := Access)) h o :
  (∀ access t st, access_known ct h t access → ct_valid ct access t st → fit h t st) →
  provider_op ct h o → sound_write h o.
Proof.
  intros Hfit [Hr|[Hd|(access & t & creating & c & Ht & Ha & Ho)]]; [by destruct o|..]; destruct o; try done.
  - destruct Hd as (c & u & status & Hr & Hs & ->). exists c, u, None, status. by split_and!.
  - destruct Ho as (c0 & status & next & Hr & Hs & -> & Hv & Hq & _). exists c0, (tg_uid t), (Some next), status.
    split_and!; [done..|]. intros st [= <-]. split.
    + exists t, creating, c. split_and!; [done..|by eapply Hfit].
    + exists c. split; [|done]. by destruct Ht as (? & ? & _ & _ & _ & ? & _).
Qed.

Lemma local_sound c b h : wp (LocalDatabase.reconcile c b) h sound_write (λ _ _, True).
Proof.
  eapply wp_mono; [|done|exact (wp_provider_reconcile _ _ (SP := LocalSafety.local_safe) c b h)].
  intros h' o. apply provider_sound. intros access t st Ha Hv. left. exists access. split; [done|].
  intros Hn. by apply LocalSafety.validate_state_valid, Hv.
Qed.
Lemma azure_sound c b h : wp (AzureDatabase.azure_reconcile c b) h sound_write (λ _ _, True).
Proof.
  eapply wp_mono; [|done|exact (wp_provider_reconcile _ _ (SP := AzureSafety.azure_safe) c b h)].
  intros h' o. apply provider_sound. intros access t st Ha Hv. right. by exists access.
Qed.

Lemma stays_sound {A} (p : prog Resp A) h : within (λ o, writes_status o = false) p → wp p h sound_write (λ _ _, True).
Proof. intros Hp. eapply wp_mono; [|done|apply Hp]. intros h' o. apply sound_quiet. Qed.

Lemma controller_sound c pod inst h : wp (controller_reconcile c pod inst) h sound_write (λ _ _, True).
Proof.
  unfold controller_reconcile, reconcile, api. apply wp_bind. eapply wp_post; [apply stays_sound, stays_verify_current|].
  intros h1 [current|] _; [|done]. destruct (empty_catalog current); [apply stays_sound, stays_observe|].
  destruct (observer_epoch_changed _ _ _) as [replay|]; [|done]. request; [done|].
  destruct reply as [tenant|]; cbn [map_err]; [|done]. destruct (field _ _) as [provider|]; [|done]. apply wp_bind.
  eapply (wp_post _ _ _ (λ _ _, True)).
  { destruct (bool_decide _); [apply local_sound|]. destruct (bool_decide _); [apply azure_sound|done]. }
  intros h3 [[action verified]|] _; [|done]. destruct (has_issued_intents verified); [done|].
  destruct (observer_needs_refresh _ _ _) as [[]|]; [|done..].
  apply wp_bind. eapply wp_post; [apply stays_sound, stays_record_observer|]. by intros h4 [] _.
Qed.

Lemma writer_sound p : writer p → wp p [] sound_write (λ _ _, True).
Proof.
  assert (Hnil : attempts_conflicted []) by constructor.
  intros [tenant request u Hu|tenant request|observed pod inst]; apply wp_bind; (eapply wp_post; [|done]).
  - eapply wp_mono; [|done|by apply wp_add]. by intros h' [].
  - eapply wp_mono; [|done|by apply wp_delete]. by intros h' [].
  - apply controller_sound.
Qed.

Lemma recorded_app h g u st : recorded h u st → recorded (h ++ g) u st.
Proof.
  intros (t & creating & c & <- & Ht & H). exists t, creating, c. split_and!; [done|by apply target_known_app|].
  destruct H as [(access & Ha & ?)|(access & Ha & ?)]; [left|right]; exists access; (split; [|done]).
  - by apply (access_known_app _ _ (SP := LocalSafety.local_safe)).
  - by apply (access_known_app _ _ (SP := AzureSafety.azure_safe)).
Qed.

(** ** The invariant *)

(** One of the clients recorded the status. *)
Definition client_recorded (clients : list Client) (u : string) (st : EntryStatus) : Prop :=
  ∃ h p, (h, p) ∈ clients ∧ recorded h u st.

(** The statuses of the catalog that was stored first. *)
Definition first_status (s : Server) (u : string) (st : EntryStatus) : Prop :=
  ∃ c, head (sv_log s) = Some c ∧ entry_status c u = Some st.

(** What is known of a stored status. *)
Definition kept (sys : System) (u : string) (st : EntryStatus) : Prop :=
  query_ok st ∧ (first_status sys.1 u st ∨ client_recorded sys.2 u st).

Record status_inv (sys : System) : Prop := {
  si_log : ∀ c u st, c ∈ sv_log sys.1 → entry_status c u = Some st → kept sys u st;
  si_pending : ∀ o, o ∈ sv_pending sys.1 →
    ∃ h, justified sys.1 h ∧ sound_write h o ∧ ∀ u st, recorded h u st → client_recorded sys.2 u st;
  si_clients : ∀ h p, (h, p) ∈ sys.2 → wp p h sound_write (λ _ _, True);
}.

Lemma new_status_lookup c u next status v st :
  new_status c u next = Ok status → cs_entries status !! v = Some st →
  (v = u ∧ next = Some st) ∨ entry_status c v = Some st.
Proof.
  assert (Hc : ∀ x, cs_entries (unwrap_or default_catalog_status (tdc_status c)) !! v = Some x → entry_status c v = Some x).
  { intros x. unfold entry_status. by destruct (tdc_status c). }
  unfold new_status. destruct next as [next|].
  - destruct (_ || _); [done|]. intros [= <-]. cbn [cs_entries]. intros [[<- <-]|[_ H]]%lookup_insert_Some; [by left|right; by apply Hc].
  - destruct (is_some _); [done|]. intros [= <-]. cbn [cs_entries]. intros [_ H]%lookup_delete_Some. right. by apply Hc.
Qed.

(** What an accepted write stores was there, or is what the write records. *)
Lemma apply_statuses s clients h rv current o c u st :
  inv (s, clients) → status_inv (s, clients) → list.last (sv_log s) = Some current → justified s h → sound_write h o →
  CatalogEntries.apply rv current o = Some c → entry_status c u = Some st →
  kept (s, clients) u st ∨ (query_ok st ∧ recorded h u st).
Proof.
  intros Hinv Hsi Hlast Hj Hw Ha Hst. pose proof (last_elem s current Hlast) as Hcur.
  destruct o; try done; cbn in Ha, Hw; destruct (located _ _ _); try done; cbn [andb] in Ha;
    case_bool_decide as Hver; try done; injection Ha as <-.
  - left. by apply (si_log _ Hsi current).
  - destruct Hw as (c0 & v & next & status & [Hseen _] & Hnew & -> & Hnext).
    assert (c0 = current) as -> by (apply (versions_unique s); [apply (inv_versions _ Hinv)|by apply Hj|done|done]).
    destruct (new_status_lookup _ _ _ _ u st Hnew) as [[-> ->]|Hold]; [exact Hst| |left; by apply (si_log _ Hsi current)].
    destruct (Hnext st eq_refl) as [Hr (c' & Hc' & Hq)]. right. split; [|done]. apply Hq. intros st' Hst'.
    by apply (si_log _ Hsi c' v); [apply Hj|].
  - left. apply (si_log _ Hsi current); [done|]. unfold entry_status in *. cbn in Hst. by destruct (tdc_status current).
Qed.

Lemma push_statuses s clients c :
  status_inv (s, clients) → sv_log s ≠ [] →
  (∀ u st, entry_status c u = Some st → kept (s, clients) u st) → status_inv (push s c, clients).
Proof.
  intros [Hlog Hpend Hcl] Hne Hc.
  assert (Hkept : ∀ u st, kept (s, clients) u st → kept (push s c, clients) u st).
  { intros u st [Hq [(c0 & H0 & ?)|?]]; (split; [done|]); [left|by right]. exists c0. split; [|done].
    cbn. cbn in H0. by destruct (sv_log s). }
  split; [| |done].
  - intros c0 u st [H0| ->%list_elem_of_singleton]%elem_of_app Hst; apply Hkept; [by apply (Hlog c0)|by apply Hc].
  - intros o Ho. destruct (Hpend o Ho) as (h & Hj & ?). exists h. split; [|done]. intros c0 H0. cbn. apply elem_of_app. left. auto.
Qed.

Definition records_more (clients clients' : list Client) : Prop :=
  ∀ u st, client_recorded clients u st → client_recorded clients' u st.

Lemma statuses_grow s clients clients' :
  status_inv (s, clients) → records_more clients clients' →
  (∀ h p, (h, p) ∈ clients' → wp p h sound_write (λ _ _, True)) → status_inv (s, clients').
Proof.
  intros [Hlog Hpend _] Hg Hcl. split; [| |done].
  - intros c u st Hc Hst. destruct (Hlog c u st Hc Hst) as [? [?|?]]; (split; [done|]); [by left|right; by apply Hg].
  - intros o Ho. destruct (Hpend o Ho) as (h & ? & ? & Hs). exists h. split_and!; auto.
Qed.

Lemma client_step_records clients i h p e p' :
  clients !! i = Some (h, p) → records_more clients (<[i := (h ++ [e], p')]> clients).
Proof.
  intros Hi u st (h0 & p0 & [j Hj]%list_elem_of_lookup & Hs). destruct (decide (i = j)) as [<-|Hne].
  - pose proof (eq_trans (eq_sym Hi) Hj) as [= <- <-]. exists (h ++ [e]), p'. split; [|by apply recorded_app].
    eapply list_elem_of_lookup_2, list_lookup_insert_eq. by eapply lookup_lt_Some.
  - exists h0, p0. split; [|done]. eapply (list_elem_of_lookup_2 _ j). by rewrite list_lookup_insert_ne.
Qed.

Lemma last_nonempty (s : Server) c : list.last (sv_log s) = Some c → sv_log s ≠ [].
Proof. by destruct (sv_log s). Qed.

Lemma status_step sys sys' : inv sys → status_inv sys → sys_step sys sys' → status_inv sys'.
Proof.
  intros Hinv Hsi Hstep.
  destruct Hstep as [s clients p Hp|s s' clients i h o k r Hi Hs|s clients o current c Ho Hlast Ha
    |s clients current c Hlast (Ht & Hst & Hver)].
  - eapply statuses_grow; [done| |].
    + intros u st (h & p0 & ? & ?). exists h, p0. split; [|done]. apply elem_of_app. by left.
    + intros h p0 [H|[= -> ->]%list_elem_of_singleton]%elem_of_app; [by apply (si_clients _ Hsi)|by apply writer_sound].
  - pose proof (list_elem_of_lookup_2 _ _ _ Hi) as Hin. destruct (si_clients _ Hsi _ _ Hin) as [Hw Hk].
    destruct (inv_clients _ Hinv _ _ Hin) as [Hj _]. set (clients' := <[i := (h ++ [existT o r], k r)]> clients).
    assert (Hg : records_more clients clients') by (by eapply client_step_records).
    assert (Hsaw : ∀ u st, recorded h u st → client_recorded clients' u st)
      by (intros u st Hu; apply Hg; by exists h, (Vis o k)).
    assert (status_inv (s, clients')) as Hsi'.
    { eapply statuses_grow; [done..|]. intros h0 p0 [[= -> ->]|H]%elem_of_updated; [apply Hk|by apply (si_clients _ Hsi)]. }
    destruct Hs as [Hr|Hr|current c Hlast Ha Hr]; [done|..].
    + destruct Hsi' as [Hlog Hpend Hcl]. split; [done| |done].
      intros o' [->|Ho']%elem_of_cons; [by exists h|by apply Hpend].
    + apply push_statuses; [done|by eapply last_nonempty|]. intros u st Hu.
      destruct (apply_statuses s clients h _ current o c u st Hinv Hsi Hlast Hj Hw Ha Hu) as [[Hq [?|?]]|[Hq Hr']];
        (split; [done|]); [by left|right; by apply Hg|right; by apply Hsaw].
  - destruct (si_pending _ Hsi o Ho) as (h & Hj & Hw & Hsaw). apply push_statuses; [done|by eapply last_nonempty|].
    intros u st Hu. destruct (apply_statuses s clients h _ current o c u st Hinv Hsi Hlast Hj Hw Ha Hu) as [?|[Hq Hr]]; [done|].
    split; [done|]. right. by apply Hsaw.
  - apply push_statuses; [done|by eapply last_nonempty|]. intros u st Hu. apply (si_log _ Hsi current); [by apply last_elem|].
    unfold entry_status in *. by rewrite <-Hst.
Qed.

(** The catalog that was stored first has only sound statuses, for instance
    none, as when it is created. *)
Definition starts_sound (sys : System) : Prop :=
  ∀ c u, head (sv_log sys.1) = Some c → recorded_sound c u.

Lemma head_step sys sys' : sys_step sys sys' → ∀ c, head (sv_log sys.1) = Some c → head (sv_log sys'.1) = Some c.
Proof.
  assert (Hpush : ∀ (s : Server) x c, head (sv_log s) = Some c → head (sv_log (push s x)) = Some c).
  { intros s x c. cbn. by destruct (sv_log s). }
  intros [s clients p Hp|s s' clients i h o k r Hi []|s clients o current c Ho Hlast Ha|s clients current c Hlast Hf];
    cbn [fst]; auto.
Qed.

Lemma statuses_reachable sys : reachable sys → starts_sound sys → status_inv sys.
Proof.
  intros (sys0 & H0 & Hsteps) Hs.
  assert (inv sys0) as Hinv by (apply entries_reachable_inv; by exists sys0).
  assert (∃ c, head (sv_log sys0.1) = Some c) as [c Hc] by (destruct H0; by eexists).
  assert (Hs0 : starts_sound sys0).
  { intros c' u Hc'. assert (c' = c) as -> by congruence. apply Hs. clear -Hsteps Hc.
    induction Hsteps as [|x y z Hxy _ IH]; [done|]. by apply IH, (head_step x y). }
  clear Hs Hc c. cut (status_inv sys0).
  { clear H0 Hs0. induction Hsteps as [|x y z Hxy _ IH]; [done|]. intros Hx.
    apply IH; [by apply (entries_step_inv x)|by apply (status_step x)]. }
  destruct H0 as [n c _ _ _]. split.
  - cbn. intros c0 u st ->%list_elem_of_singleton Hst. split; [by apply (Hs0 c u eq_refl)|]. left. by exists c.
  - by intros o ?%not_elem_of_nil.
  - by intros h p ?%not_elem_of_nil.
Qed.

(** In the system the entries have at most three instances. *)
Lemma target_bounded sys h p t creating c :
  inv sys → (h, p) ∈ sys.2 → target_known h t creating c → tg_instances t ≤ 3.
Proof.
  intros Hinv Hin (c0 & e & Hc0 & He & -> & _). destruct (inv_clients _ Hinv _ _ Hin) as [Hj _].
  destruct (inv_sound _ Hinv c0 (Hj c0 Hc0)) as [[Hspec _] _]. apply validate_spec_crd in Hspec.
  by destruct (crd_entries _ Hspec _ _ He) as (_ & _ & _ & ?).
Qed.

(** A reconciliation accepted the status for its database. *)
Definition accepted (clients : list Client) (u : string) (st : EntryStatus) : Prop :=
  ∃ h p t creating c, (h, p) ∈ clients ∧ tg_uid t = u ∧ target_known h t creating c ∧
    ((∃ access, access_known LocalSafety.local_contract h t access ∧
        LocalDatabase.validate_state (la_root access) t st = Ok tt) ∨
     (∃ access, access_known AzureSafety.azure_contract h t access ∧ AzureSafety.azure_valid access t st)).
End Statuses.

(** C19. In every system of additions, deletions and reconciliations, from a
    first catalog whose statuses are sound (one without statuses, as it is
    created, is), every status in every stored version is sound: a query target
    is recorded only with the phase Ready, and names the recorded cluster and
    credentials.  And unless it was in the first catalog, a reconciliation
    that read its entry wrote it, and found it acceptable: for a local database
    it passes the controller's own validation with the volume that was loaded
    (identities named as expected, at most one storage record for each ordinal
    and one intent for each object, all within the size of the database), so the
    next reconciliation accepts it; for an Azure database it names the Tenant's
    provider and the namespace and cluster of the database. *)
Theorem stored_statuses_valid `{SO : Sha256Ops, NO : Ipv4NetOps, SJ : SpecJson, FJ : FoundationJson, AJ : AzureConfigJson}
    sys c u st :
  reachable sys → starts_sound sys → c ∈ sv_log sys.1 → entry_status c u = Some st →
  query_ok st ∧ (first_status sys.1 u st ∨ accepted sys.2 u st).
Proof.
  intros Hr Hs Hc Hst. pose proof (entries_reachable_inv sys Hr) as Hinv.
  destruct (si_log _ (statuses_reachable sys Hr Hs) c u st Hc Hst) as [Hq [?|(h & p & Hin & t & creating & c' & Ht & Hk & Hf)]];
    (split; [done|]); [by left|right]. exists h, p, t, creating, c'. split_and!; [done..|].
  destruct Hf as [(access & Ha & Hv)|Hf]; [left|by right]. exists access. split; [done|].
  apply Hv. by eapply target_bounded.
Qed.

Import EntriesFixture DeletionFixture.

(** The phases that the deletion of [DeletionFixture] records. *)
Lemma finished_phases :
  map (λ c, option_map es_phase (entry_status c CatalogFixture.uid0)) (sv_log DeletionFixture.finished) =
  [None; Some DbPending; Some DbPending; Some DbDeleting; Some DbDeleting; Some DbDeleting; Some DbDeleting].
Proof. vm_compute. reflexivity. Qed.

Lemma stored_statuses_valid_witness :
  ∃ clients c st, reachable (DeletionFixture.finished, clients) ∧ sv_log DeletionFixture.finished !! 3%nat = Some c ∧
    entry_status c CatalogFixture.uid0 = Some st ∧ es_phase st = DbDeleting ∧ accepted clients CatalogFixture.uid0 st.
Proof.
  destruct deletion_reachable as [clients Hr]. exists clients.
  destruct (lookup_map_at _ _ _ 3 (Some DbDeleting) finished_phases eq_refl) as (c & Hc & Hp).
  destruct (entry_status c CatalogFixture.uid0) as [st|] eqn:Hst; [|discriminate]. injection Hp as Hp.
  exists c, st. split_and!; [exact Hr|exact Hc|exact Hst|exact Hp|].
  assert (Hf : ∀ c0, head (sv_log DeletionFixture.finished) = Some c0 → tdc_status c0 = None).
  { intros c0 H0. pose proof finished_first as Hf. rewrite H0 in Hf. by injection Hf. }
  destruct (stored_statuses_valid (DeletionFixture.finished, clients) c CatalogFixture.uid0 st Hr)
    as [_ [(c0 & H0 & E0)|Ha]]; [|by eapply list_elem_of_lookup_2|exact Hst| |exact Ha].
  - intros c0 u H0 s Hs. unfold entry_status in Hs. by rewrite (Hf c0 H0) in Hs.
  - unfold entry_status in E0. by rewrite (Hf c0 H0) in E0.
Defined.
