(* ===== verification/LocalPath.v ===== *)
(** * Directories of local databases

    [database-controller/src/local_path.rs]: the directory of an instance is
    [<root>/volumes/cnpg/<catalog>/<database>/<ordinal>] of the Tenant's volume.
    Every step is relative to an open directory, never follows a symbolic link,
    and is preceded by a check that the open directories are still the ones the
    path leads to. *)

From stdpp Require Import sorting.
From S2P Require Import Prelude RustStd Paths Effects DatabaseApi CatalogOps.

#[local] Open Scope Z_scope.

(** ** System calls *)
Inductive Fd := AtFdcwd | FdNumber (n : Z).

#[export] Instance Fd_eq_dec : EqDecision Fd.
Proof. solve_decision. Defined.

Record Stat := { st_dev : Z; st_ino : Z; st_mode : Z; st_uid : Z }.

(** Flags of [openat] besides [O_CLOEXEC | O_NOFOLLOW], which are always set:
    [O_RDONLY | O_DIRECTORY | O_NONBLOCK], or [O_PATH]. *)
Inductive OpenFlags := OpenDirectory | OpenPath.

(** [FstatAt] does not follow links; [SetXattr] creates the attribute; [ReadDir]
    reads a stream of names to its end. *)
Inductive Syscall :=
| OpenAt (fd : Fd) (nm : string) (flags : OpenFlags)
| Fstat (fd : Fd)
| FstatAt (fd : Fd) (nm : string)
| MkdirAt (fd : Fd) (nm : string) (mode : Z)
| UnlinkAt (fd : Fd) (nm : string) (removedir : bool)
| Fchmod (fd : Fd) (mode : Z)
| Fchown (fd : Fd) (user group : Z)
| SetXattr (fd : Fd) (attr value : string)
| GetXattr (fd : Fd) (attr : string) (size : Z)
| ReadDir (fd : Fd)
| Geteuid.

Definition Reply (o : Syscall) : Type :=
  match o with
  | OpenAt _ _ _ => result Errno Fd
  | Fstat _ | FstatAt _ _ => result Errno Stat
  | MkdirAt _ _ _ | UnlinkAt _ _ _ | Fchmod _ _ | Fchown _ _ _ | SetXattr _ _ _ => result Errno unit
  | GetXattr _ _ _ => result Errno string
  | ReadDir _ => result Errno (list string)
  | Geteuid => Z
  end.

Notation fs A := (prog Reply (result PathError A)).

(** ** Modes and identities *)
Definition S_IFMT : Z := 61440.
Definition S_IFDIR : Z := 16384.
Definition S_IFREG : Z := 32768.
Definition POSTGRES_UID : Z := 26.
Definition POSTGRES_GID : Z := 26.
Definition MODE_OWNER : Z := 448.
Definition MODE_SHARED : Z := 457.

Record FileIdentity := { fid_device : Z; fid_inode : Z }.
#[export] Instance FileIdentity_eq_dec : EqDecision FileIdentity.
Proof. solve_decision. Defined.

Definition identity_of_stat (s : Stat) : FileIdentity := {| fid_device := st_dev s; fid_inode := st_ino s |}.
Definition is_dir (s : Stat) : bool := Z.land (st_mode s) S_IFMT =? S_IFDIR.

Record Node := { nd_name : string; nd_fd : Fd; nd_identity : FileIdentity }.

(** The open directories from [/] on; there is always the first. *)
Record Chain := { ch_root : Node; ch_nodes : list Node }.

Definition last_node (c : Chain) : Node := unwrap_or (ch_root c) (list.last (ch_nodes c)).
Definition chain_len (c : Chain) : nat := S (length (ch_nodes c)).
Definition push (c : Chain) (n : Node) : Chain := {| ch_root := ch_root c; ch_nodes := ch_nodes c ++ [n] |}.

(** ** Primitives *)
Definition stat_fd (fd : Fd) : fs Stat := perform_map PathIo (perform (Fstat fd)).
Definition stat_entry (fd : Fd) (nm : string) : fs Stat := perform_map PathIo (perform (FstatAt fd nm)).

Definition open_error (e : Errno) : PathError :=
  match e with ELOOP | ENOTDIR => UnsafeEntry | e => PathIo e end.
Definition open_at (fd : Fd) (nm : string) (flags : OpenFlags) : fs Fd :=
  perform_map open_error (perform (OpenAt fd nm flags)).
Definition directory (fd : Fd) (nm : string) : fs Fd := open_at fd nm OpenDirectory.

Definition append (chain : Chain) (nm : string) (fd : Fd) : fs Chain :=
  if (256 <=? chain_len chain)%nat then Ret (Err UnsafeEntry) else
  try! stat <- stat_fd fd ;;
  if negb (is_dir stat) then Ret (Err UnsafeEntry) else
  try! named <- stat_entry (nd_fd (last_node chain)) nm ;;
  if identity_of_stat stat != identity_of_stat named then Ret (Err Changed) else
  Ret (Ok (push chain {| nd_name := nm; nd_fd := fd; nd_identity := identity_of_stat stat |})).

Fixpoint verify_nodes (current : Fd) (nodes : list Node) : fs unit :=
  match nodes with
  | [] => Ret (Ok tt)
  | node :: rest =>
      try! stat <- perform_map (λ _, Changed) (stat_entry current (nd_name node)) ;;
      if negb (is_dir stat) || (identity_of_stat stat != nd_identity node) then Ret (Err Changed) else
      try! next <- perform_map (λ _, Changed) (directory current (nd_name node)) ;;
      try! opened <- stat_fd next ;;
      if identity_of_stat opened != nd_identity node then Ret (Err Changed) else
      verify_nodes next rest
  end.

Definition verify (chain : Chain) : fs unit :=
  try! root <- directory AtFdcwd "/" ;;
  try! stat <- stat_fd root ;;
  if identity_of_stat stat != nd_identity (ch_root chain) then Ret (Err Changed) else
  verify_nodes root (ch_nodes chain).

(** ** The root of the volume *)
Definition normal_component (c : Component) : option string :=
  match c with RootDir => Some "/" | Normal s => Some s | _ => None end.

Definition normalized (p : string) : option string :=
  option_map (foldl path_join "") (mapM normal_component (components p)).

Definition NUL : ascii := Ascii.zero.
Definition has_nul (s : string) : bool := any (λ c, bool_decide (c = NUL)) (bytes s).

Fixpoint open_root (chain : Chain) (parts : list Component) : fs Chain :=
  match parts with
  | [] => Ret (Ok chain)
  | part :: rest =>
      let nm := unwrap_or "" (normal_component part) in
      if has_nul nm then Ret (Err (InvalidInput "root contains NUL")) else
      do! opened <- directory (nd_fd (last_node chain)) nm ;;
      match opened with
      | Err (PathIo ENOENT) => Ret (Err MissingRoot)
      | Err e => Ret (Err e)
      | Ok fd =>
          try! chain <- append chain nm fd ;;
          open_root chain rest
      end
  end.

Definition root_chain (volume_root : string) : fs Chain :=
  if negb (is_absolute volume_root) || path_eq volume_root "/"
  then Ret (Err (InvalidInput "root must be an absolute volume mountpoint")) else
  match normalized volume_root with
  | None => Ret (Err (InvalidInput "root must have no dot components"))
  | Some spelling =>
      if spelling != volume_root then Ret (Err (InvalidInput "root must have canonical spelling")) else
      try! fd <- directory AtFdcwd "/" ;;
      try! stat <- stat_fd fd ;;
      let chain := {| ch_root := {| nd_name := "/"; nd_fd := fd; nd_identity := identity_of_stat stat |}; ch_nodes := [] |} in
      try! chain <- open_root chain (tail (components volume_root)) ;;
      try! _ <- verify chain ;;
      Ret (Ok chain)
  end.

(** ** The names below it *)
Definition uid_byte (index : nat) (c : ascii) : bool :=
  if any (Nat.eqb index) [8; 13; 18; 23]%nat then bool_decide (c = "-"%char)
  else is_ascii_digit c || ((97 <=? code c) && (code c <=? 102)).

Definition path_uid (value : string) : result PathError string :=
  if negb (length (bytes value) =? 36)%nat || negb (all (λ '(i, c), uid_byte i c) (zip (seq 0 36) (bytes value)))
  then Err (InvalidInput "UID must be a lowercase UUID") else Ok value.

Definition names (catalog_uid logical_uid : string) (ordinal : Z) : result PathError (list string) :=
  let! catalog_uid := path_uid catalog_uid in
  let! logical_uid := path_uid logical_uid in
  if negb ((1 <=? ordinal) && (ordinal <=? 3)) then Err (InvalidInput "ordinal must be 1, 2, or 3") else
  Ok ["volumes"; "cnpg"; catalog_uid; logical_uid; int_to_string ordinal].

(** ** Ownership *)
Definition ATTRIBUTE := "user.cnpg_vcluster.local_path".

Definition path_stamp (node : Node) : string :=
  "v1:" +:+ nd_name node +:+ ":" +:+ int_to_string (fid_device (nd_identity node)) +:+ ":"
  +:+ int_to_string (fid_inode (nd_identity node)).

Definition xattr_error (e : Errno) : PathError :=
  match e with ENODATA | ERANGE => UnsafeEntry | e => PathIo e end.

Definition ownership (node : Node) (created : bool) : fs unit :=
  try! _ <- (if created then perform_map PathIo (perform (SetXattr (nd_fd node) ATTRIBUTE (path_stamp node)))
             else Ret (Ok tt)) ;;
  try! stored <- perform_map xattr_error (perform (GetXattr (nd_fd node) ATTRIBUTE (len (path_stamp node) + 1))) ;;
  if stored != path_stamp node then Ret (Err UnsafeEntry) else Ret (Ok tt).

Definition mode_at (depth : nat) : Z := if (depth =? 4)%nat then MODE_OWNER else MODE_SHARED.

Definition expected_uid (depth : nat) : prog Reply Z :=
  if (depth =? 4)%nat then Ret POSTGRES_UID else perform Geteuid.

Definition mode_differs (stat : Stat) (user : Z) (mode : Z) : bool :=
  negb (st_uid stat =? user) || negb (Z.land (st_mode stat) 511 =? mode).

(** ** Creation *)

(** From the open directory on. *)
Definition finish_mkdir (chain : Chain) (depth : nat) (created : bool) : fs Chain :=
  let current := last_node chain in
  try! stat <- stat_fd (nd_fd current) ;;
  do! user <- expected_uid depth ;;
  if negb created && negb (st_uid stat =? user) then Ret (Err UnsafeEntry) else
  try! _ <- (if created then perform_map PathIo (perform (Fchmod (nd_fd current) (mode_at depth))) else Ret (Ok tt)) ;;
  try! _ <- (if (2 <=? depth)%nat then ownership current created else Ret (Ok tt)) ;;
  try! _ <- (if created && (depth =? 4)%nat
             then perform_map PathIo (perform (Fchown (nd_fd current) POSTGRES_UID POSTGRES_GID)) else Ret (Ok tt)) ;;
  try! stat <- stat_fd (nd_fd current) ;;
  if mode_differs stat user (mode_at depth) then Ret (Err UnsafeEntry) else
  try! _ <- verify chain ;;
  Ret (Ok chain).

Definition mkdir (chain : Chain) (nm : string) (depth : nat) : fs Chain :=
  try! _ <- verify chain ;;
  let parent := nd_fd (last_node chain) in
  let mode := mode_at depth in
  do! made <- perform (MkdirAt parent nm mode) ;;
  pure! created <- match made with Ok _ => Ok true | Err EEXIST => Ok false | Err e => Err (PathIo e) end ;;
  try! fd <- directory parent nm ;;
  try! chain <- append chain nm fd ;;
  finish_mkdir chain depth created.

(** The directory, if it is there. *)
Definition existing (chain : Chain) (nm : string) (depth : nat) : fs (option Chain) :=
  try! _ <- verify chain ;;
  do! opened <- directory (nd_fd (last_node chain)) nm ;;
  match opened with
  | Err (PathIo ENOENT) =>
      try! _ <- verify chain ;;
      Ret (Ok None)
  | Err e => Ret (Err e)
  | Ok fd =>
      try! chain <- append chain nm fd ;;
      try! stat <- stat_fd (nd_fd (last_node chain)) ;;
      do! user <- expected_uid depth ;;
      if mode_differs stat user (mode_at depth) then Ret (Err UnsafeEntry) else
      try! _ <- (if (2 <=? depth)%nat then ownership (last_node chain) false else Ret (Ok tt)) ;;
      try! _ <- verify chain ;;
      Ret (Ok (Some chain))
  end.

(** ** Trees *)

(** [CString]s are ordered by their bytes. *)
Definition bytes_le (a b : string) : Prop := String.leb a b = true.
#[export] Instance bytes_le_dec : RelDecision bytes_le.
Proof. intros a b. unfold bytes_le. apply _. Defined.

Definition path_entries (fd : Fd) : fs (list string) :=
  try! stream <- directory fd "." ;;
  try! found <- perform_map PathIo (perform (ReadDir stream)) ;;
  Ret (Ok (merge_sort bytes_le (filter_list (λ nm, (nm != ".") && (nm != "..")) found))).

Definition file_kind (stat : Stat) : result PathError bool :=
  let kind := Z.land (st_mode stat) S_IFMT in
  if (kind =? S_IFREG) || (kind =? S_IFDIR) then Ok (kind =? S_IFDIR) else Err UnsafeEntry.

(** [for name in list { ... ? }] *)
Fixpoint for_each (body : string → fs unit) (l : list string) : fs unit :=
  match l with
  | [] => Ret (Ok tt)
  | nm :: rest => try! _ <- body nm ;; for_each body rest
  end.

(** One entry of a directory that is checked, for what is done with a
    directory below it. *)
Definition check_entry_with (recur : Chain → fs unit) (chain : Chain) (fd : Fd) (nm : string) : fs unit :=
  try! stat <- stat_entry fd nm ;;
  pure! dir <- file_kind stat ;;
  if negb dir then Ret (Ok tt) else
  try! child <- directory fd nm ;;
  try! opened <- stat_fd child ;;
  if identity_of_stat opened != identity_of_stat stat then Ret (Err Changed) else
  try! below <- append chain nm child ;;
  recur below.

Definition check_tree_with (recur : Chain → fs unit) (chain : Chain) : fs unit :=
  try! _ <- verify chain ;;
  let fd := nd_fd (last_node chain) in
  try! found <- path_entries fd ;;
  try! _ <- for_each (check_entry_with recur chain fd) found ;;
  verify chain.

Definition unlink (chain : Chain) (nm : string) (identity : FileIdentity) (removedir : bool) : fs unit :=
  try! _ <- verify chain ;;
  let parent := nd_fd (last_node chain) in
  try! stat <- stat_entry parent nm ;;
  if identity_of_stat stat != identity then Ret (Err Changed) else
  try! _ <- perform_map PathIo (perform (UnlinkAt parent nm removedir)) ;;
  verify chain.

Definition delete_entry_with (recur : Chain → fs unit) (chain : Chain) (fd : Fd) (nm : string) : fs unit :=
  try! stat <- stat_entry fd nm ;;
  let identity := identity_of_stat stat in
  pure! dir <- file_kind stat ;;
  if (dir : bool) then
    try! child <- directory fd nm ;;
    try! opened <- stat_fd child ;;
    if identity_of_stat opened != identity then Ret (Err Changed) else
    try! below <- append chain nm child ;;
    try! _ <- recur below ;;
    unlink chain nm identity true
  else
    try! child <- open_at fd nm OpenPath ;;
    try! opened <- stat_fd child ;;
    if identity_of_stat opened != identity then Ret (Err Changed) else
    unlink chain nm identity false.

Definition delete_tree_with (recur : Chain → fs unit) (chain : Chain) : fs unit :=
  try! _ <- verify chain ;;
  let fd := nd_fd (last_node chain) in
  try! found <- path_entries fd ;;
  try! _ <- for_each (delete_entry_with recur chain fd) found ;;
  verify chain.

(** [append] keeps a chain at 256 directories, which bounds the recursion. *)
Fixpoint descend (tree : (Chain → fs unit) → Chain → fs unit) (levels : nat) (chain : Chain) : fs unit :=
  match levels with
  | O => Ret (Err UnsafeEntry)
  | S levels => tree (descend tree levels) chain
  end.

Definition levels_left (chain : Chain) : nat := 257 - chain_len chain.
Definition check_tree (chain : Chain) : fs unit := descend check_tree_with (levels_left chain) chain.
Definition delete_tree (chain : Chain) : fs unit := descend delete_tree_with (levels_left chain) chain.

(** ** Operations *)
Fixpoint make_all (chain : Chain) (depth : nat) (l : list string) : fs Chain :=
  match l with
  | [] => Ret (Ok chain)
  | nm :: rest => try! chain <- mkdir chain nm depth ;; make_all chain (S depth) rest
  end.

Fixpoint find_all (chain : Chain) (depth : nat) (l : list string) : fs (option Chain) :=
  match l with
  | [] => Ret (Ok (Some chain))
  | nm :: rest =>
      try! found <- existing chain nm depth ;;
      match found with
      | None => Ret (Ok None)
      | Some chain => find_all chain (S depth) rest
      end
  end.

Definition path_prepare (volume_root catalog_uid logical_uid : string) (ordinal : Z) : fs string :=
  pure! parts <- names catalog_uid logical_uid ordinal ;;
  try! chain <- root_chain volume_root ;;
  try! _ <- make_all chain 0 parts ;;
  Ret (Ok (path_join (path_join (path_join (path_join volume_root "volumes/cnpg") catalog_uid) logical_uid)
             (int_to_string ordinal))).

Definition path_inspect (volume_root catalog_uid logical_uid : string) (ordinal : Z) : fs bool :=
  pure! parts <- names catalog_uid logical_uid ordinal ;;
  try! chain <- root_chain volume_root ;;
  try! found <- find_all chain 0 parts ;;
  Ret (Ok (is_some found)).

Definition path_entry_absent (volume_root catalog_uid logical_uid : string) : fs bool :=
  pure! parts <- names catalog_uid logical_uid 1 ;;
  try! chain <- root_chain volume_root ;;
  try! found <- find_all chain 0 (take 4 parts) ;;
  Ret (Ok (is_none found)).

(** The ordinal's directory, and then those above it while they are empty;
    depths from [depth] down to 3. *)
Fixpoint prune (depth : nat) (chain : Chain) (popped : list Node) : fs unit :=
  match popped with
  | [] => Ret (Ok tt)
  | node :: rest =>
      let chain := {| ch_root := ch_root chain; ch_nodes := removelast (ch_nodes chain) |} in
      let parent := nd_fd (last_node chain) in
      try! _ <- verify chain ;;
      try! stat <- stat_entry parent (nd_name node) ;;
      if identity_of_stat stat != nd_identity node then Ret (Err Changed) else
      do! removed <- perform (UnlinkAt parent (nd_name node) true) ;;
      match removed with
      | Err e => if (depth <? 5)%nat && (e == ENOTEMPTY) then verify chain else Ret (Err (PathIo e))
      | Ok _ =>
          try! _ <- verify chain ;;
          prune (Nat.pred depth) chain rest
      end
  end.

Definition path_remove (volume_root catalog_uid logical_uid : string) (ordinal : Z) : fs unit :=
  pure! parts <- names catalog_uid logical_uid ordinal ;;
  try! chain <- root_chain volume_root ;;
  try! parent <- find_all chain 0 (take 4 parts) ;;
  match parent with
  | None => Ret (Err MissingPath)
  | Some chain =>
      try! found <- find_all chain 4 (drop 4 parts) ;;
      match found with
      | None => Ret (Ok tt)
      | Some chain =>
          try! _ <- check_tree chain ;;
          try! _ <- delete_tree chain ;;
          prune 5 chain (take 3 (reverse (ch_nodes chain)))
      end
  end.
