(* ===== verification/LocalPathSafety.v ===== *)
(** * What the file operations may touch

    Whatever the file system answers, [LocalPath] changes something only below
    the directory of its catalog, through directories that were checked, in the
    calls just before, to be the ones the path leads to. *)

From Stdlib Require Import FunctionalExtensionality.
From S2P Require Import Prelude RustStd Paths Effects CatalogOps LocalPath.

#[local] Open Scope Z_scope.
(** ** Termination *)

(** Programs are equal when their continuations are. *)
Lemma bind_ext {A B} (p : prog Reply A) (f g : A → prog Reply B) : (∀ a, f a = g a) → bind p f = bind p g.
Proof.
  intros H. induction p as [a|o k IH]; cbn [bind]; [apply H|]. f_equal. apply functional_extensionality_dep. exact IH.
Qed.

Lemma try_ext {A B} (p : fs A) (f g : A → fs B) : (∀ a, f a = g a) →
  (try! a <- p ;; f a) = (try! a <- p ;; g a).
Proof. intros H. apply bind_ext. intros [a|e]; [apply H|done]. Qed.

(** A directory is entered only while there are fewer than 256. *)
Lemma append_ext {B} c nm fd (f g : Chain → fs B) :
  ((chain_len c < 256)%nat → ∀ n, f (push c n) = g (push c n)) →
  (try! below <- append c nm fd ;; f below) = (try! below <- append c nm fd ;; g below).
Proof.
  intros H. unfold append. destruct (256 <=? chain_len c)%nat eqn:Hl; [done|]. apply Nat.leb_gt in Hl.
  unfold stat_fd, stat_entry, perform_map, perform. cbn [bind]. f_equal. apply functional_extensionality_dep. intros [st|]; [|done].
  cbn [bind map_err]. destruct (negb _); [done|]. cbn [bind]. f_equal. apply functional_extensionality_dep. intros [named|]; [|done].
  cbn [bind map_err]. destruct (negb _); [done|]. cbn [bind]. by apply H.
Qed.

Lemma for_each_ext f g l : (∀ nm, f nm = g nm) → for_each f l = for_each g l.
Proof. intros H. induction l as [|nm rest IH]; cbn [for_each]; [done|]. rewrite H. apply try_ext. intros []. apply IH. Qed.

Section Trees.
Context (recur recur' : Chain → fs unit) (c : Chain)
  (Hrec : (chain_len c < 256)%nat → ∀ n, recur (push c n) = recur' (push c n)).

Lemma check_tree_ext : check_tree_with recur c = check_tree_with recur' c.
Proof.
  apply try_ext. intros []. apply try_ext. intros found. f_equal. apply for_each_ext. intros nm.
  apply try_ext. intros st. destruct (file_kind st) as [[]|]; [|done..]. cbn [negb].
  apply try_ext. intros child. apply try_ext. intros opened. destruct (negb _); [done|]. by apply append_ext.
Qed.
Lemma delete_tree_ext : delete_tree_with recur c = delete_tree_with recur' c.
Proof.
  apply try_ext. intros []. apply try_ext. intros found. f_equal. apply for_each_ext. intros nm.
  apply try_ext. intros st. destruct (file_kind st) as [[]|]; [|done..].
  apply try_ext. intros child. apply try_ext. intros opened. destruct (negb _); [done|].
  apply append_ext. intros Hl n. by rewrite Hrec.
Qed.
End Trees.

Lemma levels_step c : (chain_len c ≤ 256)%nat →
  ∃ l, levels_left c = S l ∧ ((chain_len c < 256)%nat → ∀ n, levels_left (push c n) = l).
Proof.
  intros Hl. exists (256 - chain_len c)%nat. unfold levels_left, chain_len in *. split; [lia|]. intros _ n. cbn.
  rewrite length_app. cbn. lia.
Qed.

Lemma append_length c nm fd h :
  wp (append c nm fd) h (λ _ _, True) (λ _ r, ∀ c', r = Ok c' → (chain_len c' ≤ 256)%nat).
Proof.
  unfold append. destruct (256 <=? chain_len c)%nat eqn:Hl; [done|]. apply Nat.leb_gt in Hl.
  split; [done|]. intros [st|]; [|done]. cbn. destruct (negb _); [done|].
  split; [done|]. intros [named|]; [|done]. cbn. destruct (negb _); [done|]. intros c' [= <-]. unfold chain_len in *. cbn. rewrite length_app. cbn. lia.
Qed.

(** C22. The recursive check and the recursive removal of a directory tree
    terminate: for every chain that an operation can hold (a chain is extended
    only up to 256 directories), each satisfies the recursive equation of the
    source, in which a directory below is entered by another call. *)
Theorem trees_terminate c :
  (chain_len c ≤ 256)%nat →
  check_tree c = check_tree_with check_tree c ∧ delete_tree c = delete_tree_with delete_tree c ∧
  ∀ env nm fd, let '(h, r) := run env (append c nm fd) [] in ∀ c', r = Ok c' → (chain_len c' ≤ 256)%nat.
Proof.
  intros Hl. destruct (levels_step c Hl) as (l & El & Hl'). split_and!.
  - unfold check_tree at 1. rewrite El. cbn [descend]. apply check_tree_ext. intros Hlt n. unfold check_tree. by rewrite Hl'.
  - unfold delete_tree at 1. rewrite El. cbn [descend]. apply delete_tree_ext. intros Hlt n. unfold delete_tree. by rewrite Hl'.
  - intros env nm fd. pose proof (wp_run env _ _ _ _ (append_length c nm fd [])) as H. destruct (run _ _ _). apply H.
Qed.

Lemma trees_terminate_witness :
  let c := {| ch_root := {| nd_name := "/"; nd_fd := FdNumber 3; nd_identity := {| fid_device := 1; fid_inode := 2 |} |};
              ch_nodes := [] |} in
  (chain_len c ≤ 256)%nat ∧ check_tree c = check_tree_with check_tree c.
Proof.
  intros c. assert (Hl : (chain_len c ≤ 256)%nat) by (unfold chain_len; cbn; lia).
  split; [exact Hl|]. exact (proj1 (trees_terminate c Hl)).
Defined.

(** ** System calls *)
#[local] Arguments wp : simpl never.
#[local] Arguments bind : simpl never.
#[local] Arguments perform_map : simpl never.

Definition answered (h : trace Reply) (o : Syscall) (r : Reply o) : Prop := existT o r ∈ h.

Lemma answered_app h g o r : answered h o r → answered (h ++ g) o r.
Proof. intros H. apply elem_of_app. by left. Qed.
Lemma reply_last h o (r : Reply o) : answered (h ++ [existT o r]) o r.
Proof. apply elem_of_app. right. by left. Qed.

(** System calls that change nothing. *)
Definition observes (o : Syscall) : Prop :=
  match o with
  | MkdirAt _ _ _ | UnlinkAt _ _ _ | Fchmod _ _ | Fchown _ _ _ | SetXattr _ _ _ => False
  | _ => True
  end.

(** ** Checked directories *)

(** The calls that lead from an open directory along a list of names, each to
    the directory that is open. *)
Inductive walked : Fd → list Node → trace Reply → Prop :=
| walked_nil fd : walked fd [] []
| walked_cons fd n rest st next st' g :
    is_dir st = true → identity_of_stat st = nd_identity n → identity_of_stat st' = nd_identity n →
    walked next rest g →
    walked fd (n :: rest)
      (existT (FstatAt fd (nd_name n)) (Ok st) :: existT (OpenAt fd (nd_name n) OpenDirectory) (Ok next)
       :: existT (Fstat next) (Ok st') :: g).

(** The last calls led from [/] to the last directory of the chain. *)
Definition just_verified (h : trace Reply) (c : Chain) : Prop :=
  ∃ h0 root st g,
    h = h0 ++ existT (OpenAt AtFdcwd "/" OpenDirectory) (Ok root) :: existT (Fstat root) (Ok st) :: g ∧
    identity_of_stat st = nd_identity (ch_root c) ∧ walked root (ch_nodes c) g.

Definition chain_names (c : Chain) : list string := map nd_name (ch_nodes c).

Lemma names_push c n : chain_names (push c n) = chain_names c ++ [nd_name n].
Proof. unfold chain_names. cbn. by rewrite map_app. Qed.
Lemma last_push c n : last_node (push c n) = n.
Proof. unfold last_node. cbn. by rewrite last_snoc. Qed.

(** [∃ g, h ++ ... = h ++ g] *)
Ltac extends := repeat rewrite <-(assoc_L (++)); eexists; reflexivity.

(** One system call, with its error wrapped. *)
Ltac syscall :=
  lazymatch goal with
  | |- wp (bind ?m _) _ _ _ =>
      lazymatch m with
      | perform_map _ (stat_entry _ _) => unfold stat_entry at 1
      | perform_map _ (directory _ _) => unfold directory at 1, open_at at 1
      | stat_entry _ _ => unfold stat_entry at 1
      | stat_fd _ => unfold stat_fd at 1
      | directory _ _ => unfold directory at 1, open_at at 1
      | open_at _ _ _ => unfold open_at at 1
      | _ => idtac
      end
  end;
  lazymatch goal with
  | |- wp (bind (perform_map ?g (perform_map ?g' (perform ?o))) ?f) ?h ?P ?Q =>
      change (wp (bind (perform o) (λ r, f (map_err g (map_err g' r)))) h P Q)
  | _ => idtac
  end;
  request.

Section Rules.
Context (Pre : trace Reply → Syscall → Prop) (Hobs : ∀ h o, observes o → Pre h o).

Lemma wp_verify_nodes nodes fd h :
  wp (verify_nodes fd nodes) h Pre (λ h' r, r = Ok tt → ∃ g, h' = h ++ g ∧ walked fd nodes g).
Proof.
  revert fd h. induction nodes as [|n rest IH]; intros fd h; cbn [verify_nodes].
  { apply wp_return. intros _. exists []. split; [by rewrite app_nil_r|constructor]. }
  syscall; [by apply Hobs|]. destruct reply as [st|]; cbn [map_err]; [|done].
  destruct (_ || _) eqn:Hb; [done|]. apply orb_false_iff in Hb as [Hd%negb_false_iff Hi%negb_false_iff%bool_decide_eq_true].
  syscall; [by apply Hobs|]. destruct reply as [next|]; cbn [map_err]; [|done].
  syscall; [by apply Hobs|]. destruct reply as [st'|]; cbn [map_err]; [|done].
  case_bool_decide as Hi'; cbn [negb]; [|done]. eapply wp_post; [apply IH|]. intros h' r Hr E.
  destruct (Hr E) as (g & -> & Hw). eexists. split; [|by apply (walked_cons fd n rest st next st' g)]. subst.
  by rewrite <-!(assoc_L (++)).
Qed.


(** A result of a program that succeeds. *)
Definition succeeds {A} (Q : A → trace Reply → Prop) (h : trace Reply) (r : result PathError A) : Prop :=
  ∀ a, r = Ok a → Q a h.

Lemma wp_try_fs {A B} (p : fs A) (k : A → fs B) h (Q : B → trace Reply → Prop) :
  wp p h Pre (succeeds (λ a h', wp (k a) h' Pre (succeeds Q))) →
  wp (try! a <- p ;; k a) h Pre (succeeds Q).
Proof. intros H. apply wp_bind. eapply wp_post; [exact H|]. intros h' [a|e] Hr; [by apply Hr|]. apply wp_return. done. Qed.

(** Programs that only observe. *)
Lemma wp_observing {A} (p : prog Reply A) h : within observes p → wp p h Pre (λ h' _, ∃ g, h' = h ++ g).
Proof. intros Hp. apply (within_wp observes); [done|]. intros h' o. apply Hobs. Qed.

Lemma wp_verify c h : wp (verify c) h Pre (succeeds (λ _ h', just_verified h' c ∧ ∃ g, h' = h ++ g)).
Proof.
  unfold verify. syscall; [by apply Hobs|]. destruct reply as [root|]; cbn [map_err]; [|done].
  syscall; [by apply Hobs|]. destruct reply as [st|]; cbn [map_err]; [|done].
  case_bool_decide as Hi; cbn [negb]; [|done]. eapply wp_post; [apply wp_verify_nodes|]. intros h' r Hr [] E.
  destruct (Hr E) as (g & -> & Hw). subst. split; [|extends].
  exists h, root, st, g. split_and!; [by rewrite <-!(assoc_L (++))|done..].
Qed.

(** ** Chains *)

(** The entry was examined, with this identity. *)
Definition same_file (h : trace Reply) (fd : Fd) (nm : string) (id : FileIdentity) : Prop :=
  ∃ st, answered h (FstatAt fd nm) (Ok st) ∧ identity_of_stat st = id.
Lemma same_file_app h g fd nm id : same_file h fd nm id → same_file (h ++ g) fd nm id.
Proof. intros (st & ? & ?). exists st. split; [by apply answered_app|done]. Qed.

Fixpoint linked (h : trace Reply) (fd : Fd) (nodes : list Node) : Prop :=
  match nodes with
  | [] => True
  | n :: rest => same_file h fd (nd_name n) (nd_identity n) ∧ linked h (nd_fd n) rest
  end.
Definition chain_known (h : trace Reply) (c : Chain) : Prop := linked h (nd_fd (ch_root c)) (ch_nodes c).

Lemma linked_app h g fd nodes : linked h fd nodes → linked (h ++ g) fd nodes.
Proof.
  revert fd. induction nodes as [|n rest IH]; intros fd; [done|]. intros [? ?]. split; [by apply same_file_app|by apply IH].
Qed.
Lemma chain_known_app h g c : chain_known h c → chain_known (h ++ g) c.
Proof. apply linked_app. Qed.

Lemma linked_snoc h root nodes n :
  linked h (nd_fd root) (nodes ++ [n]) ↔ linked h (nd_fd root) nodes ∧
    same_file h (nd_fd (unwrap_or root (list.last nodes))) (nd_name n) (nd_identity n).
Proof.
  revert root. induction nodes as [|m rest IH]; intros root; cbn [app linked]; [cbn; tauto|]. rewrite IH.
  destruct rest as [|x rest']; cbn [linked list.last unwrap_or]; [tauto|]. 
  destruct (list.last (x :: rest')) eqn:E; [cbn [unwrap_or]; tauto|by apply last_None in E].
Qed.

Lemma wp_append c nm fd h :
  chain_known h c → wp (append c nm fd) h Pre (succeeds (λ c' h',
    chain_known h' c' ∧ chain_names c' = chain_names c ++ [nm] ∧ (∃ g, h' = h ++ g) ∧
    ∃ n, c' = push c n ∧ nd_fd n = fd)).
Proof.
  intros Hc. unfold append. destruct (_ <=? _)%nat; [done|]. syscall; [by apply Hobs|].
  destruct reply as [st|]; cbn [map_err]; [|done]. destruct (negb _); [done|]. syscall; [by apply Hobs|].
  destruct reply as [named|]; cbn [map_err]; [|done]. case_bool_decide as Hi; cbn [negb]; [|done].
  apply wp_return. intros c' [= <-]. subst. split_and!; [|apply names_push|extends|by eexists].
  unfold chain_known. cbn. apply linked_snoc. split; [by do 2 apply linked_app|]. exists named. split; [apply reply_last|done].
Qed.

Lemma within_ownership n : within observes (ownership n false).
Proof. unfold ownership. walk; done. Qed.

Lemma wp_existing c nm depth h : chain_known h c →
  wp (existing c nm depth) h Pre (succeeds (λ found h', (∃ g, h' = h ++ g) ∧
    ∀ c', found = Some c' → chain_known h' c' ∧ chain_names c' = chain_names c ++ [nm])).
Proof.
  intros Hc. unfold existing. apply wp_try_fs. eapply wp_post; [apply wp_verify|]. intros h1 r Hv a E.
  destruct (Hv a E) as [_ [g1 ->]]. clear Hv E r. syscall; [by apply Hobs|].
  destruct reply as [fd|e]; cbn [map_err].
  2:{ destruct e; cbn [open_error]; try done. apply wp_try_fs. eapply wp_post; [apply wp_verify|]. intros h2 r Hv b E.
      destruct (Hv b E) as [_ [g2 ->]]. apply wp_return. intros found [= <-]. subst. split; [|done].
      extends. }
  apply wp_try_fs. eapply wp_post; [apply wp_append; subst; by do 2 apply chain_known_app|].
  intros h2 r Ha c' E. destruct (Ha c' E) as (Hk & Hn & [g2 ->] & _). clear Ha E r. syscall; [by apply Hobs|].
  destruct reply as [st|]; cbn [map_err]; [|done]. apply wp_bind.
  eapply wp_post; [apply wp_observing; unfold expected_uid; destruct (_ =? _)%nat; walk; done|]. intros h3 user [g3 ->].
  destruct (mode_differs _ _ _); [done|]. apply wp_try_fs.
  eapply wp_post; [apply wp_observing; destruct (_ <=? _)%nat; [apply within_ownership|walk]|]. intros h4 r [g4 ->] b _.
  apply wp_try_fs. eapply wp_post; [apply wp_verify|]. intros h5 r5 Hv d E. destruct (Hv d E) as [_ [g5 ->]]. apply wp_return.
  intros found [= <-]. subst. split; [extends|]. intros ? [= <-].
  split; [by do 4 apply chain_known_app|done].
Qed.

Lemma wp_find_all l c depth h : chain_known h c →
  wp (find_all c depth l) h Pre (succeeds (λ found h', (∃ g, h' = h ++ g) ∧
    ∀ c', found = Some c' → chain_known h' c' ∧ chain_names c' = chain_names c ++ l)).
Proof.
  revert c depth h. induction l as [|nm rest IH]; intros c depth h Hc; cbn [find_all].
  { apply wp_return. intros found [= <-]. split; [exists []; by rewrite app_nil_r|]. intros ? [= <-].
    split; [done|by rewrite app_nil_r]. }
  apply wp_try_fs. eapply wp_post; [by apply wp_existing|]. intros h1 r He found E.
  destruct (He found E) as [[g1 ->] Hf]. destruct found as [c1|]; [|apply wp_return; intros ? [= <-]; split; [extends|done]].
  destruct (Hf c1 eq_refl) as [Hc1 Hn1]. eapply wp_post; [by apply IH|]. intros h2 r2 H2 found2 E2.
  destruct (H2 found2 E2) as [[g2 ->] Hf2]. split; [extends|]. intros c2 Ec. destruct (Hf2 c2 Ec) as [Hc2 Hn2].
  split; [done|]. by rewrite Hn2, Hn1, <-(assoc_L (++)).
Qed.

Definition part_name (part : Component) : string := unwrap_or "" (normal_component part).
(** The names from [/] to the root of the volume. *)
Definition root_names (volume_root : string) : list string := map part_name (tail (components volume_root)).

Lemma wp_open_root parts c h : chain_known h c →
  wp (open_root c parts) h Pre (succeeds (λ c' h', (∃ g, h' = h ++ g) ∧ chain_known h' c' ∧
    chain_names c' = chain_names c ++ map part_name parts)).
Proof.
  revert c h. induction parts as [|part rest IH]; intros c h Hc; cbn [open_root].
  { apply wp_return. intros c' [= <-]. split_and!; [exists []; by rewrite app_nil_r|done|by rewrite app_nil_r]. }
  destruct (has_nul _); [done|]. syscall; [by apply Hobs|].
  destruct reply as [fd|e]; cbn [map_err]; [|by destruct e].
  apply wp_try_fs. eapply wp_post; [apply wp_append; subst; by apply chain_known_app|]. intros h1 r Ha c1 E.
  destruct (Ha c1 E) as (Hc1 & Hn1 & [g1 ->] & _). eapply wp_post; [by apply IH|]. intros h2 r2 H2 c2 E2.
  destruct (H2 c2 E2) as ([g2 ->] & Hc2 & Hn2). subst h0. split_and!; [extends|done|].
  by rewrite Hn2, Hn1, <-(assoc_L (++)).
Qed.

Lemma wp_root_chain volume_root h :
  wp (root_chain volume_root) h Pre (succeeds (λ c h', chain_known h' c ∧ chain_names c = root_names volume_root)).
Proof.
  unfold root_chain. destruct (_ || _); [done|]. destruct (normalized _) as [spelling|]; [|done]. destruct (negb _); [done|].
  syscall; [by apply Hobs|]. destruct reply as [fd|]; cbn [map_err]; [|done].
  syscall; [by apply Hobs|]. destruct reply as [st|]; cbn [map_err]; [|done].
  apply wp_try_fs. eapply wp_post; [by apply wp_open_root|]. intros h3 r Ho c E. destruct (Ho c E) as (_ & Hc & Hn).
  apply wp_try_fs. eapply wp_post; [apply wp_verify|]. intros h4 r2 Hv a E2. destruct (Hv a E2) as [_ [g ->]]. apply wp_return.
  intros c' [= <-]. split; [by apply chain_known_app|done].
Qed.
End Rules.

(** ** Removal *)
Section Remove.
Context (base : list string) (catalog_uid logical_uid ordinal : string).

(** What is removed is below the directory of the instance, that directory
    itself, or the directory of the database or of the catalog; the last two as
    a directory, which has to be empty. *)
Definition removable_path (rest : list string) (nm : string) (removedir : bool) : Prop :=
  (∃ sub, rest ++ [nm] = [catalog_uid; logical_uid; ordinal] ++ sub) ∨
  removedir = true ∧ (rest ++ [nm] = [catalog_uid; logical_uid] ∨ rest ++ [nm] = [catalog_uid]).

(** Just before, the open directories were checked, and the entry had the
    identity with which it was examined. *)
Definition unlink_rule (h : trace Reply) (fd : Fd) (nm : string) (removedir : bool) : Prop :=
  ∃ c h0 st rest, h = h0 ++ [existT (FstatAt fd nm) (Ok st)] ∧ just_verified h0 c ∧ fd = nd_fd (last_node c) ∧
    same_file h0 fd nm (identity_of_stat st) ∧
    chain_names c = base ++ ["volumes"; "cnpg"] ++ rest ∧ removable_path rest nm removedir.

Definition removes (h : trace Reply) (o : Syscall) : Prop :=
  match o with
  | UnlinkAt fd nm removedir => unlink_rule h fd nm removedir
  | o => observes o
  end.

Lemma removes_observes h o : observes o → removes h o.
Proof. by destruct o. Qed.

Lemma wp_unlink c nm id removedir h rest :
  same_file h (nd_fd (last_node c)) nm id → chain_names c = base ++ ["volumes"; "cnpg"] ++ rest →
  removable_path rest nm removedir →
  wp (unlink c nm id removedir) h removes (succeeds (λ _ h', ∃ g, h' = h ++ g)).
Proof.
  intros Hs Hn Hr. unfold unlink. apply wp_try_fs. eapply wp_post; [apply wp_verify, removes_observes|].
  intros h1 r Hv a E. destruct (Hv a E) as [Hver [g1 ->]]. syscall; [done|].
  destruct reply as [st|]; cbn [map_err]; [|done]. case_bool_decide as Hi; cbn [negb]; [|done].
  syscall.
  { exists c, (h ++ g1), st, rest. rewrite Hi. split_and!; try done. by apply same_file_app. }
  destruct reply as [[]|]; cbn [map_err]; [|done]. eapply wp_post; [apply wp_verify, removes_observes|].
  intros h2 r2 Hv2 [] E2. destruct (Hv2 tt E2) as [_ [g2 ->]]. subst. extends.
Qed.

Definition longer {A} (h : trace Reply) : A → trace Reply → Prop := λ _ h', ∃ g, h' = h ++ g.

Lemma wp_for_each body l (P : trace Reply → Prop) h :
  (∀ h g, P h → P (h ++ g)) → (∀ nm h, P h → wp (body nm) h removes (succeeds (longer h))) →
  P h → wp (for_each body l) h removes (succeeds (longer h)).
Proof.
  intros Happ Hbody. revert h. induction l as [|nm rest IH]; intros h HP; cbn [for_each].
  { apply wp_return. intros a _. exists []. by rewrite app_nil_r. }
  apply wp_try_fs. eapply wp_post; [by apply Hbody|]. intros h1 r H1 a E. destruct (H1 a E) as [g1 ->].
  eapply wp_post; [by apply IH, Happ|]. intros h2 r2 H2 b E2. destruct (H2 b E2) as [g2 ->]. extends.
Qed.

Lemma wp_longer {A} (p : fs A) h : within observes p → wp p h removes (succeeds (longer h)).
Proof. intros Hp. eapply wp_post; [apply wp_observing; [apply removes_observes|done]|]. by intros h' r ? a _. Qed.

Definition in_instance (c : Chain) : Prop :=
  ∃ sub, chain_names c = base ++ ["volumes"; "cnpg"] ++ [catalog_uid; logical_uid; ordinal] ++ sub.

Lemma in_instance_push c c' nm : in_instance c → chain_names c' = chain_names c ++ [nm] → in_instance c'.
Proof. intros [sub Hn] E. exists (sub ++ [nm]). rewrite E, Hn. by rewrite <-!(assoc_L (++)). Qed.

Lemma wp_delete_unlink c nm id removedir h :
  in_instance c → same_file h (nd_fd (last_node c)) nm id →
  wp (unlink c nm id removedir) h removes (succeeds (longer h)).
Proof.
  intros [sub Hn] Hs. eapply wp_unlink; [done|exact Hn|]. left. exists (sub ++ [nm]). by rewrite <-!(assoc_L (++)).
Qed.

Lemma wp_delete_entry recur c nm h :
  (∀ c' h', chain_known h' c' → in_instance c' → wp (recur c') h' removes (succeeds (longer h'))) →
  chain_known h c → in_instance c →
  wp (delete_entry_with recur c (nd_fd (last_node c)) nm) h removes (succeeds (longer h)).
Proof.
  intros Hrec Hk Hin. unfold delete_entry_with. syscall; [done|]. destruct reply as [st|]; cbn [map_err]; [|done].
  assert (Hs : ∀ g, same_file (h0 ++ g) (nd_fd (last_node c)) nm (identity_of_stat st)).
  { intros g. apply same_file_app. exists st. split; [subst; apply reply_last|done]. }
  destruct (file_kind st) as [[]|]; [| |done].
  - syscall; [done|]. destruct reply as [child|]; cbn [map_err]; [|done].
    syscall; [done|]. destruct reply as [opened|]; cbn [map_err]; [|done]. case_bool_decide; cbn [negb]; [|done].
    apply wp_try_fs. eapply wp_post; [apply wp_append; [apply removes_observes|]; subst; by do 3 apply chain_known_app|].
    intros h3 r Ha c' E. destruct (Ha c' E) as (Hk' & Hn' & [g3 ->] & _).
    apply wp_try_fs. eapply wp_post; [apply Hrec; [done|by eapply in_instance_push]|]. intros h4 r4 H4 [] E4.
    destruct (H4 tt E4) as [g4 ->]. eapply wp_post; [apply wp_delete_unlink; [done|]|].
    + subst h2 h1. rewrite <-!(assoc_L (++)). apply Hs.
    + intros h5 r5 H5 [] E5. destruct (H5 tt E5) as [g5 ->]. subst. extends.
  - syscall; [done|]. destruct reply as [child|]; cbn [map_err]; [|done].
    syscall; [done|]. destruct reply as [opened|]; cbn [map_err]; [|done]. case_bool_decide; cbn [negb]; [|done].
    eapply wp_post; [apply wp_delete_unlink; [done|]|].
    + subst h2 h1. rewrite <-!(assoc_L (++)). apply Hs.
    + intros h5 r5 H5 [] E5. destruct (H5 tt E5) as [g5 ->]. subst. extends.
Qed.

#[local] Hint Extern 1 (observes _) => exact I : permits.

Lemma within_verify_nodes fd nodes : within observes (verify_nodes fd nodes).
Proof. revert fd. induction nodes as [|n rest IH]; intros fd; cbn [verify_nodes]; unfold stat_entry, directory, open_at, stat_fd; walk. Qed.
#[local] Hint Resolve within_verify_nodes : permits.
Lemma within_verify c : within observes (verify c).
Proof. unfold verify, directory, open_at, stat_fd. walk. Qed.
#[local] Hint Resolve within_verify : permits.
Lemma within_append c nm fd : within observes (append c nm fd).
Proof. unfold append, stat_entry, stat_fd. walk. Qed.
#[local] Hint Resolve within_append : permits.
Lemma within_entries fd : within observes (path_entries fd).
Proof. unfold path_entries, directory, open_at. walk. Qed.
#[local] Hint Resolve within_entries : permits.

Lemma within_for_each body l : (∀ nm, within observes (body nm)) → within observes (for_each body l).
Proof. intros Hb. induction l as [|nm rest IH]; cbn [for_each]; walk; apply Hb. Qed.

Lemma within_check_tree levels c : within observes (descend check_tree_with levels c).
Proof.
  revert c. induction levels as [|levels IH]; intros c; cbn [descend]; [walk|]. unfold check_tree_with. walk.
  apply within_for_each. intros nm. unfold check_entry_with, stat_entry, directory, open_at, stat_fd. walk.
Qed.

Lemma wp_delete_tree levels c h : chain_known h c → in_instance c →
  wp (descend delete_tree_with levels c) h removes (succeeds (longer h)).
Proof.
  revert c h. induction levels as [|levels IH]; intros c h Hk Hin; cbn [descend]; [done|]. unfold delete_tree_with.
  apply wp_try_fs. eapply wp_post; [apply wp_longer, within_verify|]. intros h1 r H1 [] E. destruct (H1 tt E) as [g1 ->].
  apply wp_try_fs. eapply wp_post; [apply wp_longer, within_entries|]. intros h2 r2 H2 found E2. destruct (H2 found E2) as [g2 ->].
  apply wp_try_fs. eapply wp_post.
  - apply (wp_for_each _ _ (λ h, chain_known h c)); [intros; by apply chain_known_app| |by do 2 apply chain_known_app].
    intros nm h' Hk'. by apply wp_delete_entry.
  - intros h3 r3 H3 [] E3. destruct (H3 tt E3) as [g3 ->]. eapply wp_post; [apply wp_longer, within_verify|].
    intros h4 r4 H4 [] E4. destruct (H4 tt E4) as [g4 ->]. extends.
Qed.

Lemma wp_prune_step depth c nodes n rest popped h :
  ch_nodes c = nodes ++ [n] → chain_known h c → map nd_name nodes = base ++ ["volumes"; "cnpg"] ++ rest →
  removable_path rest (nd_name n) true →
  (∀ g, chain_known (h ++ g) {| ch_root := ch_root c; ch_nodes := nodes |} →
     wp (prune (Nat.pred depth) {| ch_root := ch_root c; ch_nodes := nodes |} popped) (h ++ g) removes (λ _ _, True)) →
  wp (prune depth c (n :: popped)) h removes (λ _ _, True).
Proof.
  intros En Hk Hn Hr Hnext. cbn [prune]. rewrite En, removelast_last. set (c' := {| ch_root := ch_root c |}).
  unfold chain_known in Hk. rewrite En in Hk. apply linked_snoc in Hk as [Hk Hs].
  apply wp_bind. eapply wp_post; [apply wp_verify, removes_observes|]. intros h1 [[]|] Hv; [|done].
  destruct (Hv tt eq_refl) as [Hver [g1 ->]]. syscall; [done|]. destruct reply as [st|]; cbn [map_err]; [|done].
  case_bool_decide as Hi; cbn [negb]; [|done]. syscall.
  { exists c', (h ++ g1), st, rest. rewrite Hi. split_and!; try done. by apply same_file_app. }
  destruct reply as [[]|e].
  - apply wp_bind. eapply wp_post; [apply wp_verify, removes_observes|]. intros h3 [[]|] Hv3; [|done].
    destruct (Hv3 tt eq_refl) as [_ [g3 ->]]. subst. rewrite <-!(assoc_L (++)). apply Hnext. by apply linked_app.
  - destruct (_ && _); [|done]. eapply wp_post; [apply wp_verify, removes_observes|]. done.
Qed.

Lemma names_split (nodes : list Node) :
  map nd_name nodes = base ++ ["volumes"; "cnpg"] ++ [catalog_uid; logical_uid; ordinal] →
  ∃ pre a b d, nodes = pre ++ [a; b; d] ∧ map nd_name pre = base ++ ["volumes"; "cnpg"] ∧
    nd_name a = catalog_uid ∧ nd_name b = logical_uid ∧ nd_name d = ordinal.
Proof.
  intros H. rewrite (assoc_L (++)) in H. apply map_eq_app in H as (pre & tl & -> & Hp & Ht).
  destruct tl as [|a [|b [|d [|]]]]; try done. injection Ht as <- <- <-. by exists pre, a, b, d.
Qed.

Lemma wp_prune c h : chain_known h c →
  chain_names c = base ++ ["volumes"; "cnpg"] ++ [catalog_uid; logical_uid; ordinal] →
  wp (prune 5 c (take 3 (reverse (ch_nodes c)))) h removes (λ _ _, True).
Proof.
  intros Hk Hn. destruct c as [root nodes]. unfold chain_names in Hn. cbn [ch_nodes] in *.
  destruct (names_split nodes Hn) as (pre & a & b & d & -> & Hp & Ha & Hb & Hd).
  rewrite reverse_app. cbn [reverse rev_append take app].
  eapply (wp_prune_step _ _ (pre ++ [a; b]) d [catalog_uid; logical_uid]); [cbn; by rewrite <-(assoc_L (++))|done| | |].
  { rewrite map_app, Hp. cbn. rewrite Ha, Hb, <-(assoc_L (++)). done. }
  { left. exists []. by rewrite Hd. }
  intros g1 Hk1. eapply (wp_prune_step _ _ (pre ++ [a]) b [catalog_uid]); [cbn; by rewrite <-(assoc_L (++))|done| | |].
  { rewrite map_app, Hp. cbn. rewrite Ha, <-(assoc_L (++)). done. }
  { right. split; [done|]. left. by rewrite Hb. }
  intros g2 Hk2. eapply (wp_prune_step _ _ pre a []); [done|done| | |].
  { by rewrite app_nil_r. }
  { right. split; [done|]. right. by rewrite Ha. }
  intros g3 Hk3. done.
Qed.
End Remove.

Lemma names_Ok catalog_uid logical_uid ordinal parts : names catalog_uid logical_uid ordinal = Ok parts →
  parts = ["volumes"; "cnpg"; catalog_uid; logical_uid; int_to_string ordinal] ∧ 1 ≤ ordinal ≤ 3.
Proof.
  unfold names, path_uid. destruct (_ || _); [done|]. cbn. destruct (_ || _); [done|]. cbn.
  destruct (negb _) eqn:Ho; [done|]. intros [= <-]. split; [done|]. apply negb_false_iff in Ho. lia.
Qed.

Lemma wp_path_remove root catalog_uid logical_uid ordinal h :
  wp (path_remove root catalog_uid logical_uid ordinal) h
    (removes (root_names root) catalog_uid logical_uid (int_to_string ordinal)) (λ _ _, True).
Proof.
  unfold path_remove. destruct (names _ _ _) as [parts|] eqn:Hparts; [|done]. apply names_Ok in Hparts as [-> _].
  cbn [take drop]. set (Pre := removes _ _ _ _). assert (Hobs : ∀ h o, observes o → Pre h o) by apply removes_observes.
  apply wp_bind. eapply wp_post; [by apply wp_root_chain|]. intros h1 [c1|] H1; [|done]. destruct (H1 c1 eq_refl) as [Hk1 Hn1].
  apply wp_bind. eapply wp_post; [by apply wp_find_all|]. intros h2 [[c2|]|] H2; [|done..].
  destruct (H2 _ eq_refl) as [_ Hf2]. destruct (Hf2 c2 eq_refl) as [Hk2 Hn2].
  apply wp_bind. eapply wp_post; [by apply wp_find_all|]. intros h3 [[c3|]|] H3; [|done..].
  destruct (H3 _ eq_refl) as [_ Hf3]. destruct (Hf3 c3 eq_refl) as [Hk3 Hn3].
  assert (Hn : chain_names c3 = root_names root ++ ["volumes"; "cnpg"] ++ [catalog_uid; logical_uid; int_to_string ordinal]).
  { by rewrite Hn3, Hn2, Hn1, <-!(assoc_L (++)). }
  apply wp_bind. eapply wp_post; [apply wp_longer, within_check_tree|]. intros h4 [[]|] H4; [|done].
  destruct (H4 tt eq_refl) as [g4 ->].
  apply wp_bind. eapply wp_post; [apply wp_delete_tree; [by apply chain_known_app|by exists []]|]. intros h5 [[]|] H5; [|done].
  destruct (H5 tt eq_refl) as [g5 ->]. apply wp_prune; [by do 2 apply chain_known_app|done].
Qed.

(** C20. Whatever the file system answers, removing the directory of a database
    instance changes the file system only by [unlinkat] on an entry below
    [<root>/volumes/cnpg/<catalog>/<database>/<ordinal>], on that directory, or
    on the directory of the database or of the catalog as an empty directory.
    Just before, the calls lead from [/] along these names to the open
    directory, each name a directory with the identity that is held open and no
    link followed, and the entry itself has the device and inode with which it
    was examined. *)
Theorem path_remove_confined env root catalog_uid logical_uid ordinal :
  let '(h, r) := run env (path_remove root catalog_uid logical_uid ordinal) [] in
  issued (removes (root_names root) catalog_uid logical_uid (int_to_string ordinal)) [] h.
Proof.
  pose proof (wp_run env _ _ _ _ (wp_path_remove root catalog_uid logical_uid ordinal [])) as H.
  destruct (run _ _ _). apply H.
Qed.

(** ** Creation *)
Section Prepare.
Context (base parts : list string).

(** The directory was made by this operation. *)
Definition made_here (h : trace Reply) (fd : Fd) (depth : nat) : Prop :=
  ∃ parent nm, parts !! depth = Some nm ∧ answered h (MkdirAt parent nm (mode_at depth)) (Ok tt) ∧
    answered h (OpenAt parent nm OpenDirectory) (Ok fd).

Definition prepares (h : trace Reply) (o : Syscall) : Prop :=
  match o with
  | MkdirAt fd nm mode => ∃ c depth, just_verified h c ∧ fd = nd_fd (last_node c) ∧ parts !! depth = Some nm ∧
      chain_names c = base ++ take depth parts ∧ mode = mode_at depth
  | Fchmod fd mode => ∃ depth, made_here h fd depth ∧ mode = mode_at depth
  | SetXattr fd attr value => attr = ATTRIBUTE ∧ ∃ depth, made_here h fd depth ∧ (2 ≤ depth)%nat
  | Fchown fd user group => user = POSTGRES_UID ∧ group = POSTGRES_GID ∧ made_here h fd 4
  | UnlinkAt _ _ _ => False
  | _ => True
  end.

Lemma prepares_observes h o : observes o → prepares h o.
Proof. by destruct o. Qed.
Lemma made_here_app h g fd depth : made_here h fd depth → made_here (h ++ g) fd depth.
Proof. intros (p & nm & ? & ? & ?). exists p, nm. split_and!; [done|by apply answered_app..]. Qed.

Lemma wp_prepared_ownership n (created : bool) depth h :
  (2 ≤ depth)%nat → (created = true → made_here h (nd_fd n) depth) →
  wp (ownership n created) h prepares (λ h' _, ∃ g, h' = h ++ g).
Proof.
  intros Hd Hm. unfold ownership. destruct created; [|apply wp_observing; [apply prepares_observes|apply within_ownership]].
  syscall; [split; [done|]; exists depth; split; [by apply Hm|done]|]. destruct reply as [[]|]; cbn [map_err];
    [|apply wp_return; subst; extends].
  syscall; [done|]. destruct reply as [stored|]; cbn [map_err]; [case_bool_decide; cbn [negb]|];
    apply wp_return; subst; extends.
Qed.

Lemma wp_finish_mkdir c depth created h :
  (created = true → made_here h (nd_fd (last_node c)) depth) →
  wp (finish_mkdir c depth created) h prepares (succeeds (λ c' h', c' = c ∧ ∃ g, h' = h ++ g)).
Proof.
  intros Hm. unfold finish_mkdir. syscall; [done|]. destruct reply as [st|]; cbn [map_err]; [|done]. apply wp_bind.
  eapply wp_post; [apply wp_observing; [apply prepares_observes|unfold expected_uid; destruct (_ =? _)%nat; walk; done]|].
  intros h1 user [g1 ->]. destruct (_ && _); [done|]. apply wp_try_fs.
  apply (wp_post _ _ _ (λ h' _, ∃ g, h' = (h0 ++ g1) ++ g)).
  { destruct created; [|apply wp_return; exists []; by rewrite app_nil_r]. unfold perform_map. request.
    - exists depth. split; [subst; by do 2 apply made_here_app; apply Hm|done].
    - apply wp_return. subst. by eexists. }
  intros h2 r2 [g2 ->] [] _. apply wp_try_fs.
  eapply (wp_post _ _ _ (λ h' _, ∃ g, h' = ((h0 ++ g1) ++ g2) ++ g)).
  { destruct (2 <=? depth)%nat eqn:Hd; [|apply wp_return; exists []; by rewrite app_nil_r]. apply Nat.leb_le in Hd.
    apply (wp_prepared_ownership _ _ depth); [done|]. intros E. subst. by do 3 apply made_here_app; apply Hm. }
  intros h3 r3 [g3 ->] [] _. apply wp_try_fs.
  eapply (wp_post _ _ _ (λ h' _, ∃ g, h' = (((h0 ++ g1) ++ g2) ++ g3) ++ g)).
  { destruct (created && _) eqn:Hd; [|apply wp_return; exists []; by rewrite app_nil_r].
    apply andb_true_iff in Hd as [-> ->%Nat.eqb_eq]. unfold perform_map. request.
    - split_and!; [done|done|]. subst. by do 4 apply made_here_app; apply Hm.
    - apply wp_return. subst. by eexists. }
  intros h4 r4 [g4 ->] [] _. syscall; [done|]. destruct reply as [st'|]; cbn [map_err]; [|done].
  destruct (mode_differs _ _ _); [done|]. apply wp_try_fs. eapply wp_post; [apply wp_verify, prepares_observes|].
  intros h5 r5 Hv [] E. destruct (Hv tt E) as [_ [g5 ->]]. apply wp_return. intros c' [= <-]. split; [done|]. subst. extends.
Qed.

Lemma wp_mkdir c nm depth h :
  chain_known h c → parts !! depth = Some nm → chain_names c = base ++ take depth parts →
  wp (mkdir c nm depth) h prepares
    (succeeds (λ c' h', chain_known h' c' ∧ chain_names c' = base ++ take (S depth) parts)).
Proof.
  intros Hk Hp Hn. unfold mkdir. apply wp_try_fs. eapply wp_post; [apply wp_verify, prepares_observes|].
  intros h1 r Hv [] E. destruct (Hv tt E) as [Hver [g1 ->]].
  syscall; [by exists c, depth|].
  destruct (match reply with Ok _ => Ok true | Err EEXIST => Ok false | Err e => Err (PathIo e) end) as [created|] eqn:Hcr; [|done].
  syscall; [done|]. destruct reply0 as [fd|]; cbn [map_err]; [|done].
  apply wp_try_fs. eapply wp_post; [apply wp_append; [apply prepares_observes|]; subst; by do 3 apply chain_known_app|].
  intros h3 r3 Ha c' E3. destruct (Ha c' E3) as (Hk' & Hn' & [g3 ->] & n & Ec & Hfd).
  eapply wp_post; [apply (wp_finish_mkdir c' depth created)|].
  - intros ->. destruct reply as [[]|[]]; try done. rewrite Ec, last_push, Hfd. exists (nd_fd (last_node c)), nm.
    subst. split_and!; [done|do 2 apply answered_app; apply reply_last|apply answered_app, reply_last].
  - intros h4 r4 H4 c4 E4. destruct (H4 c4 E4) as [-> [g4 ->]]. split; [by apply chain_known_app|].
    by rewrite Hn', Hn, (take_S_r _ _ nm Hp), (assoc_L (++)).
Qed.

Lemma wp_make_all l c depth h :
  chain_known h c → drop depth parts = l → chain_names c = base ++ take depth parts →
  wp (make_all c depth l) h prepares (succeeds (λ c' h', chain_known h' c' ∧ chain_names c' = base ++ parts)).
Proof.
  revert c depth h. induction l as [|nm rest IH]; intros c depth h Hk Hd Hn; cbn [make_all].
  { apply wp_return. intros c' [= <-]. split; [done|]. rewrite Hn, take_ge; [done|].
    apply (f_equal length) in Hd. rewrite length_drop in Hd. cbn in Hd. lia. }
  assert (Hp : parts !! depth = Some nm).
  { rewrite <-(Nat.add_0_r depth), <-lookup_drop, Hd. done. }
  apply wp_try_fs. eapply wp_post; [by apply wp_mkdir|]. intros h1 r H1 c1 E. destruct (H1 c1 E) as [Hk1 Hn1].
  apply IH; [done| |done]. by rewrite <-Nat.add_1_r, <-drop_drop, Hd.
Qed.
End Prepare.

Lemma wp_path_prepare root catalog_uid logical_uid ordinal h :
  wp (path_prepare root catalog_uid logical_uid ordinal) h
    (prepares (root_names root) ["volumes"; "cnpg"; catalog_uid; logical_uid; int_to_string ordinal]) (λ _ _, True).
Proof.
  unfold path_prepare. destruct (names _ _ _) as [parts|] eqn:Hparts; [|done]. apply names_Ok in Hparts as [-> _].
  set (parts := ["volumes"; _; _; _; _]).
  apply wp_bind. eapply wp_post; [apply wp_root_chain, prepares_observes|]. intros h1 [c1|] H1; [|done].
  destruct (H1 c1 eq_refl) as [Hk1 Hn1]. apply wp_bind.
  eapply wp_post; [apply wp_make_all; [done|done|by rewrite app_nil_r]|]. by intros h2 [c2|] _.
Qed.

Lemma within_existing c nm depth : within observes (existing c nm depth).
Proof.
  unfold existing, directory, open_at, stat_fd, expected_uid, ownership. walk; try exact I; try apply within_verify; try apply within_append.
Qed.
Lemma within_find_all l c depth : within observes (find_all c depth l).
Proof.
  revert c depth. induction l as [|nm rest IH]; intros c depth; cbn [find_all]; walk; first [apply within_existing|apply IH].
Qed.
Lemma within_open_root parts c : within observes (open_root c parts).
Proof.
  revert c. induction parts as [|part rest IH]; intros c; cbn [open_root]; unfold directory, open_at; walk;
    first [exact I|apply within_append|apply IH].
Qed.
Lemma within_root_chain root : within observes (root_chain root).
Proof. unfold root_chain, directory, open_at, stat_fd. walk; first [exact I|apply within_open_root|apply within_verify]. Qed.

(** C21. Whatever the file system answers, preparing the directory of a database
    instance makes only directories of the path
    [<root>/volumes/cnpg/<catalog>/<database>/<ordinal>], each below an open
    directory that was just checked to be the one the path leads to; it changes
    the mode, the stamp and the owner only of directories that it made itself,
    and gives only the last one to PostgreSQL.  Nothing is removed.  Inspecting
    an instance, and checking that an entry is absent, changes nothing. *)
Theorem path_prepare_confined env root catalog_uid logical_uid ordinal :
  (let '(h, r) := run env (path_prepare root catalog_uid logical_uid ordinal) [] in
   issued (prepares (root_names root) ["volumes"; "cnpg"; catalog_uid; logical_uid; int_to_string ordinal]) [] h) ∧
  (let '(h, r) := run env (path_inspect root catalog_uid logical_uid ordinal) [] in issued (λ _, observes) [] h) ∧
  (let '(h, r) := run env (path_entry_absent root catalog_uid logical_uid) [] in issued (λ _, observes) [] h).
Proof.
  split_and!.
  - pose proof (wp_run env _ _ _ _ (wp_path_prepare root catalog_uid logical_uid ordinal [])) as H. destruct (run _ _ _). apply H.
  - assert (H : within observes (path_inspect root catalog_uid logical_uid ordinal)).
    { unfold path_inspect. walk; first [apply within_root_chain|apply within_find_all]. }
    pose proof (wp_run env _ _ _ _ (H [])) as Hr. destruct (run _ _ _). apply Hr.
  - assert (H : within observes (path_entry_absent root catalog_uid logical_uid)).
    { unfold path_entry_absent. walk; first [apply within_root_chain|apply within_find_all]. }
    pose proof (wp_run env _ _ _ _ (H [])) as Hr. destruct (run _ _ _). apply Hr.
Qed.
